(* ===== verification/_CoqProject ===== *)
-Q . S2P
Prelude.v
Digest.v
Types.v
Intents.v
Validation.v
Quorums.v
Commands.v
Observations.v
ScaleDown.v
ScaleUp.v
SnapshotValidation.v
StatusFacts.v
Totality.v
EvaluatorBase.v
EvaluatorSwitchover.v
EvaluatorFailover.v
EvaluatorScaleDown.v
EvaluatorReplacement.v
EvaluatorBootstrap.v
EvaluatorExpansion.v
EvaluatorCandidate.v
EvaluatorAdmission.v
Evaluator.v
PlanSafety.v
SwitchoverSafety.v
FailoverSafety.v
FailoverElection.v
ScaleDownSafety.v
ExpansionSafety.v
EvaluatorSafety.v
PartsTotality.v
EvaluatorTotality.v
EvaluatorExamples.v
ManagedConfiguration.v
Quorum.v
QuorumSafety.v
Log.v
LogAnswers.v
Authority.v
AuthorityStore.v
Engine.v
EngineWrites.v
EngineConfiguration.v
EngineRemoval.v
EngineReplication.v
LogApplication.v
EngineCopy.v
EngineSteps.v
EngineRuns.v
CopySafety.v
CopyLiveness.v
CopyTarget.v
CopyEndToEnd.v
Effects.v
AgentState.v
AgentAdmission.v
AgentStore.v
AgentRuns.v
Coordinator.v
CoordinatorRuns.v
AgentExamples.v
