(* ===== verification/Prelude.v ===== *)
(** * Kuberic, a replicated stateful service on Kubernetes: verification

    ** The program

    Kuberic runs a stateful service as a small set of replicas, one of which is the
    primary.  [kuberic-runtime] is the agent beside each replica: the replication engine
    ([runtime.rs], [replicator/]), the durable authority it acts under ([authority.rs],
    [host/sqlite_store.rs]), the coordinator that runs the controller's commands as journaled
    effects ([host/coordinator.rs], [effects.rs]), and the protocol it shares with the
    controller ([protocol/]).
    [kuberic-controller] observes the cluster and decides, from one snapshot at a time, the
    next safe plan ([evaluator.rs], [evaluator/], [plan.rs]): a Kubernetes change, a command
    to one agent, or a reason to wait.  Commands and statuses carry frozen evidence; both
    sides validate it with the same fail-closed checks ([protocol/validation.rs]).  An
    admitted authority is what the engine commits client writes under.

    ** The files

    Shared: [Prelude] (this file: results that may be errors or panics, the state and error
    monad with its notations, integers at their width, record update, tactics and hints).

    The protocol: [Digest] (canonical byte encodings and SHA-256 identifiers), [Types]
    (identities, configurations, policies), [Intents] (frozen intents, evidence, receipts and
    derived operation ids), [Commands], [Observations] (accepted status, reports, snapshots),
    all of [protocol/types.rs], [command.rs], [observation.rs]; [Validation], [ScaleDown],
    [ScaleUp] and [SnapshotValidation] are [protocol/validation.rs] and its two submodules;
    [Quorums] and [StatusFacts] say what a successful validation gives.

    The controller: [EvaluatorBase] (plans and shared helpers), [EvaluatorSwitchover],
    [EvaluatorFailover], [EvaluatorScaleDown], [EvaluatorReplacement], [EvaluatorBootstrap],
    [EvaluatorExpansion], [EvaluatorCandidate] and [EvaluatorAdmission] (the scale-up), and
    [Evaluator] (the admission of a snapshot and the dispatch) are [evaluator.rs] and
    [evaluator/], one definition per function, long functions split into the blocks they are
    written in.  [PlanSafety] states what every plan promises; [SwitchoverSafety],
    [FailoverSafety], [ScaleDownSafety] and [ExpansionSafety] prove it of each part,
    [EvaluatorSafety] of the whole, [FailoverElection] treats the choice of the new primary;
    [Totality], [PartsTotality] and [EvaluatorTotality] prove that nothing panics; and
    [EvaluatorExamples] runs the evaluator on a cluster of three.

    The replicas: [ManagedConfiguration] ([replicator/configuration.rs] and the wire types),
    [Quorum] ([replicator/quorum.rs]), [Log] ([replicator/log.rs], [queue.rs]), [Authority]
    ([authority.rs]), [AuthorityStore] (the authority, progress, journal and build tables of
    [host/sqlite_store.rs]), [Engine], [EngineConfiguration], [EngineRemoval],
    [EngineReplication] and [EngineCopy] ([runtime.rs], [replicator/copy.rs]).
    [QuorumSafety], [LogAnswers] and [EngineWrites] have their lemmas; [EngineSteps] is the
    whole engine as a step relation with crashes and restarts, [EngineRuns] a concrete run;
    [CopySafety], [CopyLiveness], [CopyTarget] and [CopyEndToEnd] treat the build of a
    replica between two engines and a network; [LogApplication] is a concrete application.

    The agents: [Effects] ([effects.rs], [receipts.rs]: durable effects and which outcome answers
    which effect), [AgentState] ([host/state.rs]), [AgentAdmission] ([host/command.rs],
    [host/removal.rs]: which command the durable state admits), [AgentStore] (the transactions of
    [AgentStore] in [host/sqlite_store.rs]), [Coordinator] ([host/runtime_adapter.rs],
    [host/coordinator.rs]).  [AgentRuns] is the store as a step relation over all its
    transactions in any order, [CoordinatorRuns] shows that the coordinator's commands are such
    runs and treats the stages of a configuration, and [AgentExamples] runs agents on commands
    that the evaluator writes.

    ** How the code is translated

    A function that can fail returns [res E A]: [Ok], [Err] or [Panic] (an [expect] on an
    absent value, an out-of-range index).  A method that changes its object is a function of
    the state type ([M S E A]), and keeps what it had changed before an early return.  An
    operation of the engine runs under the engine's locks; where the source releases them and
    waits, the operation is split at that point and the parts are steps of their own, so that
    others interleave.  [i64], [u64] and [u32] values are [Z] with the wrap, the check or the
    saturation of the source written out.  [BTreeMap]s are [gmap]s whose keys are visited in
    increasing order; string newtypes are strings.

    Code that is not part of the sources is a parameter: SHA-256 (class [Sha256], assumed
    only to return 32 bytes: identifiers determine their contents up to an exhibited
    collision), the rendering of errors as text (class [Texts], nothing assumed), the
    replicated application (class [DurableApplication], with its documented contract in
    [ApplicationLaws], which [LogApplication] meets).  The runtime that applies an agent's
    effects is behind the source's own interface, the class [RuntimeEffectExecutor]; all that is
    assumed of it is that it reaches the database through the authority store
    ([ExecutorUsesTables]), which a concrete runtime of [AgentExamples] meets.

    ** What is proved

    - Validation: [validate_configuration] and [validate_transition_relationship] accept
      exactly what their declarative descriptions say; a validated scale-up or scale-down
      changes one member; quorums of one configuration, and of the two of a transition,
      intersect; the elections and receipts that validation accepts cover what they claim.
    - Identifiers: a configuration id or a command id determines what was hashed.
    - The evaluator, for every snapshot whatsoever: the accepted topology is only replaced by
      the newer configuration under way once a write quorum of its members reports nothing
      else; routing is only published to the attested primary; unsafe plans close the
      routing; volumes go last and by their frozen uid; a failover elects a most advanced
      candidate under read quorums; accepted epochs never regress along any run; and it
      returns a plan, it never panics.
    - The quorum tracker, the log and the engine, over every run with errors, aborts, crashes
      and restarts: answered writes are quorum durable, stay committed and are not repeated;
      superseded sessions are fenced; the journal and the engine agree on unresolved writes.
    - The durable store: what it recorded is never forgotten, rows stay valid, superseded
      builds are dead.
    - The agents: an admitted configuration is sound; a removal effect runs once; a retired
      incarnation never serves again; every command of the coordinator is a run of the store,
      restarts included; a configuration command ends, leaves a stage only with its effect on
      record, and opens access only after the stages that make it safe.
    - The build of a replica: the copy stream carries the history in order, its producer
      terminates and completes when undisturbed, its backlog is bounded, and a build reported
      ready means that the target holds the history.

    The theorems about [evaluate] assume [countable_status]: the member lists of the
    configurations a status names have fewer than 2^32 elements, so that the source's casts of
    lengths to [u32] are exact; [evaluate_never_panics] assumes the same of the reports
    ([countable_reports]) and a desired size that is not negative.  Two definitions have fuel.  [closes_boundary] of [EngineCopy]: each
    pass takes one of the available LSNs away, so their number is enough
    ([closes_boundary_spec]).  [drive_loop] of [Coordinator]: each turn moves to a later stage of
    the command, so one turn for each of the twelve stages is enough
    ([configuration_command_ends]).  Every other loop is structural.

    ** What is not modelled

    - Conversions to and from the generated protobuf types ([control/]) and the Kubernetes
      API ([cluster_api.rs], [executor.rs], [normalize.rs], [crd.rs]): their types come from
      generated code and from external crates.
    - The async hosting of a service in an agent ([host/hosting.rs], [service.rs],
      [process.rs], [transport.rs], ...): task and socket plumbing around the modelled
      operations.  Their interleavings are covered where the operations meet the engine and
      the store.  A command of the coordinator is modelled as it runs under the command lock;
      what other tasks do to the store in the meantime is covered by the runs of [AgentRuns].
    - Opening, creating and migrating the agent's database, and the preview records in it.
    - The preview of public operations ([evaluator/faults.rs], [public_lifecycle.rs]): compiled
      only with the test bridge; the modelled build is the default one.
    - The workflow engine [kuberic-dex] and the example services under [examples/]. *)

From stdpp Require Import base gmap strings list sorting pretty.
From Stdlib Require Import ZArith Lia.
From Stdlib Require Import Strings.Byte.

Declare Scope kuberic_scope.
Delimit Scope kuberic_scope with kuberic.
Open Scope kuberic_scope.
Open Scope Z_scope.

(** ** Rust's [==] and [!=] on values whose type derives [PartialEq]. *)

Notation "x == y" := (bool_decide (x = y)) (at level 70, no associativity) : kuberic_scope.
Notation "x != y" := (negb (bool_decide (x = y))) (at level 70, no associativity) : kuberic_scope.

(** ** Results

    [Result<A, E>] together with the third way a Rust call can end: a panic
    ([expect], [unwrap] on the absent case, slicing out of range). *)

Inductive res (E A : Type) : Type :=
| Ok (a : A)
| Err (e : E)
| Panic.
Arguments Ok {E A} a.
Arguments Err {E A} e.
Arguments Panic {E A}.

#[export] Instance res_eq_dec `{EqDecision E, EqDecision A} : EqDecision (res E A).
Proof. solve_decision. Defined.

Definition res_bind {E A B} (m : res E A) (k : A -> res E B) : res E B :=
  match m with
  | Ok a => k a
  | Err e => Err e
  | Panic => Panic
  end.

Definition map_err {E F A} (f : E -> F) (m : res E A) : res F A :=
  match m with
  | Ok a => Ok a
  | Err e => Err (f e)
  | Panic => Panic
  end.

Definition is_ok {E A} (m : res E A) : bool :=
  match m with Ok _ => true | _ => false end.

(** [if b { return Err(e) }] *)
Definition reject {E} (b : bool) (e : E) : res E unit :=
  if b then Err e else Ok tt.

(** [o.ok_or(e)?] *)
Definition ok_or {E A} (o : option A) (e : E) : res E A :=
  match o with Some a => Ok a | None => Err e end.

(** [o.expect("...")] *)
Definition expect {E A} (o : option A) : res E A :=
  match o with Some a => Ok a | None => Panic end.

Notation "'let?' x := m 'in' k" := (res_bind m (fun x => k))
  (at level 10, x binder, m at level 100, k at level 200) : kuberic_scope.
Notation "m ;? k" := (res_bind m (fun _ => k))
  (at level 100, k at level 200, right associativity) : kuberic_scope.

(** [for x in xs { f(x)?; }] *)
Fixpoint for_each {E A} (f : A -> res E unit) (xs : list A) : res E unit :=
  match xs with
  | [] => Ok tt
  | x :: xs => f x ;? for_each f xs
  end.

(** A loop that threads an accumulator, as the ones that fill a [BTreeSet]. *)
Fixpoint try_fold {E A S} (f : S -> A -> res E S) (s : S) (xs : list A) : res E S :=
  match xs with
  | [] => Ok s
  | x :: xs => let? s' := f s x in try_fold f s' xs
  end.

(** ** Options *)

Definition is_some {A} (o : option A) : bool :=
  match o with Some _ => true | None => false end.
Definition is_none {A} (o : option A) : bool :=
  match o with Some _ => false | None => true end.
Definition is_some_and {A} (f : A -> bool) (o : option A) : bool :=
  match o with Some a => f a | None => false end.
Definition is_none_or {A} (f : A -> bool) (o : option A) : bool :=
  match o with Some a => f a | None => true end.
Definition or_else {A} (o : option A) (d : option A) : option A :=
  match o with Some _ => o | None => d end.
(** [b.then_some(x)] *)
Definition then_some {A} (b : bool) (x : A) : option A :=
  if b then Some x else None.
Definition opt_filter {A} (f : A -> bool) (o : option A) : option A :=
  match o with Some a => if f a then Some a else None | None => None end.

(** ** Stateful operations

    A method on [&mut self] that returns [Result<A, E>]: it yields the final
    state on every path, because Rust keeps the mutations made before an
    early [return Err(..)]. *)

Definition M (S E A : Type) : Type := S -> S * res E A.

Definition m_ret {S E A} (a : A) : M S E A := fun s => (s, Ok a).
Definition m_err {S E A} (e : E) : M S E A := fun s => (s, Err e).
Definition m_bind {S E A B} (m : M S E A) (k : A -> M S E B) : M S E B :=
  fun s => match m s with
           | (s', Ok a) => k a s'
           | (s', Err e) => (s', Err e)
           | (s', Panic) => (s', Panic)
           end.
Definition m_lift {S E A} (r : res E A) : M S E A := fun s => (s, r).
Definition m_get {S E} : M S E S := fun s => (s, Ok s).
Definition m_modify {S E} (f : S -> S) : M S E unit := fun s => (f s, Ok tt).

(** Run an operation of a component on the part of the state that holds it. *)
Definition m_zoom {S T E A} (get : S -> T) (set : T -> S -> S) (m : M T E A) : M S E A :=
  fun s => let '(t, r) := m (get s) in (set t s, r).

(** [for x in xs { f(x)?; }] in such a method *)
Fixpoint m_for_each {S E A} (f : A -> M S E unit) (xs : list A) : M S E unit :=
  match xs with
  | [] => m_ret tt
  | x :: xs => m_bind (f x) (fun _ => m_for_each f xs)
  end.

Notation "'let!' x := m 'in' k" := (m_bind m (fun x => k))
  (at level 10, x binder, m at level 100, k at level 200) : kuberic_scope.
Notation "m ;! k" := (m_bind m (fun _ => k))
  (at level 100, k at level 200, right associativity) : kuberic_scope.

Lemma m_bind_ok {S E A B} (m : M S E A) (k : A -> M S E B) s s' a :
  m s = (s', Ok a) -> m_bind m k s = k a s'.
Proof. unfold m_bind. by intros ->. Qed.

Lemma m_bind_err {S E A B} (m : M S E A) (k : A -> M S E B) s s' e :
  m s = (s', Err e) -> m_bind m k s = (s', Err e).
Proof. unfold m_bind. by intros ->. Qed.

Lemma m_zoom_eq {S T E A} (get : S -> T) (set : T -> S -> S) (m : M T E A) s t r :
  m (get s) = (t, r) -> m_zoom get set m s = (set t s, r).
Proof. unfold m_zoom. by intros ->. Qed.

Lemma m_bind_ok_inv {S E A B} (m : M S E A) (k : A -> M S E B) s s' b :
  m_bind m k s = (s', Ok b) -> exists s1 a, m s = (s1, Ok a) /\ k a s1 = (s', Ok b).
Proof. unfold m_bind. destruct (m s) as [s1 [a|e|]]; [eauto|discriminate..]. Qed.

Lemma m_lift_ok_inv {S E A} (r : res E A) (s s' : S) a :
  m_lift r s = (s', Ok a) -> s' = s /\ r = Ok a.
Proof. unfold m_lift. by intros [= <- ->]. Qed.

Lemma m_zoom_inv {S T E A} (get : S -> T) (set : T -> S -> S) (m : M T E A) s s' r :
  m_zoom get set m s = (s', r) -> exists t, m (get s) = (t, r) /\ s' = set t s.
Proof. unfold m_zoom. destruct (m (get s)) as [t r']. intros [= <- <-]. eauto. Qed.

(** Run the first operation of a chain, whose result [tac] computes. *)
Ltac m_run tac := erewrite m_bind_ok by tac; cbv beta.

(** *** How an operation changes the state

    [evolves R m]: whatever the outcome, the final state is [R]-related to the
    initial one.  With a preorder [R] this composes along [m_bind]; invariants
    are the case [R s s' := P s -> P s']. *)

Definition evolves {S E A} (R : S -> S -> Prop) (m : M S E A) : Prop :=
  forall s, R s (fst (m s)).

Definition keeps {S} (P : S -> Prop) (s s' : S) : Prop := P s -> P s'.
#[export] Instance keeps_preorder {S} (P : S -> Prop) : PreOrder (keeps P).
Proof. split; unfold keeps; intros ?; auto. Qed.

(** Where a chain ends: after its first operation if that fails, or after the
    rest, which starts from where the first one succeeded. *)
Lemma m_bind_ends {S E A B} (P : S -> Prop) (m : M S E A) (k : A -> M S E B) s :
  (forall s' r, m s = (s', r) -> (forall a, r <> Ok a) -> P s') ->
  (forall s' a, m s = (s', Ok a) -> P (fst (k a s'))) ->
  P (fst (m_bind m k s)).
Proof.
  unfold m_bind. destruct (m s) as [s' [a|e|]]; simpl; [eauto|..]; intros Herr _;
    (eapply Herr; [reflexivity|done]).
Qed.

Create HintDb evolves.

Section evolves.
Context {S E : Type} (R : S -> S -> Prop) `{!PreOrder R}.

Lemma evolves_ret {A} (a : A) : evolves (E := E) R (m_ret a).
Proof. intros s. reflexivity. Qed.
Lemma evolves_err {A} (e : E) : evolves (A := A) R (m_err e).
Proof. intros s. reflexivity. Qed.
Lemma evolves_lift {A} (r : res E A) : evolves R (m_lift r).
Proof. intros s. reflexivity. Qed.
Lemma evolves_get : evolves (E := E) R m_get.
Proof. intros s. reflexivity. Qed.
Lemma evolves_modify f : (forall s, R s (f s)) -> evolves (E := E) R (m_modify f).
Proof. intros Hf s. apply Hf. Qed.
Lemma evolves_bind {A B} (m : M S E A) (k : A -> M S E B) :
  evolves R m -> (forall a, evolves R (k a)) -> evolves R (m_bind m k).
Proof.
  intros Hm Hk s. unfold m_bind. specialize (Hm s).
  destruct (m s) as [s' [a|e|]]; simpl in *; [|done..]. etrans; [exact Hm|apply Hk].
Qed.
(** Reading the state gives the state the rest starts from. *)
Lemma evolves_get_bind {B} (k : S -> M S E B) :
  (forall s, R s (fst (k s s))) -> evolves R (m_bind m_get k).
Proof. intros Hk s. apply Hk. Qed.
Lemma evolves_if {A} (b : bool) (m m' : M S E A) :
  (b = true -> evolves R m) -> (b = false -> evolves R m') -> evolves R (if b then m else m').
Proof. destruct b; auto. Qed.
Lemma evolves_for_each {A} (f : A -> M S E unit) xs :
  (forall x, evolves R (f x)) -> evolves R (m_for_each f xs).
Proof.
  intros Hf. induction xs as [|x xs IH]; simpl; [apply evolves_ret|]. by apply evolves_bind.
Qed.

End evolves.

#[export] Hint Resolve evolves_ret evolves_err evolves_lift evolves_get evolves_modify
  evolves_bind evolves_if evolves_for_each : evolves.

(** Go through the binds and branches of an operation. *)
Ltac evolve :=
  repeat match goal with
  | |- evolves _ (m_bind _ _) => apply evolves_bind; [apply _| |intros ?]
  | |- evolves _ (if _ then _ else _) => apply evolves_if; intros ?
  end;
  auto with evolves typeclass_instances.

(** *** Operations that do not panic *)

Definition calm {S E A} (m : M S E A) : Prop := forall s, snd (m s) <> Panic.

Create HintDb calm.

Section calm.
Context {S E : Type}.

Lemma calm_ret {A} (a : A) : calm (S := S) (E := E) (m_ret a).
Proof. done. Qed.
Lemma calm_err {A} (e : E) : calm (S := S) (A := A) (m_err e).
Proof. done. Qed.
Lemma calm_lift {A} (r : res E A) : r <> Panic -> calm (S := S) (m_lift r).
Proof. by intros Hr s. Qed.
Lemma calm_get : calm (S := S) (E := E) m_get.
Proof. done. Qed.
Lemma calm_modify f : calm (S := S) (E := E) (m_modify f).
Proof. done. Qed.
Lemma calm_bind {A B} (m : M S E A) (k : A -> M S E B) :
  calm m -> (forall a, calm (k a)) -> calm (m_bind m k).
Proof.
  intros Hm Hk s. unfold m_bind. specialize (Hm s). destruct (m s) as [s' [a|e|]]; [apply Hk|done..].
Qed.
Lemma calm_if {A} (b : bool) (m m' : M S E A) :
  (b = true -> calm m) -> (b = false -> calm m') -> calm (if b then m else m').
Proof. destruct b; auto. Qed.

End calm.

#[export] Hint Resolve calm_ret calm_err calm_lift calm_get calm_modify calm_bind calm_if : calm.

(** ** Record update

    [r <| f := v |>] is [r] with field [f] replaced.  A record type declares
    its eta expansion once, as an instance of [Fields]; the updated record is
    then computed by abstracting the field out of that expansion. *)

Class Fields (R : Type) := eta_fields : R -> R.
Class FieldUpdate {R T : Type} (f : R -> T) := field_update : (T -> T) -> R -> R.
Arguments field_update {R T} f {_} _ _ /.

Ltac derive_update f :=
  match type of f with
  | ?R -> ?T =>
      let eta := eval cbv [eta_fields] in (@eta_fields R _) in
      let eta := eval hnf in eta in
      exact (fun (g : T -> T) (r : R) =>
               ltac:(let e := eval cbv beta in (eta r) in
                     let p := eval pattern (f r) in e in
                     match p with
                     | ?body _ =>
                         let v := eval cbv beta in (body (g (f r))) in exact v
                     end))
  end.
#[export] Hint Extern 1 (FieldUpdate ?f) => derive_update f : typeclass_instances.

Notation "r <| f := v |>" := (field_update f (fun _ => v) r)
  (at level 1, f at level 200, left associativity, format "r  <| f  :=  v |>") : kuberic_scope.

(** ** Machine integers

    A [uN] or [iN] value is a [Z]; arithmetic that can leave the range is
    written with the wrapping of the type. *)

Definition u32_max : Z := 2 ^ 32 - 1.
Definition i64_max : Z := 2 ^ 63 - 1.
Definition i64_min : Z := - 2 ^ 63.

Definition u32_range (z : Z) : Prop := 0 <= z < 2 ^ 32.
Definition u64_range (z : Z) : Prop := 0 <= z < 2 ^ 64.
Definition i64_range (z : Z) : Prop := - 2 ^ 63 <= z < 2 ^ 63.

(** [x as u32] *)
Definition as_u32 (z : Z) : Z := z mod 2 ^ 32.
(** two's complement reduction, the value of [x + y] on [i64] in release builds *)
Definition i64_wrap (z : Z) : Z := (z + 2 ^ 63) mod 2 ^ 64 - 2 ^ 63.
(** [x.checked_add(y)] on [i64] and on [u32] *)
Definition i64_checked_add (x y : Z) : option Z :=
  let z := x + y in
  if (i64_min <=? z) && (z <=? i64_max) then Some z else None.
Definition u32_checked_add (x y : Z) : option Z :=
  let z := x + y in if z <=? u32_max then Some z else None.
(** [x.saturating_add(y)] on [i64] *)
Definition i64_saturating_add (x y : Z) : Z := Z.max i64_min (Z.min i64_max (x + y)).
(** [x.saturating_sub(y)] on an unsigned type *)
Definition saturating_sub (x y : Z) : Z := Z.max 0 (x - y).

Lemma i64_wrap_id z : i64_range z -> i64_wrap z = z.
Proof. unfold i64_range, i64_wrap. intros. rewrite Z.mod_small; lia. Qed.

Lemma i64_checked_add_some x y z : i64_checked_add x y = Some z -> z = x + y.
Proof. unfold i64_checked_add. simpl. destruct (_ && _); congruence. Qed.

Lemma as_u32_id z : u32_range z -> as_u32 z = z.
Proof. unfold u32_range, as_u32. intros. rewrite Z.mod_small; lia. Qed.

(** ** Ordered collections

    A [BTreeMap] is a [gmap] and a [BTreeSet] a [gset] where only lookups and
    membership are observed; iteration visits the keys in increasing order. *)

Definition keys {V} (m : gmap Z V) : list Z :=
  merge_sort Z.le (elements (dom m)).

#[export] Instance Zge_transitive : Transitive Z.ge.
Proof. intros x y z. lia. Qed.
#[export] Instance Zge_total : Total Z.ge.
Proof. intros x y. lia. Qed.

Definition sorted_elements (X : gset Z) : list Z := merge_sort Z.le (elements X).

(** [m.entry(k)] raised to at least [v]: [and_modify] with [max], else [or_insert(v)] *)
Definition entry_max `{Countable K} (k : K) (v : Z) (m : gmap K Z) : gmap K Z :=
  <[k := match m !! k with Some p => Z.max p v | None => v end]> m.

(** [m.get(k).copied().unwrap_or(0)] *)
Definition get_or_zero `{Countable K} (m : gmap K Z) (k : K) : Z := default 0 (m !! k).

(** [xs.iter().take_while(f)] *)
Fixpoint take_while {A} (f : A -> bool) (xs : list A) : list A :=
  match xs with
  | [] => []
  | x :: xs => if f x then x :: take_while f xs else []
  end.

Lemma elem_of_keys {V} (m : gmap Z V) k : k ∈ keys m <-> is_Some (m !! k).
Proof.
  unfold keys. rewrite merge_sort_Permutation, elem_of_elements, elem_of_dom. done.
Qed.

Lemma keys_sorted {V} (m : gmap Z V) : StronglySorted Z.le (keys m).
Proof. apply StronglySorted_merge_sort; apply _. Qed.

Lemma NoDup_keys {V} (m : gmap Z V) : NoDup (keys m).
Proof. unfold keys. rewrite merge_sort_Permutation. apply NoDup_elements. Qed.

(** On a sorted list, the prefix below a bound is everything below it. *)
Lemma elem_of_take_while_sorted (b : Z) (xs : list Z) x :
  StronglySorted Z.le xs ->
  x ∈ take_while (fun y => y <=? b) xs <-> x ∈ xs /\ x <= b.
Proof.
  induction 1 as [|y ys Hs IH Hall]; simpl; [set_solver|].
  rewrite Forall_forall in Hall.
  destruct (y <=? b) eqn:E; rewrite ?elem_of_cons, ?IH.
  - apply Z.leb_le in E. naive_solver lia.
  - apply Z.leb_gt in E. split; [set_solver|].
    intros [[->|Hx] Hb]; [lia|]. specialize (Hall _ Hx). lia.
Qed.

(** ** Boolean conditions and successful results

    [split_bools] turns the boolean guards of the code into propositions and
    [ok_inv] takes a successful chain of checks apart. *)

Create HintDb kuberic.

Lemma bool_decide_false_iff (P : Prop) `{Decision P} : bool_decide P = false <-> ~ P.
Proof. apply bool_decide_eq_false. Qed.
Lemma bool_decide_true_iff (P : Prop) `{Decision P} : bool_decide P = true <-> P.
Proof. apply bool_decide_eq_true. Qed.

Create Rewrite HintDb bools.
#[export] Hint Rewrite orb_false_iff orb_true_iff andb_true_iff andb_false_iff
  negb_true_iff negb_false_iff Z.ltb_lt Z.ltb_ge Z.leb_le Z.leb_gt
  Z.eqb_eq Z.eqb_neq : bools.
#[export] Hint Rewrite @bool_decide_false_iff @bool_decide_true_iff : bools.

Lemma bind_ok {E A B} (m : res E A) (k : A -> res E B) b :
  res_bind m k = Ok b <-> exists a, m = Ok a /\ k a = Ok b.
Proof. destruct m; simpl; naive_solver. Qed.

Lemma reject_ok {E} (c : bool) (e : E) u : reject c e = Ok u <-> c = false.
Proof. destruct c, u; simpl; naive_solver. Qed.

Lemma ok_or_ok {E A} (o : option A) (e : E) a : ok_or o e = Ok a <-> o = Some a.
Proof. destruct o; simpl; naive_solver. Qed.

Lemma expect_ok {E A} (o : option A) a : (expect o : res E A) = Ok a <-> o = Some a.
Proof. destruct o; simpl; naive_solver. Qed.

Lemma map_err_ok {E F A} (f : E -> F) (m : res E A) a : map_err f m = Ok a <-> m = Ok a.
Proof. destruct m; simpl; naive_solver. Qed.

Lemma is_ok_iff {E} (m : res E unit) : is_ok m = true <-> m = Ok tt.
Proof. destruct m as [[]| |]; simpl; naive_solver. Qed.

Lemma for_each_ok {E A} (f : A -> res E unit) xs :
  for_each f xs = Ok tt <-> Forall (fun x => f x = Ok tt) xs.
Proof.
  induction xs as [|x xs IH]; simpl; [naive_solver|].
  rewrite bind_ok, Forall_cons, <-IH. split; [intros [[] ?]; done|eauto].
Qed.

Lemma is_some_and_true {A} (f : A -> bool) o :
  is_some_and f o = true <-> exists a, o = Some a /\ f a = true.
Proof. destruct o; simpl; naive_solver. Qed.
Lemma is_some_and_false {A} (f : A -> bool) o :
  is_some_and f o = false <-> forall a, o = Some a -> f a = false.
Proof. destruct o; simpl; naive_solver. Qed.
Lemma is_none_or_false {A} (f : A -> bool) o :
  is_none_or f o = false <-> exists a, o = Some a /\ f a = false.
Proof. destruct o; simpl; naive_solver. Qed.
Lemma is_none_or_true {A} (f : A -> bool) o :
  is_none_or f o = true <-> forall a, o = Some a -> f a = true.
Proof. destruct o; simpl; naive_solver. Qed.
Lemma is_some_false {A} (o : option A) : is_some o = false <-> o = None.
Proof. destruct o; simpl; naive_solver. Qed.
Lemma is_some_true {A} (o : option A) : is_some o = true <-> exists a, o = Some a.
Proof. destruct o; simpl; naive_solver. Qed.
Lemma is_none_true {A} (o : option A) : is_none o = true <-> o = None.
Proof. destruct o; simpl; naive_solver. Qed.
Lemma is_none_false {A} (o : option A) : is_none o = false <-> exists a, o = Some a.
Proof. destruct o; simpl; naive_solver. Qed.
Lemma existsb_true {A} (f : A -> bool) l :
  existsb f l = true <-> exists x, x ∈ l /\ f x = true.
Proof. rewrite existsb_exists. setoid_rewrite list_elem_of_In. done. Qed.
Lemma existsb_false {A} (f : A -> bool) l :
  existsb f l = false <-> forall x, x ∈ l -> f x = false.
Proof.
  rewrite <-not_true_iff_false, existsb_true. split.
  - intros H x Hx. destruct (f x) eqn:E; naive_solver.
  - intros H (x & Hx & E). rewrite (H x Hx) in E. done.
Qed.
Lemma forallb_true {A} (f : A -> bool) l :
  forallb f l = true <-> forall x, x ∈ l -> f x = true.
Proof. rewrite forallb_forall. setoid_rewrite list_elem_of_In. done. Qed.

#[export] Hint Rewrite @bind_ok @reject_ok @ok_or_ok @expect_ok @map_err_ok : bools.
#[export] Hint Rewrite @is_some_and_true @is_some_and_false @is_none_or_false
  @is_none_or_true @is_some_false @is_some_true @is_none_true @is_none_false
  @existsb_true @existsb_false @forallb_true : bools.

Ltac split_bools_in H := autorewrite with bools in H.

Ltac ok_step :=
  match goal with
  | H : _ /\ _ |- _ => destruct H
  | H : exists _, _ |- _ => destruct H
  | H : Ok _ = Ok _ |- _ => injection H as H; try subst
  | H : Err _ = Ok _ |- _ => discriminate H
  | H : Panic = Ok _ |- _ => discriminate H
  | H : reject _ _ = Ok _ |- _ => apply reject_ok in H
  | H : ok_or _ _ = Ok _ |- _ => apply ok_or_ok in H
  | H : expect _ = Ok _ |- _ => apply expect_ok in H
  | H : map_err _ _ = Ok _ |- _ => apply map_err_ok in H
  | H : res_bind _ _ = Ok _ |- _ => apply bind_ok in H
  | x : unit |- _ => destruct x
  end.
(** Take a successful run of a stateful operation apart, one bind at a time. *)
Ltac m_step :=
  match goal with
  | H : m_bind _ _ _ = (_, Ok _) |- _ =>
      let s := fresh "s" in let a := fresh "a" in let Hm := fresh "Hm" in
      apply m_bind_ok_inv in H as (s & a & Hm & H); cbv beta in H
  | H : m_ret _ _ = (_, Ok _) |- _ => unfold m_ret in H; injection H; clear H; intros; subst
  | H : m_err _ _ = (_, Ok _) |- _ => discriminate H
  | H : m_lift ?r ?s = (_, Ok _) |- _ => apply m_lift_ok_inv in H as [? H]; subst
  | H : m_get _ = (_, Ok _) |- _ => unfold m_get in H; injection H; clear H; intros; subst
  | H : m_modify _ _ = (_, Ok _) |- _ => unfold m_modify in H; injection H; clear H; intros; subst
  | H : ?x = ?x |- _ => clear H
  end.
Ltac m_inv := repeat (m_step || ok_step).

(** Take every successful result in the context apart. *)
Ltac ok_inv := repeat ok_step.
(** Additionally split the guards that did not fire. *)
Ltac guards := repeat (ok_step ||
  match goal with
  | H : (_ || _) = false |- _ => apply orb_false_iff in H as [? H]
  | H : (_ && _) = true |- _ => apply andb_true_iff in H as [? H]
  | H : negb _ = false |- _ => apply negb_false_iff in H
  | H : negb _ = true |- _ => apply negb_true_iff in H
  | H : bool_decide _ = true |- _ => apply bool_decide_eq_true in H
  | H : bool_decide _ = false |- _ => apply bool_decide_eq_false in H
  | H : (_ <? _) = false |- _ => apply Z.ltb_ge in H
  | H : (_ <? _) = true |- _ => apply Z.ltb_lt in H
  | H : (_ <=? _) = false |- _ => apply Z.leb_gt in H
  | H : (_ <=? _) = true |- _ => apply Z.leb_le in H
  end).

(** Pass a guard of the goal: it remains to show that its condition is false. *)
Ltac pass_guard := apply bind_ok; exists tt; split; [apply reject_ok|].

(** *** Absence of panics *)

Create HintDb no_panic.

Lemma bind_no_panic {E A B} (m : res E A) (k : A -> res E B) :
  m <> Panic -> (forall a, m = Ok a -> k a <> Panic) -> res_bind m k <> Panic.
Proof. destruct m; simpl; auto. Qed.
Lemma reject_no_panic {E} b (e : E) : reject b e <> Panic.
Proof. by destruct b. Qed.
Lemma ok_or_no_panic {E A} (o : option A) (e : E) : ok_or o e <> Panic.
Proof. by destruct o. Qed.
Lemma map_err_no_panic {E F A} (f : E -> F) (m : res E A) : m <> Panic -> map_err f m <> Panic.
Proof. by destruct m. Qed.
Lemma for_each_no_panic {E A} (f : A -> res E unit) xs :
  (forall x, x ∈ xs -> f x <> Panic) -> for_each f xs <> Panic.
Proof.
  induction xs as [|x xs IH]; simpl; [done|]. setoid_rewrite elem_of_cons. intros Hf.
  apply bind_no_panic; auto.
Qed.
Lemma try_fold_no_panic {E A S} (f : S -> A -> res E S) s xs :
  (forall s x, f s x <> Panic) -> try_fold f s xs <> Panic.
Proof.
  intros Hf. revert s. induction xs as [|x xs IH]; intros s; simpl; [done|].
  apply bind_no_panic; auto.
Qed.
#[export] Hint Resolve reject_no_panic ok_or_no_panic map_err_no_panic : no_panic.

(** Go through the binds of a check; what remains are the calls that no hint
    shows to be free of panics. *)
Ltac no_panic :=
  repeat match goal with
  | |- res_bind _ _ <> Panic => apply bind_no_panic; [|intros ? ?]
  | |- for_each _ _ <> Panic => apply for_each_no_panic; intros ? ?
  | |- try_fold _ _ _ <> Panic => apply try_fold_no_panic; intros ? ?
  | |- Ok _ <> Panic => discriminate
  | |- Err _ <> Panic => discriminate
  | |- (if ?b then _ else _) <> Panic => destruct b eqn:?
  | |- match ?o with _ => _ end <> Panic => destruct o eqn:?
  | |- _ <> Panic => solve [eauto with no_panic]
  end.

(** ** Stable sorting by an integer key: [sort_by_key] *)

Section sort_by_key.
Context {A : Type} (key : A -> Z).

Fixpoint insert_by_key (x : A) (l : list A) : list A :=
  match l with
  | [] => [x]
  | y :: l' => if key x <=? key y then x :: l else y :: insert_by_key x l'
  end.

Definition sort_by_key (l : list A) : list A := foldr insert_by_key [] l.

Definition key_le (x y : A) : Prop := key x <= key y.

Lemma insert_by_key_perm x l : insert_by_key x l ≡ₚ x :: l.
Proof.
  induction l as [|y l IH]; simpl; [done|]. destruct (_ <=? _); [done|].
  rewrite IH. apply Permutation_swap.
Qed.

Lemma sort_by_key_perm l : sort_by_key l ≡ₚ l.
Proof. induction l as [|x l IH]; simpl; [done|]. by rewrite insert_by_key_perm, IH. Qed.

Lemma insert_by_key_sorted x l :
  StronglySorted key_le l -> StronglySorted key_le (insert_by_key x l).
Proof.
  unfold key_le. induction 1 as [|y l Hs IH Hall]; simpl; [repeat constructor|].
  destruct (_ <=? _) eqn:E.
  - apply Z.leb_le in E. repeat constructor; auto.
    eapply Forall_impl; [exact Hall|]. simpl. lia.
  - apply Z.leb_gt in E. constructor; [done|].
    rewrite insert_by_key_perm. constructor; [lia|done].
Qed.

Lemma sort_by_key_sorted l : StronglySorted key_le (sort_by_key l).
Proof. induction l; simpl; [constructor|]. by apply insert_by_key_sorted. Qed.

(** Sorting a sorted list changes nothing (stability included). *)
Lemma sort_by_key_id l : StronglySorted key_le l -> sort_by_key l = l.
Proof.
  induction 1 as [|x l Hs IH Hall]; simpl; [done|]. rewrite IH.
  destruct Hall as [|y l Hxy ?]; simpl; [done|].
  unfold key_le in Hxy. by rewrite (proj2 (Z.leb_le _ _)).
Qed.

Lemma sort_by_key_idemp l : sort_by_key (sort_by_key l) = sort_by_key l.
Proof. apply sort_by_key_id, sort_by_key_sorted. Qed.

End sort_by_key.

(** ** Filters and searches over boolean predicates *)

Lemma find_none_iff {A} (f : A -> bool) l :
  List.find f l = None <-> forall x, x ∈ l -> f x = false.
Proof.
  split.
  - intros Hf x Hx%list_elem_of_In. by eapply List.find_none.
  - intros Hall. destruct (List.find f l) eqn:E; [|done].
    apply List.find_some in E as [Hin Hf]. rewrite Hall in Hf; [done|].
    by apply list_elem_of_In.
Qed.

Lemma elem_of_filterb {A} (f : A -> bool) l x :
  x ∈ List.filter f l <-> x ∈ l /\ f x = true.
Proof. rewrite !list_elem_of_In. apply filter_In. Qed.

Lemma NoDup_filterb {A} (f : A -> bool) l : NoDup l -> NoDup (List.filter f l).
Proof. rewrite !NoDup_ListNoDup. apply List.NoDup_filter. Qed.

Lemma filterb_singleton {A} (f : A -> bool) l x :
  NoDup l ->
  List.filter f l = [x] <-> x ∈ l /\ f x = true /\ (forall y, y ∈ l -> f y = true -> y = x).
Proof.
  intros Hnd. split.
  - intros Hf. assert (Hx : x ∈ List.filter f l) by (rewrite Hf; set_solver).
    apply elem_of_filterb in Hx as [? ?]. split_and!; [done..|].
    intros y Hy Hfy. assert (Hyf : y ∈ List.filter f l) by (by apply elem_of_filterb).
    rewrite Hf in Hyf. set_solver.
  - intros (Hx & Hfx & Huniq). apply Permutation_singleton_r, NoDup_Permutation.
    + by apply NoDup_filterb.
    + apply NoDup_singleton.
    + intros y. rewrite elem_of_filterb, list_elem_of_singleton. naive_solver.
Qed.

Lemma NoDup_map_filterb {A B} (g : A -> B) (f : A -> bool) l :
  NoDup (map g l) -> NoDup (map g (List.filter f l)).
Proof.
  induction l as [|x l IH]; simpl; [done|]. rewrite NoDup_cons, list_elem_of_fmap.
  intros [Hx Hnd]. destruct (f x); simpl; [|auto]. apply NoDup_cons. split; [|auto].
  rewrite list_elem_of_fmap. intros (y & Heq & Hy%elem_of_filterb). apply Hx. naive_solver.
Qed.

Lemma StronglySorted_filterb {A} (R : A -> A -> Prop) (f : A -> bool) l :
  StronglySorted R l -> StronglySorted R (List.filter f l).
Proof.
  induction 1 as [|x l Hs IH Hall]; simpl; [constructor|]. destruct (f x); [|done].
  constructor; [done|]. rewrite Forall_forall in *. intros y [Hy _]%elem_of_filterb. auto.
Qed.

Lemma strict_sorted_keys {V} (m : gmap Z V) : StronglySorted Z.lt (keys m).
Proof.
  pose proof (keys_sorted m) as Hs. pose proof (NoDup_keys m) as Hnd.
  induction Hs as [|x l Hs IH Hall]; [constructor|].
  apply NoDup_cons in Hnd as [Hx Hnd]. constructor; [by apply IH|].
  rewrite Forall_forall in *. intros y Hy. specialize (Hall y Hy).
  destruct (decide (x = y)) as [->|]; [done|lia].
Qed.

(** A loop that rejects repeated keys collects the distinct keys it has seen. *)
Lemma try_fold_collect {E A} `{Countable K} (f : A -> K) (P : A -> Prop)
    (step : gset K -> A -> res E (gset K)) xs s s' :
  (forall s x s', step s x = Ok s' -> (f x ∉ s) /\ s' = {[f x]} ∪ s /\ P x) ->
  try_fold step s xs = Ok s' ->
  s' = list_to_set (map f xs) ∪ s /\ Forall P xs /\ NoDup (map f xs) /\
  forall x, x ∈ xs -> f x ∉ s.
Proof.
  intros Hstep. revert s. induction xs as [|x xs IH]; intros s Hok; simpl in Hok.
  - injection Hok as <-. split_and!; [set_solver|constructor..|by intros ? ?%elem_of_nil].
  - apply bind_ok in Hok as (s1 & H1 & Hrest). apply Hstep in H1 as (Hx & -> & HP).
    apply IH in Hrest as (-> & Hall & Hnd & Hout). split_and!.
    + simpl. set_solver.
    + by constructor.
    + simpl. constructor; [|done]. rewrite list_elem_of_fmap. intros (y & Heq & Hy).
      apply (Hout y Hy). rewrite <-Heq. set_solver.
    + intros y [->|Hy]%elem_of_cons; [done|]. specialize (Hout y Hy). set_solver.
Qed.
