(* ===== verification/Digest.v ===== *)
(** * Digests: the canonical byte encodings of [protocol/types.rs]

    [digest_parts], [update_digest_string], [format_digest] and the integer
    encodings they hash.  SHA-256 is the [sha2] crate's, so it is the operation
    of a class: the only thing assumed of it is its 32-byte output.  What the
    encodings must provide is stated without assuming that hashing is
    injective: two equal digests have equal inputs, or the two inputs exhibit a
    collision of the hash. *)

From S2P Require Import Prelude.
From stdpp Require Import base strings list pretty.
From Stdlib Require Import ZArith Lia Strings.Byte.
Local Open Scope Z_scope.

Class Sha256 := {
  sha256 : list byte -> list byte;
  sha256_length : forall message, length (sha256 message) = 32%nat;
}.

#[export] Instance byte_eq_dec : EqDecision byte := Byte.byte_eq_dec.

(** ** Big-endian integers: [to_be_bytes] *)

Definition byte_of_Z (z : Z) : byte :=
  match Byte.of_N (Z.to_N (z mod 256)) with Some b => b | None => x00 end.

Definition byte_value (b : byte) : Z := Z.of_N (Byte.to_N b).

Fixpoint be_bytes (n : nat) (z : Z) : list byte :=
  match n with
  | O => []
  | S n => byte_of_Z (z / 2 ^ (8 * Z.of_nat n)) :: be_bytes n z
  end.

Fixpoint be_value (bs : list byte) : Z :=
  match bs with
  | [] => 0
  | b :: bs => byte_value b * 2 ^ (8 * Z.of_nat (length bs)) + be_value bs
  end.

Definition i64_to_be_bytes (z : Z) : list byte := be_bytes 8 z.
Definition u64_to_be_bytes (z : Z) : list byte := be_bytes 8 z.
Definition u32_to_be_bytes (z : Z) : list byte := be_bytes 4 z.

(** ** Length-prefixed strings and the digest of a list of parts *)

Definition utf8 (s : string) : list byte := String.list_byte_of_string s.

Definition update_digest_string (s : string) : list byte :=
  u64_to_be_bytes (Z.of_nat (length (utf8 s))) ++ utf8 s.

Definition digest_preimage (parts : list string) : list byte :=
  concat (map update_digest_string parts).

Definition hex_digit (d : Z) : Ascii.ascii :=
  Ascii.ascii_of_N (Z.to_N (if d <? 10 then 48 + d else 87 + d)).

Fixpoint format_digest (digest : list byte) : string :=
  match digest with
  | [] => ""
  | b :: bs =>
      String (hex_digit (byte_value b / 16))
        (String (hex_digit (byte_value b mod 16)) (format_digest bs))
  end.

Definition digest_parts `{Sha256} (parts : list string) : string :=
  format_digest (sha256 (digest_preimage parts)).

(** These two messages are different and have the same hash. *)
Definition collide `{Sha256} (x y : list byte) : Prop := x <> y /\ sha256 x = sha256 y.

(** ** Correctness of the encodings *)

Lemma byte_value_of_Z z : byte_value (byte_of_Z z) = z mod 256.
Proof.
  unfold byte_value, byte_of_Z.
  assert (0 <= z mod 256 < 256) by (apply Z.mod_pos_bound; lia).
  destruct (Byte.of_N _) as [b|] eqn:E.
  - apply Byte.to_of_N in E. lia.
  - apply Byte.of_N_None_iff in E. lia.
Qed.

Lemma byte_value_range b : 0 <= byte_value b < 256.
Proof. unfold byte_value. pose proof (Byte.to_N_bounded b). lia. Qed.

Lemma byte_value_inj b c : byte_value b = byte_value c -> b = c.
Proof.
  unfold byte_value. intros H. apply N2Z.inj in H.
  pose proof (Byte.of_to_N b) as Hb. pose proof (Byte.of_to_N c) as Hc.
  rewrite H in Hb. congruence.
Qed.

Lemma length_be_bytes n z : length (be_bytes n z) = n.
Proof. induction n; simpl; auto. Qed.

Lemma be_value_be_bytes n z : be_value (be_bytes n z) = z mod 2 ^ (8 * Z.of_nat n).
Proof.
  induction n as [|n IH]; simpl be_bytes; simpl be_value.
  - rewrite Z.mod_1_r. done.
  - rewrite length_be_bytes, IH, byte_value_of_Z.
    replace (2 ^ (8 * Z.of_nat (S n))) with (2 ^ (8 * Z.of_nat n) * 256)
      by (replace (8 * Z.of_nat (S n)) with (8 * Z.of_nat n + 8) by lia;
          rewrite Z.pow_add_r by lia; lia).
    rewrite (Z.rem_mul_r z) by lia. lia.
Qed.

Lemma be_bytes_inj n y z :
  0 <= y < 2 ^ (8 * Z.of_nat n) -> 0 <= z < 2 ^ (8 * Z.of_nat n) ->
  be_bytes n y = be_bytes n z -> y = z.
Proof.
  intros Hy Hz H. apply (f_equal be_value) in H.
  rewrite !be_value_be_bytes, !Z.mod_small in H by lia. done.
Qed.

Lemma i64_to_be_bytes_inj y z :
  i64_range y -> i64_range z -> i64_to_be_bytes y = i64_to_be_bytes z -> y = z.
Proof.
  unfold i64_range, i64_to_be_bytes. intros Hy Hz H. apply (f_equal be_value) in H.
  rewrite !be_value_be_bytes in H. change (8 * Z.of_nat 8) with 64 in H.
  assert (Hmod : (y - z) mod 2 ^ 64 = 0).
  { rewrite Zminus_mod, H, Z.sub_diag. done. }
  apply Z.mod_divide in Hmod; [|lia]. destruct Hmod as [k Hk]. nia.
Qed.

Lemma utf8_inj s t : utf8 s = utf8 t -> s = t.
Proof.
  unfold utf8. intros H.
  rewrite <-(String.string_of_list_byte_of_string s), H.
  apply String.string_of_list_byte_of_string.
Qed.

(** The strings of the system are shorter than [u64] can count. *)
Definition short (s : string) : Prop := Z.of_nat (length (utf8 s)) < 2 ^ 64.

#[export] Instance short_dec s : Decision (short s).
Proof. unfold short. apply _. Defined.

Lemma update_digest_string_inj s t r r' :
  short s -> short t ->
  update_digest_string s ++ r = update_digest_string t ++ r' -> s = t /\ r = r'.
Proof.
  unfold short, update_digest_string, u64_to_be_bytes. intros Hs Ht H.
  rewrite <-!(assoc_L (++)) in H.
  apply app_inj_1 in H as [Hlen H]; [|by rewrite !length_be_bytes].
  apply be_bytes_inj in Hlen; [|lia..].
  apply app_inj_1 in H as [Hst ->]; [|lia].
  split; [by apply utf8_inj|done].
Qed.

Lemma digest_preimage_inj ps qs :
  Forall short ps -> Forall short qs ->
  digest_preimage ps = digest_preimage qs -> ps = qs.
Proof.
  intros Hps. revert qs. induction Hps as [|p ps Hp Hps IH]; intros qs Hqs H.
  - destruct Hqs as [|q qs ? ?]; [done|]. exfalso. revert H.
    unfold digest_preimage, update_digest_string, u64_to_be_bytes. simpl. done.
  - destruct Hqs as [|q qs Hq Hqs].
    + exfalso. revert H.
      unfold digest_preimage, update_digest_string, u64_to_be_bytes. simpl. done.
    + apply update_digest_string_inj in H as [-> H]; [|done..].
      f_equal. apply IH; done.
Qed.

Lemma hex_digit_inj c d :
  0 <= c < 16 -> 0 <= d < 16 -> hex_digit c = hex_digit d -> c = d.
Proof.
  unfold hex_digit. intros Hc Hd H. apply (f_equal Ascii.N_of_ascii) in H.
  destruct (c <? 10) eqn:?, (d <? 10) eqn:?;
    rewrite !Ascii.N_ascii_embedding in H by lia; lia.
Qed.

Lemma format_digest_inj xs ys : format_digest xs = format_digest ys -> xs = ys.
Proof.
  revert ys. induction xs as [|x xs IH]; intros [|y ys]; simpl; try done.
  intros H. injection H as H1 H2 H.
  pose proof (byte_value_range x). pose proof (byte_value_range y).
  assert (byte_value x / 16 < 16 /\ byte_value y / 16 < 16) as [? ?]
    by (split; apply Z.div_lt_upper_bound; lia).
  apply hex_digit_inj in H1; [|split; [apply Z.div_pos; lia|lia]..].
  apply hex_digit_inj in H2; [|apply Z.mod_pos_bound; lia..].
  f_equal; [|by apply IH].
  apply byte_value_inj.
  rewrite (Z.div_mod (byte_value x) 16), (Z.div_mod (byte_value y) 16) by lia. lia.
Qed.

Lemma length_format_digest xs : String.length (format_digest xs) = (2 * length xs)%nat.
Proof. induction xs; simpl; lia. Qed.

Section hashing.
Context `{Sha256}.

Lemma sha256_inj_or_collide x y : sha256 x = sha256 y -> x = y \/ collide x y.
Proof. destruct (decide (x = y)); [by left|by right]. Qed.

Lemma digest_parts_inj ps qs :
  Forall short ps -> Forall short qs ->
  digest_parts ps = digest_parts qs ->
  ps = qs \/ collide (digest_preimage ps) (digest_preimage qs).
Proof.
  intros Hp Hq Heq. apply format_digest_inj, sha256_inj_or_collide in Heq as [Heq|]; [|auto].
  left. by apply digest_preimage_inj.
Qed.

Lemma length_digest_parts ps : String.length (digest_parts ps) = 64%nat.
Proof. unfold digest_parts. rewrite length_format_digest, sha256_length. done. Qed.

End hashing.

(** ** A concrete hash
    The examples of this development instantiate [Sha256] with the function
    that pads or truncates to 32 bytes. *)

Definition padding_hash (message : list byte) : list byte :=
  take 32 (message ++ replicate 32 x00).

Lemma length_padding_hash message : length (padding_hash message) = 32%nat.
Proof. unfold padding_hash. rewrite length_take, length_app, length_replicate. lia. Qed.

Definition padding_sha256 : Sha256 :=
  {| sha256 := padding_hash; sha256_length := length_padding_hash |}.
