(* ===== verification/Types.v ===== *)
(** * Identities, configurations and policies ([protocol/types.rs])

    The string newtypes of the source ([ResourceUid], [ConfigurationId], ...)
    are strings, and [ReplicaId] is its [i64].  A [ConfigurationDescriptor]
    carries a content-derived identifier; [calculate_id] is modelled down to
    the bytes that are hashed, so that the identifier can be shown to determine
    the configuration. *)

From S2P Require Import Prelude Digest.
From stdpp Require Import base gmap strings list sorting pretty.
From Stdlib Require Import ZArith Lia Strings.Byte.
Local Open Scope Z_scope.

Abbreviation ResourceUid := string (only parsing).
Abbreviation PodUid := string (only parsing).
Abbreviation PvcUid := string (only parsing).
Abbreviation ReplicaInstanceId := string (only parsing).
Abbreviation AgentGeneration := string (only parsing).
Abbreviation ProcessSessionId := string (only parsing).
Abbreviation ConfigurationId := string (only parsing).
Abbreviation TransitionId := string (only parsing).
Abbreviation InitializationId := string (only parsing).
Abbreviation OperationId := string (only parsing).
Abbreviation SwitchoverRequestId := string (only parsing).
Abbreviation ReplicaId := Z (only parsing).
Abbreviation Lsn := Z (only parsing).

Definition is_empty (s : string) : bool := s == "".

(** ** Epochs, ordered by data loss and then configuration *)

Record Epoch := mkEpoch { data_loss_number : Z; configuration_number : Z }.

#[export] Instance Epoch_eq_dec : EqDecision Epoch.
Proof. solve_decision. Defined.

Definition epoch_default : Epoch := mkEpoch 0 0.

Definition epoch_ltb (a b : Epoch) : bool :=
  (data_loss_number a <? data_loss_number b) ||
  ((data_loss_number a =? data_loss_number b) &&
   (configuration_number a <? configuration_number b)).
Definition epoch_leb (a b : Epoch) : bool := negb (epoch_ltb b a).

(** ** Roles and access *)

Inductive ReplicaRole := Primary | ActiveSecondary | IdleSecondary | RoleNone.
Inductive AccessStatus := Granted | ReconfigurationPending | NotPrimary | NoWriteQuorum.

#[export] Instance ReplicaRole_eq_dec : EqDecision ReplicaRole.
Proof. solve_decision. Defined.
#[export] Instance AccessStatus_eq_dec : EqDecision AccessStatus.
Proof. solve_decision. Defined.

(** ** Exact replica identities *)

Record ReplicaIdentity := {
  replica_id : ReplicaId;
  instance_id : ReplicaInstanceId;
  agent_generation : AgentGeneration;
}.

#[export] Instance ReplicaIdentity_eq_dec : EqDecision ReplicaIdentity.
Proof. solve_decision. Defined.
#[export] Instance ReplicaIdentity_countable : Countable ReplicaIdentity.
Proof.
  refine (inj_countable' (fun i => (replica_id i, instance_id i, agent_generation i))
            (fun '(r, i, g) => {| replica_id := r; instance_id := i; agent_generation := g |}) _).
  by intros [].
Defined.

(** The derived [Ord]: lexicographic, strings by bytes. *)
Definition identity_compare (a b : ReplicaIdentity) : comparison :=
  match Z.compare (replica_id a) (replica_id b) with
  | Eq => match String.compare (instance_id a) (instance_id b) with
          | Eq => String.compare (agent_generation a) (agent_generation b)
          | c => c
          end
  | c => c
  end.

Record ConfigurationMember := { cm_identity : ReplicaIdentity; cm_role : ReplicaRole }.

#[export] Instance ConfigurationMember_eq_dec : EqDecision ConfigurationMember.
Proof. solve_decision. Defined.

Record ConfigurationDescriptor := {
  cd_configuration_id : ConfigurationId;
  cd_epoch : Epoch;
  cd_primary_id : ReplicaId;
  cd_members : list ConfigurationMember;
  cd_write_quorum : Z;
}.

#[export] Instance ConfigurationDescriptor_eq_dec : EqDecision ConfigurationDescriptor.
Proof. solve_decision. Defined.

Definition member_id (m : ConfigurationMember) : ReplicaId := replica_id (cm_identity m).

(** ** Content-derived configuration identifiers *)

Definition role_tag (role : ReplicaRole) : Z :=
  match role with
  | Primary => 1
  | ActiveSecondary => 2
  | IdleSecondary => 3
  | RoleNone => 4
  end.

Definition member_bytes (m : ConfigurationMember) : list byte :=
  i64_to_be_bytes (member_id m) ++
  update_digest_string (instance_id (cm_identity m)) ++
  update_digest_string (agent_generation (cm_identity m)) ++
  [byte_of_Z (role_tag (cm_role m))].

(** What [calculate_id] feeds to the hasher. *)
Definition id_preimage (epoch : Epoch) (primary : ReplicaId)
    (members : list ConfigurationMember) (write_quorum : Z) : list byte :=
  let canonical := sort_by_key member_id members in
  utf8 "kuberic-configuration-v1" ++
  i64_to_be_bytes (data_loss_number epoch) ++
  i64_to_be_bytes (configuration_number epoch) ++
  i64_to_be_bytes primary ++
  u32_to_be_bytes write_quorum ++
  u64_to_be_bytes (Z.of_nat (length canonical)) ++
  concat (map member_bytes canonical).

Section descriptor.
Context `{Sha256}.

Definition calculate_id (epoch : Epoch) (primary : ReplicaId)
    (members : list ConfigurationMember) (write_quorum : Z) : ConfigurationId :=
  "cfg-" +:+ format_digest (sha256 (id_preimage epoch primary members write_quorum)).

Definition expected_id (c : ConfigurationDescriptor) : ConfigurationId :=
  calculate_id (cd_epoch c) (cd_primary_id c) (cd_members c) (cd_write_quorum c).

(** [ConfigurationDescriptor::new] *)
Definition new_configuration (epoch : Epoch) (primary : ReplicaId)
    (members : list ConfigurationMember) (write_quorum : Z) : ConfigurationDescriptor :=
  let members := sort_by_key member_id members in
  {| cd_configuration_id := calculate_id epoch primary members write_quorum;
     cd_epoch := epoch;
     cd_primary_id := primary;
     cd_members := members;
     cd_write_quorum := write_quorum |}.

End descriptor.

(** ** The serialized form: [primaryId] is derived from the members *)

Record WireConfiguration := {
  wire_configuration_id : ConfigurationId;
  wire_epoch : Epoch;
  wire_primary_id : option ReplicaId;
  wire_members : list ConfigurationMember;
  wire_write_quorum : Z;
}.

Definition is_primary (m : ConfigurationMember) : bool := cm_role m == Primary.

Definition deserialize_configuration (wire : WireConfiguration)
    : res string ConfigurationDescriptor :=
  let primaries := List.filter is_primary (wire_members wire) in
  let? primary := ok_or (member_id <$> head primaries)
                    "configuration has no Primary member" in
  reject (is_some (head (tail primaries))) "configuration has multiple Primary members" ;?
  reject (is_some_and (fun serialized => serialized != primary) (wire_primary_id wire))
    "serialized primaryId differs from the Primary member" ;?
  Ok {| cd_configuration_id := wire_configuration_id wire;
        cd_epoch := wire_epoch wire;
        cd_primary_id := primary;
        cd_members := wire_members wire;
        cd_write_quorum := wire_write_quorum wire |}.

(** The derived [Serialize], with its [skip_serializing] of [primary_id]. *)
Definition serialize_configuration (c : ConfigurationDescriptor) : WireConfiguration :=
  {| wire_configuration_id := cd_configuration_id c;
     wire_epoch := cd_epoch c;
     wire_primary_id := None;
     wire_members := cd_members c;
     wire_write_quorum := cd_write_quorum c |}.

(** ** Quorum policy *)

Record EffectivePolicy := {
  replica_set_size : Z;
  write_quorum : Z;
  read_quorum : Z;
  failover_delay_seconds : Z;
}.

#[export] Instance EffectivePolicy_eq_dec : EqDecision EffectivePolicy.
Proof. solve_decision. Defined.

(** [EffectivePolicy::fixed] *)
Definition policy_fixed (size delay : Z) : option EffectivePolicy :=
  if size =? 0 then None else
  let wq := size / 2 + 1 in
  let rq := size - wq + 1 in
  Some {| replica_set_size := size; write_quorum := wq; read_quorum := rq;
          failover_delay_seconds := delay |}.

(** [duplicate_replica_ids] *)
Definition duplicate_replica_ids (members : list ConfigurationMember) : gset Z :=
  snd (fold_left
         (fun '(seen, duplicates) m =>
            if decide (member_id m ∈ seen)
            then (seen, {[member_id m]} ∪ duplicates)
            else ({[member_id m]} ∪ seen, duplicates))
         members (∅ : gset Z, ∅ : gset Z)).

(** ** Epoch order *)

Lemma epoch_ltb_irrefl a : epoch_ltb a a = false.
Proof. destruct a; unfold epoch_ltb; simpl. lia. Qed.

Lemma epoch_ltb_trans a b c :
  epoch_ltb a b = true -> epoch_ltb b c = true -> epoch_ltb a c = true.
Proof. destruct a, b, c; unfold epoch_ltb; simpl. lia. Qed.

Lemma epoch_leb_refl a : epoch_leb a a = true.
Proof. unfold epoch_leb. by rewrite epoch_ltb_irrefl. Qed.

Lemma epoch_leb_trans a b c :
  epoch_leb a b = true -> epoch_leb b c = true -> epoch_leb a c = true.
Proof. destruct a, b, c; unfold epoch_leb, epoch_ltb; simpl. lia. Qed.

Lemma epoch_leb_antisymm a b :
  epoch_leb a b = true -> epoch_leb b a = true -> a = b.
Proof.
  destruct a, b; unfold epoch_leb, epoch_ltb; simpl. intros.
  f_equal; lia.
Qed.

Lemma epoch_newer a b :
  data_loss_number b = data_loss_number a ->
  configuration_number a < configuration_number b -> epoch_ltb a b = true.
Proof. destruct a, b; unfold epoch_ltb; simpl. lia. Qed.

#[export] Hint Resolve epoch_ltb_irrefl epoch_ltb_trans epoch_leb_refl epoch_leb_trans
  epoch_newer : kuberic.

(** ** Duplicate identifiers *)

Lemma duplicate_fold_spec ms (seen dup : gset Z) :
  snd (fold_left
         (fun '(seen, duplicates) m =>
            if decide (member_id m ∈ seen)
            then (seen, {[member_id m]} ∪ duplicates)
            else ({[member_id m]} ∪ seen, duplicates)) ms (seen, dup)) = ∅ <->
  dup = ∅ /\ NoDup (map member_id ms) /\ (forall m, m ∈ ms -> member_id m ∉ seen).
Proof.
  revert seen dup. induction ms as [|m ms IH]; intros seen dup; simpl.
  { split; [|naive_solver]. intros ->. split_and!; [done|constructor|set_solver]. }
  case_decide as Hm; rewrite IH, NoDup_cons.
  - split; [set_solver|]. intros (_ & _ & Hall). exfalso. apply (Hall m); set_solver.
  - rewrite list_elem_of_fmap. split.
    + intros (-> & Hnd & Hall). split_and!; [done|..].
      * intros (m' & Heq & Hin). apply (Hall _ Hin). set_solver.
      * done.
      * intros m' Hin. apply elem_of_cons in Hin as [->|Hin]; [done|].
        specialize (Hall _ Hin). set_solver.
    + intros (-> & (Hnin & Hnd) & Hall). split_and!; [done..|].
      intros m' Hin Hseen. apply elem_of_union in Hseen as [Heq|Hseen].
      * apply Hnin. exists m'. set_solver.
      * apply (Hall m'); set_solver.
Qed.

Lemma duplicate_replica_ids_empty ms :
  duplicate_replica_ids ms = ∅ <-> NoDup (map member_id ms).
Proof.
  unfold duplicate_replica_ids. rewrite duplicate_fold_spec. set_solver.
Qed.

(** ** Fixed policies *)

Lemma policy_fixed_some size delay :
  0 < size ->
  exists p, policy_fixed size delay = Some p /\
    replica_set_size p = size /\ write_quorum p = size / 2 + 1 /\
    read_quorum p = size - size / 2 /\ failover_delay_seconds p = delay.
Proof.
  intros Hs. unfold policy_fixed. rewrite (proj2 (Z.eqb_neq _ _)) by lia.
  eexists. split_and!; try done; simpl; lia.
Qed.

Lemma policy_fixed_bounds size delay p :
  u32_range size -> policy_fixed size delay = Some p ->
  0 < size /\ replica_set_size p = size /\
  1 <= read_quorum p <= write_quorum p /\ write_quorum p <= size /\
  read_quorum p + write_quorum p = size + 1 /\ size < 2 * write_quorum p /\
  u32_range (write_quorum p) /\ u32_range (read_quorum p).
Proof.
  unfold policy_fixed, u32_range. intros Hr. destruct (size =? 0) eqn:E; [done|].
  intros [= <-]. simpl. pose proof (Z.div_mod size 2). pose proof (Z.mod_pos_bound size 2).
  lia.
Qed.

(** ** Configuration identifiers determine configurations *)

(** The values a descriptor can hold: integers in the range of their Rust
    types and strings and member lists shorter than [u64] can count. *)
Record descriptor_in_range (c : ConfigurationDescriptor) : Prop := {
  range_data_loss : i64_range (data_loss_number (cd_epoch c));
  range_configuration : i64_range (configuration_number (cd_epoch c));
  range_primary : i64_range (cd_primary_id c);
  range_write_quorum : u32_range (cd_write_quorum c);
  range_length : Z.of_nat (length (cd_members c)) < 2 ^ 64;
  range_members : Forall (fun m => i64_range (member_id m) /\
                    short (instance_id (cm_identity m)) /\
                    short (agent_generation (cm_identity m))) (cd_members c);
}.

Lemma length_i64_bytes z : length (i64_to_be_bytes z) = 8%nat.
Proof. apply length_be_bytes. Qed.
Lemma length_u32_bytes z : length (u32_to_be_bytes z) = 4%nat.
Proof. apply length_be_bytes. Qed.
Lemma length_u64_bytes z : length (u64_to_be_bytes z) = 8%nat.
Proof. apply length_be_bytes. Qed.

Lemma role_tag_byte_inj a b :
  byte_of_Z (role_tag a) = byte_of_Z (role_tag b) -> a = b.
Proof. destruct a, b; vm_compute; congruence. Qed.

Lemma member_bytes_inj m n r r' :
  i64_range (member_id m) -> i64_range (member_id n) ->
  short (instance_id (cm_identity m)) -> short (instance_id (cm_identity n)) ->
  short (agent_generation (cm_identity m)) -> short (agent_generation (cm_identity n)) ->
  member_bytes m ++ r = member_bytes n ++ r' -> m = n /\ r = r'.
Proof.
  unfold member_bytes. intros Hm Hn Him Hin Hgm Hgn Heq.
  rewrite <-!(assoc_L (++)) in Heq.
  apply app_inj_1 in Heq as [Hid Heq]; [|by rewrite !length_i64_bytes].
  apply i64_to_be_bytes_inj in Hid; [|done..].
  apply update_digest_string_inj in Heq as [Hi Heq]; [|done..].
  apply update_digest_string_inj in Heq as [Hg Heq]; [|done..].
  simpl in Heq. injection Heq as Hrole Hr. apply role_tag_byte_inj in Hrole.
  destruct m as [[]], n as [[]]; unfold member_id in *; simpl in *. by subst.
Qed.

Lemma members_bytes_inj ms ns r r' :
  let fine m := i64_range (member_id m) /\ short (instance_id (cm_identity m)) /\
                short (agent_generation (cm_identity m)) in
  Forall fine ms -> Forall fine ns -> length ms = length ns ->
  concat (map member_bytes ms) ++ r = concat (map member_bytes ns) ++ r' ->
  ms = ns.
Proof.
  intros fine Hms. revert ns. induction Hms as [|m ms (? & ? & ?) Hms IH];
    intros ns Hns Hlen; destruct Hns as [|n ns (? & ? & ?) Hns]; try done.
  cbn [map concat]. rewrite <-!(assoc_L (++)). intros Heq.
  apply member_bytes_inj in Heq as [-> Heq]; [|done..].
  f_equal. apply IH; [done|by simpl in Hlen; lia|done].
Qed.

Lemma id_preimage_inj c d :
  descriptor_in_range c -> descriptor_in_range d ->
  id_preimage (cd_epoch c) (cd_primary_id c) (cd_members c) (cd_write_quorum c) =
  id_preimage (cd_epoch d) (cd_primary_id d) (cd_members d) (cd_write_quorum d) ->
  cd_epoch c = cd_epoch d /\ cd_primary_id c = cd_primary_id d /\
  cd_write_quorum c = cd_write_quorum d /\
  sort_by_key member_id (cd_members c) = sort_by_key member_id (cd_members d).
Proof.
  intros [Hd1 Hc1 Hp1 Hw1 Hl1 Hm1] [Hd2 Hc2 Hp2 Hw2 Hl2 Hm2]. unfold id_preimage.
  intros Heq. apply app_inv_head in Heq.
  apply app_inj_1 in Heq as [Hdl Heq]; [|by rewrite !length_i64_bytes].
  apply app_inj_1 in Heq as [Hcn Heq]; [|by rewrite !length_i64_bytes].
  apply app_inj_1 in Heq as [Hpr Heq]; [|by rewrite !length_i64_bytes].
  apply app_inj_1 in Heq as [Hwq Heq]; [|by rewrite !length_u32_bytes].
  apply app_inj_1 in Heq as [Hlen Heq]; [|by rewrite !length_u64_bytes].
  apply i64_to_be_bytes_inj in Hdl, Hcn, Hpr; [|done..].
  apply be_bytes_inj in Hwq; [|unfold u32_range in *; lia..].
  assert (Hlens : forall ms, length (sort_by_key member_id ms) = length ms)
    by (intros; apply Permutation_length, sort_by_key_perm).
  rewrite !Hlens in Hlen. apply be_bytes_inj in Hlen; [|lia..].
  split_and!; try done.
  - destruct (cd_epoch c), (cd_epoch d); simpl in *; congruence.
  - apply (members_bytes_inj _ _ [] []); rewrite ?sort_by_key_perm, ?Hlens, ?app_nil_r; try done.
    lia.
Qed.

Section identifiers.
Context `{Sha256}.

Lemma app_string_inj (p s t : string) : p +:+ s = p +:+ t -> s = t.
Proof. induction p; simpl; [done|]. intros [= ?]. auto. Qed.

(** The message hashed for a descriptor. *)
Definition descriptor_preimage (c : ConfigurationDescriptor) : list byte :=
  id_preimage (cd_epoch c) (cd_primary_id c) (cd_members c) (cd_write_quorum c).

Lemma expected_id_inj c d :
  descriptor_in_range c -> descriptor_in_range d -> expected_id c = expected_id d ->
  (cd_epoch c = cd_epoch d /\ cd_primary_id c = cd_primary_id d /\
   cd_write_quorum c = cd_write_quorum d /\
   sort_by_key member_id (cd_members c) = sort_by_key member_id (cd_members d)) \/
  collide (descriptor_preimage c) (descriptor_preimage d).
Proof.
  intros Hc Hd Heq. apply app_string_inj, format_digest_inj in Heq.
  apply sha256_inj_or_collide in Heq as [Heq|]; [left|by right].
  by apply id_preimage_inj.
Qed.

End identifiers.

(** ** Properties *)

Section properties.
Context `{Sha256}.

(** [C31] A configuration identifier determines the configuration: two
    descriptors with the same content-derived identifier agree on epoch,
    primary, write quorum and (up to the order of listing) members, or the two
    hashed messages are a collision of SHA-256. *)
Theorem configuration_id_determines_configuration c d :
  descriptor_in_range c -> descriptor_in_range d -> expected_id c = expected_id d ->
  (cd_epoch c = cd_epoch d /\ cd_primary_id c = cd_primary_id d /\
   cd_write_quorum c = cd_write_quorum d /\ cd_members c ≡ₚ cd_members d) \/
  collide (descriptor_preimage c) (descriptor_preimage d).
Proof.
  intros Hc Hd Heq. apply expected_id_inj in Heq as [(He & Hp & Hw & Hm)|]; [left|by right|done..].
  split_and!; [done..|]. by rewrite <-(sort_by_key_perm member_id (cd_members c)), Hm, sort_by_key_perm.
Qed.

(** Reading back a serialized descriptor, whose [primaryId] is left out,
    restores it whenever its primary is the one member with the primary role;
    and whatever is read has exactly one primary member, which it declares. *)
Theorem configuration_serialization c :
  (forall m, List.filter is_primary (cd_members c) = [m] -> member_id m = cd_primary_id c ->
   deserialize_configuration (serialize_configuration c) = Ok c) /\
  (forall wire, deserialize_configuration wire = Ok c ->
   wire_members wire = cd_members c /\
   exists m, List.filter is_primary (cd_members c) = [m] /\ member_id m = cd_primary_id c).
Proof.
  unfold deserialize_configuration. split.
  - intros m Hf Hm. simpl. rewrite Hf. simpl. rewrite Hm. by destruct c.
  - intros wire Hok. guards. simpl. split; [done|].
    destruct (List.filter is_primary (wire_members wire)) as [|m [|]]; simpl in *; [done| |done].
    exists m. split; [done|]. congruence.
Qed.

(** A fixed policy needs at least one replica; its quorums are
    representable, a write quorum is a majority, and a read and a write quorum
    together exceed the replica set by one. *)
Theorem fixed_policy_quorums size delay :
  u32_range size ->
  (policy_fixed size delay = None <-> size = 0) /\
  forall p, policy_fixed size delay = Some p ->
    replica_set_size p = size /\ size < 2 * write_quorum p /\
    read_quorum p + write_quorum p = size + 1 /\ 1 <= read_quorum p /\ write_quorum p <= size /\
    u32_range (write_quorum p) /\ u32_range (read_quorum p).
Proof.
  intros Hr. split.
  - unfold policy_fixed. destruct (size =? 0) eqn:E.
    + apply Z.eqb_eq in E. by split.
    + apply Z.eqb_neq in E. by split.
  - intros p Hp. apply policy_fixed_bounds in Hp; [|done]. naive_solver.
Qed.

End properties.

(** ** Samples *)

#[local] Existing Instance padding_sha256.

Definition sample_configuration : ConfigurationDescriptor :=
  new_configuration (mkEpoch 0 1) 1
    [{| cm_identity := {| replica_id := 1; instance_id := "a"; agent_generation := "g" |};
        cm_role := Primary |};
     {| cm_identity := {| replica_id := 2; instance_id := "b"; agent_generation := "g" |};
        cm_role := ActiveSecondary |}] 2.

Lemma sample_in_range : descriptor_in_range sample_configuration.
Proof. split; try (split; by vm_compute); repeat constructor; try by vm_compute. Qed.

Lemma configuration_id_determines_configuration_witness :
  (cd_members sample_configuration ≡ₚ cd_members sample_configuration) \/
  collide (descriptor_preimage sample_configuration) (descriptor_preimage sample_configuration).
Proof.
  destruct (configuration_id_determines_configuration sample_configuration sample_configuration
              sample_in_range sample_in_range eq_refl) as [(_ & _ & _ & Hm)|Hc].
  - by left.
  - by right.
Defined.

Lemma configuration_serialization_witness :
  deserialize_configuration (serialize_configuration sample_configuration) = Ok sample_configuration.
Proof.
  eapply (proj1 (configuration_serialization sample_configuration)).
  - vm_compute. reflexivity.
  - reflexivity.
Defined.

Lemma fixed_policy_quorums_witness :
  policy_fixed 3 30 = None <-> 3 = 0.
Proof. apply (fixed_policy_quorums 3 30). split; by vm_compute. Defined.
