(* ===== verification/Intents.v ===== *)
(** * Intents, evidence and receipts ([protocol/types.rs])

    The durable records that the controller freezes and the replicas attest:
    provisioning, planned switchover, secondary scale-down and scale-up, with
    the operation identifiers derived from their contents. *)

From S2P Require Import Prelude Digest Types.
From stdpp Require Import base gmap strings list pretty.
From Stdlib Require Import ZArith Lia.
Local Open Scope Z_scope.

(** ** Provisioning *)

Record ScaleUpProvisioning := {
  sup_resource_uid : ResourceUid;
  sup_spec_generation : Z;
  sup_desired_replicas : Z;
  sup_previous_configuration : ConfigurationDescriptor;
  sup_previous_policy : EffectivePolicy;
  sup_current_policy : EffectivePolicy;
  sup_target_replica_id : ReplicaId;
}.
#[export] Instance ScaleUpProvisioning_eq_dec : EqDecision ScaleUpProvisioning.
Proof. solve_decision. Defined.

Definition next_configuration_epoch (s : ScaleUpProvisioning) : option Epoch :=
  mkEpoch (data_loss_number (cd_epoch (sup_previous_configuration s))) <$>
    i64_checked_add (configuration_number (cd_epoch (sup_previous_configuration s))) 1.

Record ScaleUpAllocation := {
  sua_resource_uid : ResourceUid;
  sua_spec_generation : Z;
  sua_desired_replicas : Z;
  sua_previous_configuration_id : ConfigurationId;
  sua_accepted_configuration_id : ConfigurationId;
  sua_target_replica_id : ReplicaId;
  sua_operation_id : OperationId;
  sua_previous_operation_id : option OperationId;
  sua_scaffolding_requested : bool;
  sua_pod_uid : option PodUid;
  sua_pvc_uid : option PvcUid;
  sua_cancellation_started : bool;
}.
#[export] Instance ScaleUpAllocation_eq_dec : EqDecision ScaleUpAllocation.
Proof. solve_decision. Defined.
#[export] Instance ScaleUpAllocation_fields : Fields ScaleUpAllocation := fun a =>
  Build_ScaleUpAllocation (sua_resource_uid a) (sua_spec_generation a) (sua_desired_replicas a)
    (sua_previous_configuration_id a) (sua_accepted_configuration_id a) (sua_target_replica_id a)
    (sua_operation_id a) (sua_previous_operation_id a) (sua_scaffolding_requested a)
    (sua_pod_uid a) (sua_pvc_uid a) (sua_cancellation_started a).

Inductive ProvisioningKind := PkReplacement | PkScaleUp.
#[export] Instance ProvisioningKind_eq_dec : EqDecision ProvisioningKind.
Proof. solve_decision. Defined.

Record ProvisioningPurpose := {
  pp_kind : ProvisioningKind;
  pp_replaces : option ReplicaIdentity;
  pp_scale_up : option ScaleUpProvisioning;
}.
#[export] Instance ProvisioningPurpose_eq_dec : EqDecision ProvisioningPurpose.
Proof. solve_decision. Defined.

Record ProvisioningIntent := {
  pi_purpose : ProvisioningPurpose;
  pi_pod_uid : PodUid;
  pi_pvc_uid : PvcUid;
  pi_operation_id : OperationId;
}.
#[export] Instance ProvisioningIntent_eq_dec : EqDecision ProvisioningIntent.
Proof. solve_decision. Defined.

(** [ProvisioningIntent::replica_id] *)
Definition pi_replica_id (p : ProvisioningIntent) : ReplicaId :=
  match pp_kind (pi_purpose p) with
  | PkReplacement => default 0 (replica_id <$> pp_replaces (pi_purpose p))
  | PkScaleUp => default 0 (sup_target_replica_id <$> pp_scale_up (pi_purpose p))
  end.

Definition pi_replacement (p : ProvisioningIntent) : option ReplicaIdentity :=
  if pp_kind (pi_purpose p) == PkReplacement then pp_replaces (pi_purpose p) else None.

Definition pi_scale_up (p : ProvisioningIntent) : option ScaleUpProvisioning :=
  if pp_kind (pi_purpose p) == PkScaleUp then pp_scale_up (pi_purpose p) else None.

Definition pi_instance_id (p : ProvisioningIntent) : ReplicaInstanceId := pi_pod_uid p.

(** ** Builds *)

Inductive BuildAuthorityKind := BuildBootstrap | BuildProvisioning | BuildFailover.
#[export] Instance BuildAuthorityKind_eq_dec : EqDecision BuildAuthorityKind.
Proof. solve_decision. Defined.

Record BuildAuthority := {
  ba_build_id : OperationId;
  ba_kind : BuildAuthorityKind;
  ba_source : ReplicaIdentity;
  ba_target : ReplicaIdentity;
  ba_current_configuration : ConfigurationDescriptor;
  ba_replication_boundary_lsn : Lsn;
}.
#[export] Instance BuildAuthority_eq_dec : EqDecision BuildAuthority.
Proof. solve_decision. Defined.

(** ** Transitions and planned switchover *)

Inductive TransitionKind :=
| Bootstrap | Replacement | Failover | PlannedSwitchover | SecondaryScaleDown | ScaleUp.
#[export] Instance TransitionKind_eq_dec : EqDecision TransitionKind.
Proof. solve_decision. Defined.

Definition kind_tag (k : TransitionKind) : string :=
  match k with
  | Bootstrap => "bootstrap"
  | Replacement => "replacement"
  | Failover => "failover"
  | PlannedSwitchover => "planned-switchover"
  | SecondaryScaleDown => "secondary-scale-down"
  | ScaleUp => "scale-up"
  end.

Inductive PlannedSwitchoverResolution :=
| RequestedTarget | RestoringOldPrimary | CompensatingOldPrimary | ResolutionUnsafe.
#[export] Instance PlannedSwitchoverResolution_eq_dec : EqDecision PlannedSwitchoverResolution.
Proof. solve_decision. Defined.

Record SwitchoverHandoff := {
  sh_preparation_generation : Z;
  sh_preparation_operation_id : OperationId;
  sh_request_id : SwitchoverRequestId;
  sh_source : ReplicaIdentity;
  sh_target : ReplicaIdentity;
  sh_starting_configuration_id : ConfigurationId;
  sh_starting_epoch : Epoch;
  sh_handoff_lsn : Lsn;
}.
#[export] Instance SwitchoverHandoff_eq_dec : EqDecision SwitchoverHandoff.
Proof. solve_decision. Defined.

Record SwitchoverPreparationId := { spi_generation : Z; spi_operation_id : OperationId }.
#[export] Instance SwitchoverPreparationId_eq_dec : EqDecision SwitchoverPreparationId.
Proof. solve_decision. Defined.

Definition sh_preparation (h : SwitchoverHandoff) : SwitchoverPreparationId :=
  {| spi_generation := sh_preparation_generation h;
     spi_operation_id := sh_preparation_operation_id h |}.

Record PlannedSwitchoverIntent := {
  psi_preparation_generation : Z;
  psi_request_id : SwitchoverRequestId;
  psi_source : ReplicaIdentity;
  psi_target : ReplicaIdentity;
  psi_requested_configuration : ConfigurationDescriptor;
  psi_resolution : PlannedSwitchoverResolution;
  psi_handoff : option SwitchoverHandoff;
}.
#[export] Instance PlannedSwitchoverIntent_eq_dec : EqDecision PlannedSwitchoverIntent.
Proof. solve_decision. Defined.

Inductive PlannedSwitchoverOutcome :=
| RequestedTargetCompleted | OldPrimaryRestored | OldPrimaryCompensated
| OutcomeRejected | OutcomeUnsafe.
#[export] Instance PlannedSwitchoverOutcome_eq_dec : EqDecision PlannedSwitchoverOutcome.
Proof. solve_decision. Defined.

Record PlannedSwitchoverReceipt := {
  pso_request_id : SwitchoverRequestId;
  pso_requested_target_replica_id : ReplicaId;
  pso_accepted_target : option ReplicaIdentity;
  pso_resulting_primary : option ReplicaIdentity;
  pso_outcome : PlannedSwitchoverOutcome;
}.
#[export] Instance PlannedSwitchoverReceipt_eq_dec : EqDecision PlannedSwitchoverReceipt.
Proof. solve_decision. Defined.

(** ** Exact Kubernetes resources to clean up *)

Inductive CleanupResourceIdentity :=
| CleanupPresent (name uid : string)
| CleanupAbsent (name : string).
#[export] Instance CleanupResourceIdentity_eq_dec : EqDecision CleanupResourceIdentity.
Proof. solve_decision. Defined.

Definition cleanup_name (c : CleanupResourceIdentity) : string :=
  match c with CleanupPresent name _ | CleanupAbsent name => name end.

(** [matches!(c, Present { uid, .. } if f(uid))] *)
Definition present_and (f : string -> bool) (c : CleanupResourceIdentity) : bool :=
  match c with CleanupPresent _ uid => f uid | CleanupAbsent _ => false end.

Record ReplicaCleanupIdentity := {
  rci_pod : CleanupResourceIdentity;
  rci_pvc : CleanupResourceIdentity;
  rci_endpoint : CleanupResourceIdentity;
}.
#[export] Instance ReplicaCleanupIdentity_eq_dec : EqDecision ReplicaCleanupIdentity.
Proof. solve_decision. Defined.

(** ** Scale-up *)

Record ScaleUpIntent := {
  sui_operation_id : OperationId;
  sui_resource_uid : ResourceUid;
  sui_spec_generation : Z;
  sui_desired_replicas : Z;
  sui_previous_configuration : ConfigurationDescriptor;
  sui_current_configuration : ConfigurationDescriptor;
  sui_previous_policy : EffectivePolicy;
  sui_current_policy : EffectivePolicy;
  sui_primary : ReplicaIdentity;
  sui_target : ReplicaIdentity;
  sui_build_id : OperationId;
  sui_snapshot_boundary_lsn : Lsn;
  sui_catch_up_boundary_lsn : Lsn;
}.
#[export] Instance ScaleUpIntent_eq_dec : EqDecision ScaleUpIntent.
Proof. solve_decision. Defined.

Inductive ScaleUpStage := SuPreviousCurrent | SuCurrentOnly | SuAcceptCommit.
#[export] Instance ScaleUpStage_eq_dec : EqDecision ScaleUpStage.
Proof. solve_decision. Defined.

Definition scale_up_stage_tag (s : ScaleUpStage) : string :=
  match s with
  | SuPreviousCurrent => "pc-cc"
  | SuCurrentOnly => "current-only"
  | SuAcceptCommit => "accept-commit"
  end.

Record ScaleUpWitness := {
  suw_resource_uid : ResourceUid;
  suw_identity : ReplicaIdentity;
  suw_role : ReplicaRole;
  suw_process_session_id : ProcessSessionId;
  suw_report_sequence : Z;
  suw_epoch : Epoch;
  suw_previous_configuration_id : option ConfigurationId;
  suw_current_configuration_id : ConfigurationId;
  suw_verified_replication_lsn : Lsn;
  suw_write_status : AccessStatus;
  suw_pending_operation_id : option OperationId;
  suw_retained_operation_id : option OperationId;
}.
#[export] Instance ScaleUpWitness_eq_dec : EqDecision ScaleUpWitness.
Proof. solve_decision. Defined.

Record ScaleUpFinalWitness := {
  sfw_replica_id : ReplicaId;
  sfw_process_session_id : ProcessSessionId;
  sfw_report_sequence : Z;
  sfw_current_progress : Lsn;
  sfw_committed_lsn : Lsn;
  sfw_deactivated_lsn : Lsn;
  sfw_fence_operation_id : OperationId;
}.
#[export] Instance ScaleUpFinalWitness_eq_dec : EqDecision ScaleUpFinalWitness.
Proof. solve_decision. Defined.

Record ScaleUpFinalElectionEvidence := {
  sfe_selected_primary_replica_id : ReplicaId;
  sfe_witnesses : list ScaleUpFinalWitness;
  sfe_previous_read_quorum : list ReplicaId;
  sfe_current_read_quorum : list ReplicaId;
}.
#[export] Instance ScaleUpFinalElectionEvidence_eq_dec : EqDecision ScaleUpFinalElectionEvidence.
Proof. solve_decision. Defined.

Definition sfe_selected_primary (e : ScaleUpFinalElectionEvidence)
    (provisional : ConfigurationDescriptor) : option ReplicaIdentity :=
  cm_identity <$>
    List.find (fun m => member_id m == sfe_selected_primary_replica_id e) (cd_members provisional).

Definition sfe_witness (e : ScaleUpFinalElectionEvidence) (id : ReplicaId)
    : option ScaleUpFinalWitness :=
  List.find (fun w => sfw_replica_id w == id) (sfe_witnesses e).

Definition safe_lsn (e : ScaleUpFinalElectionEvidence) : option Lsn :=
  (fun w => Z.min (sfw_current_progress w) (sfw_deactivated_lsn w)) <$>
    sfe_witness e (sfe_selected_primary_replica_id e).

Record ScaleUpFailoverEvidence := {
  sufe_intent : ScaleUpIntent;
  sufe_provisional_configuration : ConfigurationDescriptor;
  sufe_previous_read_quorum : list ScaleUpWitness;
  sufe_current_read_quorum : list ScaleUpWitness;
  sufe_final_election : option ScaleUpFinalElectionEvidence;
}.
#[export] Instance ScaleUpFailoverEvidence_eq_dec : EqDecision ScaleUpFailoverEvidence.
Proof. solve_decision. Defined.

Definition same_provisional_authority (a b : ScaleUpFailoverEvidence) : bool :=
  (sufe_intent a == sufe_intent b)
  && (sufe_provisional_configuration a == sufe_provisional_configuration b)
  && (sufe_previous_read_quorum a == sufe_previous_read_quorum b)
  && (sufe_current_read_quorum a == sufe_current_read_quorum b).

Inductive ScaleUpConfigurationEvidence :=
| Admission (intent : ScaleUpIntent)
| FailoverEvidence (evidence : ScaleUpFailoverEvidence).
#[export] Instance ScaleUpConfigurationEvidence_eq_dec : EqDecision ScaleUpConfigurationEvidence.
Proof. solve_decision. Defined.

Definition evidence_intent (e : ScaleUpConfigurationEvidence) : ScaleUpIntent :=
  match e with
  | Admission intent => intent
  | FailoverEvidence evidence => sufe_intent evidence
  end.

Record ScaleUpCleanup := {
  suc_provisioning : ProvisioningIntent;
  suc_target : ReplicaIdentity;
  suc_resources : ReplicaCleanupIdentity;
}.
#[export] Instance ScaleUpCleanup_eq_dec : EqDecision ScaleUpCleanup.
Proof. solve_decision. Defined.

Record ScaleUpFailoverReceiptEvidence := {
  sufr_provisional_primary_replica_id : ReplicaId;
  sufr_previous_read_quorum : list ScaleUpWitness;
  sufr_current_read_quorum : list ScaleUpWitness;
  sufr_final_election : ScaleUpFinalElectionEvidence;
}.
#[export] Instance ScaleUpFailoverReceiptEvidence_eq_dec :
  EqDecision ScaleUpFailoverReceiptEvidence.
Proof. solve_decision. Defined.

(** [ScaleUpFailoverReceiptEvidence::from_evidence] *)
Definition receipt_from_evidence (e : ScaleUpFailoverEvidence)
    : option ScaleUpFailoverReceiptEvidence :=
  final ← sufe_final_election e;
  Some {| sufr_provisional_primary_replica_id := cd_primary_id (sufe_provisional_configuration e);
          sufr_previous_read_quorum := sufe_previous_read_quorum e;
          sufr_current_read_quorum := sufe_current_read_quorum e;
          sufr_final_election := final |}.

Record ScaleUpReceipt := {
  sur_intent : ScaleUpIntent;
  sur_accepted_configuration : ConfigurationDescriptor;
  sur_failover_evidence : option ScaleUpFailoverReceiptEvidence;
  sur_failover_safe_lsn : option Lsn;
  sur_current_only_write_quorum : list ScaleUpWitness;
}.
#[export] Instance ScaleUpReceipt_eq_dec : EqDecision ScaleUpReceipt.
Proof. solve_decision. Defined.

(** ** Replacement and secondary scale-down *)

Record ReplacementCleanup := {
  rc_resource_uid : ResourceUid;
  rc_target : ReplicaIdentity;
  rc_resources : ReplicaCleanupIdentity;
}.
#[export] Instance ReplacementCleanup_eq_dec : EqDecision ReplacementCleanup.
Proof. solve_decision. Defined.

Record SecondaryScaleDownIntent := {
  sdi_operation_id : OperationId;
  sdi_resource_uid : ResourceUid;
  sdi_spec_generation : Z;
  sdi_desired_replicas : Z;
  sdi_previous_configuration : ConfigurationDescriptor;
  sdi_current_configuration : ConfigurationDescriptor;
  sdi_previous_policy : EffectivePolicy;
  sdi_current_policy : EffectivePolicy;
  sdi_primary : ReplicaIdentity;
  sdi_target : ReplicaIdentity;
  sdi_cleanup : ReplicaCleanupIdentity;
}.
#[export] Instance SecondaryScaleDownIntent_eq_dec : EqDecision SecondaryScaleDownIntent.
Proof. solve_decision. Defined.

Inductive SecondaryRemovalStage :=
| SrPrepare | SrPreviousCurrent | SrCurrentOnly | SrAcceptCommit | SrRetire.
#[export] Instance SecondaryRemovalStage_eq_dec : EqDecision SecondaryRemovalStage.
Proof. solve_decision. Defined.

Definition removal_stage_tag (s : SecondaryRemovalStage) : string :=
  match s with
  | SrPrepare => "prepare"
  | SrPreviousCurrent => "pc-cc"
  | SrCurrentOnly => "current-only"
  | SrAcceptCommit => "accept-commit"
  | SrRetire => "retire"
  end.

Record SecondaryRemovalPreparation := {
  srp_intent : SecondaryScaleDownIntent;
  srp_operation_id : OperationId;
  srp_process_session_id : ProcessSessionId;
  srp_report_sequence : Z;
  srp_boundary_lsn : Lsn;
}.
#[export] Instance SecondaryRemovalPreparation_eq_dec : EqDecision SecondaryRemovalPreparation.
Proof. solve_decision. Defined.

Record SecondaryRemovalWitness := {
  srw_resource_uid : ResourceUid;
  srw_identity : ReplicaIdentity;
  srw_role : ReplicaRole;
  srw_process_session_id : ProcessSessionId;
  srw_report_sequence : Z;
  srw_epoch : Epoch;
  srw_previous_configuration_id : option ConfigurationId;
  srw_current_configuration_id : ConfigurationId;
  srw_verified_replication_lsn : Lsn;
  srw_write_status : AccessStatus;
  srw_pending_operation_id : option OperationId;
  srw_retained_operation_id : option OperationId;
}.
#[export] Instance SecondaryRemovalWitness_eq_dec : EqDecision SecondaryRemovalWitness.
Proof. solve_decision. Defined.

Record SecondaryRemovalEvidence := {
  sre_preparation : SecondaryRemovalPreparation;
  sre_previous_read_quorum : list SecondaryRemovalWitness;
  sre_reduced_write_quorum : list SecondaryRemovalWitness;
}.
#[export] Instance SecondaryRemovalEvidence_eq_dec : EqDecision SecondaryRemovalEvidence.
Proof. solve_decision. Defined.

Record ReplicaRetirementReport := {
  rrr_intent : SecondaryScaleDownIntent;
  rrr_operation_id : OperationId;
  rrr_process_session_id : ProcessSessionId;
  rrr_report_sequence : Z;
  rrr_epoch : Epoch;
  rrr_role : ReplicaRole;
  rrr_read_status : AccessStatus;
  rrr_write_status : AccessStatus;
  rrr_application_closed : bool;
  rrr_peers_fenced : bool;
}.
#[export] Instance ReplicaRetirementReport_eq_dec : EqDecision ReplicaRetirementReport.
Proof. solve_decision. Defined.

Record SecondaryScaleDownCleanup := {
  sdc_evidence : SecondaryRemovalEvidence;
  sdc_current_only_write_quorum : list SecondaryRemovalWitness;
  sdc_retirement : option ReplicaRetirementReport;
}.
#[export] Instance SecondaryScaleDownCleanup_eq_dec : EqDecision SecondaryScaleDownCleanup.
Proof. solve_decision. Defined.

Record SecondaryRemovalReceipt := {
  srr_evidence : SecondaryRemovalEvidence;
  srr_current_only_write_quorum : list SecondaryRemovalWitness;
}.
#[export] Instance SecondaryRemovalReceipt_eq_dec : EqDecision SecondaryRemovalReceipt.
Proof. solve_decision. Defined.

(** [SecondaryRemovalReceipt::committed] *)
Definition srr_committed (r : SecondaryRemovalReceipt) : SecondaryScaleDownCleanup :=
  {| sdc_evidence := srr_evidence r;
     sdc_current_only_write_quorum := srr_current_only_write_quorum r;
     sdc_retirement := None |}.

(** ** Derived identifiers *)

Section identifiers.
Context `{Sha256}.

Definition identity_parts (i : ReplicaIdentity) : list string :=
  [pretty (replica_id i); instance_id i; agent_generation i].

Definition sua_expected_operation_id (a : ScaleUpAllocation) : OperationId :=
  "scale-up-allocation-" +:+ digest_parts
    ([sua_resource_uid a; pretty (sua_spec_generation a); pretty (sua_desired_replicas a);
      sua_previous_configuration_id a; pretty (sua_target_replica_id a)] ++
     option_list (sua_previous_operation_id a)).

Definition sua_observation_target (a : ScaleUpAllocation) : ReplicaIdentity :=
  {| replica_id := sua_target_replica_id a;
     instance_id := sua_operation_id a;
     agent_generation := sua_operation_id a |}.

Definition derive_initialization_id (resource : ResourceUid) (id : ReplicaId)
    (pod : PodUid) (pvc : PvcUid) : InitializationId :=
  "init-" +:+ digest_parts [resource; pretty id; pod; pvc].

Definition derive_agent_generation (initialization : InitializationId) : AgentGeneration :=
  digest_parts ["agent"; initialization].

Definition pi_initialization_id (p : ProvisioningIntent) (resource : ResourceUid)
    : InitializationId :=
  derive_initialization_id resource (pi_replica_id p) (pi_pod_uid p) (pi_pvc_uid p).

Definition pi_assigned_agent_generation (p : ProvisioningIntent) (resource : ResourceUid)
    : AgentGeneration :=
  derive_agent_generation (pi_initialization_id p resource).

Definition pi_target_identity (p : ProvisioningIntent) (resource : ResourceUid)
    : ReplicaIdentity :=
  {| replica_id := pi_replica_id p;
     instance_id := pi_instance_id p;
     agent_generation := pi_assigned_agent_generation p resource |}.

Definition pi_expected_operation_id (p : ProvisioningIntent) : OperationId :=
  match pp_kind (pi_purpose p) with
  | PkReplacement => pi_operation_id p
  | PkScaleUp =>
      match pp_scale_up (pi_purpose p) with
      | None => ""
      | Some s =>
          "scale-up-provisioning-" +:+ digest_parts
            [sup_resource_uid s; pretty (sup_spec_generation s);
             pretty (sup_desired_replicas s);
             cd_configuration_id (sup_previous_configuration s);
             pretty (sup_target_replica_id s); pi_pod_uid p; pi_pvc_uid p]
      end
  end.

Definition pi_scale_up_build_id (p : ProvisioningIntent) (resource : ResourceUid)
    : option OperationId :=
  (fun _ => "scale-up-build-" +:+ digest_parts
              (pi_operation_id p :: identity_parts (pi_target_identity p resource)))
    <$> pi_scale_up p.

Definition sui_expected_operation_id (i : ScaleUpIntent) : OperationId :=
  "scale-up-" +:+ digest_parts
    ([sui_resource_uid i; pretty (sui_spec_generation i); pretty (sui_desired_replicas i);
      cd_configuration_id (sui_previous_configuration i);
      cd_configuration_id (sui_current_configuration i)] ++
     identity_parts (sui_target i) ++
     [sui_build_id i; pretty (sui_snapshot_boundary_lsn i);
      pretty (sui_catch_up_boundary_lsn i)]).

Definition sui_command_operation_id (i : ScaleUpIntent) (stage : ScaleUpStage)
    (target : ReplicaIdentity) (authority : ConfigurationDescriptor) : OperationId :=
  "scale-up-command-" +:+ digest_parts
    ([sui_operation_id i; scale_up_stage_tag stage] ++ identity_parts target ++
     [cd_configuration_id authority]).

Definition sui_transition_id (i : ScaleUpIntent) (kind : TransitionKind)
    (authority : ConfigurationDescriptor) : TransitionId :=
  "scale-up-transition-" +:+ digest_parts
    [sui_operation_id i; kind_tag kind; cd_configuration_id authority].

(** [ScaleUpFinalElectionEvidence::final_configuration] *)
Definition sfe_final_configuration (e : ScaleUpFinalElectionEvidence)
    (provisional : ConfigurationDescriptor) : option ConfigurationDescriptor :=
  selected ← sfe_selected_primary e provisional;
  number ← i64_checked_add (configuration_number (cd_epoch provisional)) 1;
  Some (new_configuration
          (mkEpoch (data_loss_number (cd_epoch provisional)) number)
          (sfe_selected_primary_replica_id e)
          (map (fun m => {| cm_identity := cm_identity m;
                            cm_role := if cm_identity m == selected
                                       then Primary else ActiveSecondary |})
               (cd_members provisional))
          (cd_write_quorum provisional)).

(** [ScaleUpFailoverReceiptEvidence::expand] *)
Definition sufr_expand (r : ScaleUpFailoverReceiptEvidence) (intent : ScaleUpIntent)
    : option ScaleUpFailoverEvidence :=
  let current := sui_current_configuration intent in
  let primary := sufr_provisional_primary_replica_id r in
  if existsb (fun m => member_id m == primary) (cd_members current) then
    number ← i64_checked_add (configuration_number (cd_epoch current)) 1;
    Some {| sufe_intent := intent;
            sufe_provisional_configuration :=
              new_configuration
                (mkEpoch (data_loss_number (cd_epoch current)) number)
                primary
                (map (fun m => {| cm_identity := cm_identity m;
                                  cm_role := if member_id m == primary
                                             then Primary else ActiveSecondary |})
                     (cd_members current))
                (write_quorum (sui_current_policy intent));
            sufe_previous_read_quorum := sufr_previous_read_quorum r;
            sufe_current_read_quorum := sufr_current_read_quorum r;
            sufe_final_election := Some (sufr_final_election r) |}
  else None.

Definition sur_expanded_failover_evidence (r : ScaleUpReceipt)
    : option ScaleUpFailoverEvidence :=
  e ← sur_failover_evidence r; sufr_expand e (sur_intent r).

(** [ReplacementCleanup::provenance] *)
Definition rc_provenance (c : ReplacementCleanup) : string :=
  let resource_parts r :=
    match r with
    | CleanupPresent name uid => ["present"; name; uid]
    | CleanupAbsent name => ["absent"; name; ""]
    end in
  digest_parts
    ([rc_resource_uid c] ++ identity_parts (rc_target c) ++
     concat (map resource_parts
               [rci_pod (rc_resources c); rci_pvc (rc_resources c);
                rci_endpoint (rc_resources c)])).

Definition rc_provisioning_operation_id (c : ReplacementCleanup) (pod : PodUid) (pvc : PvcUid)
    : OperationId :=
  "replacement-provisioning-" +:+ digest_parts [rc_provenance c; pod; pvc].

Definition rc_transition_id (c : ReplacementCleanup) (kind : TransitionKind)
    (configuration : ConfigurationId) : TransitionId :=
  "transition-" +:+ digest_parts [rc_provenance c; kind_tag kind; configuration].

Definition sdi_expected_operation_id (i : SecondaryScaleDownIntent) : OperationId :=
  "secondary-scale-down-" +:+ digest_parts
    ([sdi_resource_uid i; pretty (sdi_spec_generation i); pretty (sdi_desired_replicas i);
      cd_configuration_id (sdi_previous_configuration i);
      cd_configuration_id (sdi_current_configuration i)] ++
     identity_parts (sdi_target i)).

Definition sdi_command_operation_id (i : SecondaryScaleDownIntent)
    (stage : SecondaryRemovalStage) (target : ReplicaIdentity) : OperationId :=
  "secondary-removal-" +:+ digest_parts
    ([sdi_operation_id i; removal_stage_tag stage] ++ identity_parts target).

Definition derive_transition_id (resource : ResourceUid) (kind : TransitionKind)
    (configuration : ConfigurationId) : TransitionId :=
  "transition-" +:+ digest_parts [resource; kind_tag kind; configuration].

Definition derive_replacement_operation_id (resource : ResourceUid)
    (replacing : ReplicaIdentity) (pod : PodUid) (pvc : PvcUid) : OperationId :=
  "replacement-provisioning-" +:+ digest_parts
    ([resource] ++ identity_parts replacing ++ [pod; pvc]).

Definition derive_failover_repair_operation_id (resource : ResourceUid)
    (transition : TransitionId) (target : ReplicaIdentity) : OperationId :=
  "failover-repair-" +:+ digest_parts ([resource; transition] ++ identity_parts target).

Definition derive_switchover_preparation_operation_id (resource : ResourceUid)
    (request : SwitchoverRequestId) (generation : Z) (starting : ConfigurationId)
    (source target : ReplicaIdentity) : OperationId :=
  "switchover-prepare-" +:+ digest_parts
    ([resource; request; pretty generation; starting] ++
     identity_parts source ++ identity_parts target).

(** [digest[..24]] and [digest[..20]]; the digest has 64 characters. *)
Definition derive_replica_endpoint_name (resource : ResourceUid) (identity : ReplicaIdentity)
    : string :=
  "kr-" +:+ String.substring 0 24 (digest_parts ([resource] ++ identity_parts identity)).

Definition derive_replacement_resource_name (resource : ResourceUid)
    (replacing : ReplicaIdentity) : string :=
  "krp-" +:+ String.substring 0 20
    (digest_parts [resource; pretty (replica_id replacing); instance_id replacing]).

End identifiers.

(** ** Operation identifiers bind what they authorize *)

Section binding.
Context `{Sha256}.

Lemma identity_parts_inj i j : identity_parts i = identity_parts j -> i = j.
Proof.
  unfold identity_parts. intros [= Hr Hi Hg]. apply (inj pretty) in Hr.
  destruct i, j; simpl in *. congruence.
Qed.

Lemma removal_stage_tag_inj s s' : removal_stage_tag s = removal_stage_tag s' -> s = s'.
Proof. by destruct s, s'. Qed.

Lemma scale_up_stage_tag_inj s s' : scale_up_stage_tag s = scale_up_stage_tag s' -> s = s'.
Proof. by destruct s, s'. Qed.

(** The parts hashed for a removal command. *)
Definition removal_command_parts (i : SecondaryScaleDownIntent) (stage : SecondaryRemovalStage)
    (target : ReplicaIdentity) : list string :=
  [sdi_operation_id i; removal_stage_tag stage] ++ identity_parts target.

(** The parts hashed for a scale-up command. *)
Definition scale_up_command_parts (i : ScaleUpIntent) (stage : ScaleUpStage)
    (target : ReplicaIdentity) (authority : ConfigurationDescriptor) : list string :=
  [sui_operation_id i; scale_up_stage_tag stage] ++ identity_parts target ++
  [cd_configuration_id authority].

(** The operation identifier of a secondary-removal command binds the
    removal, its stage and the exact replica that executes it: equal identifiers
    have all three equal, or exhibit a collision of SHA-256. *)
Theorem removal_command_id_binds i j s s' t t' :
  Forall short (removal_command_parts i s t) -> Forall short (removal_command_parts j s' t') ->
  sdi_command_operation_id i s t = sdi_command_operation_id j s' t' ->
  (sdi_operation_id i = sdi_operation_id j /\ s = s' /\ t = t') \/
  collide (digest_preimage (removal_command_parts i s t))
    (digest_preimage (removal_command_parts j s' t')).
Proof.
  intros Hs Hs' Heq. apply app_string_inj, digest_parts_inj in Heq as [Heq|]; [left|by right|done..].
  injection Heq as Hop Htag Hid Hi Hg. split_and!; [done|by apply removal_stage_tag_inj|].
  apply identity_parts_inj. unfold identity_parts. congruence.
Qed.

(** The operation identifier of a scale-up command binds the scale-up, its
    stage, the executing replica and the configuration it installs, or exhibits
    a collision; and no scale-up command shares its identifier with a
    secondary-removal command. *)
Theorem scale_up_command_id_binds i j s s' t t' a a' k r u :
  Forall short (scale_up_command_parts i s t a) -> Forall short (scale_up_command_parts j s' t' a') ->
  (sui_command_operation_id i s t a = sui_command_operation_id j s' t' a' ->
   (sui_operation_id i = sui_operation_id j /\ s = s' /\ t = t' /\
    cd_configuration_id a = cd_configuration_id a') \/
   collide (digest_preimage (scale_up_command_parts i s t a))
     (digest_preimage (scale_up_command_parts j s' t' a'))) /\
  sui_command_operation_id i s t a <> sdi_command_operation_id k r u.
Proof.
  intros Hs Hs'. split; [|done]. intros Heq.
  apply app_string_inj, digest_parts_inj in Heq as [Heq|]; [left|by right|done..].
  injection Heq as Hop Htag Hid Hi Hg Hc.
  split_and!; [done|by apply scale_up_stage_tag_inj| |done].
  apply identity_parts_inj. unfold identity_parts. congruence.
Qed.

End binding.

#[local] Existing Instance padding_sha256.

Definition sample_removal : SecondaryScaleDownIntent :=
  {| sdi_operation_id := "op"; sdi_resource_uid := "set"; sdi_spec_generation := 1;
     sdi_desired_replicas := 1; sdi_previous_configuration := sample_configuration;
     sdi_current_configuration := sample_configuration;
     sdi_previous_policy := Build_EffectivePolicy 2 2 1 0;
     sdi_current_policy := Build_EffectivePolicy 1 1 1 0;
     sdi_primary := Build_ReplicaIdentity 1 "a" "g"; sdi_target := Build_ReplicaIdentity 2 "b" "g";
     sdi_cleanup := {| rci_pod := CleanupAbsent "p"; rci_pvc := CleanupAbsent "v";
                       rci_endpoint := CleanupAbsent "e" |} |}.

Lemma removal_command_id_binds_witness :
  SrPrepare = SrPrepare \/
  collide (digest_preimage (removal_command_parts sample_removal SrPrepare (sdi_primary sample_removal)))
    (digest_preimage (removal_command_parts sample_removal SrPrepare (sdi_primary sample_removal))).
Proof.
  destruct (removal_command_id_binds sample_removal sample_removal SrPrepare SrPrepare
              (sdi_primary sample_removal) (sdi_primary sample_removal)) as [(_ & Hs & _)|Hc].
  - apply (bool_decide_unpack _). by vm_compute.
  - apply (bool_decide_unpack _). by vm_compute.
  - reflexivity.
  - left. exact Hs.
  - right. exact Hc.
Defined.

Definition sample_scale_up : ScaleUpIntent :=
  {| sui_operation_id := "op"; sui_resource_uid := "set"; sui_spec_generation := 1;
     sui_desired_replicas := 3; sui_previous_configuration := sample_configuration;
     sui_current_configuration := sample_configuration;
     sui_previous_policy := Build_EffectivePolicy 2 2 1 0;
     sui_current_policy := Build_EffectivePolicy 3 2 2 0;
     sui_primary := Build_ReplicaIdentity 1 "a" "g"; sui_target := Build_ReplicaIdentity 3 "c" "g";
     sui_build_id := "build"; sui_snapshot_boundary_lsn := 0; sui_catch_up_boundary_lsn := 0 |}.

Lemma scale_up_command_id_binds_witness :
  sui_command_operation_id sample_scale_up SuCurrentOnly (sui_target sample_scale_up)
    sample_configuration
  <> sdi_command_operation_id sample_removal SrPrepare (sdi_primary sample_removal).
Proof.
  apply (scale_up_command_id_binds sample_scale_up sample_scale_up SuCurrentOnly SuCurrentOnly
           (sui_target sample_scale_up) (sui_target sample_scale_up) sample_configuration
           sample_configuration); apply (bool_decide_unpack _); by vm_compute.
Defined.
