(* ===== verification/Validation.v ===== *)
(** * Fail-closed validation of configurations and transitions
      ([protocol/validation.rs])

    [validate_policy], [validate_configuration] and
    [validate_transition_relationship], the switchover certificates, and
    [BuildAuthority::validate] of [protocol/types.rs]. *)

From S2P Require Import Prelude Digest Types Intents.
From stdpp Require Import base gmap strings list sorting pretty.
From Stdlib Require Import ZArith Lia.
Local Open Scope Z_scope.

Inductive ValidationError :=
| InvalidPublicFault (reason : string)
| InvalidScaleUp (reason : string)
| InvalidSecondaryScaleDown (reason : string)
| DesiredReplicasZero
| InitializedWithoutTopology
| InitializedWithoutPolicy
| PolicyBeforeInitialization
| TransitionPolicyMismatch
| TopologyBeforeInitialization
| ProvisioningAndTransition
| ProvisioningWithoutTopology
| ConfigurationIdMismatch (actual expected : string)
| EmptyConfiguration
| InvalidConfigurationEpoch
| DuplicateReplicaIds (ids : list Z)
| InvalidReplicaId (id : Z)
| DuplicateReplicaIdentity (identity : string)
| MissingPrimary (id : Z)
| InvalidPrimaryCount (count : nat)
| ReplicaSetSizeMismatch (actual expected : Z)
| WriteQuorumMismatch (actual expected : Z)
| InvalidEffectivePolicy (size : Z)
| BootstrapHasPreviousConfiguration
| BootstrapHasTopology
| TransitionWithoutTopology
| PreviousConfigurationMismatch (actual : option string) (expected : string)
| TransitionDataLossChanged
| TransitionEpochNotNewer
| TransitionLogicalMembershipChanged
| FailoverMembershipChanged
| FailoverReplacementWithoutBuild
| InvalidFailoverRepairTarget
| InvalidFailoverElectionLsn
| InvalidReplacementMembership
| InvalidReplacementCleanup
| ReplacementPrimaryChanged
| BuildSourceNotPrimary
| InvalidBootstrapBuildTarget
| ProvisioningBuildTargetInAuthority
| NegativeBuildBoundary
| ProvisioningReusesAcceptedIncarnation
| InvalidProvisioningReplacement
| ReplicaObservationKeyMismatch (key reported : string)
| KubernetesObservationKeyMismatch
| ReplicaResourceMismatch (id : Z)
| StaleReportSequence (id observed previous : Z)
| StaleReplicaEpoch (id : Z) (observed accepted : Epoch)
| ConflictingReplicaConfiguration (id : Z) (epoch : Epoch)
| ConflictingReplicaIdentity (id : Z)
| EstablishedStoreMissing (id : Z)
| InvalidReplicaReportAuthority (id : Z)
| UnauthorizedReplicaEpoch (id : Z) (observed authorized : Epoch)
| ProvisioningClaimsAuthority (id : Z)
| UnrelatedReplicaClaimsAuthority (id : Z)
| BootstrapHasUnrelatedAuthority
| BootstrapWriteGranted (id : Z)
| BootstrapRoleConflict (id : Z)
| ConflictingPrimaryClaims (ids : list Z)
| UninitializedScaffoldingMismatch
| UninitializedProvisioningMismatch
| BootstrapReportHasPreviousConfiguration (id : Z)
| ReportedPreviousConfigurationMismatch (id : Z)
| PrimaryFailureMismatch
| QuorumLossMismatch
| UnexpectedSwitchoverIntent
| MissingSwitchoverIntent
| InvalidSwitchoverSource
| InvalidSwitchoverTarget
| InvalidSwitchoverResolution
| InvalidSwitchoverEvidence
| InvalidSwitchoverHandoff
| InvalidSwitchoverReceipt.

Abbreviation validation := (res ValidationError unit).

Definition validate_policy (policy : EffectivePolicy) : validation :=
  let? expected := ok_or (policy_fixed (replica_set_size policy) (failover_delay_seconds policy))
                     (InvalidEffectivePolicy (replica_set_size policy)) in
  reject ((write_quorum policy != write_quorum expected)
          || (read_quorum policy != read_quorum expected))
    (InvalidEffectivePolicy (replica_set_size policy)) ;?
  Ok tt.

Definition incarnation (m : ConfigurationMember) : string * string :=
  (instance_id (cm_identity m), agent_generation (cm_identity m)).

(** The loop that looks for two members with one incarnation and generation. *)
Definition insert_incarnation (seen : gset (string * string)) (m : ConfigurationMember)
    : res ValidationError (gset (string * string)) :=
  let key := incarnation m in
  if decide (key ∈ seen)
  then Err (DuplicateReplicaIdentity (key.1 +:+ "@" +:+ key.2))
  else Ok ({[key]} ∪ seen).

Section validation.
Context `{Sha256}.

Definition validate_configuration (c : ConfigurationDescriptor)
    (policy : option EffectivePolicy) : validation :=
  reject ((data_loss_number (cd_epoch c) <? 0) || (configuration_number (cd_epoch c) <? 0))
    InvalidConfigurationEpoch ;?
  reject (cd_members c == []) EmptyConfiguration ;?
  reject (cd_configuration_id c != expected_id c)
    (ConfigurationIdMismatch (cd_configuration_id c) (expected_id c)) ;?
  reject (duplicate_replica_ids (cd_members c) != ∅)
    (DuplicateReplicaIds (sorted_elements (duplicate_replica_ids (cd_members c)))) ;?
  match List.find (fun id => id <=? 0) (map member_id (cd_members c)) with
  | Some invalid => Err (InvalidReplicaId invalid)
  | None =>
  try_fold insert_incarnation ∅ (cd_members c) ;?
  match List.filter is_primary (cd_members c) with
  | [primary] =>
      reject (member_id primary != cd_primary_id c) (MissingPrimary (cd_primary_id c)) ;?
      let actual_size := as_u32 (Z.of_nat (length (cd_members c))) in
      let? expected := expect (or_else policy (policy_fixed actual_size 0)) in
      reject (actual_size != replica_set_size expected)
        (ReplicaSetSizeMismatch actual_size (replica_set_size expected)) ;?
      reject (cd_write_quorum c != write_quorum expected)
        (WriteQuorumMismatch (cd_write_quorum c) (write_quorum expected)) ;?
      Ok tt
  | primaries => Err (InvalidPrimaryCount (length primaries))
  end
  end.

(** [exact_identities] *)
Definition exact_identities (c : ConfigurationDescriptor) : gset ReplicaIdentity :=
  list_to_set (map cm_identity (cd_members c)).

Definition logical_ids (c : ConfigurationDescriptor) : gset Z :=
  list_to_set (map member_id (cd_members c)).

(** The members of [previous] whose incarnation is not the one [current]
    holds for the same logical replica. *)
Definition changed_members (previous current : ConfigurationDescriptor)
    : list ConfigurationMember :=
  List.filter
    (fun m => is_none_or (fun n => cm_identity n != cm_identity m)
                (List.find (fun n => member_id n == member_id m) (cd_members current)))
    (cd_members previous).

Definition valid_single_non_primary_incarnation_change
    (previous current : ConfigurationDescriptor) : bool :=
  match changed_members previous current with
  | [m] => member_id m != cd_primary_id previous
  | _ => false
  end.

Definition validate_transition_relationship (kind : TransitionKind)
    (previous : option ConfigurationDescriptor) (current : ConfigurationDescriptor)
    (policy : EffectivePolicy) : validation :=
  reject (kind == SecondaryScaleDown)
    (InvalidSecondaryScaleDown "requires explicit dual-policy removal intent") ;?
  reject (kind == ScaleUp)
    (InvalidScaleUp "requires explicit dual-policy scale-up intent") ;?
  validate_policy policy ;?
  validate_configuration current (Some policy) ;?
  if kind == Bootstrap then
    reject (is_some previous) BootstrapHasPreviousConfiguration
  else
  let? previous := ok_or previous TransitionWithoutTopology in
  validate_configuration previous (Some policy) ;?
  reject (data_loss_number (cd_epoch current) != data_loss_number (cd_epoch previous))
    TransitionDataLossChanged ;?
  reject (configuration_number (cd_epoch current) <=? configuration_number (cd_epoch previous))
    TransitionEpochNotNewer ;?
  reject (logical_ids previous != logical_ids current) TransitionLogicalMembershipChanged ;?
  match kind with
  | ScaleUp | SecondaryScaleDown | Bootstrap => Panic
  | Failover =>
      reject ((exact_identities previous != exact_identities current)
              && negb (valid_single_non_primary_incarnation_change previous current))
        FailoverMembershipChanged
  | Replacement =>
      reject (cd_primary_id current != cd_primary_id previous) ReplacementPrimaryChanged ;?
      match changed_members previous current with
      | [m] => reject (member_id m == cd_primary_id previous) InvalidReplacementMembership
      | _ => Err InvalidReplacementMembership
      end
  | PlannedSwitchover =>
      reject (exact_identities previous != exact_identities current) FailoverMembershipChanged
  end.

Definition valid_exact_identity (i : ReplicaIdentity) : bool :=
  (0 <? replica_id i) && negb (is_empty (instance_id i)) && negb (is_empty (agent_generation i)).

Definition validate_switchover_handoff (h : SwitchoverHandoff) : validation :=
  reject ((sh_preparation_generation h == 0)
          || is_empty (sh_preparation_operation_id h)
          || is_empty (sh_request_id h)
          || (sh_source h == sh_target h)
          || negb (valid_exact_identity (sh_source h))
          || negb (valid_exact_identity (sh_target h))
          || is_empty (sh_starting_configuration_id h)
          || (data_loss_number (sh_starting_epoch h) <? 0)
          || (configuration_number (sh_starting_epoch h) <? 0)
          || (sh_handoff_lsn h <? 0))
    InvalidSwitchoverHandoff.

Definition validate_switchover_receipt (r : PlannedSwitchoverReceipt) : validation :=
  reject (is_empty (pso_request_id r) || (pso_requested_target_replica_id r <=? 0))
    InvalidSwitchoverReceipt ;?
  reject (is_some_and (fun t => negb (valid_exact_identity t)
                                || (replica_id t != pso_requested_target_replica_id r))
            (pso_accepted_target r)
          || is_some_and (fun i => negb (valid_exact_identity i)) (pso_resulting_primary r))
    InvalidSwitchoverReceipt ;?
  match pso_outcome r with
  | RequestedTargetCompleted =>
      reject (is_none (pso_accepted_target r)
              || (pso_resulting_primary r != pso_accepted_target r)) InvalidSwitchoverReceipt
  | OldPrimaryRestored | OldPrimaryCompensated =>
      reject (is_none_or (fun p => replica_id p == pso_requested_target_replica_id r)
                (pso_resulting_primary r)) InvalidSwitchoverReceipt
  | OutcomeRejected => Ok tt
  | OutcomeUnsafe => reject (is_some (pso_resulting_primary r)) InvalidSwitchoverReceipt
  end.

(** The member that a validated configuration elects:
    [members.iter().find(|m| m.replica_id == primary_id && m.role == Primary)]. *)
Definition find_primary (c : ConfigurationDescriptor) : option ConfigurationMember :=
  List.find (fun m => (member_id m == cd_primary_id c) && (cm_role m == Primary)) (cd_members c).

Definition find_member (i : ReplicaIdentity) (c : ConfigurationDescriptor)
    : option ConfigurationMember :=
  List.find (fun m => cm_identity m == i) (cd_members c).

(** [members.iter().any(|m| m.identity == identity)] *)
Definition has_member (c : ConfigurationDescriptor) (i : ReplicaIdentity) : bool :=
  existsb (fun m => cm_identity m == i) (cd_members c).

(** [members.iter().any(|m| m.identity == identity && m.role == role)] *)
Definition has_member_with_role (c : ConfigurationDescriptor) (i : ReplicaIdentity)
    (role : ReplicaRole) : bool :=
  existsb (fun m => (cm_identity m == i) && (cm_role m == role)) (cd_members c).

(** [BuildAuthority::validate] *)
Definition validate_build_authority (a : BuildAuthority) : validation :=
  validate_configuration (ba_current_configuration a) None ;?
  let? primary := expect (find_primary (ba_current_configuration a)) in
  reject (cm_identity primary != ba_source a) BuildSourceNotPrimary ;?
  let target := find_member (ba_target a) (ba_current_configuration a) in
  match ba_kind a with
  | BuildBootstrap | BuildFailover =>
      reject (is_none_or (fun m => cm_role m == Primary) target) InvalidBootstrapBuildTarget
  | BuildProvisioning => reject (is_some target) ProvisioningBuildTargetInAuthority
  end ;?
  reject (ba_replication_boundary_lsn a <? 0) NegativeBuildBoundary.

End validation.

(** ** What a valid configuration is *)

(** Member counts are machine integers: [members.len() as u32] is exact. *)
Definition countable_members (c : ConfigurationDescriptor) : Prop :=
  Z.of_nat (length (cd_members c)) < 2 ^ 32.

Record valid_configuration `{Sha256} (c : ConfigurationDescriptor)
    (policy : option EffectivePolicy) : Prop := {
  vc_data_loss : 0 <= data_loss_number (cd_epoch c);
  vc_number : 0 <= configuration_number (cd_epoch c);
  vc_id : cd_configuration_id c = expected_id c;
  vc_ids : NoDup (map member_id (cd_members c));
  vc_positive : forall m, m ∈ cd_members c -> 0 < member_id m;
  vc_incarnations : NoDup (map incarnation (cd_members c));
  vc_primary : exists m, m ∈ cd_members c /\ cm_role m = Primary /\
                 member_id m = cd_primary_id c /\
                 forall n, n ∈ cd_members c -> cm_role n = Primary -> n = m;
  vc_size : forall p, policy = Some p ->
              Z.of_nat (length (cd_members c)) = replica_set_size p;
  vc_write_quorum : cd_write_quorum c =
              match policy with
              | Some p => write_quorum p
              | None => Z.of_nat (length (cd_members c)) / 2 + 1
              end;
}.

(** One member replaced: what the two member sets have to do with each other. *)
Definition replaces_one (previous current : ConfigurationDescriptor)
    (old new : ReplicaIdentity) : Prop :=
  old ∈ exact_identities previous /\ (new ∉ exact_identities previous) /\
  replica_id new = replica_id old /\
  exact_identities current = {[new]} ∪ exact_identities previous ∖ {[old]}.


(** A non-primary member of [previous] is replaced by one new incarnation. *)
Definition replaces_secondary (previous current : ConfigurationDescriptor) : Prop :=
  exists m new, m ∈ cd_members previous /\ member_id m <> cd_primary_id previous /\
    replaces_one previous current (cm_identity m) new.

(** What relates the configurations of an accepted transition. *)
Record valid_transition `{Sha256} (kind : TransitionKind)
    (previous current : ConfigurationDescriptor) (policy : EffectivePolicy) : Prop := {
  vt_policy : validate_policy policy = Ok tt;
  vt_previous : valid_configuration previous (Some policy);
  vt_current : valid_configuration current (Some policy);
  vt_data_loss : data_loss_number (cd_epoch current) = data_loss_number (cd_epoch previous);
  vt_number : configuration_number (cd_epoch previous) < configuration_number (cd_epoch current);
  vt_logical : logical_ids previous = logical_ids current;
  vt_change : match kind with
    | PlannedSwitchover => exact_identities previous = exact_identities current
    | Replacement =>
        cd_primary_id current = cd_primary_id previous /\ replaces_secondary previous current
    | Failover => exact_identities previous = exact_identities current \/
                  replaces_secondary previous current
    | Bootstrap | ScaleUp | SecondaryScaleDown => False
    end;
}.

(** *** Supporting lemmas *)

Lemma try_fold_insert_incarnation ms seen :
  is_ok (try_fold insert_incarnation seen ms) = true <->
  NoDup (map incarnation ms) /\ (forall m, m ∈ ms -> incarnation m ∉ seen).
Proof.
  revert seen. induction ms as [|m ms IH]; intros seen; simpl.
  { split; [|done]. intros _. split; [constructor|]. intros m Hm. by apply elem_of_nil in Hm. }
  unfold insert_incarnation.
  rewrite NoDup_cons, list_elem_of_fmap. case_decide as Hm; simpl.
  - split; [done|]. intros [_ Hall]. destruct (Hall m); [apply elem_of_cons; by left|done].
  - rewrite IH. setoid_rewrite elem_of_cons. setoid_rewrite elem_of_union.
    setoid_rewrite elem_of_singleton. split.
    + intros [Hnd Hall]. split_and!; [|done|].
      * intros (n & Heq & Hn). apply (Hall n Hn). by left.
      * intros n [->|Hn]; [done|]. intros Hin. apply (Hall n Hn). by right.
    + intros [[Hnin Hnd] Hall]. split; [done|]. intros n Hn [Hin|Hin].
      * apply Hnin. by exists n.
      * apply (Hall n); [by right|done].
Qed.

Section correctness.
Context `{Sha256}.

Lemma NoDup_members c :
  NoDup (map member_id (cd_members c)) -> NoDup (cd_members c).
Proof. apply (NoDup_fmap_1 member_id). Qed.

Lemma primaries_singleton c m :
  NoDup (cd_members c) ->
  List.filter is_primary (cd_members c) = [m] <->
  m ∈ cd_members c /\ cm_role m = Primary /\
  forall n, n ∈ cd_members c -> cm_role n = Primary -> n = m.
Proof.
  intros Hnd. rewrite filterb_singleton by done. unfold is_primary.
  setoid_rewrite bool_decide_eq_true. done.
Qed.

Lemma fixed_size_of_members c :
  countable_members c -> cd_members c <> [] ->
  0 < as_u32 (Z.of_nat (length (cd_members c))) /\
  as_u32 (Z.of_nat (length (cd_members c))) = Z.of_nat (length (cd_members c)).
Proof.
  unfold countable_members. intros Hc Hne. rewrite as_u32_id by (unfold u32_range; lia).
  destruct (cd_members c); simpl in *; [done|lia].
Qed.

(** The checks of [validate_configuration] up to the primary. *)
Lemma configuration_checks_ok c policy :
  validate_configuration c policy = Ok tt ->
  0 <= data_loss_number (cd_epoch c) /\ 0 <= configuration_number (cd_epoch c) /\
  cd_members c <> [] /\ cd_configuration_id c = expected_id c /\
  NoDup (map member_id (cd_members c)) /\
  (forall m, m ∈ cd_members c -> 0 < member_id m) /\
  NoDup (map incarnation (cd_members c)) /\
  exists m, List.filter is_primary (cd_members c) = [m] /\ member_id m = cd_primary_id c /\
  exists p, or_else policy (policy_fixed (as_u32 (Z.of_nat (length (cd_members c)))) 0) = Some p /\
    as_u32 (Z.of_nat (length (cd_members c))) = replica_set_size p /\
    cd_write_quorum c = write_quorum p.
Proof.
  unfold validate_configuration. intros Hok. guards. rename select (_ = Ok tt) into Hok.
  destruct (List.find _ _) eqn:Hfind; [done|]. guards.
  rename select (try_fold _ _ _ = _) into Hfold. rename select (_ = Ok tt) into Hok.
  destruct (List.filter is_primary _) as [|m [|? ?]] eqn:Hprim; [done| |done].
  guards. rewrite find_none_iff in Hfind.
  split_and!; try done.
  - by apply duplicate_replica_ids_empty.
  - intros n Hn. apply Z.leb_gt, Hfind, list_elem_of_fmap. eauto.
  - apply (try_fold_insert_incarnation _ ∅). by rewrite Hfold.
  - eauto 10.
Qed.

Lemma policy_fixed_members c d :
  countable_members c -> cd_members c <> [] ->
  exists p, policy_fixed (as_u32 (Z.of_nat (length (cd_members c)))) d = Some p /\
    replica_set_size p = Z.of_nat (length (cd_members c)) /\
    write_quorum p = Z.of_nat (length (cd_members c)) / 2 + 1.
Proof.
  intros Hc Hne. destruct (fixed_size_of_members c Hc Hne) as [Hpos Hid].
  destruct (policy_fixed_some _ d Hpos) as (p & Hp & Hs & Hw & _).
  exists p. by rewrite Hp, Hs, Hw, Hid.
Qed.

Lemma valid_configuration_sound c policy :
  countable_members c ->
  validate_configuration c policy = Ok tt -> valid_configuration c policy.
Proof.
  intros Hc Hok. apply configuration_checks_ok in Hok
    as (? & ? & Hne & ? & Hids & ? & ? & m & Hprim & Hm & p & Hp & Hsize & Hq).
  apply primaries_singleton in Hprim as (? & ? & ?); [|by apply NoDup_members].
  destruct (policy_fixed_members c 0 Hc Hne) as (p' & Hp' & Hs' & Hw').
  destruct (fixed_size_of_members c Hc Hne) as [_ Hid].
  split; try done; [by eauto 6| |].
  - intros q ->. injection Hp as ->. congruence.
  - destruct policy; simpl in Hp; congruence.
Qed.

Lemma valid_members_not_empty c policy :
  valid_configuration c policy -> cd_members c <> [].
Proof. intros Hv. destruct (vc_primary _ _ Hv) as (m & Hm & _). by intros Hnil; rewrite Hnil, elem_of_nil in Hm. Qed.

Lemma valid_configuration_complete c policy :
  countable_members c ->
  valid_configuration c policy -> validate_configuration c policy = Ok tt.
Proof.
  intros Hc Hv. pose proof (valid_members_not_empty _ _ Hv) as Hne.
  destruct (policy_fixed_members c 0 Hc Hne) as (p' & Hp' & Hs' & Hw').
  destruct (fixed_size_of_members c Hc Hne) as [_ Hid].
  destruct Hv as [He1 He2 Hcid Hids Hpos Hinc (m & Hm & Hrole & Hpid & Huniq) Hsize Hwq].
  unfold validate_configuration. pass_guard.
  { by rewrite (proj2 (Z.ltb_ge _ _) He1), (proj2 (Z.ltb_ge _ _) He2). }
  pass_guard; [by apply bool_decide_eq_false|].
  pass_guard; [by apply negb_false_iff, bool_decide_eq_true|].
  pass_guard; [by apply negb_false_iff, bool_decide_eq_true, duplicate_replica_ids_empty|].
  rewrite (proj2 (find_none_iff _ _))
    by (intros i (n & -> & Hn)%list_elem_of_fmap; by apply Z.leb_gt, Hpos).
  assert (Hfold : is_ok (try_fold insert_incarnation ∅ (cd_members c)) = true).
  { apply try_fold_insert_incarnation. split; [done|]. intros n _. apply not_elem_of_empty. }
  destruct (try_fold _ _ _); [|done..]. cbn [res_bind].
  rewrite (proj2 (primaries_singleton c m (NoDup_members c Hids))) by done.
  pass_guard; [by apply negb_false_iff, bool_decide_eq_true|].
  apply bind_ok. exists (default p' policy). split.
  { rewrite expect_ok, Hp'. by destruct policy. }
  pass_guard; [|pass_guard; [|done]]; apply negb_false_iff, bool_decide_eq_true; rewrite ?Hid;
    destruct policy; simpl; try congruence. by apply Hsize.
Qed.

Lemma validate_configuration_no_panic c policy :
  countable_members c -> validate_configuration c policy <> Panic.
Proof.
  intros Hc. unfold validate_configuration. no_panic; [by unfold insert_incarnation; no_panic|].
  guards. destruct (policy_fixed_members c 0) as (p' & Hp' & _); [done..|].
  rewrite Hp'. by destruct policy.
Qed.

(** Given a policy, the check does not panic, however many members there are. *)
Lemma policed_configuration_no_panic c policy : validate_configuration c (Some policy) <> Panic.
Proof. unfold validate_configuration. no_panic. by unfold insert_incarnation; no_panic. Qed.

Lemma validate_policy_no_panic p : validate_policy p <> Panic.
Proof. unfold validate_policy. no_panic. Qed.

Lemma transition_no_panic kind previous current policy :
  validate_transition_relationship kind previous current policy <> Panic.
Proof.
  unfold validate_transition_relationship.
  destruct kind; simpl; no_panic; auto using validate_policy_no_panic, policed_configuration_no_panic.
Qed.

(** What passes the check has its primary. *)
Lemma checked_primary c policy :
  validate_configuration c policy = Ok tt ->
  exists m, m ∈ cd_members c /\ cm_role m = Primary /\ member_id m = cd_primary_id c.
Proof.
  intros (_ & _ & _ & _ & _ & _ & _ & m & Hprim & Hm & _)%configuration_checks_ok.
  assert (Hin : m ∈ List.filter is_primary (cd_members c)) by (rewrite Hprim; by left).
  apply elem_of_filterb in Hin as [Hin Hr]. unfold is_primary in Hr. guards. eauto.
Qed.

Lemma checked_is_primary c policy :
  validate_configuration c policy = Ok tt -> List.find is_primary (cd_members c) <> None.
Proof.
  intros (m & Hm & Hr & _)%checked_primary Hnone. rewrite find_none_iff in Hnone.
  specialize (Hnone m Hm). unfold is_primary in Hnone. by guards.
Qed.

(** The identity of a member determines it within a valid configuration. *)
Lemma member_id_inj c m n :
  NoDup (map member_id (cd_members c)) ->
  m ∈ cd_members c -> n ∈ cd_members c -> member_id m = member_id n -> m = n.
Proof.
  induction (cd_members c) as [|x l IH]; simpl; [by intros _ ?%elem_of_nil|].
  rewrite NoDup_cons, list_elem_of_fmap, !elem_of_cons. intros [Hx Hnd].
  intros [->|Hm] [->|Hn] Heq; eauto; destruct Hx; eauto.
Qed.

Lemma elem_of_exact_identities c i :
  i ∈ exact_identities c <-> exists m, m ∈ cd_members c /\ i = cm_identity m.
Proof.
  unfold exact_identities. rewrite elem_of_list_to_set, list_elem_of_fmap. naive_solver.
Qed.

Lemma elem_of_logical_ids c i :
  i ∈ logical_ids c <-> exists m, m ∈ cd_members c /\ i = member_id m.
Proof. unfold logical_ids. rewrite elem_of_list_to_set, list_elem_of_fmap. naive_solver. Qed.

Lemma valid_identities_NoDup c policy :
  valid_configuration c policy -> NoDup (map cm_identity (cd_members c)).
Proof.
  intros Hv. apply (NoDup_fmap_1 replica_id). rewrite <-list_fmap_compose. apply (vc_ids _ _ Hv).
Qed.

Lemma size_exact_identities c policy :
  valid_configuration c policy -> size (exact_identities c) = length (cd_members c).
Proof.
  intros Hv. unfold exact_identities. rewrite size_list_to_set; [apply length_map|].
  by eapply valid_identities_NoDup.
Qed.

Lemma find_primary_some c policy :
  valid_configuration c policy ->
  exists m, find_primary c = Some m /\ m ∈ cd_members c /\ cm_role m = Primary /\
    member_id m = cd_primary_id c.
Proof.
  intros Hv. destruct (vc_primary _ _ Hv) as (m & Hm & Hr & Hid & _).
  unfold find_primary. destruct (List.find _ _) as [n|] eqn:E.
  - apply List.find_some in E as [Hn ?]. apply list_elem_of_In in Hn. guards. eauto.
  - rewrite find_none_iff in E. specialize (E m Hm). rewrite !bool_decide_true in E by done. done.
Qed.

Lemma find_by_member_id c n :
  NoDup (map member_id (cd_members c)) -> n ∈ cd_members c ->
  List.find (fun k => member_id k == member_id n) (cd_members c) = Some n.
Proof.
  intros Hnd Hn. destruct (List.find _ _) as [k|] eqn:E.
  - apply List.find_some in E as [Hk ?%bool_decide_eq_true]. apply list_elem_of_In in Hk.
    f_equal. eauto using member_id_inj.
  - rewrite find_none_iff in E. specialize (E n Hn). by rewrite bool_decide_true in E.
Qed.

(** A member is changed when the other configuration holds another
    incarnation of its logical replica. *)
Lemma elem_of_changed_members previous current m :
  NoDup (map member_id (cd_members current)) -> logical_ids previous = logical_ids current ->
  m ∈ cd_members previous ->
  exists n, n ∈ cd_members current /\ member_id n = member_id m /\
    (m ∈ changed_members previous current <-> cm_identity n <> cm_identity m).
Proof.
  intros Hnd Hlog Hm.
  assert (member_id m ∈ logical_ids current) as (n & Hn & Heq)%elem_of_logical_ids
    by (rewrite <-Hlog; apply elem_of_logical_ids; eauto).
  exists n. split_and!; [done..|]. unfold changed_members.
  rewrite elem_of_filterb, Heq, find_by_member_id by done. simpl.
  rewrite negb_true_iff, bool_decide_eq_false. naive_solver.
Qed.

Lemma changed_singleton previous current m :
  NoDup (map member_id (cd_members previous)) ->
  NoDup (map member_id (cd_members current)) -> logical_ids previous = logical_ids current ->
  changed_members previous current = [m] ->
  m ∈ cd_members previous /\
  exists new, replaces_one previous current (cm_identity m) new.
Proof.
  intros Hp Hc Hlog Hch.
  assert (Hm : m ∈ changed_members previous current) by (rewrite Hch; by apply list_elem_of_singleton).
  assert (Hmp : m ∈ cd_members previous) by (by apply elem_of_filterb in Hm as [? _]).
  split; [done|].
  destruct (elem_of_changed_members _ _ _ Hc Hlog Hmp) as (n & Hn & Hid & Hiff).
  assert (Hne : cm_identity n <> cm_identity m) by (by apply Hiff).
  (* a member other than [m] keeps its incarnation *)
  assert (Hkeep : forall k k', k ∈ cd_members previous -> k' ∈ cd_members current ->
            member_id k' = member_id k -> k <> m -> cm_identity k' = cm_identity k).
  { intros k k' Hk Hk' Hkid Hkm.
    destruct (elem_of_changed_members _ _ _ Hc Hlog Hk) as (k2 & Hk2 & Hid2 & Hiff2).
    rewrite Hch, list_elem_of_singleton in Hiff2.
    assert (k2 = k') as -> by (apply (member_id_inj current); congruence).
    destruct (decide (cm_identity k' = cm_identity k)); naive_solver. }
  exists (cm_identity n). unfold replaces_one.
  split_and!; [apply elem_of_exact_identities; eauto| |done|].
  - rewrite elem_of_exact_identities. intros (k & Hk & Heq).
    assert (member_id k = member_id m) as Hkm by (rewrite <-Hid; unfold member_id; by rewrite Heq).
    apply (member_id_inj previous) in Hkm; [|done..]. congruence.
  - apply set_eq. intros i.
    rewrite elem_of_union, elem_of_difference, !elem_of_singleton, !elem_of_exact_identities.
    split.
    + intros (k & Hk & ->). destruct (decide (k = n)) as [->|Hkn]; [by left|]. right.
      assert (member_id k ∈ logical_ids previous) as (k' & Hk' & Heq)%elem_of_logical_ids
        by (rewrite Hlog; apply elem_of_logical_ids; eauto).
      assert (k' <> m) as Hkm by (intros ->; apply Hkn, (member_id_inj current); [done..|congruence]).
      rewrite (Hkeep k' k) by done. split; [eauto|]. intros Hi. apply Hkm.
      apply (member_id_inj previous); [done..|]. unfold member_id. by rewrite Hi.
    + intros [->|[(k & Hk & ->) Hi]]; [eauto|].
      destruct (elem_of_changed_members _ _ _ Hc Hlog Hk) as (k2 & Hk2 & Hid2 & _).
      exists k2. split; [done|]. symmetry. apply Hkeep; [done..|]. by intros ->.
Qed.

Lemma valid_single_change_inv previous current :
  valid_single_non_primary_incarnation_change previous current = true ->
  exists m, changed_members previous current = [m] /\ member_id m <> cd_primary_id previous.
Proof.
  unfold valid_single_non_primary_incarnation_change.
  destruct (changed_members _ _) as [|m [|? ?]]; [done| |done]. intros. guards. eauto.
Qed.

Lemma changed_secondary previous current m policy :
  valid_configuration previous policy -> valid_configuration current policy ->
  logical_ids previous = logical_ids current ->
  changed_members previous current = [m] -> member_id m <> cd_primary_id previous ->
  replaces_secondary previous current.
Proof.
  intros Hp Hc Hlog Hch Hm.
  destruct (changed_singleton previous current m) as (? & new & ?); eauto using vc_ids.
  unfold replaces_secondary. eauto.
Qed.

Lemma replaced_is_only_change previous current policy m new :
  valid_configuration previous policy -> valid_configuration current policy ->
  logical_ids previous = logical_ids current -> m ∈ cd_members previous ->
  replaces_one previous current (cm_identity m) new ->
  changed_members previous current = [m].
Proof.
  intros Hp Hc Hlog Hm (_ & Hnew & _ & Heq).
  pose proof (vc_ids _ _ Hp) as Hndp. pose proof (vc_ids _ _ Hc) as Hndc.
  assert (Hchanged : forall k, k ∈ cd_members previous ->
            (k ∈ changed_members previous current <-> k = m)).
  { intros k Hk.
    destruct (elem_of_changed_members _ _ _ Hndc Hlog Hk) as (n & Hn & Hid & ->).
    assert (Hin : cm_identity n ∈ exact_identities current) by (apply elem_of_exact_identities; eauto).
    rewrite Heq, elem_of_union, elem_of_difference, !elem_of_singleton in Hin. split.
    - intros Hne. destruct (decide (k = m)) as [|Hkm]; [done|]. exfalso. apply Hne.
      assert (cm_identity k ∈ exact_identities current) as (n' & Hn' & Hkn)%elem_of_exact_identities.
      { rewrite Heq, elem_of_union, elem_of_difference, elem_of_singleton. right. split.
        - apply elem_of_exact_identities; eauto.
        - rewrite elem_of_singleton. intros Hi. apply Hkm, (member_id_inj previous); [done..|].
          unfold member_id. by rewrite Hi. }
      rewrite Hkn. f_equal. apply (member_id_inj current); [done..|]. unfold member_id in *. congruence.
    - intros ->. destruct Hin as [->|[_ ?]]; [|done].
      intros Hi. apply Hnew. rewrite Hi. apply elem_of_exact_identities; eauto. }
  apply Permutation_singleton_r, NoDup_Permutation; [|apply NoDup_singleton|].
  - by apply NoDup_filterb, NoDup_members.
  - intros k. rewrite list_elem_of_singleton. split; [|by intros ->; apply Hchanged].
    intros Hk. apply Hchanged; [|done]. by apply elem_of_filterb in Hk as [? _].
Qed.

Lemma single_change_iff previous current policy :
  valid_configuration previous policy -> valid_configuration current policy ->
  logical_ids previous = logical_ids current ->
  valid_single_non_primary_incarnation_change previous current = true <->
  replaces_secondary previous current.
Proof.
  intros Hp Hc Hlog. split.
  - intros (m & ? & ?)%valid_single_change_inv. eauto using changed_secondary.
  - intros (m & new & Hm & Hne & Hrep). unfold valid_single_non_primary_incarnation_change.
    erewrite replaced_is_only_change by done. by apply negb_true_iff, bool_decide_eq_false.
Qed.

Lemma valid_transition_sound kind previous current policy :
  countable_members previous -> countable_members current ->
  validate_transition_relationship kind (Some previous) current policy = Ok tt ->
  valid_transition kind previous current policy.
Proof.
  unfold validate_transition_relationship. intros Hcp Hcc Hok.
  destruct kind; simpl in Hok; guards; try done;
  repeat match goal with
  | H : validate_configuration _ _ = Ok tt |- _ => apply valid_configuration_sound in H; [|done]
  end; split; auto.
  - destruct (changed_members _ _) as [|m [|? ?]] eqn:Hch; [done| |done]. guards.
    eauto using changed_secondary.
  - rename select (_ && _ = false) into Hor. apply andb_false_iff in Hor as [Hor|Hor]; guards.
    + by left.
    + right. eapply single_change_iff; eauto.
Qed.

Lemma valid_transition_complete kind previous current policy :
  countable_members previous -> countable_members current ->
  valid_transition kind previous current policy ->
  validate_transition_relationship kind (Some previous) current policy = Ok tt.
Proof.
  intros Hcp Hcc [Hpol Hp Hc Hdl Hnum Hlog Hch]. unfold validate_transition_relationship.
  destruct kind; try done; simpl;
    rewrite Hpol; simpl; rewrite !valid_configuration_complete by done; simpl;
    rewrite Hdl, Hlog, (proj2 (Z.leb_gt _ _)), !bool_decide_true by done; simpl.
  - destruct Hch as [Hpr (m & new & Hm & Hne & Hrep)].
    erewrite Hpr, replaced_is_only_change by done.
    pass_guard; [by rewrite bool_decide_true|].
    by apply reject_ok, bool_decide_eq_false.
  - apply reject_ok. destruct Hch as [->|Hch]; [by rewrite bool_decide_true|].
    eapply single_change_iff in Hch as ->; [apply andb_false_r|done..].
  - done.
Qed.

(** [C15] The configuration check accepts exactly the configurations that are
    well formed: non-negative epoch, content-derived identifier, distinct
    positive replica ids, distinct incarnations, exactly one primary and it is
    the declared one, and the size and majority write quorum of the policy;
    and it never panics. *)
Theorem validate_configuration_correct c policy :
  countable_members c ->
  (validate_configuration c policy = Ok tt <-> valid_configuration c policy) /\
  validate_configuration c policy <> Panic.
Proof.
  intros Hc. split; [split|]; eauto using valid_configuration_sound, valid_configuration_complete,
    validate_configuration_no_panic.
Qed.

(** [C22] A transition is accepted exactly when the policy and both
    configurations are valid, the data-loss number and the logical membership
    are kept, the configuration number strictly advances and: a planned
    switchover keeps every incarnation; a replacement keeps the primary and
    exchanges exactly one other incarnation; a failover does one or the other. *)
Theorem validate_transition_relationship_correct kind previous current policy :
  countable_members previous -> countable_members current ->
  validate_transition_relationship kind (Some previous) current policy = Ok tt <->
  valid_transition kind previous current policy.
Proof. split; eauto using valid_transition_sound, valid_transition_complete. Qed.

End correctness.

(** ** Sample configurations: three replicas, of which the third is replaced *)

#[local] Existing Instance padding_sha256.

Module Sample.

Definition identity (id : Z) (instance : string) : ReplicaIdentity :=
  {| replica_id := id; instance_id := instance; agent_generation := "g1" |}.

Definition member (id : Z) (instance : string) (role : ReplicaRole) : ConfigurationMember :=
  {| cm_identity := identity id instance; cm_role := role |}.

Definition policy (size : Z) : EffectivePolicy :=
  {| replica_set_size := size; write_quorum := size / 2 + 1;
     read_quorum := size - size / 2; failover_delay_seconds := 30 |}.

Definition three (number : Z) (third : string) : ConfigurationDescriptor :=
  new_configuration (mkEpoch 0 number) 1
    [member 1 "a" Primary; member 2 "b" ActiveSecondary; member 3 third ActiveSecondary] 2.

Definition previous : ConfigurationDescriptor := three 1 "c".
Definition current : ConfigurationDescriptor := three 2 "d".

End Sample.

Lemma validate_configuration_correct_witness :
  valid_configuration Sample.previous (Some (Sample.policy 3)).
Proof.
  apply (validate_configuration_correct Sample.previous (Some (Sample.policy 3))).
  - vm_compute. reflexivity.
  - vm_compute. reflexivity.
Defined.

Lemma validate_transition_relationship_correct_witness :
  valid_transition Replacement Sample.previous Sample.current (Sample.policy 3).
Proof.
  apply (validate_transition_relationship_correct Replacement Sample.previous Sample.current
           (Sample.policy 3)); vm_compute; reflexivity.
Defined.
