(* ===== verification/Quorums.v ===== *)
(** * Quorum systems of validated configurations

    What the majorities that [validate_policy] and [validate_configuration]
    enforce give to the replication protocol: quorums of one configuration
    intersect, and so do the write quorums of two adjacent configurations of a
    scale-up, a secondary scale-down or an even replacement.  For an odd
    replacement they need not, which is why the source commits a write on the
    quorums of both configurations ([client_commit_ready] in
    [replicator/quorum.rs]). *)

From S2P Require Import Prelude Digest Types Intents Validation.
From stdpp Require Import base gmap strings list.
From Stdlib Require Import ZArith Lia.
Local Open Scope Z_scope.

Definition member_count (c : ConfigurationDescriptor) : Z := Z.of_nat (length (cd_members c)).

Definition write_quorum_of (c : ConfigurationDescriptor) (Q : gset ReplicaIdentity) : Prop :=
  Q ⊆ exact_identities c /\ cd_write_quorum c <= Z.of_nat (size Q).

Definition read_quorum_of (c : ConfigurationDescriptor) (Q : gset ReplicaIdentity) : Prop :=
  Q ⊆ exact_identities c /\ member_count c - cd_write_quorum c + 1 <= Z.of_nat (size Q).

(** The replica ids are distinct and the write quorum is a majority. *)
Record majority_configuration (c : ConfigurationDescriptor) : Prop := {
  mc_size : Z.of_nat (size (exact_identities c)) = member_count c;
  mc_quorum : cd_write_quorum c = member_count c / 2 + 1;
}.

Section pigeonhole.
Context `{Countable K}.

Lemma pigeonhole (U X Y : gset K) :
  X ⊆ U -> Y ⊆ U -> Z.of_nat (size U) < Z.of_nat (size X) + Z.of_nat (size Y) ->
  exists k, k ∈ X /\ k ∈ Y.
Proof.
  intros HX HY Hsize. destruct (decide (X ∩ Y = ∅)) as [Hdisj|Hne].
  - assert (size (X ∪ Y) <= size U)%nat by (apply subseteq_size; set_solver).
    rewrite size_union in * by set_solver. lia.
  - apply set_choose_L in Hne as [k Hk]. set_solver.
Qed.

Lemma size_difference_one (X : gset K) k :
  k ∈ X -> Z.of_nat (size (X ∖ {[k]})) = Z.of_nat (size X) - 1.
Proof.
  intros Hk. assert (0 < size X)%nat
    by (destruct (decide (size X = 0)%nat); [apply size_empty_inv in e; set_solver|lia]).
  rewrite size_difference, size_singleton by set_solver. lia.
Qed.

End pigeonhole.

Section quorums.
Context `{Sha256}.

Lemma validate_policy_ok p :
  validate_policy p = Ok tt ->
  write_quorum p = replica_set_size p / 2 + 1 /\
  read_quorum p + write_quorum p = replica_set_size p + 1.
Proof.
  unfold validate_policy, policy_fixed. intros Hok. guards.
  destruct (replica_set_size p =? 0); [done|].
  match goal with H : Some _ = Some _ |- _ => injection H as <- end. simpl in *. lia.
Qed.

Lemma valid_configuration_majority c p :
  valid_configuration c p -> (forall q, p = Some q -> validate_policy q = Ok tt) ->
  majority_configuration c.
Proof.
  intros Hv Hp. split; unfold member_count.
  - by rewrite (size_exact_identities c p).
  - rewrite (vc_write_quorum _ _ Hv). destruct p as [q|]; [|done].
    rewrite (vc_size _ _ Hv q) by done. by apply validate_policy_ok, Hp.
Qed.

Lemma majority_bound n : n < 2 * (n / 2 + 1).
Proof. pose proof (Z.mod_pos_bound n 2). pose proof (Z.div_mod n 2). lia. Qed.

Lemma write_quorums_intersect c Q R :
  majority_configuration c -> write_quorum_of c Q -> write_quorum_of c R ->
  exists i, i ∈ Q /\ i ∈ R.
Proof.
  intros [Hs Hq] [HQ HQs] [HR HRs]. apply (pigeonhole (exact_identities c)); [done..|].
  pose proof (majority_bound (member_count c)). lia.
Qed.

Lemma read_write_quorums_intersect c Q R :
  majority_configuration c -> read_quorum_of c Q -> write_quorum_of c R ->
  exists i, i ∈ Q /\ i ∈ R.
Proof.
  intros [Hs Hq] [HQ HQs] [HR HRs]. apply (pigeonhole (exact_identities c)); [done..|]. lia.
Qed.

(** A set of members as large as the policy's quorum is a quorum. *)
Lemma policy_read_quorum c p X :
  valid_configuration c (Some p) -> validate_policy p = Ok tt ->
  X ⊆ exact_identities c -> read_quorum p <= Z.of_nat (size X) -> read_quorum_of c X.
Proof.
  intros Hv [_ Hrw]%validate_policy_ok HX Hq. split; [done|].
  rewrite (vc_write_quorum _ _ Hv). unfold member_count. rewrite (vc_size _ _ Hv _ eq_refl). lia.
Qed.

Lemma policy_write_quorum c p X :
  valid_configuration c (Some p) ->
  X ⊆ exact_identities c -> write_quorum p <= Z.of_nat (size X) -> write_quorum_of c X.
Proof. intros Hv HX Hq. split; [done|]. by rewrite (vc_write_quorum _ _ Hv). Qed.

(** ** Adjacent configurations *)

(** [larger] has one member more than [smaller]. *)
Definition extends_by_one (smaller larger : ConfigurationDescriptor) : Prop :=
  exists i, i ∈ exact_identities larger /\
    exact_identities smaller = exact_identities larger ∖ {[i]}.

Lemma adjacent_majorities n : n < (n / 2 + 1) + ((n - 1) / 2 + 1).
Proof.
  pose proof (Z.mod_pos_bound n 2). pose proof (Z.div_mod n 2).
  pose proof (Z.mod_pos_bound (n - 1) 2). pose proof (Z.div_mod (n - 1) 2). lia.
Qed.

Lemma extension_quorums_intersect smaller larger Q R :
  majority_configuration smaller -> majority_configuration larger ->
  extends_by_one smaller larger ->
  write_quorum_of smaller Q -> write_quorum_of larger R ->
  exists i, i ∈ Q /\ i ∈ R.
Proof.
  intros [Hs Hq] [Ht Hr] (i & Hi & Heq) [HQ HQs] [HR HRs].
  apply (pigeonhole (exact_identities larger)); [set_solver|done|].
  rewrite Heq, size_difference_one in Hs by done.
  pose proof (adjacent_majorities (member_count larger)).
  replace (member_count smaller) with (member_count larger - 1) in * by lia. lia.
Qed.

Lemma replaces_one_count previous current old new :
  replaces_one previous current old new ->
  size (exact_identities current) = size (exact_identities previous) /\
  Z.of_nat (size (exact_identities previous ∪ exact_identities current))
  = Z.of_nat (size (exact_identities previous)) + 1.
Proof.
  intros (Hold & Hnew & _ & Heq).
  assert (new <> old) by congruence. split.
  - apply Nat2Z.inj. rewrite Heq, size_union, size_singleton, Nat2Z.inj_add,
      size_difference_one by set_solver. lia.
  - replace (exact_identities previous ∪ exact_identities current)
      with ({[new]} ∪ exact_identities previous : gset ReplicaIdentity).
    + rewrite size_union, size_singleton by set_solver. lia.
    + rewrite Heq. apply set_eq. intros i. destruct (decide (i = old)); set_solver.
Qed.

Lemma replacement_quorums_intersect previous current old new Q R :
  majority_configuration previous -> majority_configuration current ->
  replaces_one previous current old new -> Z.even (member_count previous) = true ->
  write_quorum_of previous Q -> write_quorum_of current R ->
  exists i, i ∈ Q /\ i ∈ R.
Proof.
  intros [Hs Hq] [Ht Hr] Hrep Heven [HQ HQs] [HR HRs].
  destruct (replaces_one_count _ _ _ _ Hrep) as [Hsame Hunion].
  apply (pigeonhole (exact_identities previous ∪ exact_identities current));
    [set_solver..|].
  apply Z.even_spec in Heven as [k Hk]. rewrite Hunion, <-Ht, Hsame, Hs, Hk in *.
  rewrite Z.mul_comm, Z.div_mul in * by done. lia.
Qed.

End quorums.

(** ** What validation guarantees *)

Section validated.
Context `{Sha256}.

(** In a configuration that passed validation under a validated policy,
    any two write quorums share a replica, and so do any read quorum and any
    write quorum. *)
Theorem validated_quorums_intersect c p Q R :
  countable_members c -> validate_policy p = Ok tt ->
  validate_configuration c (Some p) = Ok tt -> write_quorum_of c R ->
  (write_quorum_of c Q \/ (Q ⊆ exact_identities c /\ read_quorum p <= Z.of_nat (size Q))) ->
  exists i, i ∈ Q /\ i ∈ R.
Proof.
  intros Hc Hp Hok HR HQ. apply valid_configuration_sound in Hok; [|done].
  assert (majority_configuration c)
    by (apply (valid_configuration_majority _ _ Hok); congruence).
  destruct HQ as [HQ|[HQ Hs]]; [by apply (write_quorums_intersect c)|].
  apply (read_write_quorums_intersect c); [done| |done]. split; [done|].
  pose proof (validate_policy_ok p Hp) as [_ Hrw].
  rewrite (vc_write_quorum _ _ Hok). unfold member_count. rewrite (vc_size _ _ Hok p) by done. lia.
Qed.

(** Across an accepted transition that exchanges no incarnation, or whose
    replica set has an even size, every write quorum of the new configuration
    shares a replica with every write quorum of the old one. *)
Theorem transition_quorums_intersect kind previous current policy Q R :
  countable_members previous -> countable_members current ->
  validate_transition_relationship kind (Some previous) current policy = Ok tt ->
  kind = PlannedSwitchover \/ Z.even (replica_set_size policy) = true ->
  write_quorum_of previous Q -> write_quorum_of current R ->
  exists i, i ∈ Q /\ i ∈ R.
Proof.
  intros Hcp Hcc Hok Hkind HQ HR.
  apply valid_transition_sound in Hok as [Hpol Hp Hc _ _ _ Hch]; [|done..].
  assert (majority_configuration previous /\ majority_configuration current) as [Hmp Hmc]
    by (split; eapply valid_configuration_majority; eauto; congruence).
  assert (member_count previous = replica_set_size policy) as Hn by (by apply (vc_size _ _ Hp)).
  assert (Hsame : exact_identities previous = exact_identities current -> exists i, i ∈ Q /\ i ∈ R).
  { intros Heq. apply (write_quorums_intersect previous); [done..|].
    destruct HR as [HR HRs]. split; [by rewrite Heq|].
    rewrite (vc_write_quorum _ _ Hp). by rewrite (vc_write_quorum _ _ Hc) in HRs. }
  assert (Hrep : replaces_secondary previous current ->
            Z.even (replica_set_size policy) = true -> exists i, i ∈ Q /\ i ∈ R).
  { intros (m & new & _ & _ & Hrep) Heven. rewrite <-Hn in Heven.
    eauto using replacement_quorums_intersect. }
  destruct kind, Hkind; try done; naive_solver.
Qed.

End validated.

#[local] Existing Instance padding_sha256.

(** With an odd number of replicas a replacement that validation accepts
    has disjoint write quorums in its two configurations: three replicas, the
    third replaced, and a majority that holds only the old and only the new
    incarnation. *)
Theorem replacement_quorums_can_be_disjoint :
  exists previous current policy Q R,
    validate_transition_relationship Replacement (Some previous) current policy = Ok tt /\
    write_quorum_of previous Q /\ write_quorum_of current R /\ Q ## R.
Proof.
  exists Sample.previous, Sample.current, (Sample.policy 3),
    {[Sample.identity 1 "a"; Sample.identity 3 "c"]},
    {[Sample.identity 2 "b"; Sample.identity 3 "d"]}.
  split_and!; [vm_compute; reflexivity| | |].
  - split; [|by vm_compute]. apply (bool_decide_unpack _). by vm_compute.
  - split; [|by vm_compute]. apply (bool_decide_unpack _). by vm_compute.
  - apply (bool_decide_unpack _). by vm_compute.
Qed.

Lemma validated_quorums_intersect_witness :
  exists i, i ∈ ({[Sample.identity 1 "a"; Sample.identity 3 "c"]} : gset ReplicaIdentity) /\
            i ∈ ({[Sample.identity 1 "a"; Sample.identity 2 "b"]} : gset ReplicaIdentity).
Proof.
  apply (validated_quorums_intersect Sample.previous (Sample.policy 3)).
  - by vm_compute.
  - by vm_compute.
  - by vm_compute.
  - split; [|by vm_compute]. apply (bool_decide_unpack _). by vm_compute.
  - right. split; [|by vm_compute]. apply (bool_decide_unpack _). by vm_compute.
Defined.

Definition switched : ConfigurationDescriptor :=
  new_configuration (mkEpoch 0 2) 2
    [Sample.member 1 "a" ActiveSecondary; Sample.member 2 "b" Primary;
     Sample.member 3 "c" ActiveSecondary] 2.

Lemma transition_quorums_intersect_witness :
  exists i, i ∈ ({[Sample.identity 1 "a"; Sample.identity 3 "c"]} : gset ReplicaIdentity) /\
            i ∈ ({[Sample.identity 1 "a"; Sample.identity 2 "b"]} : gset ReplicaIdentity).
Proof.
  apply (transition_quorums_intersect PlannedSwitchover Sample.previous switched (Sample.policy 3)).
  - by vm_compute.
  - by vm_compute.
  - by vm_compute.
  - by left.
  - split; [|by vm_compute]. apply (bool_decide_unpack _). by vm_compute.
  - split; [|by vm_compute]. apply (bool_decide_unpack _). by vm_compute.
Defined.
