(* ===== verification/Commands.v ===== *)
(** * Protocol commands ([protocol/command.rs])

    The fenced authority commands that the controller sends to a replica.  The
    commands behind the [testing] feature (process restart and incarnation drop)
    are not part of the modelled build. *)

From S2P Require Import Prelude Digest Types Intents.
From stdpp Require Import base gmap strings list pretty.
From Stdlib Require Import ZArith Lia.
Local Open Scope Z_scope.

Inductive EffectClass := ConvergentEnsure | ReconfigurationAction | Unsupported.
#[export] Instance EffectClass_eq_dec : EqDecision EffectClass.
Proof. solve_decision. Defined.

Record InitializeAgentStore := {
  ias_initialization_id : InitializationId;
  ias_resource_uid : ResourceUid;
  ias_local_replica_id : ReplicaId;
  ias_expected_instance_id : ReplicaInstanceId;
  ias_expected_pod_uid : PodUid;
  ias_expected_pvc_uid : PvcUid;
  ias_assigned_agent_generation : AgentGeneration;
  ias_effective_policy : EffectivePolicy;
  ias_bootstrap_configuration : ConfigurationDescriptor;
  ias_provisioning : option ProvisioningIntent;
}.
#[export] Instance InitializeAgentStore_eq_dec : EqDecision InitializeAgentStore.
Proof. solve_decision. Defined.

Record EnsureConfiguration := {
  ec_operation_id : OperationId;
  ec_previous_configuration : option ConfigurationDescriptor;
  ec_current_configuration : ConfigurationDescriptor;
  ec_previous_epoch : option Epoch;
  ec_current_epoch : Epoch;
  ec_effective_policy : EffectivePolicy;
  ec_previous_policy : option EffectivePolicy;
  ec_secondary_removal_evidence : option SecondaryRemovalEvidence;
  ec_scale_up_evidence : option ScaleUpConfigurationEvidence;
  ec_local_replica_id : ReplicaId;
  ec_expected_instance_id : ReplicaInstanceId;
  ec_expected_agent_generation : AgentGeneration;
  ec_transition_kind : TransitionKind;
  ec_failover_safe_lsn : option Lsn;
  ec_primary_write_status : AccessStatus;
  ec_current_only : bool;
  ec_retire_build_ids : list OperationId;
  ec_switchover_handoff : option SwitchoverHandoff;
  ec_retire_switchover_preparation_ids : list SwitchoverPreparationId;
}.
#[export] Instance EnsureConfiguration_eq_dec : EqDecision EnsureConfiguration.
Proof. solve_decision. Defined.

#[export] Instance EnsureConfiguration_fields : Fields EnsureConfiguration := fun c =>
  Build_EnsureConfiguration (ec_operation_id c) (ec_previous_configuration c)
    (ec_current_configuration c) (ec_previous_epoch c) (ec_current_epoch c) (ec_effective_policy c)
    (ec_previous_policy c) (ec_secondary_removal_evidence c) (ec_scale_up_evidence c)
    (ec_local_replica_id c) (ec_expected_instance_id c) (ec_expected_agent_generation c)
    (ec_transition_kind c) (ec_failover_safe_lsn c) (ec_primary_write_status c) (ec_current_only c)
    (ec_retire_build_ids c) (ec_switchover_handoff c) (ec_retire_switchover_preparation_ids c).

(** The exact identity a command addresses. *)
Definition ec_local_identity (c : EnsureConfiguration) : ReplicaIdentity :=
  {| replica_id := ec_local_replica_id c;
     instance_id := ec_expected_instance_id c;
     agent_generation := ec_expected_agent_generation c |}.

(** [EnsureConfiguration::is_switchover_restoration] *)
Definition is_switchover_restoration (c : EnsureConfiguration) : bool :=
  (ec_transition_kind c == PlannedSwitchover)
  && negb (ec_current_only c)
  && is_none (ec_previous_configuration c)
  && is_none (ec_previous_epoch c)
  && (ec_primary_write_status c == ReconfigurationPending)
  && is_none (ec_failover_safe_lsn c)
  && (ec_retire_build_ids c == [])
  && (ec_current_epoch c == cd_epoch (ec_current_configuration c))
  && (cd_primary_id (ec_current_configuration c) == ec_local_replica_id c)
  && match ec_retire_switchover_preparation_ids c with
     | [preparation] =>
         negb (is_empty (spi_operation_id preparation)) && (0 <? spi_generation preparation)
     | _ => false
     end
  && is_none_or (fun h =>
       (ec_current_epoch c == sh_starting_epoch h)
       && (cd_epoch (ec_current_configuration c) == sh_starting_epoch h)
       && (cd_configuration_id (ec_current_configuration c) == sh_starting_configuration_id h)
       && (cd_primary_id (ec_current_configuration c) == replica_id (sh_source h))
       && (ec_local_replica_id c == replica_id (sh_source h))
       && (ec_expected_instance_id c == instance_id (sh_source h))
       && (ec_expected_agent_generation c == agent_generation (sh_source h))
       && (ec_retire_switchover_preparation_ids c == [sh_preparation h]))
     (ec_switchover_handoff c).

Record PrepareSwitchover := {
  ps_preparation_generation : Z;
  ps_operation_id : OperationId;
  ps_request_id : SwitchoverRequestId;
  ps_local_replica_id : ReplicaId;
  ps_expected_instance_id : ReplicaInstanceId;
  ps_expected_agent_generation : AgentGeneration;
  ps_source : ReplicaIdentity;
  ps_target : ReplicaIdentity;
  ps_current_configuration : ConfigurationDescriptor;
}.
#[export] Instance PrepareSwitchover_eq_dec : EqDecision PrepareSwitchover.
Proof. solve_decision. Defined.

Record EnsureReplicaBuild := {
  erb_operation_id : OperationId;
  erb_local_replica_id : ReplicaId;
  erb_expected_instance_id : ReplicaInstanceId;
  erb_expected_agent_generation : AgentGeneration;
  erb_target : ReplicaIdentity;
  erb_authority : option BuildAuthority;
  erb_source_session_id : option ProcessSessionId;
  erb_retire : bool;
}.
#[export] Instance EnsureReplicaBuild_eq_dec : EqDecision EnsureReplicaBuild.
Proof. solve_decision. Defined.

Record PrepareSecondaryRemoval := {
  psr_operation_id : OperationId;
  psr_local_replica_id : ReplicaId;
  psr_expected_instance_id : ReplicaInstanceId;
  psr_expected_agent_generation : AgentGeneration;
  psr_intent : SecondaryScaleDownIntent;
}.
#[export] Instance PrepareSecondaryRemoval_eq_dec : EqDecision PrepareSecondaryRemoval.
Proof. solve_decision. Defined.

Record RetireReplica := {
  rr_operation_id : OperationId;
  rr_local_replica_id : ReplicaId;
  rr_expected_instance_id : ReplicaInstanceId;
  rr_expected_agent_generation : AgentGeneration;
  rr_committed : SecondaryScaleDownCleanup;
}.
#[export] Instance RetireReplica_eq_dec : EqDecision RetireReplica.
Proof. solve_decision. Defined.

Record AcceptSecondaryRemovalCommit := {
  arc_operation_id : OperationId;
  arc_target : ReplicaIdentity;
  arc_committed : SecondaryScaleDownCleanup;
  arc_local_recovery : bool;
}.
#[export] Instance AcceptSecondaryRemovalCommit_eq_dec : EqDecision AcceptSecondaryRemovalCommit.
Proof. solve_decision. Defined.

Inductive ProtocolCommand :=
| CmdInitializeAgentStore (c : InitializeAgentStore)
| CmdPrepareSwitchover (c : PrepareSwitchover)
| CmdEnsureConfiguration (c : EnsureConfiguration)
| CmdEnsureReplicaBuild (c : EnsureReplicaBuild)
| CmdPrepareSecondaryRemoval (c : PrepareSecondaryRemoval)
| CmdRetireReplica (c : RetireReplica)
| CmdAcceptSecondaryRemovalCommit (c : AcceptSecondaryRemovalCommit).
#[export] Instance ProtocolCommand_eq_dec : EqDecision ProtocolCommand.
Proof. solve_decision. Defined.

(** [ProtocolCommand::effect_class] *)
Definition effect_class (c : ProtocolCommand) : EffectClass :=
  match c with
  | CmdInitializeAgentStore _ => ConvergentEnsure
  | CmdPrepareSwitchover _ | CmdPrepareSecondaryRemoval _ | CmdRetireReplica _
  | CmdAcceptSecondaryRemovalCommit _ | CmdEnsureConfiguration _
  | CmdEnsureReplicaBuild _ => ReconfigurationAction
  end.
