(* ===== verification/Observations.v ===== *)
(** * Accepted status and observations
    ([protocol/types.rs], [protocol/observation.rs], [protocol/command.rs],
    [protocol/public_operations.rs])

    What the controller accepts and persists ([AcceptedStatus]), what it sees of the
    cluster ([ObservationSnapshot]) and the Kubernetes changes it can ask for.  The
    reports of the dormant public-operation preview that an agent may attach
    ([public_lifecycle_report], [restart_action]) are left out: nothing modelled
    reads them. *)

From S2P Require Import Prelude Digest Types Intents Commands.
From stdpp Require Import base gmap strings list sorting pretty.
From Stdlib Require Import ZArith Lia.
Local Open Scope Z_scope.

(** ** The preview lifecycle *)

Inductive FaultType := Transient | Permanent.
#[export] Instance FaultType_eq_dec : EqDecision FaultType.
Proof. solve_decision. Defined.

Inductive StatePersistence := Persisted | Volatile.
#[export] Instance StatePersistence_eq_dec : EqDecision StatePersistence.
Proof. solve_decision. Defined.

Record PublicOperationPreviewIdentity := { pop_protocol_version : Z; pop_generation : Z }.
#[export] Instance PublicOperationPreviewIdentity_eq_dec : EqDecision PublicOperationPreviewIdentity.
Proof. solve_decision. Defined.

Record PreviewLifecycleBinding := {
  plb_preview : PublicOperationPreviewIdentity;
  plb_resource_uid : ResourceUid;
  plb_spec_generation : Z;
  plb_state_persistence : StatePersistence;
}.
#[export] Instance PreviewLifecycleBinding_eq_dec : EqDecision PreviewLifecycleBinding.
Proof. solve_decision. Defined.

Inductive PublicFaultActionKind := FaultRestart | FaultDropReplacement.
#[export] Instance PublicFaultActionKind_eq_dec : EqDecision PublicFaultActionKind.
Proof. solve_decision. Defined.

Record FrozenReplicaResources := {
  frr_pod_name : string;
  frr_pod_uid : PodUid;
  frr_pvc_name : string;
  frr_pvc_uid : PvcUid;
  frr_endpoint_name : string;
  frr_endpoint_uid : string;
  frr_endpoint_resource_version : string;
}.
#[export] Instance FrozenReplicaResources_eq_dec : EqDecision FrozenReplicaResources.
Proof. solve_decision. Defined.

Record PublicFaultAction := {
  pfa_action_id : OperationId;
  pfa_fault_operation_id : OperationId;
  pfa_binding : PreviewLifecycleBinding;
  pfa_target : ReplicaIdentity;
  pfa_resources : FrozenReplicaResources;
  pfa_predecessor_session : ProcessSessionId;
  pfa_predecessor_process_id : Z;
  pfa_fault_revision : Z;
  pfa_fault : FaultType;
  pfa_kind : PublicFaultActionKind;
}.
#[export] Instance PublicFaultAction_eq_dec : EqDecision PublicFaultAction.
Proof. solve_decision. Defined.

Inductive PublicServiceClearStage := ClearPending | ClearPublishedAbsent.
#[export] Instance PublicServiceClearStage_eq_dec : EqDecision PublicServiceClearStage.
Proof. solve_decision. Defined.

Record PublicServiceClear := {
  psc_action_id : OperationId;
  psc_stage : PublicServiceClearStage;
  psc_service_uid : option string;
  psc_service_resource_version : option string;
}.
#[export] Instance PublicServiceClear_eq_dec : EqDecision PublicServiceClear.
Proof. solve_decision. Defined.

(** ** Accepted status *)

Record ReplicaRepairIntent := { rri_operation_id : OperationId; rri_target : ReplicaIdentity }.
#[export] Instance ReplicaRepairIntent_eq_dec : EqDecision ReplicaRepairIntent.
Proof. solve_decision. Defined.

Record TransitionIntent := {
  ti_transition_id : TransitionId;
  ti_kind : TransitionKind;
  ti_spec_generation : Z;
  ti_effective_policy : EffectivePolicy;
  ti_previous_configuration_id : option ConfigurationId;
  ti_current_configuration : ConfigurationDescriptor;
  ti_election_lsn : option Lsn;
  ti_build_id : option OperationId;
  ti_repair : option ReplicaRepairIntent;
  ti_switchover : option PlannedSwitchoverIntent;
  ti_secondary_scale_down : option SecondaryScaleDownIntent;
  ti_secondary_removal_evidence : option SecondaryRemovalEvidence;
  ti_scale_up : option ScaleUpIntent;
  ti_scale_up_failover : option ScaleUpFailoverEvidence;
}.
#[export] Instance TransitionIntent_eq_dec : EqDecision TransitionIntent.
Proof. solve_decision. Defined.
#[export] Instance TransitionIntent_fields : Fields TransitionIntent := fun t =>
  Build_TransitionIntent (ti_transition_id t) (ti_kind t) (ti_spec_generation t)
    (ti_effective_policy t) (ti_previous_configuration_id t) (ti_current_configuration t)
    (ti_election_lsn t) (ti_build_id t) (ti_repair t) (ti_switchover t)
    (ti_secondary_scale_down t) (ti_secondary_removal_evidence t) (ti_scale_up t)
    (ti_scale_up_failover t).

Record PrimaryFailureObservation := {
  pfo_primary : ReplicaIdentity;
  pfo_started_at_unix_seconds : Z;
}.
#[export] Instance PrimaryFailureObservation_eq_dec : EqDecision PrimaryFailureObservation.
Proof. solve_decision. Defined.

Record QuorumLossObservation := { qlo_configuration_id : ConfigurationId }.
#[export] Instance QuorumLossObservation_eq_dec : EqDecision QuorumLossObservation.
Proof. solve_decision. Defined.

Inductive ConditionStatus := ConditionTrue | ConditionFalse | ConditionUnknown.
#[export] Instance ConditionStatus_eq_dec : EqDecision ConditionStatus.
Proof. solve_decision. Defined.

Record StatusCondition := {
  sc_type : string;
  sc_status : ConditionStatus;
  sc_reason : string;
  sc_message : string;
}.
#[export] Instance StatusCondition_eq_dec : EqDecision StatusCondition.
Proof. solve_decision. Defined.
#[export] Instance StatusCondition_fields : Fields StatusCondition := fun c =>
  Build_StatusCondition (sc_type c) (sc_status c) (sc_reason c) (sc_message c).

(** [AcceptedTopology] has the configuration as its only field. *)
Record AcceptedStatus := {
  st_initialized : bool;
  st_observed_generation : Z;
  st_effective_policy : option EffectivePolicy;
  st_topology : option ConfigurationDescriptor;
  st_scale_up_allocation : option ScaleUpAllocation;
  st_provisioning : option ProvisioningIntent;
  st_transition : option TransitionIntent;
  st_primary_failure : option PrimaryFailureObservation;
  st_quorum_loss : option QuorumLossObservation;
  st_last_switchover : option PlannedSwitchoverReceipt;
  st_pending_replacement_cleanup : option ReplacementCleanup;
  st_last_replacement : option ReplacementCleanup;
  st_secondary_scale_down_cleanup : option SecondaryScaleDownCleanup;
  st_last_secondary_removal : option SecondaryRemovalReceipt;
  st_scale_up_cleanup : option ScaleUpCleanup;
  st_last_scale_up : option ScaleUpReceipt;
  st_scale_up_admission_started : option OperationId;
  st_preview_lifecycle : option PreviewLifecycleBinding;
  st_public_fault_action : option PublicFaultAction;
  st_public_service_clear : option PublicServiceClear;
  st_last_public_fault_action : option PublicFaultAction;
  st_conditions : list StatusCondition;
}.
#[export] Instance AcceptedStatus_eq_dec : EqDecision AcceptedStatus.
Proof. solve_decision. Defined.
#[export] Instance AcceptedStatus_fields : Fields AcceptedStatus := fun s =>
  Build_AcceptedStatus (st_initialized s) (st_observed_generation s) (st_effective_policy s)
    (st_topology s) (st_scale_up_allocation s) (st_provisioning s) (st_transition s)
    (st_primary_failure s) (st_quorum_loss s) (st_last_switchover s)
    (st_pending_replacement_cleanup s) (st_last_replacement s) (st_secondary_scale_down_cleanup s)
    (st_last_secondary_removal s) (st_scale_up_cleanup s) (st_last_scale_up s)
    (st_scale_up_admission_started s) (st_preview_lifecycle s) (st_public_fault_action s)
    (st_public_service_clear s) (st_last_public_fault_action s) (st_conditions s).

Definition without_condition (type_ : string) (s : AcceptedStatus) : AcceptedStatus :=
  s <| st_conditions := List.filter (fun c => sc_type c != type_) (st_conditions s) |>.

Definition with_condition (c : StatusCondition) (s : AcceptedStatus) : AcceptedStatus :=
  s <| st_conditions := List.filter (fun x => sc_type x != sc_type c) (st_conditions s) ++ [c] |>.

(** ** Desired state and Kubernetes evidence *)

Record PlannedSwitchoverRequest := {
  psr_request_id : SwitchoverRequestId;
  psr_target_replica_id : ReplicaId;
}.

Record DesiredState := {
  ds_generation : Z;
  ds_replicas : Z;
  ds_image : string;
  ds_failover_delay_seconds : Z;
  ds_switchover : option PlannedSwitchoverRequest;
  ds_preview_lifecycle : option StatePersistence;
}.

Record KubernetesReplicaObservation := {
  ko_replica_id : ReplicaId;
  ko_pod_name : string;
  ko_pod_uid : option PodUid;
  ko_pvc_name : string;
  ko_pvc_uid : option PvcUid;
  ko_image : option string;
  ko_pod_ready : bool;
  ko_peer_endpoint_ready : bool;
  ko_endpoint_name : option string;
  ko_endpoint_uid : option string;
  ko_endpoint_resource_version : option string;
}.

Definition has_exact_scaffolding (k : KubernetesReplicaObservation) : bool :=
  is_some (ko_pod_uid k) && is_some (ko_pvc_uid k).

(** ** Reports of the agents *)

Record UninitializedAgentObservation := {
  ua_protocol_version : Z;
  ua_resource_uid : ResourceUid;
  ua_replica_id : ReplicaId;
  ua_pod_uid : PodUid;
  ua_pvc_uid : PvcUid;
  ua_process_session_id : ProcessSessionId;
  ua_report_sequence : Z;
}.

Record LoadMetric := { lm_name : string; lm_value : Z }.

Record AgentBuildReport := {
  ab_build_id : OperationId;
  ab_target : ReplicaIdentity;
  ab_last_sequence : Z;
  ab_replication_boundary_lsn : Lsn;
  ab_durable_lsn : Lsn;
  ab_completed : bool;
  ab_catch_up_boundary_lsn : option Lsn;
}.

Record AgentReport := {
  ar_protocol_version : Z;
  ar_resource_uid : ResourceUid;
  ar_identity : ReplicaIdentity;
  ar_process_session_id : ProcessSessionId;
  ar_report_sequence : Z;
  ar_role : ReplicaRole;
  ar_read_status : AccessStatus;
  ar_write_status : AccessStatus;
  ar_healthy : bool;
  ar_epoch : Epoch;
  ar_previous_configuration : option ConfigurationDescriptor;
  ar_current_configuration : option ConfigurationDescriptor;
  ar_current_progress : Lsn;
  ar_verified_replication_lsn : option Lsn;
  ar_committed_lsn : Lsn;
  ar_catch_up_capability : option Lsn;
  ar_current_configuration_quorum_progress : Lsn;
  ar_catch_up_boundary : option Lsn;
  ar_catch_up_complete : bool;
  ar_deactivated_lsn : option Lsn;
  ar_deactivation_epoch : option Epoch;
  ar_load_metrics : list LoadMetric;
  ar_reported_fault : option FaultType;
  ar_pending_operation_id : option OperationId;
  ar_pending_configuration : option EnsureConfiguration;
  ar_retained_operation_id : option OperationId;
  ar_builds : list AgentBuildReport;
  ar_prepared_switchover : option SwitchoverHandoff;
  ar_prepared_secondary_removal : option SecondaryRemovalPreparation;
  ar_secondary_removal_evidence : option SecondaryRemovalEvidence;
  ar_retired_replica : option ReplicaRetirementReport;
  ar_accepted_secondary_removal : option SecondaryScaleDownCleanup;
  ar_scale_up_intent : option ScaleUpIntent;
}.

(** [AgentReport::default] *)
Definition default_report : AgentReport :=
  {| ar_protocol_version := 0; ar_resource_uid := "";
     ar_identity := {| replica_id := 0; instance_id := ""; agent_generation := "" |};
     ar_process_session_id := ""; ar_report_sequence := 0; ar_role := RoleNone;
     ar_read_status := NotPrimary; ar_write_status := NotPrimary; ar_healthy := false;
     ar_epoch := epoch_default; ar_previous_configuration := None; ar_current_configuration := None;
     ar_current_progress := 0; ar_verified_replication_lsn := None; ar_committed_lsn := 0;
     ar_catch_up_capability := None; ar_current_configuration_quorum_progress := 0;
     ar_catch_up_boundary := None; ar_catch_up_complete := false; ar_deactivated_lsn := None;
     ar_deactivation_epoch := None; ar_load_metrics := []; ar_reported_fault := None;
     ar_pending_operation_id := None; ar_pending_configuration := None;
     ar_retained_operation_id := None; ar_builds := []; ar_prepared_switchover := None;
     ar_prepared_secondary_removal := None; ar_secondary_removal_evidence := None;
     ar_retired_replica := None; ar_accepted_secondary_removal := None;
     ar_scale_up_intent := None |}.

(** ** Exact lookups of resources *)

Inductive ExactResourceObservation :=
| FrozenUidPresent (resource_version : string)
| ReplacementPresent (uid resource_version : string)
| ResourceNotFound
| LookupFailed (message : string).

Record SecondaryScaleDownResourceObservation := {
  sro_resource_uid : ResourceUid;
  sro_target : ReplicaIdentity;
  sro_identity : ReplicaCleanupIdentity;
  sro_pod : ExactResourceObservation;
  sro_pod_allocation_operation_id : option OperationId;
  sro_pod_matches_allocation_metadata : bool;
  sro_pvc : ExactResourceObservation;
  sro_pvc_allocation_operation_id : option OperationId;
  sro_endpoint : ExactResourceObservation;
}.

(** ** The snapshot *)

Record ReplicaObservationKey := { rok_replica_id : ReplicaId; rok_instance_id : ReplicaInstanceId }.
#[export] Instance ReplicaObservationKey_eq_dec : EqDecision ReplicaObservationKey.
Proof. solve_decision. Defined.
#[export] Instance ReplicaObservationKey_countable : Countable ReplicaObservationKey.
Proof.
  refine (inj_countable' (fun k => (rok_replica_id k, rok_instance_id k))
            (fun '(r, i) => {| rok_replica_id := r; rok_instance_id := i |}) _).
  by intros [].
Defined.

(** The derived [Ord], as a [<=]. *)
Definition key_leb (a b : ReplicaObservationKey) : bool :=
  (rok_replica_id a <? rok_replica_id b)
  || ((rok_replica_id a =? rok_replica_id b)
      && match String.compare (rok_instance_id a) (rok_instance_id b) with Gt => false | _ => true end).

Definition key_le (a b : ReplicaObservationKey) : Prop := key_leb a b = true.
#[export] Instance key_le_dec : RelDecision key_le.
Proof. intros a b. unfold key_le. apply _. Defined.

Definition identity_key (i : ReplicaIdentity) : ReplicaObservationKey :=
  {| rok_replica_id := replica_id i; rok_instance_id := instance_id i |}.

Inductive AgentObservation :=
| AgentAbsent
| AgentUnreachable (message : string)
| AgentInvalid (message : string) (uninitialized_report : option UninitializedAgentObservation)
| AgentUninitialized (u : UninitializedAgentObservation)
| AgentReported (r : AgentReport).

Definition agent_report (a : AgentObservation) : option AgentReport :=
  match a with AgentReported r => Some r | _ => None end.

Record ReplicaObservation := {
  ro_kubernetes : option KubernetesReplicaObservation;
  ro_agent : AgentObservation;
}.

Record ObservationFailure := { of_source : string; of_message : string }.

Record ReportWatermark := { rw_process_session_id : ProcessSessionId; rw_report_sequence : Z }.

Record RoutingObservation := {
  ro_service_present : bool;
  ro_unresolved_write_target : bool;
  ro_write_target : option ReplicaIdentity;
  ro_preview_service_location_present : bool;
  ro_write_service_uid : option string;
  ro_write_service_resource_version : option string;
  ro_service_identities : list (string * string);
}.

Record ObservationSnapshot := {
  os_resource_uid : ResourceUid;
  os_resource_version : string;
  os_desired : DesiredState;
  os_status : AcceptedStatus;
  os_replicas : gmap ReplicaObservationKey ReplicaObservation;
  os_secondary_scale_down_resources : list SecondaryScaleDownResourceObservation;
  os_previous_report_watermarks : gmap ReplicaObservationKey ReportWatermark;
  os_durable_storage_evidence : bool;
  os_supporting_resources_ready : bool;
  os_routing : RoutingObservation;
  os_observation_failures : list ObservationFailure;
  os_now_unix_seconds : Z;
}.
#[export] Instance ObservationSnapshot_fields : Fields ObservationSnapshot := fun s =>
  Build_ObservationSnapshot (os_resource_uid s) (os_resource_version s) (os_desired s) (os_status s)
    (os_replicas s) (os_secondary_scale_down_resources s) (os_previous_report_watermarks s)
    (os_durable_storage_evidence s) (os_supporting_resources_ready s) (os_routing s)
    (os_observation_failures s) (os_now_unix_seconds s).

(** The replicas in the order of the [BTreeMap]. *)
Definition entry_le (x y : ReplicaObservationKey * ReplicaObservation) : Prop := key_le (fst x) (fst y).
#[export] Instance entry_le_dec : RelDecision entry_le.
Proof. intros x y. apply key_le_dec. Defined.
Definition replicas_in_order (s : ObservationSnapshot)
    : list (ReplicaObservationKey * ReplicaObservation) :=
  merge_sort entry_le (map_to_list (os_replicas s)).

Definition intended_replica_ids (s : ObservationSnapshot) : list ReplicaId :=
  map Z.of_nat (seq 1 (Z.to_nat (ds_replicas (os_desired s)))).

(** The only replica with this id that Kubernetes has resources for. *)
Definition scaffolding_observation_for (s : ObservationSnapshot) (id : ReplicaId)
    : option ReplicaObservation :=
  match List.filter (fun o => is_some (ro_kubernetes o))
          (map snd (List.filter (fun x => rok_replica_id (fst x) == id) (replicas_in_order s))) with
  | [o] => Some o
  | _ => None
  end.
Definition scaffolding_for (s : ObservationSnapshot) (id : ReplicaId)
    : option KubernetesReplicaObservation :=
  match omap ro_kubernetes
          (map snd (List.filter (fun x => rok_replica_id (fst x) == id) (replicas_in_order s))) with
  | [k] => Some k
  | _ => None
  end.

Definition has_complete_scaffolding (s : ObservationSnapshot) : bool :=
  forallb (fun id => is_some_and has_exact_scaffolding (scaffolding_for s id))
    (intended_replica_ids s).

Definition observation_for_identity (s : ObservationSnapshot) (i : ReplicaIdentity)
    : option ReplicaObservation :=
  os_replicas s !! identity_key i.

(** ** Kubernetes changes *)

Inductive ScaleDownResource := ResourceEndpoint | ResourcePod | ResourcePvc.

Inductive KubernetesChange :=
| EnsureReplicaSupport
| EnsureReplicaScaffolding (replica_ids : list ReplicaId)
| EnsureReplacementScaffolding (id : ReplicaId) (replacing : ReplicaIdentity)
| DeleteReplicaScaffolding (pod_name : option string) (pod_uid : option PodUid)
    (pvc_name : option string) (pvc_uid : option PvcUid)
| DeleteReplicaEndpoint (identity : ReplicaIdentity)
| DeleteExactPod (pod_name : string) (pod_uid : PodUid)
| DeleteExactService (name uid resource_version : string)
| DeleteScaleDownResource (resource : ScaleDownResource) (name uid resource_version : string)
| EnsureWriteRoutingService
| PersistStatus (status : AcceptedStatus)
| RemoveWriteRouting
| PublishWriteRouting (primary : ReplicaIdentity).

Inductive SafetyChange := SafetyRemoveWriteRouting.
