(* ===== verification/ScaleDown.v ===== *)
(** * Validation of a secondary scale-down
      ([protocol/validation/scale_down.rs])

    The frozen removal intent, the durable primary preparation, the witnesses of
    its three stages, the retirement of the removed replica, and the commands
    that carry this evidence. *)

From S2P Require Import Prelude Digest Types Intents Commands Validation Quorums.
From stdpp Require Import base gmap strings list pretty.
From Stdlib Require Import ZArith Lia.
Local Open Scope Z_scope.

Definition invalid_removal (reason : string) : ValidationError :=
  InvalidSecondaryScaleDown reason.

(** [iter().max_by_key(key)]: the last of the elements with the largest key *)
Definition max_by_key {A} (key : A -> Z) (l : list A) : option A :=
  fold_left (fun best x =>
    match best with
    | Some b => if key b <=? key x then Some x else best
    | None => Some x
    end) l None.

Section scale_down.
Context `{Sha256}.

(** The name and UID that each cleanup resource must carry. *)
Definition exact_cleanup_resource (r : CleanupResourceIdentity) : validation :=
  reject (is_empty (cleanup_name r) || present_and is_empty r)
    (invalid_removal "cleanup requires an exact name and UID or positive absence").

Definition validate_secondary_scale_down (i : SecondaryScaleDownIntent) : validation :=
  let previous := sdi_previous_configuration i in
  let current := sdi_current_configuration i in
  validate_policy (sdi_previous_policy i) ;?
  validate_policy (sdi_current_policy i) ;?
  validate_configuration previous (Some (sdi_previous_policy i)) ;?
  validate_configuration current (Some (sdi_current_policy i)) ;?
  reject (existsb (fun m => is_empty (instance_id (cm_identity m))
                            || is_empty (agent_generation (cm_identity m)))
            (cd_members previous))
    (invalid_removal "membership requires exact nonempty incarnation and generation") ;?
  reject (is_empty (sdi_resource_uid i)
          || (sdi_spec_generation i == 0)
          || (sdi_desired_replicas i == 0)
          || (replica_set_size (sdi_current_policy i) <? sdi_desired_replicas i)
          || (sdi_operation_id i != sdi_expected_operation_id i))
    (invalid_removal "invalid frozen request or operation identity") ;?
  reject ((data_loss_number (cd_epoch previous) <? 0)
          || (configuration_number (cd_epoch previous) <? 0)
          || (data_loss_number (cd_epoch current) != data_loss_number (cd_epoch previous)))
    TransitionDataLossChanged ;?
  reject (configuration_number (cd_epoch current) <=? configuration_number (cd_epoch previous))
    TransitionEpochNotNewer ;?
  reject ((failover_delay_seconds (sdi_previous_policy i)
             != failover_delay_seconds (sdi_current_policy i))
          || (length (cd_members previous) != (length (cd_members current) + 1)%nat))
    (invalid_removal "removal must preserve delay and reduce membership by exactly one") ;?
  let? primary := expect (List.find is_primary (cd_members previous)) in
  let? target := ok_or (max_by_key member_id
                          (List.filter (fun m => cm_role m == ActiveSecondary)
                             (cd_members previous)))
                   (invalid_removal "no committed secondary") in
  reject ((sdi_primary i != cm_identity primary)
          || (sdi_target i != cm_identity target)
          || (cd_primary_id previous != cd_primary_id current)
          || existsb (fun m => negb ((cm_role m == Primary) || (cm_role m == ActiveSecondary)))
               (cd_members previous)
          || existsb (fun m => negb (existsb (fun n => n == m) (cd_members current)))
               (List.filter (fun m => cm_identity m != sdi_target i) (cd_members previous))
          || has_member current (sdi_target i))
    (invalid_removal
       "target must be the highest committed secondary; retained members cannot change") ;?
  for_each exact_cleanup_resource
    [rci_pod (sdi_cleanup i); rci_pvc (sdi_cleanup i); rci_endpoint (sdi_cleanup i)] ;?
  reject (present_and (fun uid => uid != instance_id (sdi_target i)) (rci_pod (sdi_cleanup i))
          || (cleanup_name (rci_endpoint (sdi_cleanup i))
                != derive_replica_endpoint_name (sdi_resource_uid i) (sdi_target i)))
    (invalid_removal "cleanup identity differs from frozen target").

Definition validate_secondary_removal_preparation (p : SecondaryRemovalPreparation) : validation :=
  validate_secondary_scale_down (srp_intent p) ;?
  reject ((srp_operation_id p
             != sdi_command_operation_id (srp_intent p) SrPrepare (sdi_primary (srp_intent p)))
          || is_empty (srp_process_session_id p)
          || (srp_report_sequence p == 0)
          || (srp_boundary_lsn p <? 0))
    (invalid_removal "invalid durable primary preparation").

(** One pass of the loop over the witnesses of a stage. *)
Definition check_removal_witness (p : SecondaryRemovalPreparation) (stage : SecondaryRemovalStage)
    (identities : gset ReplicaIdentity) (w : SecondaryRemovalWitness)
    : res ValidationError (gset ReplicaIdentity) :=
  let intent := srp_intent p in
  let old := stage == SrPrepare in
  let configuration := if old then sdi_previous_configuration intent
                       else sdi_current_configuration intent in
  let expected_previous :=
    then_some (stage == SrPreviousCurrent)
      (cd_configuration_id (sdi_previous_configuration intent)) in
  reject ((srw_resource_uid w != sdi_resource_uid intent)
          || is_empty (srw_process_session_id w)
          || (srw_report_sequence w == 0)
          || negb (has_member_with_role (sdi_current_configuration intent)
                     (srw_identity w) (srw_role w))
          || bool_decide (srw_identity w ∈ identities)
          || (srw_epoch w != cd_epoch configuration)
          || (srw_previous_configuration_id w != expected_previous)
          || (srw_current_configuration_id w != cd_configuration_id configuration)
          || (srw_verified_replication_lsn w <? 0)
          || (negb old && (srw_verified_replication_lsn w <? srp_boundary_lsn p))
          || is_some (srw_pending_operation_id w)
          || (srw_write_status w == Granted)
          || (negb old && (srw_retained_operation_id w
                             != Some (sdi_command_operation_id intent stage (srw_identity w)))))
    (invalid_removal "invalid exact quorum witness authority or verified progress") ;?
  reject (old && (srw_identity w == sdi_primary intent)
          && (((srw_process_session_id w == srp_process_session_id p)
               && (srw_report_sequence w <? srp_report_sequence p))
              || (srw_verified_replication_lsn w <? srp_boundary_lsn p)
              || (srw_retained_operation_id w != Some (srp_operation_id p))))
    (invalid_removal "primary witness does not attest durable preparation") ;?
  Ok ({[srw_identity w]} ∪ identities).

Definition validate_removal_witnesses (p : SecondaryRemovalPreparation)
    (witnesses : list SecondaryRemovalWitness) (stage : SecondaryRemovalStage) : validation :=
  let intent := srp_intent p in
  let old := stage == SrPrepare in
  let quorum := if old then read_quorum (sdi_previous_policy intent)
                else write_quorum (sdi_current_policy intent) in
  let? identities := try_fold (check_removal_witness p stage) ∅ witnesses in
  reject ((Z.of_nat (size identities) <? quorum)
          || (negb old && negb (bool_decide (sdi_primary intent ∈ identities))))
    (invalid_removal "insufficient exact quorum or missing reduced primary").

(** An earlier report of the same replica process that is not older. *)
Definition superseded_by (w earlier : SecondaryRemovalWitness) : bool :=
  (srw_identity earlier == srw_identity w)
  && (srw_process_session_id earlier == srw_process_session_id w)
  && (srw_report_sequence w <=? srw_report_sequence earlier).

Definition validate_secondary_removal_evidence (e : SecondaryRemovalEvidence)
    (require_reduced : bool) : validation :=
  let p := sre_preparation e in
  validate_secondary_removal_preparation p ;?
  validate_removal_witnesses p (sre_previous_read_quorum e) SrPrepare ;?
  if require_reduced || (sre_reduced_write_quorum e != []) then
    validate_removal_witnesses p (sre_reduced_write_quorum e) SrPreviousCurrent ;?
    for_each (fun w =>
      reject (existsb (superseded_by w) (sre_previous_read_quorum e)
              || ((srw_identity w == sdi_primary (srp_intent p))
                  && (srw_process_session_id w == srp_process_session_id p)
                  && (srw_report_sequence w <=? srp_report_sequence p)))
        (invalid_removal "reduced-authority evidence is not fresh"))
      (sre_reduced_write_quorum e)
  else Ok tt.

Definition validate_replica_retirement (r : ReplicaRetirementReport) : validation :=
  validate_secondary_scale_down (rrr_intent r) ;?
  reject ((rrr_operation_id r
             != sdi_command_operation_id (rrr_intent r) SrRetire (sdi_target (rrr_intent r)))
          || is_empty (rrr_process_session_id r)
          || (rrr_report_sequence r == 0)
          || (rrr_epoch r != cd_epoch (sdi_current_configuration (rrr_intent r)))
          || (rrr_role r != RoleNone)
          || (rrr_read_status r == Granted)
          || (rrr_write_status r == Granted)
          || negb (rrr_application_closed r)
          || negb (rrr_peers_fenced r))
    (invalid_removal "retirement must attest terminal exact local fencing").

Definition validate_secondary_scale_down_cleanup (c : SecondaryScaleDownCleanup) : validation :=
  let e := sdc_evidence c in
  validate_secondary_removal_evidence e true ;?
  validate_removal_witnesses (sre_preparation e) (sdc_current_only_write_quorum c)
    SrCurrentOnly ;?
  for_each (fun w =>
    reject (existsb (superseded_by w)
              (sre_previous_read_quorum e ++ sre_reduced_write_quorum e))
      (invalid_removal "current-only evidence is not fresh"))
    (sdc_current_only_write_quorum c) ;?
  match sdc_retirement c with
  | Some retirement =>
      validate_replica_retirement retirement ;?
      reject (rrr_intent retirement != srp_intent (sre_preparation e))
        (invalid_removal "retirement does not bind the committed cleanup obligation")
  | None => Ok tt
  end.

Definition validate_accept_secondary_removal_commit (c : AcceptSecondaryRemovalCommit)
    : validation :=
  validate_secondary_scale_down_cleanup (arc_committed c) ;?
  let intent := srp_intent (sre_preparation (sdc_evidence (arc_committed c))) in
  reject (negb (has_member (sdi_current_configuration intent) (arc_target c))
          || (arc_operation_id c != sdi_command_operation_id intent SrAcceptCommit (arc_target c))
          || is_some (sdc_retirement (arc_committed c))
          || (arc_local_recovery c && (arc_target c == sdi_primary intent)))
    (invalid_removal
       "commit publication must bind one retained exact member and immutable acceptance evidence").

Definition validate_secondary_removal_configuration (c : EnsureConfiguration) : validation :=
  let? e := ok_or (ec_secondary_removal_evidence c)
              (invalid_removal "missing admission evidence") in
  validate_secondary_removal_evidence e (ec_current_only c) ;?
  let intent := srp_intent (sre_preparation e) in
  let target := ec_local_identity c in
  let stage := if ec_current_only c then SrCurrentOnly else SrPreviousCurrent in
  reject ((ec_transition_kind c != SecondaryScaleDown)
          || (ec_operation_id c != sdi_command_operation_id intent stage target)
          || negb (has_member (sdi_current_configuration intent) target)
          || (ec_current_configuration c != sdi_current_configuration intent)
          || (ec_effective_policy c != sdi_current_policy intent)
          || (ec_previous_policy c != Some (sdi_previous_policy intent))
          || (ec_current_epoch c != cd_epoch (sdi_current_configuration intent))
          || (ec_previous_configuration c
                != then_some (negb (ec_current_only c)) (sdi_previous_configuration intent))
          || (ec_previous_epoch c
                != then_some (negb (ec_current_only c))
                     (cd_epoch (sdi_previous_configuration intent)))
          || (ec_primary_write_status c != ReconfigurationPending)
          || is_some (ec_failover_safe_lsn c)
          || is_some (ec_switchover_handoff c)
          || (ec_retire_build_ids c != [])
          || (ec_retire_switchover_preparation_ids c != []))
    (invalid_removal
       "configuration command differs from frozen write-closed removal authority").

End scale_down.

(** ** What validated evidence attests *)

(** The configuration a stage's witnesses report. *)
Definition stage_configuration (i : SecondaryScaleDownIntent) (stage : SecondaryRemovalStage)
    : ConfigurationDescriptor :=
  if stage == SrPrepare then sdi_previous_configuration i else sdi_current_configuration i.

Definition witness_identities (ws : list SecondaryRemovalWitness) : gset ReplicaIdentity :=
  list_to_set (map srw_identity ws).

Record attests `{Sha256} (p : SecondaryRemovalPreparation) (stage : SecondaryRemovalStage)
    (w : SecondaryRemovalWitness) : Prop := {
  at_resource : srw_resource_uid w = sdi_resource_uid (srp_intent p);
  at_retained : has_member_with_role (sdi_current_configuration (srp_intent p))
                  (srw_identity w) (srw_role w) = true;
  at_epoch : srw_epoch w = cd_epoch (stage_configuration (srp_intent p) stage);
  at_configuration : srw_current_configuration_id w
                     = cd_configuration_id (stage_configuration (srp_intent p) stage);
  at_closed : srw_write_status w <> Granted;
  at_idle : srw_pending_operation_id w = None;
  at_progress : stage <> SrPrepare \/ srw_identity w = sdi_primary (srp_intent p) ->
                srp_boundary_lsn p <= srw_verified_replication_lsn w;
  at_operation : stage <> SrPrepare ->
                 srw_retained_operation_id w
                 = Some (sdi_command_operation_id (srp_intent p) stage (srw_identity w));
}.

(** [current] is [previous] without the member [target]. *)
Record removes_member (previous current : ConfigurationDescriptor) (target : ReplicaIdentity)
    : Prop := {
  rm_target : target ∈ exact_identities previous;
  rm_members : forall m, m ∈ cd_members current <->
                         m ∈ cd_members previous /\ cm_identity m <> target;
}.

(** What a validated removal intent fixes. *)
Record removal_intent `{Sha256} (i : SecondaryScaleDownIntent) : Prop := {
  ri_previous : valid_configuration (sdi_previous_configuration i) (Some (sdi_previous_policy i));
  ri_current : valid_configuration (sdi_current_configuration i) (Some (sdi_current_policy i));
  ri_previous_policy : validate_policy (sdi_previous_policy i) = Ok tt;
  ri_current_policy : validate_policy (sdi_current_policy i) = Ok tt;
  ri_data_loss : data_loss_number (cd_epoch (sdi_current_configuration i))
                 = data_loss_number (cd_epoch (sdi_previous_configuration i));
  ri_number : configuration_number (cd_epoch (sdi_previous_configuration i))
              < configuration_number (cd_epoch (sdi_current_configuration i));
  ri_removes : removes_member (sdi_previous_configuration i) (sdi_current_configuration i)
                 (sdi_target i);
  ri_same_primary : cd_primary_id (sdi_previous_configuration i)
                    = cd_primary_id (sdi_current_configuration i);
  ri_primary : exists m, m ∈ cd_members (sdi_current_configuration i) /\
                 cm_role m = Primary /\ cm_identity m = sdi_primary i;
  ri_highest : forall m, m ∈ cd_members (sdi_previous_configuration i) ->
                 cm_role m = ActiveSecondary -> member_id m <= replica_id (sdi_target i);
  ri_operation : sdi_operation_id i = sdi_expected_operation_id i;
}.

Lemma max_by_key_spec {A} (key : A -> Z) l x :
  max_by_key key l = Some x -> x ∈ l /\ forall y, y ∈ l -> key y <= key x.
Proof.
  unfold max_by_key. revert x. induction l as [|y l IH] using rev_ind; [done|].
  intros x. rewrite fold_left_app. simpl. setoid_rewrite elem_of_app.
  setoid_rewrite list_elem_of_singleton.
  destruct (fold_left _ l None) as [b|] eqn:Hb.
  - destruct (IH b) as [Hin Hmax]; [done|]. destruct (_ <=? _) eqn:E; intros [= <-].
    + split; [by right|]. apply Z.leb_le in E. intros z [Hz| ->]; [|lia]. specialize (Hmax z Hz). lia.
    + split; [by left|]. apply Z.leb_gt in E. intros z [Hz| ->]; [auto|lia].
  - intros [= <-]. split; [by right|]. intros z [Hz| ->]; [|lia].
    destruct l as [|z0 l _] using rev_ind; [by apply elem_of_nil in Hz|].
    rewrite fold_left_app in Hb. simpl in Hb. by destruct (fold_left _ l None); [destruct (_ <=? _)|].
Qed.

Section attestation.
Context `{Sha256}.

Lemma find_primary_by_role c policy m :
  valid_configuration c policy -> List.find is_primary (cd_members c) = Some m ->
  m ∈ cd_members c /\ cm_role m = Primary /\ member_id m = cd_primary_id c.
Proof.
  intros Hv Hf. apply List.find_some in Hf as [Hin Hp]. apply list_elem_of_In in Hin.
  unfold is_primary in Hp. guards. destruct (vc_primary _ _ Hv) as (n & _ & _ & Hid & Huniq).
  pose proof (Huniq m Hin Hp) as ->. done.
Qed.

(** A member list that keeps all but the target and is one shorter is the
    member list without the target. *)
Lemma removes_member_intro previous current p q target :
  valid_configuration previous p -> valid_configuration current q ->
  target ∈ exact_identities previous -> (target ∉ exact_identities current) ->
  length (cd_members previous) = (length (cd_members current) + 1)%nat ->
  (forall m, m ∈ cd_members previous -> cm_identity m <> target -> m ∈ cd_members current) ->
  removes_member previous current target.
Proof.
  intros Hp Hq Ht Hnt Hlen Hkeep. split; [done|].
  assert (exact_identities previous ∖ {[target]} = exact_identities current) as Hset.
  { apply set_subseteq_size_eq.
    - intros i. rewrite elem_of_difference, elem_of_singleton, !elem_of_exact_identities.
      intros [(m & Hm & ->) Hi]. eauto.
    - rewrite size_difference, size_singleton by set_solver.
      erewrite !size_exact_identities by done. lia. }
  intros m. split.
  - intros Hm.
    assert (cm_identity m ∈ exact_identities previous ∖ {[target]}) as Hin
      by (rewrite Hset; apply elem_of_exact_identities; eauto).
    rewrite elem_of_difference, elem_of_singleton, elem_of_exact_identities in Hin.
    destruct Hin as [(n & Hn & Heq) Hi]. rewrite Heq in Hi.
    rewrite (member_id_inj current m n); [done|by eapply vc_ids|done|by apply Hkeep|].
    unfold member_id. by rewrite Heq.
  - intros [Hm Hi]. by apply Hkeep.
Qed.

Lemma validate_secondary_scale_down_ok i :
  countable_members (sdi_previous_configuration i) ->
  countable_members (sdi_current_configuration i) ->
  validate_secondary_scale_down i = Ok tt -> removal_intent i.
Proof.
  intros Hcp Hcc. unfold validate_secondary_scale_down. intros Hok. guards.
  repeat match goal with
  | H : validate_configuration _ _ = Ok tt |- _ => apply valid_configuration_sound in H; [|done]
  | H : existsb _ _ = false |- _ => rewrite existsb_false in H
  | H : List.find is_primary _ = Some _ |- _ => eapply find_primary_by_role in H as (? & ? & ?); [|done]
  | H : max_by_key _ _ = Some _ |- _ => apply max_by_key_spec in H as [Ht%elem_of_filterb Hmax]
  end.
  guards.
  match goal with H : sdi_primary i = cm_identity ?m |- _ => rename m into primary, H into Hpr end.
  match goal with H : sdi_target i = cm_identity ?m |- _ => rename m into target, H into Htg end.
  assert (Hkeep : forall m, m ∈ cd_members (sdi_previous_configuration i) ->
            cm_identity m <> sdi_target i -> m ∈ cd_members (sdi_current_configuration i)).
  { intros m Hm Hne. match goal with
    | H : forall x, x ∈ List.filter _ _ -> negb (existsb _ _) = false |- _ =>
        specialize (H m); rename H into Hretained end.
    rewrite elem_of_filterb, negb_false_iff, existsb_true in Hretained.
    destruct Hretained as (n & Hn & Heq); [by rewrite negb_true_iff, bool_decide_eq_false|].
    guards. by subst. }
  split; try done.
  - eapply removes_member_intro; try done.
    + rewrite Htg. apply elem_of_exact_identities. eauto.
    + rewrite elem_of_exact_identities. intros (m & Hm & Heq).
      rename select (has_member _ _ = false) into Hno. unfold has_member in Hno.
      rewrite existsb_false in Hno. specialize (Hno m Hm). guards. congruence.
  - exists primary. split_and!; [|done|done]. apply Hkeep; [done|]. rewrite Htg. intros Heq.
    assert (primary = target) as ->; [|congruence].
    apply (member_id_inj (sdi_previous_configuration i)); [by eapply vc_ids|done..|].
    unfold member_id. by rewrite Heq.
  - intros m Hm Hr. rewrite Htg. apply Hmax, elem_of_filterb.
    split; [done|]. by apply bool_decide_eq_true.
Qed.

Lemma check_removal_witness_ok p stage ids w ids' :
  check_removal_witness p stage ids w = Ok ids' ->
  (srw_identity w ∉ ids) /\ ids' = {[srw_identity w]} ∪ ids /\ attests p stage w.
Proof.
  unfold check_removal_witness. intros Hok. guards.
  rename select (is_some _ = false) into Hidle. apply is_some_false in Hidle.
  destruct (decide (stage = SrPrepare)) as [->|Hstage].
  - split_and!; [done..|]. split; try done.
    intros [?|Hp]; [done|]. simpl in *.
    rewrite (bool_decide_true (srw_identity w = _)) in * by done. simpl in *. guards. done.
  - assert ((stage == SrPrepare) = false) as Hb by (by apply bool_decide_eq_false).
    rewrite Hb in *. simpl in *. guards.
    split_and!; [done..|]. split; unfold stage_configuration; rewrite ?bool_decide_false by done; done.
Qed.

Lemma removal_witnesses_fold p stage ws ids ids' :
  try_fold (check_removal_witness p stage) ids ws = Ok ids' ->
  ids' = witness_identities ws ∪ ids /\ Forall (attests p stage) ws.
Proof.
  intros Hok. apply (try_fold_collect srw_identity (attests p stage)) in Hok as (-> & Hall & _);
    [done|]. apply check_removal_witness_ok.
Qed.

Lemma has_member_with_role_elem c i role :
  has_member_with_role c i role = true -> i ∈ exact_identities c.
Proof.
  unfold has_member_with_role. rewrite existsb_true. intros (m & Hm & Heq). guards.
  apply elem_of_exact_identities. eauto.
Qed.

Lemma removal_witnesses_ok p ws stage :
  validate_removal_witnesses p ws stage = Ok tt ->
  Forall (attests p stage) ws /\
  witness_identities ws ⊆ exact_identities (sdi_current_configuration (srp_intent p)) /\
  (if stage == SrPrepare then read_quorum (sdi_previous_policy (srp_intent p))
   else write_quorum (sdi_current_policy (srp_intent p))) <= Z.of_nat (size (witness_identities ws)) /\
  (stage <> SrPrepare -> sdi_primary (srp_intent p) ∈ witness_identities ws).
Proof.
  unfold validate_removal_witnesses. intros Hok. guards.
  rename select (try_fold _ _ _ = _) into Hfold.
  apply removal_witnesses_fold in Hfold as [-> Hall]. rewrite (union_empty_r_L _) in *.
  split_and!; [done| |done|].
  - intros i Hi. unfold witness_identities in Hi.
    apply elem_of_list_to_set, list_elem_of_fmap in Hi as (w & -> & Hw).
    rewrite Forall_forall in Hall. eapply has_member_with_role_elem, at_retained, Hall, Hw.
  - intros Hs. rewrite (bool_decide_false (stage = SrPrepare)) in * by done. simpl in *. guards. done.
Qed.

Lemma removes_member_extends previous current target :
  removes_member previous current target -> extends_by_one current previous.
Proof.
  intros [Ht Hm]. exists target. split; [done|]. apply set_eq. intros i.
  rewrite elem_of_difference, elem_of_singleton, !elem_of_exact_identities.
  setoid_rewrite Hm. naive_solver.
Qed.

Lemma removal_intent_majorities i :
  removal_intent i ->
  majority_configuration (sdi_previous_configuration i) /\
  majority_configuration (sdi_current_configuration i).
Proof.
  intros [Hp Hc Hpp Hcp _ _ _ _ _ _ _].
  split; [apply (valid_configuration_majority _ _ Hp)|apply (valid_configuration_majority _ _ Hc)];
    congruence.
Qed.

Lemma removal_intent_quorums i Q R :
  removal_intent i ->
  write_quorum_of (sdi_current_configuration i) Q ->
  write_quorum_of (sdi_previous_configuration i) R ->
  exists k, k ∈ Q /\ k ∈ R.
Proof.
  intros Hi. pose proof (removal_intent_majorities i Hi) as [Hp Hc].
  apply extension_quorums_intersect; [done..|].
  eapply removes_member_extends, ri_removes, Hi.
Qed.

(** The configurations a removal intent names are countable. *)
Definition countable_intent (i : SecondaryScaleDownIntent) : Prop :=
  countable_members (sdi_previous_configuration i) /\
  countable_members (sdi_current_configuration i).

Lemma preparation_ok p :
  countable_intent (srp_intent p) ->
  validate_secondary_removal_preparation p = Ok tt ->
  removal_intent (srp_intent p) /\ 0 <= srp_boundary_lsn p.
Proof.
  unfold validate_secondary_removal_preparation. intros [? ?] Hok. guards.
  split; [by apply validate_secondary_scale_down_ok|done].
Qed.

(** The retained witnesses of the prepare stage read the old configuration. *)
Lemma prepare_witnesses_read_quorum p ws :
  removal_intent (srp_intent p) -> validate_removal_witnesses p ws SrPrepare = Ok tt ->
  read_quorum_of (sdi_previous_configuration (srp_intent p)) (witness_identities ws).
Proof.
  intros Hi Hok. apply removal_witnesses_ok in Hok as (_ & Hsub & Hq & _). simpl in Hq.
  apply (policy_read_quorum _ _ _ (ri_previous _ Hi) (ri_previous_policy _ Hi)); [|done].
  destruct (removes_member_extends _ _ _ (ri_removes _ Hi)) as (k & _ & Heq).
  rewrite Heq in Hsub. set_solver.
Qed.

Lemma current_witnesses_write_quorum p ws stage :
  removal_intent (srp_intent p) -> stage <> SrPrepare ->
  validate_removal_witnesses p ws stage = Ok tt ->
  write_quorum_of (sdi_current_configuration (srp_intent p)) (witness_identities ws).
Proof.
  intros Hi Hs Hok. apply removal_witnesses_ok in Hok as (_ & Hsub & Hq & _).
  rewrite bool_decide_false in Hq by done. by apply (policy_write_quorum _ _ _ (ri_current _ Hi)).
Qed.

Lemma elem_of_witness_identities ws k :
  k ∈ witness_identities ws <-> exists w, w ∈ ws /\ srw_identity w = k.
Proof.
  unfold witness_identities. rewrite elem_of_list_to_set, list_elem_of_fmap. naive_solver.
Qed.

Lemma evidence_ok e require_reduced :
  countable_intent (srp_intent (sre_preparation e)) ->
  validate_secondary_removal_evidence e require_reduced = Ok tt ->
  removal_intent (srp_intent (sre_preparation e)) /\
  0 <= srp_boundary_lsn (sre_preparation e) /\
  validate_removal_witnesses (sre_preparation e) (sre_previous_read_quorum e) SrPrepare = Ok tt /\
  (require_reduced = true ->
   validate_removal_witnesses (sre_preparation e) (sre_reduced_write_quorum e)
     SrPreviousCurrent = Ok tt /\
   forall w earlier, w ∈ sre_reduced_write_quorum e -> earlier ∈ sre_previous_read_quorum e ->
     superseded_by w earlier = false).
Proof.
  unfold validate_secondary_removal_evidence. intros Hc Hok. guards.
  rename select (validate_secondary_removal_preparation _ = _) into Hp.
  apply preparation_ok in Hp as [Hi Hb]; [|done]. split_and!; [done..|].
  intros ->. rewrite orb_true_l in *. guards. split; [done|]. intros w earlier Hw He.
  rename select (for_each _ _ = _) into Hfresh. apply for_each_ok in Hfresh.
  rewrite Forall_forall in Hfresh. specialize (Hfresh w Hw). guards.
  match goal with H : existsb _ _ = false |- _ => rewrite existsb_false in H; auto end.
Qed.

Lemma cleanup_ok c :
  countable_intent (srp_intent (sre_preparation (sdc_evidence c))) ->
  validate_secondary_scale_down_cleanup c = Ok tt ->
  validate_secondary_removal_evidence (sdc_evidence c) true = Ok tt /\
  validate_removal_witnesses (sre_preparation (sdc_evidence c))
    (sdc_current_only_write_quorum c) SrCurrentOnly = Ok tt /\
  forall w earlier, w ∈ sdc_current_only_write_quorum c ->
    earlier ∈ sre_previous_read_quorum (sdc_evidence c) ++ sre_reduced_write_quorum (sdc_evidence c) ->
    superseded_by w earlier = false.
Proof.
  unfold validate_secondary_scale_down_cleanup. intros Hc Hok. guards. split_and!; [done..|].
  intros w earlier Hw He. rename select (for_each _ _ = _) into Hfresh.
  apply for_each_ok in Hfresh. rewrite Forall_forall in Hfresh. specialize (Hfresh w Hw).
  apply reject_ok in Hfresh. rewrite existsb_false in Hfresh. auto.
Qed.

(** Witnesses of a stage after the preparation cover both configurations. *)
Lemma stage_witnesses_cover p ws stage Q :
  removal_intent (srp_intent p) -> stage <> SrPrepare ->
  validate_removal_witnesses p ws stage = Ok tt ->
  write_quorum_of (sdi_previous_configuration (srp_intent p)) Q \/
  write_quorum_of (sdi_current_configuration (srp_intent p)) Q ->
  exists w, w ∈ ws /\ srw_identity w ∈ Q /\ attests p stage w /\
    srp_boundary_lsn p <= srw_verified_replication_lsn w.
Proof.
  intros Hi Hs Hok HQ. pose proof (current_witnesses_write_quorum _ _ _ Hi Hs Hok) as Hwq.
  apply removal_witnesses_ok in Hok as (Hall & _). rewrite Forall_forall in Hall.
  assert (exists k, k ∈ witness_identities ws /\ k ∈ Q) as (k & Hk & HkQ).
  { destruct HQ as [HQ|HQ]; [by eapply removal_intent_quorums|].
    eapply write_quorums_intersect; [by apply removal_intent_majorities|done..]. }
  apply elem_of_witness_identities in Hk as (w & Hw & <-).
  exists w. split_and!; auto. apply (at_progress _ _ _ (Hall w Hw)). by left.
Qed.

Lemma validate_secondary_scale_down_no_panic i :
  validate_secondary_scale_down i <> Panic.
Proof.
  unfold validate_secondary_scale_down, exact_cleanup_resource.
  no_panic; auto using validate_policy_no_panic, policed_configuration_no_panic.
  rename select (validate_configuration (sdi_previous_configuration i) _ = _) into Hv.
  destruct a1. apply checked_is_primary in Hv. by destruct (List.find is_primary _).
Qed.

Lemma validate_removal_witnesses_no_panic p ws stage : validate_removal_witnesses p ws stage <> Panic.
Proof. unfold validate_removal_witnesses, check_removal_witness. no_panic. Qed.

Lemma removal_evidence_no_panic e require :
  validate_secondary_removal_evidence e require <> Panic.
Proof.
  unfold validate_secondary_removal_evidence, validate_secondary_removal_preparation.
  no_panic; auto using validate_secondary_scale_down_no_panic, validate_removal_witnesses_no_panic.
Qed.

End attestation.

Section properties.
Context `{Sha256}.

(** [C16] A removal intent that validation accepts removes exactly the highest
    secondary: the new configuration is the old one without it, with the same
    primary and a newer configuration number, and every write quorum of the new
    configuration shares a replica with every write quorum of the old one, so that no
    write committed before the removal is out of reach of the quorums after it. *)
Theorem scale_down_safe i Q R :
  countable_intent i -> validate_secondary_scale_down i = Ok tt ->
  removal_intent i /\
  (write_quorum_of (sdi_current_configuration i) Q ->
   write_quorum_of (sdi_previous_configuration i) R -> exists k, k ∈ Q /\ k ∈ R).
Proof.
  intros [Hp Hc] Hok. apply validate_secondary_scale_down_ok in Hok; [|done..].
  split; [done|]. by apply removal_intent_quorums.
Qed.

(** The preparation evidence reads the old configuration: whatever write
    quorum acknowledged a write, one of the witnesses belongs to it, is retained
    by the new configuration, and reported the old configuration with writes
    closed. *)
Theorem removal_evidence_reads_old_writes e require_reduced Q :
  countable_intent (srp_intent (sre_preparation e)) ->
  validate_secondary_removal_evidence e require_reduced = Ok tt ->
  write_quorum_of (sdi_previous_configuration (srp_intent (sre_preparation e))) Q ->
  exists w, w ∈ sre_previous_read_quorum e /\ srw_identity w ∈ Q /\
    attests (sre_preparation e) SrPrepare w.
Proof.
  intros Hc Hok HQ. apply evidence_ok in Hok as (Hi & _ & Hws & _); [|done].
  pose proof (prepare_witnesses_read_quorum _ _ Hi Hws) as Hread.
  destruct (read_write_quorums_intersect _ _ _ (proj1 (removal_intent_majorities _ Hi)) Hread HQ)
    as (k & Hk & HkQ).
  apply elem_of_witness_identities in Hk as (w & Hw & <-).
  apply removal_witnesses_ok in Hws as (Hall & _). rewrite Forall_forall in Hall. eauto.
Qed.

(** [C38] A committed removal certificate covers its boundary in both
    configurations: every write quorum of the old or of the new configuration
    contains a replica that attested the boundary LSN under the joint
    configuration, and one that attested it under the new configuration alone. *)
Theorem removal_certificate_covers_boundary c Q :
  countable_intent (srp_intent (sre_preparation (sdc_evidence c))) ->
  validate_secondary_scale_down_cleanup c = Ok tt ->
  write_quorum_of (sdi_previous_configuration (srp_intent (sre_preparation (sdc_evidence c)))) Q \/
  write_quorum_of (sdi_current_configuration (srp_intent (sre_preparation (sdc_evidence c)))) Q ->
  let p := sre_preparation (sdc_evidence c) in
  (exists w, w ∈ sre_reduced_write_quorum (sdc_evidence c) /\ srw_identity w ∈ Q /\
     attests p SrPreviousCurrent w /\ srp_boundary_lsn p <= srw_verified_replication_lsn w) /\
  (exists w, w ∈ sdc_current_only_write_quorum c /\ srw_identity w ∈ Q /\
     attests p SrCurrentOnly w /\ srp_boundary_lsn p <= srw_verified_replication_lsn w).
Proof.
  intros Hc Hok HQ. apply cleanup_ok in Hok as (He & Hcur & _); [|done].
  apply evidence_ok in He as (Hi & _ & _ & Hred); [|done].
  destruct (Hred eq_refl) as [Hred' _]. split; by eapply stage_witnesses_cover.
Qed.

(** Evidence is never replayed across stages: reports of one process
    session in the prepare, joint and current-only stages of a committed
    certificate have strictly increasing sequence numbers. *)
Theorem removal_stages_are_fresh c w1 w2 :
  countable_intent (srp_intent (sre_preparation (sdc_evidence c))) ->
  validate_secondary_scale_down_cleanup c = Ok tt ->
  (w1 ∈ sre_previous_read_quorum (sdc_evidence c) /\
   w2 ∈ sre_reduced_write_quorum (sdc_evidence c) ++ sdc_current_only_write_quorum c) \/
  (w1 ∈ sre_reduced_write_quorum (sdc_evidence c) /\ w2 ∈ sdc_current_only_write_quorum c) ->
  srw_identity w1 = srw_identity w2 ->
  srw_process_session_id w1 = srw_process_session_id w2 ->
  srw_report_sequence w1 < srw_report_sequence w2.
Proof.
  intros Hc Hok Hin Hid Hsess. apply cleanup_ok in Hok as (He & _ & Hcur); [|done].
  apply evidence_ok in He as (_ & _ & _ & Hred); [|done]. destruct (Hred eq_refl) as [_ Hfresh].
  assert (superseded_by w2 w1 = false) as Hno.
  { rewrite elem_of_app in Hin. destruct Hin as [[H1 [H2|H2]]|[H1 H2]];
      [by apply Hfresh|apply Hcur|apply Hcur]; try done; apply elem_of_app; auto. }
  unfold superseded_by in Hno. rewrite !bool_decide_true in Hno by done. by apply Z.leb_gt.
Qed.

(** Validating a removal certificate never panics, whatever it contains. *)
Theorem removal_validation_never_panics c :
  validate_secondary_scale_down_cleanup c <> Panic.
Proof.
  unfold validate_secondary_scale_down_cleanup, validate_secondary_removal_evidence,
    validate_secondary_removal_preparation, validate_replica_retirement.
  no_panic; auto using validate_secondary_scale_down_no_panic, validate_removal_witnesses_no_panic.
Qed.

End properties.

(** ** A sample removal: three replicas, of which the third is removed *)

#[local] Existing Instance padding_sha256.

Module Removal.

Definition current : ConfigurationDescriptor :=
  new_configuration (mkEpoch 0 2) 1
    [Sample.member 1 "a" Primary; Sample.member 2 "b" ActiveSecondary] 2.

Definition primary := Sample.identity 1 "a".
Definition secondary := Sample.identity 2 "b".
Definition target := Sample.identity 3 "c".

Definition draft (operation : string) : SecondaryScaleDownIntent :=
  {| sdi_operation_id := operation; sdi_resource_uid := "set"; sdi_spec_generation := 4;
     sdi_desired_replicas := 2; sdi_previous_configuration := Sample.previous;
     sdi_current_configuration := current; sdi_previous_policy := Sample.policy 3;
     sdi_current_policy := Sample.policy 2; sdi_primary := primary; sdi_target := target;
     sdi_cleanup := {| rci_pod := CleanupPresent "pod-3" "c"; rci_pvc := CleanupAbsent "pvc-3";
       rci_endpoint := CleanupPresent (derive_replica_endpoint_name "set" target) "e3" |} |}.

Definition intent : SecondaryScaleDownIntent := draft (sdi_expected_operation_id (draft "")).

Definition preparation : SecondaryRemovalPreparation :=
  {| srp_intent := intent; srp_operation_id := sdi_command_operation_id intent SrPrepare primary;
     srp_process_session_id := "s1"; srp_report_sequence := 1; srp_boundary_lsn := 5 |}.

Definition witness (stage : SecondaryRemovalStage) (sequence : Z) (m : ConfigurationMember)
    : SecondaryRemovalWitness :=
  {| srw_resource_uid := "set"; srw_identity := cm_identity m; srw_role := cm_role m;
     srw_process_session_id := "s1"; srw_report_sequence := sequence;
     srw_epoch := cd_epoch (stage_configuration intent stage);
     srw_previous_configuration_id :=
       then_some (stage == SrPreviousCurrent) (cd_configuration_id Sample.previous);
     srw_current_configuration_id := cd_configuration_id (stage_configuration intent stage);
     srw_verified_replication_lsn := 5; srw_write_status := ReconfigurationPending;
     srw_pending_operation_id := None;
     srw_retained_operation_id := Some (sdi_command_operation_id intent stage (cm_identity m)) |}.

Definition evidence : SecondaryRemovalEvidence :=
  {| sre_preparation := preparation;
     sre_previous_read_quorum := map (witness SrPrepare 2) (cd_members current);
     sre_reduced_write_quorum := map (witness SrPreviousCurrent 3) (cd_members current) |}.

Definition certificate : SecondaryScaleDownCleanup :=
  {| sdc_evidence := evidence;
     sdc_current_only_write_quorum := map (witness SrCurrentOnly 4) (cd_members current);
     sdc_retirement := None |}.

Definition quorum : gset ReplicaIdentity := {[secondary; target]}.

End Removal.

Lemma scale_down_safe_witness : removal_intent Removal.intent.
Proof. apply (scale_down_safe Removal.intent ∅ ∅); [split|]; vm_compute; reflexivity. Defined.

Lemma removal_evidence_reads_old_writes_witness :
  exists w, w ∈ sre_previous_read_quorum Removal.evidence /\ srw_identity w ∈ Removal.quorum /\
    attests Removal.preparation SrPrepare w.
Proof.
  apply (removal_evidence_reads_old_writes Removal.evidence true).
  - split; vm_compute; reflexivity.
  - vm_compute. reflexivity.
  - split; [|by vm_compute]. apply (bool_decide_unpack _). by vm_compute.
Defined.

Lemma removal_certificate_covers_boundary_witness :
  exists w, w ∈ sre_reduced_write_quorum Removal.evidence /\ srw_identity w ∈ Removal.quorum /\
     attests Removal.preparation SrPreviousCurrent w /\ 5 <= srw_verified_replication_lsn w.
Proof.
  apply (removal_certificate_covers_boundary Removal.certificate).
  - split; vm_compute; reflexivity.
  - vm_compute. reflexivity.
  - left. split; [|by vm_compute]. apply (bool_decide_unpack _). by vm_compute.
Defined.

Lemma removal_stages_are_fresh_witness : 2 < 4.
Proof.
  apply (removal_stages_are_fresh Removal.certificate
           (Removal.witness SrPrepare 2 (Sample.member 2 "b" ActiveSecondary))
           (Removal.witness SrCurrentOnly 4 (Sample.member 2 "b" ActiveSecondary))).
  - split; vm_compute; reflexivity.
  - vm_compute. reflexivity.
  - left. split; apply (bool_decide_unpack _); by vm_compute.
  - reflexivity.
  - reflexivity.
Defined.
