(* ===== verification/ScaleUp.v ===== *)
(** * Validation of a scale-up ([protocol/validation/scale_up.rs])

    The provisioning request of the added replica, the frozen scale-up intent,
    the witnesses of its stages, the election that recovers it from a failed
    primary, its receipt, and the configuration commands that carry it. *)

From S2P Require Import Prelude Digest Types Intents Commands Validation Quorums ScaleDown.
From stdpp Require Import base gmap strings list list_numbers pretty.
From Stdlib Require Import ZArith Lia.
Local Open Scope Z_scope.

Definition invalid_scale_up (reason : string) : ValidationError := InvalidScaleUp reason.

(** [(1..=size).find(|candidate| !ids.contains(candidate))] *)
Definition first_missing (ids : gset Z) (size : Z) : option Z :=
  List.find (fun candidate => negb (bool_decide (candidate ∈ ids))) (seqZ 1 size).

(** [iter().max_by(compare)]: the last of the largest elements *)
Definition max_by {A} (compare : A -> A -> comparison) (l : list A) : option A :=
  fold_left (fun best x =>
    match best with
    | Some b => match compare b x with Gt => best | _ => Some x end
    | None => Some x
    end) l None.

(** [Ordering::then_with] *)
Definition then_with (c d : comparison) : comparison :=
  match c with Eq => d | _ => c end.

(** [current_progress.min(deactivated_lsn)] *)
Definition witness_safe_lsn (w : ScaleUpFinalWitness) : Lsn :=
  Z.min (sfw_current_progress w) (sfw_deactivated_lsn w).

(** The order in which the final election ranks its candidates. *)
Definition election_order (left right : ScaleUpFinalWitness) : comparison :=
  then_with (witness_safe_lsn left ?= witness_safe_lsn right)
    (then_with (sfw_current_progress left ?= sfw_current_progress right)
       (then_with (sfw_committed_lsn left ?= sfw_committed_lsn right)
          (sfw_replica_id right ?= sfw_replica_id left))).

Section scale_up.
Context `{Sha256}.

Definition validate_scale_up_provisioning_request (s : ScaleUpProvisioning) : validation :=
  validate_policy (sup_previous_policy s) ;?
  validate_policy (sup_current_policy s) ;?
  validate_configuration (sup_previous_configuration s) (Some (sup_previous_policy s)) ;?
  reject (is_empty (sup_resource_uid s)
          || (sup_spec_generation s == 0)
          || (sup_desired_replicas s == 0)
          || (replica_set_size (sup_previous_policy s) == u32_max)
          || (replica_set_size (sup_current_policy s)
                != replica_set_size (sup_previous_policy s) + 1)
          || (sup_desired_replicas s <? replica_set_size (sup_current_policy s))
          || (failover_delay_seconds (sup_previous_policy s)
                != failover_delay_seconds (sup_current_policy s))
          || existsb (fun m => member_id m == sup_target_replica_id s)
               (cd_members (sup_previous_configuration s))
          || is_none (next_configuration_epoch s))
    (invalid_scale_up "invalid frozen provisioning request") ;?
  let ids := logical_ids (sup_previous_configuration s) in
  reject (first_missing ids (replica_set_size (sup_current_policy s))
            != Some (sup_target_replica_id s))
    (invalid_scale_up "scale-up target must restore the first missing ordinal").

Definition validate_scale_up_provisioning (p : ProvisioningIntent) : validation :=
  reject (is_empty (pi_pod_uid p) || is_empty (pi_pvc_uid p) || is_empty (pi_operation_id p)
          || (pi_replica_id p <=? 0))
    (invalid_scale_up "invalid candidate identity") ;?
  match pp_kind (pi_purpose p) with
  | PkReplacement =>
      let? replaces := ok_or (pp_replaces (pi_purpose p))
                         (invalid_scale_up "replacement provisioning purpose is malformed") in
      reject (is_some (pp_scale_up (pi_purpose p)) || (replica_id replaces <=? 0)
              || is_empty (instance_id replaces) || is_empty (agent_generation replaces))
        (invalid_scale_up "replacement provisioning purpose is malformed")
  | PkScaleUp =>
      reject (is_some (pp_replaces (pi_purpose p)) || is_none (pp_scale_up (pi_purpose p)))
        (invalid_scale_up "scale-up provisioning purpose is malformed")
  end ;?
  match pi_scale_up p with
  | None => Ok tt
  | Some s =>
      validate_scale_up_provisioning_request s ;?
      reject (pi_operation_id p != pi_expected_operation_id p)
        (invalid_scale_up "invalid frozen provisioning request")
  end.

Definition validate_scale_up_allocation (a : ScaleUpAllocation) : validation :=
  reject (is_empty (sua_resource_uid a)
          || (sua_spec_generation a == 0)
          || (sua_desired_replicas a == 0)
          || is_empty (sua_previous_configuration_id a)
          || is_empty (sua_accepted_configuration_id a)
          || (sua_target_replica_id a <=? 0)
          || is_empty (sua_operation_id a)
          || (sua_operation_id a != sua_expected_operation_id a)
          || is_some_and (fun previous => is_empty previous || (previous == sua_operation_id a))
               (sua_previous_operation_id a)
          || is_some_and is_empty (sua_pod_uid a)
          || is_some_and is_empty (sua_pvc_uid a)
          || (is_some (sua_pod_uid a) && is_none (sua_pvc_uid a)))
    (invalid_scale_up "invalid durable scale-up allocation").

(** The members of [current] whose id [previous] does not have. *)
Definition added_members (previous current : ConfigurationDescriptor) : list ConfigurationMember :=
  List.filter (fun m => negb (existsb (fun old => member_id old == member_id m)
                                (cd_members previous)))
    (cd_members current).

Definition validate_scale_up (i : ScaleUpIntent) : validation :=
  let previous := sui_previous_configuration i in
  let current := sui_current_configuration i in
  validate_policy (sui_previous_policy i) ;?
  validate_policy (sui_current_policy i) ;?
  validate_configuration previous (Some (sui_previous_policy i)) ;?
  validate_configuration current (Some (sui_current_policy i)) ;?
  reject (is_empty (sui_resource_uid i)
          || (sui_spec_generation i == 0)
          || (sui_desired_replicas i == 0)
          || is_empty (sui_build_id i)
          || is_empty (instance_id (sui_primary i))
          || is_empty (agent_generation (sui_primary i))
          || is_empty (instance_id (sui_target i))
          || is_empty (agent_generation (sui_target i))
          || (sui_snapshot_boundary_lsn i <? 0)
          || (sui_catch_up_boundary_lsn i <? sui_snapshot_boundary_lsn i)
          || (sui_operation_id i != sui_expected_operation_id i))
    (invalid_scale_up "invalid frozen request, build, or boundary") ;?
  reject ((replica_set_size (sui_previous_policy i) == u32_max)
          || (replica_set_size (sui_current_policy i)
                != replica_set_size (sui_previous_policy i) + 1)
          || (sui_desired_replicas i <? replica_set_size (sui_current_policy i))
          || (failover_delay_seconds (sui_previous_policy i)
                != failover_delay_seconds (sui_current_policy i))
          || ((length (cd_members previous) + 1)%nat != length (cd_members current)))
    (invalid_scale_up "scale-up must preserve delay and increase membership by exactly one") ;?
  reject ((data_loss_number (cd_epoch previous) <? 0)
          || (configuration_number (cd_epoch previous) <? 0)
          || (data_loss_number (cd_epoch current) != data_loss_number (cd_epoch previous)))
    TransitionDataLossChanged ;?
  reject (is_none_or (fun next => configuration_number (cd_epoch current) != next)
            (i64_checked_add (configuration_number (cd_epoch previous)) 1))
    TransitionEpochNotNewer ;?
  let? primary := expect (List.find is_primary (cd_members previous)) in
  reject ((sui_primary i != cm_identity primary)
          || (cd_primary_id previous != cd_primary_id current)
          || match added_members previous current with
             | [added] => (cm_identity added != sui_target i) || (cm_role added != ActiveSecondary)
             | _ => true
             end
          || (first_missing (logical_ids previous) (replica_set_size (sui_current_policy i))
                != Some (replica_id (sui_target i)))
          || existsb (fun m => negb (existsb (fun candidate => candidate == m)
                                       (cd_members current)))
               (cd_members previous))
    (invalid_scale_up
       "target must be the next active secondary and retained authority cannot change").

(** One pass of the loop over the exact witnesses of a stage. *)
Definition check_scale_up_witness (i : ScaleUpIntent)
    (reported eligible : ConfigurationDescriptor) (previous_current : bool)
    (required_primary : option ReplicaIdentity)
    (identities : gset ReplicaIdentity) (w : ScaleUpWitness)
    : res ValidationError (gset ReplicaIdentity) :=
  let current_member := find_member (suw_identity w) reported in
  reject ((suw_resource_uid w != sui_resource_uid i)
          || is_empty (suw_process_session_id w)
          || (suw_report_sequence w == 0)
          || negb (has_member eligible (suw_identity w))
          || is_none_or (fun m => cm_role m != suw_role w) current_member
          || bool_decide (suw_identity w ∈ identities)
          || (suw_epoch w != cd_epoch reported)
          || (suw_previous_configuration_id w
                != then_some previous_current
                     (cd_configuration_id (sui_previous_configuration i)))
          || (suw_current_configuration_id w != cd_configuration_id reported)
          || (suw_verified_replication_lsn w <? sui_catch_up_boundary_lsn i)
          || is_some (suw_pending_operation_id w)
          || ((suw_write_status w == Granted) && (required_primary != Some (suw_identity w)))
          || (negb previous_current && (required_primary == Some (suw_identity w))
              && (suw_write_status w != Granted))
          || (suw_retained_operation_id w
                != Some (sui_command_operation_id i
                           (if previous_current then SuPreviousCurrent else SuCurrentOnly)
                           (suw_identity w) reported)))
    (invalid_scale_up "invalid exact scale-up quorum witness") ;?
  Ok ({[suw_identity w]} ∪ identities).

Definition validate_scale_up_witnesses (i : ScaleUpIntent)
    (reported eligible : ConfigurationDescriptor) (witnesses : list ScaleUpWitness)
    (quorum : Z) (previous_current : bool) (required_primary : option ReplicaIdentity)
    : validation :=
  let? identities :=
    try_fold (check_scale_up_witness i reported eligible previous_current required_primary)
      ∅ witnesses in
  reject ((Z.of_nat (size identities) <? quorum)
          || is_some_and (fun primary => negb (bool_decide (primary ∈ identities)))
               required_primary)
    (invalid_scale_up "insufficient scale-up quorum witnesses").

(** The stage a recovery witness reports. *)
Definition recovery_stage (i : ScaleUpIntent) (w : ScaleUpWitness)
    : res ValidationError ScaleUpStage :=
  match suw_previous_configuration_id w with
  | Some previous =>
      if previous == cd_configuration_id (sui_previous_configuration i) then Ok SuPreviousCurrent
      else Err (invalid_scale_up "invalid exact scale-up recovery witness")
  | None => Ok SuCurrentOnly
  end.

Definition check_recovery_witness (i : ScaleUpIntent) (eligible : ConfigurationDescriptor)
    (identities : gset ReplicaIdentity) (w : ScaleUpWitness)
    : res ValidationError (gset ReplicaIdentity) :=
  let current := sui_current_configuration i in
  let current_member := find_member (suw_identity w) current in
  let? stage := recovery_stage i w in
  reject ((suw_resource_uid w != sui_resource_uid i)
          || is_empty (suw_process_session_id w)
          || (suw_report_sequence w == 0)
          || negb (has_member eligible (suw_identity w))
          || is_none_or (fun m => cm_role m != suw_role w) current_member
          || bool_decide (suw_identity w ∈ identities)
          || (suw_epoch w != cd_epoch current)
          || (suw_current_configuration_id w != cd_configuration_id current)
          || (suw_verified_replication_lsn w <? sui_catch_up_boundary_lsn i)
          || is_some (suw_pending_operation_id w)
          || ((suw_write_status w == Granted) && (suw_identity w != sui_primary i))
          || ((stage == SuCurrentOnly) && (suw_identity w == sui_primary i)
              && (suw_write_status w != Granted))
          || (suw_retained_operation_id w
                != Some (sui_command_operation_id i stage (suw_identity w) current)))
    (invalid_scale_up "invalid exact scale-up recovery witness") ;?
  Ok ({[suw_identity w]} ∪ identities).

Definition validate_recovery_witnesses (i : ScaleUpIntent) (eligible : ConfigurationDescriptor)
    (witnesses : list ScaleUpWitness) (quorum : Z) : validation :=
  let? identities := try_fold (check_recovery_witness i eligible) ∅ witnesses in
  reject (Z.of_nat (size identities) <? quorum)
    (invalid_scale_up "insufficient scale-up recovery witnesses").

Definition validate_failover_configuration (e : ScaleUpFailoverEvidence)
    (current : ConfigurationDescriptor) (policy : EffectivePolicy) : validation :=
  let expanded := sui_current_configuration (sufe_intent e) in
  validate_policy policy ;?
  validate_configuration current (Some policy) ;?
  reject ((policy != sui_current_policy (sufe_intent e))
          || (data_loss_number (cd_epoch current) != data_loss_number (cd_epoch expanded))
          || (configuration_number (cd_epoch current)
                <=? configuration_number (cd_epoch expanded)))
    (invalid_scale_up "failover authority did not advance expanded CC") ;?
  reject (exact_identities current != exact_identities expanded)
    (invalid_scale_up "failover must preserve exact expanded membership").

Definition check_final_witness (e : ScaleUpFailoverEvidence) (identities : gset Z)
    (w : ScaleUpFinalWitness) : res ValidationError (gset Z) :=
  let provisional := sufe_provisional_configuration e in
  let intent := sufe_intent e in
  let provisional_member :=
    List.find (fun m => member_id m == sfw_replica_id w) (cd_members provisional) in
  reject (is_empty (sfw_process_session_id w)
          || (sfw_report_sequence w == 0)
          || is_none provisional_member
          || bool_decide (sfw_replica_id w ∈ identities)
          || (sfw_current_progress w <? sui_catch_up_boundary_lsn intent)
          || (sfw_committed_lsn w <? 0)
          || (sfw_deactivated_lsn w <? 0)
          || is_none_or (fun m =>
               sfw_fence_operation_id w
                 != sui_command_operation_id intent SuPreviousCurrent (cm_identity m) provisional)
               provisional_member)
    (invalid_scale_up "invalid exact final scale-up election witness") ;?
  Ok ({[sfw_replica_id w]} ∪ identities).

Definition validate_final_witnesses (e : ScaleUpFailoverEvidence)
    (final : ScaleUpFinalElectionEvidence) : validation :=
  let? _ := try_fold (check_final_witness e) ∅ (sfe_witnesses final) in Ok tt.

Definition check_final_voter (final : ScaleUpFinalElectionEvidence)
    (eligible : ConfigurationDescriptor) (identities : gset Z) (id : ReplicaId)
    : res ValidationError (gset Z) :=
  reject (is_none (sfe_witness final id)
          || negb (existsb (fun m => member_id m == id) (cd_members eligible))
          || bool_decide (id ∈ identities))
    (invalid_scale_up "invalid exact final scale-up election quorum") ;?
  Ok ({[id]} ∪ identities).

Definition validate_final_quorum (final : ScaleUpFinalElectionEvidence)
    (eligible : ConfigurationDescriptor) (witnesses : list ReplicaId) (quorum : Z)
    (required_primary : option ReplicaIdentity) : validation :=
  let? identities := try_fold (check_final_voter final eligible) ∅ witnesses in
  reject ((Z.of_nat (size identities) <? quorum)
          || is_some_and (fun primary => negb (bool_decide (replica_id primary ∈ identities)))
               required_primary)
    (invalid_scale_up "insufficient exact final scale-up election witnesses").

(** The candidates of the final election: the voters of the expanded
    configuration other than the failed primary. *)
Definition election_candidates (e : ScaleUpFailoverEvidence)
    (final : ScaleUpFinalElectionEvidence) : list ScaleUpFinalWitness :=
  omap (sfe_witness final)
    (List.filter (fun id => id != replica_id (sui_primary (sufe_intent e)))
       (sfe_current_read_quorum final)).

Definition validate_final_election (e : ScaleUpFailoverEvidence)
    (final : ScaleUpFinalElectionEvidence) : validation :=
  let provisional := sufe_provisional_configuration e in
  let intent := sufe_intent e in
  let? final_configuration :=
    ok_or (sfe_final_configuration final provisional)
      (invalid_scale_up "final scale-up election selected an unknown primary") in
  let? safe := ok_or (safe_lsn final)
                 (invalid_scale_up "final scale-up election omitted the selected witness") in
  validate_failover_configuration e final_configuration (sui_current_policy intent) ;?
  reject ((safe <? sui_catch_up_boundary_lsn intent)
          || (sfe_selected_primary_replica_id final == replica_id (sui_primary intent)))
    (invalid_scale_up "final scale-up election did not advance the provisional fence") ;?
  let? primary := ok_or (find_primary final_configuration)
                    (invalid_scale_up "final scale-up election has no primary") in
  validate_final_witnesses e final ;?
  validate_final_quorum final (sui_previous_configuration intent)
    (sfe_previous_read_quorum final) (read_quorum (sui_previous_policy intent)) None ;?
  validate_final_quorum final provisional (sfe_current_read_quorum final)
    (read_quorum (sui_current_policy intent)) (Some (cm_identity primary)) ;?
  let referenced : gset Z :=
    list_to_set (sfe_previous_read_quorum final ++ sfe_current_read_quorum final) in
  reject ((size referenced != length (sfe_witnesses final))
          || existsb (fun w => negb (bool_decide (sfw_replica_id w ∈ referenced)))
               (sfe_witnesses final))
    (invalid_scale_up "final scale-up election contains unreferenced witnesses") ;?
  let? selected := expect (sfe_witness final (sfe_selected_primary_replica_id final)) in
  let? expected := ok_or (max_by election_order (election_candidates e final))
                     (invalid_scale_up "final scale-up election has no surviving candidate") in
  reject (selected != expected)
    (invalid_scale_up "selected final primary did not certify the exact safe prefix").

Definition validate_scale_up_failover_evidence (e : ScaleUpFailoverEvidence) : validation :=
  let intent := sufe_intent e in
  let provisional := sufe_provisional_configuration e in
  validate_scale_up intent ;?
  validate_recovery_witnesses intent (sui_previous_configuration intent)
    (sufe_previous_read_quorum e) (read_quorum (sui_previous_policy intent)) ;?
  validate_recovery_witnesses intent (sui_current_configuration intent)
    (sufe_current_read_quorum e) (read_quorum (sui_current_policy intent)) ;?
  validate_failover_configuration e provisional (sui_current_policy intent) ;?
  reject (is_none_or (fun next => configuration_number (cd_epoch provisional) != next)
            (i64_checked_add
               (configuration_number (cd_epoch (sui_current_configuration intent))) 1)
          || (cd_primary_id provisional == replica_id (sui_primary intent)))
    (invalid_scale_up "provisional scale-up failover did not advance the expanded authority") ;?
  match sufe_final_election e with
  | Some final => validate_final_election e final
  | None => Ok tt
  end.

(** [final_election.and_then(|f| f.final_configuration(provisional))] *)
Definition elected_configuration (e : ScaleUpFailoverEvidence) : option ConfigurationDescriptor :=
  final ← sufe_final_election e;
  sfe_final_configuration final (sufe_provisional_configuration e).

Definition validate_scale_up_failover_transition (e : ScaleUpFailoverEvidence)
    (current : ConfigurationDescriptor) (policy : EffectivePolicy) : validation :=
  let differs :=
    invalid_scale_up "failover authority differs from provisional and final election evidence" in
  validate_scale_up_failover_evidence e ;?
  validate_failover_configuration e current policy ;?
  if current == sufe_provisional_configuration e then Ok tt else
  let? final_configuration := ok_or (elected_configuration e) differs in
  reject (current != final_configuration) differs.

Definition validate_scale_up_cleanup (c : ScaleUpCleanup) : validation :=
  validate_scale_up_provisioning (suc_provisioning c) ;?
  let? s := ok_or (pi_scale_up (suc_provisioning c))
              (invalid_scale_up "cleanup requires scale-up provisioning") in
  let target := pi_target_identity (suc_provisioning c) (sup_resource_uid s) in
  reject ((suc_target c != target)
          || negb (present_and (fun uid => uid == pi_pod_uid (suc_provisioning c))
                     (rci_pod (suc_resources c)))
          || negb (present_and (fun uid => uid == pi_pvc_uid (suc_provisioning c))
                     (rci_pvc (suc_resources c)))
          || (cleanup_name (rci_endpoint (suc_resources c))
                != derive_replica_endpoint_name (sup_resource_uid s) target))
    (invalid_scale_up "cleanup differs from exact candidate") ;?
  for_each (fun r =>
    reject (is_empty (cleanup_name r) || present_and is_empty r)
      (invalid_scale_up "cleanup requires exact identity or positive absence"))
    [rci_pod (suc_resources c); rci_pvc (suc_resources c); rci_endpoint (suc_resources c)].

(** The failover half of [validate_scale_up_receipt]. *)
Definition validate_failover_receipt (r : ScaleUpReceipt) (primary : ConfigurationMember)
    : validation :=
  let? e := ok_or (sur_expanded_failover_evidence r)
              (invalid_scale_up "failover receipt has invalid provisional authority") in
  let? safe := ok_or (sur_failover_safe_lsn r)
                 (invalid_scale_up "failover receipt omitted its fenced safe LSN") in
  validate_scale_up_failover_transition e (sur_accepted_configuration r)
    (sui_current_policy (sur_intent r)) ;?
  let? final := ok_or (sufe_final_election e)
                  (invalid_scale_up "failover receipt omitted final election evidence") in
  reject ((sfe_final_configuration final (sufe_provisional_configuration e)
             != Some (sur_accepted_configuration r))
          || (safe_lsn final != Some safe))
    (invalid_scale_up "failover receipt differs from final election evidence") ;?
  reject (negb (existsb (fun w => (suw_identity w == cm_identity primary)
                                  && (safe <=? suw_verified_replication_lsn w)
                                  && (suw_write_status w == Granted))
                  (sur_current_only_write_quorum r)))
    (invalid_scale_up "failover receipt primary did not certify the fenced safe LSN").

Definition validate_scale_up_receipt (r : ScaleUpReceipt) : validation :=
  validate_scale_up (sur_intent r) ;?
  let? primary := ok_or (find_primary (sur_accepted_configuration r))
                    (invalid_scale_up "receipt accepted configuration has no primary") in
  (if is_some (sur_failover_evidence r) then validate_failover_receipt r primary
   else
     reject (sur_accepted_configuration r != sui_current_configuration (sur_intent r))
       (invalid_scale_up
          "ordinary receipt accepted configuration differs from scale-up intent") ;?
     reject (is_some (sur_failover_safe_lsn r))
       (invalid_scale_up "ordinary receipt must not carry a failover-safe LSN")) ;?
  validate_scale_up_witnesses (sur_intent r) (sur_accepted_configuration r)
    (sur_accepted_configuration r) (sur_current_only_write_quorum r)
    (write_quorum (sui_current_policy (sur_intent r))) false (Some (cm_identity primary)).

(** The stage-independent part of a failover command: the provisional or the
    elected configuration, with writes closed before the completion. *)
Definition failover_command_differs (c : EnsureConfiguration) (e : ScaleUpFailoverEvidence)
    : bool :=
  let provisional :=
    is_none (ec_failover_safe_lsn c)
    && negb (ec_current_only c)
    && (ec_primary_write_status c == ReconfigurationPending)
    && is_none (sufe_final_election e)
    && (ec_current_configuration c == sufe_provisional_configuration e) in
  let finalized :=
    is_some_and (fun final =>
      (ec_failover_safe_lsn c == safe_lsn final)
      && (sfe_final_configuration final (sufe_provisional_configuration e)
            == Some (ec_current_configuration c)))
      (sufe_final_election e) in
  (ec_transition_kind c != Failover)
  || (ec_current_epoch c != cd_epoch (ec_current_configuration c))
  || (negb provisional && negb finalized)
  || (negb (ec_current_only c) && (ec_primary_write_status c == Granted))
  || (ec_current_only c && negb finalized).

Definition validate_scale_up_configuration (c : EnsureConfiguration) : validation :=
  let? evidence := ok_or (ec_scale_up_evidence c)
                     (invalid_scale_up "missing scale-up configuration evidence") in
  let intent := evidence_intent evidence in
  validate_scale_up intent ;?
  reject ((ec_previous_policy c != Some (sui_previous_policy intent))
          || (ec_effective_policy c != sui_current_policy intent)
          || is_some (ec_secondary_removal_evidence c)
          || is_some (ec_switchover_handoff c)
          || (ec_retire_switchover_preparation_ids c != []))
    (invalid_scale_up "configuration command differs from scale-up authority") ;?
  match evidence with
  | Admission _ =>
      reject ((ec_transition_kind c != ScaleUp)
              || (ec_current_configuration c != sui_current_configuration intent)
              || (ec_current_epoch c != cd_epoch (sui_current_configuration intent))
              || is_some (ec_failover_safe_lsn c))
        (invalid_scale_up "admission command has the wrong transition kind")
  | FailoverEvidence e =>
      validate_scale_up_failover_evidence e ;?
      reject (failover_command_differs c e)
        (invalid_scale_up "failover command has the wrong transition kind")
  end ;?
  (if ec_current_only c then
     reject (is_some (ec_previous_configuration c)
             || is_some (ec_previous_epoch c)
             || negb (existsb (fun id => id == sui_build_id intent) (ec_retire_build_ids c)))
       (invalid_scale_up "current-only completion must omit PC and retire the scale-up build")
   else
     reject ((ec_previous_configuration c != Some (sui_previous_configuration intent))
             || (ec_previous_epoch c != Some (cd_epoch (sui_previous_configuration intent)))
             || (ec_retire_build_ids c != []))
       (invalid_scale_up "PC/CC command differs from scale-up authority")) ;?
  let target := ec_local_identity c in
  reject (negb (existsb (fun m => cm_identity m == target)
                  (cd_members (sui_current_configuration intent)
                   ++ cd_members (sui_previous_configuration intent))))
    (invalid_scale_up "command target is outside scale-up authority") ;?
  let stage := if ec_current_only c then SuCurrentOnly else SuPreviousCurrent in
  reject (ec_operation_id c
            != sui_command_operation_id intent stage target (ec_current_configuration c))
    (invalid_scale_up "command operation ID differs from scale-up authority").

End scale_up.

(** ** What a validated scale-up fixes *)

Record scale_up_intent `{Sha256} (i : ScaleUpIntent) : Prop := {
  su_previous : valid_configuration (sui_previous_configuration i) (Some (sui_previous_policy i));
  su_current : valid_configuration (sui_current_configuration i) (Some (sui_current_policy i));
  su_previous_policy : validate_policy (sui_previous_policy i) = Ok tt;
  su_current_policy : validate_policy (sui_current_policy i) = Ok tt;
  su_data_loss : data_loss_number (cd_epoch (sui_current_configuration i))
                 = data_loss_number (cd_epoch (sui_previous_configuration i));
  su_number : configuration_number (cd_epoch (sui_current_configuration i))
              = configuration_number (cd_epoch (sui_previous_configuration i)) + 1;
  su_adds : removes_member (sui_current_configuration i) (sui_previous_configuration i)
              (sui_target i);
  su_same_primary : cd_primary_id (sui_previous_configuration i)
                    = cd_primary_id (sui_current_configuration i);
  su_primary : exists m, m ∈ cd_members (sui_previous_configuration i) /\
                 cm_role m = Primary /\ cm_identity m = sui_primary i;
  su_ordinal : 1 <= replica_id (sui_target i) /\
               (replica_id (sui_target i) ∉ logical_ids (sui_previous_configuration i)) /\
               forall k, 1 <= k < replica_id (sui_target i) ->
                 k ∈ logical_ids (sui_previous_configuration i);
  su_boundaries : 0 <= sui_snapshot_boundary_lsn i <= sui_catch_up_boundary_lsn i;
  su_operation : sui_operation_id i = sui_expected_operation_id i;
}.

(** The configurations a scale-up intent names are countable. *)
Definition countable_scale_up (i : ScaleUpIntent) : Prop :=
  countable_members (sui_previous_configuration i) /\
  countable_members (sui_current_configuration i).

Lemma first_missing_from (ids : gset Z) start n k :
  List.find (fun candidate => negb (bool_decide (candidate ∈ ids))) (seqZ start n) = Some k ->
  start <= k /\ (k ∉ ids) /\ forall j, start <= j < k -> j ∈ ids.
Proof.
  remember (Z.to_nat n) as fuel eqn:Hfuel. revert n start Hfuel.
  induction fuel as [|fuel IH]; intros n start Hfuel.
  - rewrite seqZ_nil by lia. done.
  - rewrite seqZ_cons by lia. simpl. case_bool_decide as Hin; simpl.
    + intros (Hle & Hk & Hall)%IH; [|lia]. split_and!; [lia|done|].
      intros j Hj. destruct (decide (j = start)) as [->|]; [done|]. apply Hall. lia.
    + intros [= ->]. split_and!; [lia|done|lia].
Qed.

(** A member list that keeps [previous] and adds one member with a new id. *)
Lemma added_member_unique previous current added m :
  NoDup (map member_id (cd_members current)) ->
  added_members previous current = [added] ->
  (forall n, n ∈ cd_members previous -> n ∈ cd_members current) ->
  m ∈ cd_members current -> m <> added -> m ∈ cd_members previous.
Proof.
  intros Hnd Hadd Hkeep Hm Hne.
  destruct (existsb (fun old => member_id old == member_id m) (cd_members previous)) eqn:E.
  - apply existsb_true in E as (old & Hold & Heq). guards.
    rewrite <-(member_id_inj current old m); auto.
  - assert (m ∈ added_members previous current) as Hin
      by (unfold added_members; rewrite elem_of_filterb, E; done).
    rewrite Hadd, list_elem_of_singleton in Hin. done.
Qed.

Section scale_up_intent.
Context `{Sha256}.

Lemma added_member_spec i added :
  added_members (sui_previous_configuration i) (sui_current_configuration i) = [added] ->
  cm_identity added = sui_target i ->
  sui_target i ∈ exact_identities (sui_current_configuration i) /\
  (sui_target i ∉ exact_identities (sui_previous_configuration i)).
Proof.
  intros Hadd Htg.
  assert (added ∈ added_members (sui_previous_configuration i) (sui_current_configuration i))
    as Hin by (rewrite Hadd; by apply list_elem_of_singleton).
  unfold added_members in Hin. rewrite elem_of_filterb, negb_true_iff, existsb_false in Hin.
  destruct Hin as [Hcur Hnew]. rewrite <-Htg. split; [apply elem_of_exact_identities; eauto|].
  intros (old & Hold & Heq)%elem_of_exact_identities. specialize (Hnew old Hold).
  unfold member_id in Hnew. rewrite Heq in Hnew. by rewrite bool_decide_true in Hnew.
Qed.

Lemma validate_scale_up_ok i :
  countable_scale_up i -> validate_scale_up i = Ok tt -> scale_up_intent i.
Proof.
  intros [Hcp Hcc]. unfold validate_scale_up. intros Hok. guards.
  repeat match goal with
  | H : validate_configuration _ _ = Ok tt |- _ => apply valid_configuration_sound in H; [|done]
  | H : List.find is_primary _ = Some _ |- _ => eapply find_primary_by_role in H as (? & ? & ?); [|done]
  | H : first_missing _ _ = Some _ |- _ => apply first_missing_from in H
  | H : is_none_or _ (i64_checked_add ?x 1) = false |- _ =>
      apply is_none_or_false in H as (next & Hnext & Hnum); apply i64_checked_add_some in Hnext
  end.
  destruct (added_members _ _) as [|added [|]] eqn:Hadd; try done. guards.
  rename select (existsb _ _ = false) into Hkeep. rewrite existsb_false in Hkeep.
  assert (Hkeep' : forall n, n ∈ cd_members (sui_previous_configuration i) ->
            n ∈ cd_members (sui_current_configuration i)).
  { intros n Hn. specialize (Hkeep n Hn). guards. apply existsb_true in Hkeep as (x & Hx & Heq).
    guards. by subst. }
  destruct (added_member_spec i added) as [Hin Hnew]; [done..|].
  split; try done.
  - congruence.
  - eapply removes_member_intro; try done. intros m Hm Hne.
    eapply added_member_unique; eauto using vc_ids. congruence.
  - eauto.
Qed.

Lemma scale_up_majorities i :
  scale_up_intent i ->
  majority_configuration (sui_previous_configuration i) /\
  majority_configuration (sui_current_configuration i).
Proof.
  intros Hi. split;
    [apply (valid_configuration_majority _ _ (su_previous _ Hi))
    |apply (valid_configuration_majority _ _ (su_current _ Hi))];
    intros q [= <-]; apply Hi.
Qed.

Lemma scale_up_quorums i Q R :
  scale_up_intent i ->
  write_quorum_of (sui_previous_configuration i) Q ->
  write_quorum_of (sui_current_configuration i) R ->
  exists k, k ∈ Q /\ k ∈ R.
Proof.
  intros Hi. pose proof (scale_up_majorities i Hi) as [Hp Hc].
  apply extension_quorums_intersect; [done..|]. eapply removes_member_extends, su_adds, Hi.
Qed.

End scale_up_intent.

(** ** What the witnesses of a scale-up attest *)

Definition scale_up_identities (ws : list ScaleUpWitness) : gset ReplicaIdentity :=
  list_to_set (map suw_identity ws).

(** An exact witness of [reported] at the given stage. *)
Record certifies `{Sha256} (i : ScaleUpIntent) (reported : ConfigurationDescriptor)
    (stage : ScaleUpStage) (w : ScaleUpWitness) : Prop := {
  ct_resource : suw_resource_uid w = sui_resource_uid i;
  ct_epoch : suw_epoch w = cd_epoch reported;
  ct_configuration : suw_current_configuration_id w = cd_configuration_id reported;
  ct_progress : sui_catch_up_boundary_lsn i <= suw_verified_replication_lsn w;
  ct_idle : suw_pending_operation_id w = None;
  ct_operation : suw_retained_operation_id w
                 = Some (sui_command_operation_id i stage (suw_identity w) reported);
}.

Section witnesses.
Context `{Sha256}.

Lemma has_member_elem c i : has_member c i = true -> i ∈ exact_identities c.
Proof.
  unfold has_member. rewrite existsb_true. intros (m & Hm & Heq). guards.
  apply elem_of_exact_identities. eauto.
Qed.

Lemma elem_of_scale_up_identities ws k :
  k ∈ scale_up_identities ws <-> exists w, w ∈ ws /\ suw_identity w = k.
Proof.
  unfold scale_up_identities. rewrite elem_of_list_to_set, list_elem_of_fmap. naive_solver.
Qed.

(** The witnesses of the current-only stage: the required primary, and only
    it, has writes granted. *)
Lemma current_only_witnesses_ok i c ws quorum primary :
  validate_scale_up_witnesses i c c ws quorum false (Some primary) = Ok tt ->
  (forall w, w ∈ ws -> certifies i c SuCurrentOnly w /\
     (suw_write_status w = Granted <-> suw_identity w = primary)) /\
  scale_up_identities ws ⊆ exact_identities c /\
  quorum <= Z.of_nat (size (scale_up_identities ws)) /\
  primary ∈ scale_up_identities ws.
Proof.
  unfold validate_scale_up_witnesses. intros Hok. guards.
  rename select (try_fold _ _ _ = _) into Hfold.
  apply (try_fold_collect suw_identity (fun w =>
    suw_identity w ∈ exact_identities c /\ certifies i c SuCurrentOnly w /\
    (suw_write_status w = Granted <-> suw_identity w = primary))) in Hfold
    as (-> & Hall & _).
  - rewrite (union_empty_r_L _) in *. rewrite Forall_forall in Hall. simpl in *. guards.
    split_and!; [naive_solver| |done|done].
    intros k (w & Hw & <-)%elem_of_scale_up_identities. naive_solver.
  - clear. intros s w s' Hw. unfold check_scale_up_witness in Hw. guards.
    rename select (is_some _ = false) into Hidle. apply is_some_false in Hidle. simpl in *.
    split_and!; [done..| |split; done|].
    + by apply has_member_elem.
    + destruct (decide (suw_identity w = primary)) as [Heq|Hne];
        [rewrite (bool_decide_true (Some primary = _)) in * by congruence
        |rewrite (bool_decide_false (Some primary = _)) in * by congruence];
        rewrite ?andb_true_r in *; simpl in *; guards; done.
Qed.

(** Recovery witnesses report the expanded configuration. *)
Lemma recovery_witnesses_ok i eligible ws quorum :
  validate_recovery_witnesses i eligible ws quorum = Ok tt ->
  (forall w, w ∈ ws -> exists stage, stage <> SuAcceptCommit /\
     certifies i (sui_current_configuration i) stage w) /\
  scale_up_identities ws ⊆ exact_identities eligible /\
  quorum <= Z.of_nat (size (scale_up_identities ws)).
Proof.
  unfold validate_recovery_witnesses. intros Hok. guards.
  rename select (try_fold _ _ _ = _) into Hfold.
  apply (try_fold_collect suw_identity (fun w =>
    suw_identity w ∈ exact_identities eligible /\
    exists stage, stage <> SuAcceptCommit /\
      certifies i (sui_current_configuration i) stage w)) in Hfold as (-> & Hall & _).
  - rewrite (union_empty_r_L _) in *. rewrite Forall_forall in Hall.
    split_and!; [naive_solver| |done].
    intros k (w & Hw & <-)%elem_of_scale_up_identities. naive_solver.
  - clear. intros s w s' Hw. unfold check_recovery_witness in Hw. guards.
    rename select (is_some _ = false) into Hidle. apply is_some_false in Hidle.
    rename select (recovery_stage i w = Ok _) into Hstage.
    split_and!; [done|done|by apply has_member_elem|].
    eexists. split; [|split; done]. unfold recovery_stage in Hstage.
    destruct (suw_previous_configuration_id w); [case_match|]; congruence.
Qed.

End witnesses.

(** ** The final election *)

(** The members of a configuration that vote with the given replica ids. *)
Definition voters (c : ConfigurationDescriptor) (ids : list ReplicaId) : list ConfigurationMember :=
  List.filter (fun m => bool_decide (member_id m ∈ ids)) (cd_members c).
Definition voter_identities (c : ConfigurationDescriptor) (ids : list ReplicaId)
    : gset ReplicaIdentity := list_to_set (map cm_identity (voters c ids)).

(** A witness fenced by the provisional configuration of a failed scale-up. *)
Definition fenced_witness `{Sha256} (e : ScaleUpFailoverEvidence) (w : ScaleUpFinalWitness)
    : Prop :=
  exists m, m ∈ cd_members (sufe_provisional_configuration e) /\
    member_id m = sfw_replica_id w /\
    sui_catch_up_boundary_lsn (sufe_intent e) <= sfw_current_progress w /\
    sfw_fence_operation_id w
    = sui_command_operation_id (sufe_intent e) SuPreviousCurrent (cm_identity m)
        (sufe_provisional_configuration e).

(** The largest element by [compare] is largest by every key it refines. *)
Lemma max_by_spec {A} (compare : A -> A -> comparison) (key : A -> Z) l x :
  (forall a b, compare a b = Gt -> key b <= key a) ->
  (forall a b, compare a b <> Gt -> key a <= key b) ->
  max_by compare l = Some x -> x ∈ l /\ forall y, y ∈ l -> key y <= key x.
Proof.
  intros Hgt Hle. unfold max_by. revert x. induction l as [|y l IH] using rev_ind; [done|].
  intros x. rewrite fold_left_app. simpl. setoid_rewrite elem_of_app.
  setoid_rewrite list_elem_of_singleton.
  destruct (fold_left _ l None) as [b|] eqn:Hb.
  - destruct (IH b) as [Hin Hmax]; [done|].
    assert (compare b y = Gt \/ compare b y <> Gt) as [E|E] by (destruct (compare b y); auto).
    + rewrite E. intros [= <-]. split; [by left|]. intros z [Hz| ->]; auto.
    + destruct (compare b y) eqn:E'; try done; intros [= <-]; (split; [by right|]);
        (intros z [Hz| ->]; [specialize (Hmax z Hz); specialize (Hle b y); rewrite E' in Hle|lia]);
        specialize (Hle E); lia.
  - intros [= <-]. split; [by right|]. intros z [Hz| ->]; [|lia].
    destruct l as [|z0 l _] using rev_ind; [by apply elem_of_nil in Hz|].
    rewrite fold_left_app in Hb. simpl in Hb.
    destruct (fold_left _ l None) as [b0|]; [destruct (compare b0 z0)|]; done.
Qed.

Lemma election_order_safe a b :
  (election_order a b = Gt -> witness_safe_lsn b <= witness_safe_lsn a) /\
  (election_order a b <> Gt -> witness_safe_lsn a <= witness_safe_lsn b).
Proof.
  unfold election_order. destruct (Z.compare_spec (witness_safe_lsn a) (witness_safe_lsn b));
    simpl; split; intros; try lia; done.
Qed.

Section election.
Context `{Sha256}.

Lemma sfe_witness_some final id w :
  sfe_witness final id = Some w -> w ∈ sfe_witnesses final /\ sfw_replica_id w = id.
Proof.
  unfold sfe_witness. intros [Hin Heq]%List.find_some. apply list_elem_of_In in Hin. by guards.
Qed.

Lemma final_witnesses_ok e final :
  validate_final_witnesses e final = Ok tt -> Forall (fenced_witness e) (sfe_witnesses final).
Proof.
  unfold validate_final_witnesses. intros Hok. guards.
  rename select (try_fold _ _ _ = _) into Hfold.
  apply (try_fold_collect sfw_replica_id (fenced_witness e)) in Hfold as (_ & Hall & _); [done|].
  intros s w s' Hw. unfold check_final_witness in Hw. guards.
  split_and!; [done..|]. rename select (is_none _ = false) into Hm.
  apply is_none_false in Hm as (m & Hm). rewrite Hm in *. simpl in *. guards.
  apply List.find_some in Hm as [Hin Heq]. apply list_elem_of_In in Hin. guards.
  exists m. done.
Qed.

Lemma final_quorum_ok final c ids quorum required :
  validate_final_quorum final c ids quorum required = Ok tt ->
  (forall id, id ∈ ids -> (exists w, sfe_witness final id = Some w) /\ id ∈ logical_ids c) /\
  NoDup ids /\ quorum <= Z.of_nat (length ids).
Proof.
  unfold validate_final_quorum. intros Hok. guards.
  rename select (try_fold _ _ _ = _) into Hfold.
  apply (try_fold_collect (fun id => id) (fun id =>
    (exists w, sfe_witness final id = Some w) /\ id ∈ logical_ids c)) in Hfold
    as (-> & Hall & Hnd & _).
  - rewrite map_id in *. rewrite (union_empty_r_L _), size_list_to_set in * by done.
    rewrite Forall_forall in Hall. done.
  - intros s id s' Hid. unfold check_final_voter in Hid. guards.
    rename select (is_none _ = false) into Hw. apply is_none_false in Hw.
    rename select (existsb _ _ = true) into Hm. apply existsb_true in Hm as (m & Hm & Heq). guards.
    split_and!; [done|done|by eauto|]. apply elem_of_logical_ids. eauto.
Qed.

(** As many members vote as there are distinct voting ids. *)
Lemma voter_identities_spec c policy ids :
  valid_configuration c policy -> NoDup ids -> (forall id, id ∈ ids -> id ∈ logical_ids c) ->
  voter_identities c ids ⊆ exact_identities c /\
  size (voter_identities c ids) = length ids /\
  forall k, k ∈ voter_identities c ids -> replica_id k ∈ ids.
Proof.
  intros Hv Hnd Hids. unfold voter_identities, voters.
  assert (map member_id (voters c ids) ≡ₚ ids) as Hperm.
  { apply NoDup_Permutation; [apply NoDup_map_filterb, Hv|done|]. intros id.
    rewrite list_elem_of_fmap. unfold voters. setoid_rewrite elem_of_filterb. split.
    - intros (m & -> & Hm & Hin). by guards.
    - intros Hid. destruct (proj1 (elem_of_logical_ids _ _) (Hids id Hid)) as (m & Hm & ->).
      exists m. split_and!; [done..|]. by apply bool_decide_eq_true. }
  split_and!.
  - intros k (m & -> & [Hm _]%elem_of_filterb)%elem_of_list_to_set%list_elem_of_fmap.
    apply elem_of_exact_identities. eauto.
  - rewrite size_list_to_set.
    + rewrite length_map, <-Hperm. unfold voters. by rewrite length_map.
    + apply NoDup_map_filterb. by eapply valid_identities_NoDup.
  - intros k (m & -> & [_ Hm]%elem_of_filterb)%elem_of_list_to_set%list_elem_of_fmap. by guards.
Qed.

Lemma failover_configuration_ok e c policy :
  countable_members c -> validate_failover_configuration e c policy = Ok tt ->
  validate_policy policy = Ok tt /\ valid_configuration c (Some policy) /\
  policy = sui_current_policy (sufe_intent e) /\
  exact_identities c = exact_identities (sui_current_configuration (sufe_intent e)) /\
  data_loss_number (cd_epoch c)
  = data_loss_number (cd_epoch (sui_current_configuration (sufe_intent e))) /\
  configuration_number (cd_epoch (sui_current_configuration (sufe_intent e)))
  < configuration_number (cd_epoch c).
Proof.
  unfold validate_failover_configuration. intros Hc Hok. guards.
  split_and!; try done. by apply valid_configuration_sound.
Qed.

(** The configurations that failover evidence names are countable. *)
Definition countable_evidence (e : ScaleUpFailoverEvidence) : Prop :=
  countable_scale_up (sufe_intent e) /\ countable_members (sufe_provisional_configuration e).

Record recovered (e : ScaleUpFailoverEvidence) : Prop := {
  rv_intent : scale_up_intent (sufe_intent e);
  rv_provisional : valid_configuration (sufe_provisional_configuration e)
                     (Some (sui_current_policy (sufe_intent e)));
  rv_members : exact_identities (sufe_provisional_configuration e)
               = exact_identities (sui_current_configuration (sufe_intent e));
  rv_number : configuration_number (cd_epoch (sufe_provisional_configuration e))
              = configuration_number (cd_epoch (sui_current_configuration (sufe_intent e))) + 1;
  rv_primary : cd_primary_id (sufe_provisional_configuration e)
               <> replica_id (sui_primary (sufe_intent e));
  rv_previous_quorum :
    validate_recovery_witnesses (sufe_intent e) (sui_previous_configuration (sufe_intent e))
      (sufe_previous_read_quorum e) (read_quorum (sui_previous_policy (sufe_intent e))) = Ok tt;
  rv_current_quorum :
    validate_recovery_witnesses (sufe_intent e) (sui_current_configuration (sufe_intent e))
      (sufe_current_read_quorum e) (read_quorum (sui_current_policy (sufe_intent e))) = Ok tt;
  rv_election : forall final, sufe_final_election e = Some final ->
                  validate_final_election e final = Ok tt;
}.

Lemma failover_evidence_ok e :
  countable_evidence e -> validate_scale_up_failover_evidence e = Ok tt -> recovered e.
Proof.
  intros [Hi Hc]. unfold validate_scale_up_failover_evidence. intros Hok. guards.
  rename select (validate_scale_up _ = _) into Hv. apply validate_scale_up_ok in Hv; [|done].
  rename select (validate_failover_configuration _ _ _ = _) into Hf.
  apply failover_configuration_ok in Hf as (_ & Hval & _ & Hids & _ & _); [|done].
  rename select (is_none_or _ _ = false) into Hn.
  apply is_none_or_false in Hn as (n & ->%i64_checked_add_some & Hn). guards.
  split; try done. intros final Hfinal. by rewrite Hfinal in *.
Qed.

(** The voters of the election: the fenced read quorums of both configurations,
    and the primary that is elected among those that did not fail. *)
Record elects (e : ScaleUpFailoverEvidence) (final : ScaleUpFinalElectionEvidence) (s : Lsn)
    : Prop := {
  el_safe : safe_lsn final = Some s;
  el_boundary : sui_catch_up_boundary_lsn (sufe_intent e) <= s;
  el_fenced : Forall (fenced_witness e) (sfe_witnesses final);
  el_previous : read_quorum_of (sui_previous_configuration (sufe_intent e))
                  (voter_identities (sui_previous_configuration (sufe_intent e))
                     (sfe_previous_read_quorum final));
  el_current : read_quorum_of (sufe_provisional_configuration e)
                 (voter_identities (sufe_provisional_configuration e)
                    (sfe_current_read_quorum final));
  el_voters : forall k, k ∈ voter_identities (sufe_provisional_configuration e)
                              (sfe_current_read_quorum final) ->
                replica_id k ∈ sfe_current_read_quorum final /\
                exists w, w ∈ sfe_witnesses final /\ sfw_replica_id w = replica_id k /\
                  (replica_id k <> replica_id (sui_primary (sufe_intent e)) ->
                   witness_safe_lsn w <= s);
  el_primary : sfe_selected_primary_replica_id final <> replica_id (sui_primary (sufe_intent e));
}.

Lemma voters_read_quorum final c policy ids required :
  valid_configuration c (Some policy) -> validate_policy policy = Ok tt ->
  validate_final_quorum final c ids (read_quorum policy) required = Ok tt ->
  read_quorum_of c (voter_identities c ids) /\
  forall k, k ∈ voter_identities c ids ->
    replica_id k ∈ ids /\ exists w, sfe_witness final (replica_id k) = Some w.
Proof.
  intros Hv Hp (Hids & Hnd & Hq)%final_quorum_ok.
  destruct (voter_identities_spec c (Some policy) ids) as (Hsub & Hsize & Hin); [done..|naive_solver|].
  split; [by apply (policy_read_quorum c policy); [done..|lia]|].
  intros k Hk. split; [auto|]. apply Hids. auto.
Qed.

Lemma final_election_ok e final :
  recovered e -> validate_final_election e final = Ok tt -> exists s, elects e final s.
Proof.
  intros [Hi Hprov _ _ _ _ _ _]. unfold validate_final_election. intros Hok. guards.
  repeat match goal with
  | H : validate_final_quorum _ _ _ _ _ = Ok tt |- _ =>
      apply (voters_read_quorum final _ _ _ _) in H as [? ?];
        [|first [exact Hprov|apply Hi]|apply Hi]
  | H : validate_final_witnesses _ _ = Ok tt |- _ => apply final_witnesses_ok in H
  end.
  rename select (max_by _ _ = Some _) into Hmax. rename select (safe_lsn final = Some _) into Hs.
  apply (max_by_spec _ witness_safe_lsn) in Hmax as [_ Hmax]; [|apply election_order_safe..].
  rename select (sfe_witness final (sfe_selected_primary_replica_id final) = Some _) into Hsel.
  eexists. split; try done.
  unfold safe_lsn in Hs. rewrite Hsel in Hs. injection Hs as <-.
  intros k Hk. match goal with H : forall k, _ -> replica_id k ∈ sfe_current_read_quorum final /\ _
    |- _ => destruct (H k Hk) as (Hid & w & Hw) end.
  split; [done|]. exists w. pose proof (sfe_witness_some _ _ _ Hw) as [Hin Heq].
  split_and!; [done..|]. intros Hne. subst. apply Hmax. unfold election_candidates.
  apply list_elem_of_omap. exists (replica_id k). split; [|done].
  apply elem_of_filterb. split; [done|]. by rewrite negb_true_iff, bool_decide_eq_false.
Qed.

End election.

Section receipts.
Context `{Sha256}.

Lemma failed_primary_member i :
  scale_up_intent i -> sui_primary i ∈ exact_identities (sui_current_configuration i).
Proof.
  intros Hi. destruct (su_primary i Hi) as (m & Hm & _ & <-).
  apply elem_of_exact_identities. exists m. split; [|done].
  apply (rm_members _ _ _ (su_adds i Hi)) in Hm. tauto.
Qed.

Lemma identity_by_id c policy j k :
  valid_configuration c policy -> j ∈ exact_identities c -> k ∈ exact_identities c ->
  replica_id j = replica_id k -> j = k.
Proof.
  intros Hv (m & Hm & ->)%elem_of_exact_identities (n & Hn & ->)%elem_of_exact_identities Heq.
  by rewrite (member_id_inj c m n (vc_ids _ _ Hv) Hm Hn Heq).
Qed.

(** The accepted configuration has the expanded members. *)
Lemma receipt_accepted r primary :
  scale_up_intent (sur_intent r) -> countable_members (sur_accepted_configuration r) ->
  (if is_some (sur_failover_evidence r) then validate_failover_receipt r primary
   else
     reject (sur_accepted_configuration r != sui_current_configuration (sur_intent r))
       (invalid_scale_up
          "ordinary receipt accepted configuration differs from scale-up intent") ;?
     reject (is_some (sur_failover_safe_lsn r))
       (invalid_scale_up "ordinary receipt must not carry a failover-safe LSN")) = Ok tt ->
  valid_configuration (sur_accepted_configuration r)
    (Some (sui_current_policy (sur_intent r))) /\
  exact_identities (sur_accepted_configuration r)
  = exact_identities (sui_current_configuration (sur_intent r)) /\
  forall s, sur_failover_safe_lsn r = Some s ->
    exists w, w ∈ sur_current_only_write_quorum r /\ suw_identity w = cm_identity primary /\
      s <= suw_verified_replication_lsn w.
Proof.
  intros Hi Hc Hok. destruct (is_some (sur_failover_evidence r)).
  - unfold validate_failover_receipt in Hok. guards.
    rename select (sur_expanded_failover_evidence r = Some _) into He.
    unfold sur_expanded_failover_evidence in He.
    destruct (sur_failover_evidence r) as [x'|]; [|done]. simpl in He. unfold sufr_expand in He.
    destruct (existsb _ _) in He; [|done]. destruct (i64_checked_add _ _) in He; [|done].
    injection He as <-.
    rename select (validate_scale_up_failover_transition _ _ _ = _) into Ht.
    unfold validate_scale_up_failover_transition in Ht. guards.
    rename select (validate_failover_configuration _ _ _ = _) into Hf.
    apply failover_configuration_ok in Hf as (_ & Hv & _ & Hids & _); [|done]. simpl in Hids.
    split_and!; [done..|]. intros s Hs.
    rename select (existsb _ _ = true) into Hw. apply existsb_true in Hw as (w & Hw & Hb). guards.
    exists w. split_and!; [done..|]. congruence.
  - guards. rename select (is_some _ = false) into Hs. apply is_some_false in Hs.
    rename select (sur_accepted_configuration r = _) into Hacc. rewrite Hacc.
    split_and!; [apply Hi|done|]. intros s. by rewrite Hs.
Qed.

(** Every configuration a failover command may install has the expanded
    members and a newer epoch. *)
Lemma failover_command_authority c e :
  countable_evidence e -> countable_members (ec_current_configuration c) ->
  validate_scale_up_failover_evidence e = Ok tt -> failover_command_differs c e = false ->
  validate_failover_configuration e (ec_current_configuration c)
    (sui_current_policy (sufe_intent e)) = Ok tt /\
  ec_transition_kind c = Failover /\
  ec_current_epoch c = cd_epoch (ec_current_configuration c) /\
  (ec_current_only c = false -> ec_primary_write_status c <> Granted).
Proof.
  intros He Hc Hok Hdiff. pose proof Hok as Hrec. apply failover_evidence_ok in Hrec; [|done].
  unfold validate_scale_up_failover_evidence in Hok. unfold failover_command_differs in Hdiff.
  guards. rename select (negb _ && negb _ = false) into Hone.
  split_and!; try done.
  - apply andb_false_iff in Hone as [Hprov|Hfin]; guards; [congruence|].
    rename select (is_some_and _ _ = true) into Hf. apply is_some_and_true in Hf as (final & Hf & Heq).
    guards. pose proof (rv_election _ Hrec final Hf) as Hel. unfold validate_final_election in Hel.
    guards. congruence.
  - intros Hpending. rewrite Hpending in *. simpl in *. guards. done.
Qed.

Lemma length_final_configuration final provisional c :
  sfe_final_configuration final provisional = Some c ->
  length (cd_members c) = length (cd_members provisional).
Proof.
  unfold sfe_final_configuration. destruct (sfe_selected_primary _ _); [|done]. simpl.
  destruct (i64_checked_add _ _); [|done]. intros [= <-]. simpl.
  by rewrite sort_by_key_perm, length_map.
Qed.

Lemma validate_scale_up_no_panic i : validate_scale_up i <> Panic.
Proof.
  unfold validate_scale_up.
  no_panic; auto using validate_policy_no_panic, policed_configuration_no_panic.
  rename select (validate_configuration (sui_previous_configuration i) _ = _) into Hv.
  destruct a1. apply checked_is_primary in Hv. by destruct (List.find is_primary _).
Qed.

Lemma failover_configuration_no_panic e c policy :
  validate_failover_configuration e c policy <> Panic.
Proof.
  unfold validate_failover_configuration.
  no_panic; auto using validate_policy_no_panic, policed_configuration_no_panic.
Qed.

Lemma final_election_no_panic e final : validate_final_election e final <> Panic.
Proof.
  unfold validate_final_election, validate_final_witnesses, validate_final_quorum,
    check_final_witness, check_final_voter.
  no_panic; auto using failover_configuration_no_panic.
  rename select (ok_or (safe_lsn _) _ = _) into Hs. apply ok_or_ok in Hs. unfold safe_lsn in Hs.
  by destruct (sfe_witness final (sfe_selected_primary_replica_id final)).
Qed.

Lemma failover_evidence_no_panic e :
  validate_scale_up_failover_evidence e <> Panic.
Proof.
  unfold validate_scale_up_failover_evidence, validate_recovery_witnesses,
    check_recovery_witness, recovery_stage.
  no_panic; auto using validate_scale_up_no_panic, failover_configuration_no_panic,
    final_election_no_panic.
Qed.

End receipts.

(** ** The properties *)

Section scale_up_properties.
Context `{Sha256}.

(** [C32] A scale-up intent that validation accepts adds exactly one active
    secondary, with the first missing ordinal, in the next epoch and under the
    same primary; every write quorum of the old configuration shares a replica
    with every write quorum of the expanded one. *)
Theorem scale_up_safe i Q R :
  countable_scale_up i -> validate_scale_up i = Ok tt ->
  scale_up_intent i /\
  (write_quorum_of (sui_previous_configuration i) Q ->
   write_quorum_of (sui_current_configuration i) R -> exists k, k ∈ Q /\ k ∈ R).
Proof.
  intros Hc Hok. apply validate_scale_up_ok in Hok; [|done].
  split; [done|]. by apply scale_up_quorums.
Qed.

(** [C33] The final election after a failed scale-up covers committed writes:
    for every write quorum of the expanded configuration that did not rely on
    the failed primary, or when the failed primary is not among the voters, the
    elected safe LSN is at least the fenced safe LSN of one of its replicas. *)
Theorem final_election_covers_writes e final W :
  countable_evidence e -> validate_scale_up_failover_evidence e = Ok tt ->
  sufe_final_election e = Some final ->
  write_quorum_of (sufe_provisional_configuration e) W ->
  (sui_primary (sufe_intent e) ∉ W) \/
  (replica_id (sui_primary (sufe_intent e)) ∉ sfe_current_read_quorum final) ->
  exists s k w, safe_lsn final = Some s /\ k ∈ W /\ w ∈ sfe_witnesses final /\
    sfw_replica_id w = replica_id k /\ fenced_witness e w /\ witness_safe_lsn w <= s.
Proof.
  intros Hc Hok Hfinal HW Hprimary. apply failover_evidence_ok in Hok; [|done].
  destruct (final_election_ok e final) as [s Hel]; [done|by apply Hok|].
  assert (majority_configuration (sufe_provisional_configuration e)) as Hmaj.
  { apply (valid_configuration_majority _ _ (rv_provisional _ Hok)).
    intros q [= <-]. apply Hok. }
  destruct (read_write_quorums_intersect _ _ _ Hmaj (el_current _ _ _ Hel) HW) as (k & Hk & HkW).
  destruct (el_voters _ _ _ Hel k Hk) as (Hid & w & Hw & Heq & Hle).
  exists s, k, w. split_and!; [apply Hel|done..| |].
  - by eapply Forall_forall, Hw; apply Hel.
  - apply Hle. intros Hold. destruct Hprimary as [Hp|Hp]; [|congruence].
    destruct Hp. rewrite <-(identity_by_id _ _ k _ (rv_provisional _ Hok)); [done| | |done].
    + by apply HW.
    + rewrite (rv_members _ Hok). apply failed_primary_member, Hok.
Qed.

(** [C39] An accepted scale-up receipt certifies the expanded configuration:
    it is valid with the expanded members, exactly its primary has writes
    granted among the witnesses, every write quorum of the old or of the
    accepted configuration contains a witness that holds the catch-up boundary,
    and after a failover the primary holds the fenced safe LSN. *)
Theorem scale_up_receipt_certifies r Q :
  countable_scale_up (sur_intent r) -> countable_members (sur_accepted_configuration r) ->
  validate_scale_up_receipt r = Ok tt ->
  scale_up_intent (sur_intent r) /\
  valid_configuration (sur_accepted_configuration r)
    (Some (sui_current_policy (sur_intent r))) /\
  exact_identities (sur_accepted_configuration r)
  = exact_identities (sui_current_configuration (sur_intent r)) /\
  (exists primary, find_primary (sur_accepted_configuration r) = Some primary /\
     (forall w, w ∈ sur_current_only_write_quorum r ->
        certifies (sur_intent r) (sur_accepted_configuration r) SuCurrentOnly w /\
        (suw_write_status w = Granted <-> suw_identity w = cm_identity primary)) /\
     forall s, sur_failover_safe_lsn r = Some s ->
       exists w, w ∈ sur_current_only_write_quorum r /\
         suw_identity w = cm_identity primary /\ s <= suw_verified_replication_lsn w) /\
  (write_quorum_of (sui_previous_configuration (sur_intent r)) Q \/
   write_quorum_of (sur_accepted_configuration r) Q ->
   exists w, w ∈ sur_current_only_write_quorum r /\ suw_identity w ∈ Q /\
     sui_catch_up_boundary_lsn (sur_intent r) <= suw_verified_replication_lsn w).
Proof.
  intros Hc Ha. unfold validate_scale_up_receipt. intros Hok. apply bind_ok in Hok as ([] & Hi & Hok).
  apply validate_scale_up_ok in Hi; [|done].
  apply bind_ok in Hok as (primary & Hp & Hok). apply ok_or_ok in Hp.
  apply bind_ok in Hok as ([] & Hacc & Hws).
  apply receipt_accepted in Hacc as (Hv & Hids & Hsafe); [|done..].
  apply current_only_witnesses_ok in Hws as (Hall & Hsub & Hq & _).
  split_and!; [done..|by exists primary|]. intros HQ.
  assert (exists k, k ∈ Q /\ k ∈ scale_up_identities (sur_current_only_write_quorum r))
    as (k & HkQ & (w & Hw & <-)%elem_of_scale_up_identities).
  { destruct HQ as [HQ|HQ].
    - apply (scale_up_quorums _ _ _ Hi HQ), (policy_write_quorum _ _ _ (su_current _ Hi)); [|done].
      by rewrite <-Hids.
    - apply (write_quorums_intersect (sur_accepted_configuration r)); [|done|].
      + apply (valid_configuration_majority _ _ Hv). intros q [= <-]. apply Hi.
      + by apply (policy_write_quorum _ _ _ Hv). }
  exists w. split_and!; [done..|]. apply (ct_progress _ _ _ _ (proj1 (Hall w Hw))).
Qed.

(** An accepted scale-up configuration command, ordinary or recovering
    from a failover, installs a valid configuration with exactly the expanded
    members and an epoch at least that of the frozen scale-up, at a member of
    it and under the identifier derived from the intent; the joint stage carries
    the old configuration and, in a failover, keeps writes closed. *)
Theorem scale_up_command_authority c evidence :
  let i := evidence_intent evidence in
  ec_scale_up_evidence c = Some evidence -> countable_scale_up i ->
  countable_members (ec_current_configuration c) ->
  (forall e, evidence = FailoverEvidence e -> countable_evidence e) ->
  validate_scale_up_configuration c = Ok tt ->
  scale_up_intent i /\
  valid_configuration (ec_current_configuration c) (Some (ec_effective_policy c)) /\
  exact_identities (ec_current_configuration c) = exact_identities (sui_current_configuration i) /\
  ec_current_epoch c = cd_epoch (ec_current_configuration c) /\
  configuration_number (cd_epoch (sui_current_configuration i))
  <= configuration_number (ec_current_epoch c) /\
  ec_local_identity c ∈ exact_identities (ec_current_configuration c) /\
  ec_operation_id c
  = sui_command_operation_id i (if ec_current_only c then SuCurrentOnly else SuPreviousCurrent)
      (ec_local_identity c) (ec_current_configuration c) /\
  ec_previous_configuration c
  = (if ec_current_only c then None else Some (sui_previous_configuration i)) /\
  (ec_current_only c = false -> ec_transition_kind c = Failover ->
   ec_primary_write_status c <> Granted).
Proof.
  intros i Hev Hi Hc He Hok. unfold validate_scale_up_configuration in Hok. rewrite Hev in Hok.
  simpl in Hok. fold i in Hok. apply bind_ok in Hok as ([] & Hv & Hok).
  apply validate_scale_up_ok in Hv; [|done]. guards.
  rename select (match evidence with Admission _ => _ | _ => _ end = Ok tt) into Hkind.
  assert (valid_configuration (ec_current_configuration c) (Some (sui_current_policy i)) /\
    exact_identities (ec_current_configuration c) = exact_identities (sui_current_configuration i) /\
    ec_current_epoch c = cd_epoch (ec_current_configuration c) /\
    configuration_number (cd_epoch (sui_current_configuration i))
    <= configuration_number (ec_current_epoch c) /\
    (ec_current_only c = false -> ec_transition_kind c = Failover ->
     ec_primary_write_status c <> Granted)) as (Hval & Hids & Hep & Hnum & Hclosed).
  { destruct evidence as [x|e]; guards.
    - replace (ec_current_configuration c) with (sui_current_configuration i) by congruence.
      rename select (ec_current_epoch c = _) into Hepoch. rewrite Hepoch.
      split_and!; [apply Hv|done|done|done|congruence].
    - rename select (failover_command_differs c e = false) into Hd.
      apply failover_command_authority in Hd as (Hf & _ & Hep & Hcl); [|by auto..].
      apply failover_configuration_ok in Hf as (_ & Hval & _ & Hids & _ & Hlt); [|done].
      split_and!; [done..|rewrite Hep; simpl in *; unfold i; simpl; lia|auto]. }
  rename select (ec_effective_policy c = _) into Hpolicy. rewrite Hpolicy.
  rename select (existsb _ _ = true) into Htarget. apply existsb_true in Htarget as (m & Hm & Heq).
  guards. split_and!; try done.
  - rewrite Hids, <-Heq. apply elem_of_exact_identities. exists m. split; [|done].
    apply elem_of_app in Hm as [Hm|Hm]; [done|]. apply (rm_members _ _ _ (su_adds _ Hv)) in Hm. tauto.
  - destruct (ec_current_only c); guards; [|done].
    rename select (is_some (ec_previous_configuration c) = false) into Hp. by apply is_some_false.
Qed.

(** Validating a scale-up configuration command never panics, whatever
    election evidence it carries. *)
Theorem scale_up_validation_never_panics c :
  validate_scale_up_configuration c <> Panic.
Proof.
  unfold validate_scale_up_configuration.
  no_panic; auto using validate_scale_up_no_panic, failover_evidence_no_panic.
Qed.

End scale_up_properties.

(** ** A sample scale-up from three to four replicas, recovered from the
    failure of its primary *)

#[local] Existing Instance padding_sha256.

Module Expansion.

Definition expanded (number primary : Z) : ConfigurationDescriptor :=
  new_configuration (mkEpoch 0 number) primary
    (map (fun m => {| cm_identity := cm_identity m;
                      cm_role := if member_id m =? primary then Primary else ActiveSecondary |})
       (cd_members Sample.previous ++ [Sample.member 4 "d" ActiveSecondary])) 3.

Definition draft (operation : string) : ScaleUpIntent :=
  {| sui_operation_id := operation; sui_resource_uid := "set"; sui_spec_generation := 5;
     sui_desired_replicas := 4; sui_previous_configuration := Sample.previous;
     sui_current_configuration := expanded 2 1; sui_previous_policy := Sample.policy 3;
     sui_current_policy := Sample.policy 4; sui_primary := Sample.identity 1 "a";
     sui_target := Sample.identity 4 "d"; sui_build_id := "build";
     sui_snapshot_boundary_lsn := 1; sui_catch_up_boundary_lsn := 2 |}.

Definition intent : ScaleUpIntent := draft (sui_expected_operation_id (draft "")).

Definition provisional : ConfigurationDescriptor := expanded 3 2.

(** A witness of [c], of the joint stage when [joint] holds. *)
Definition witness (c : ConfigurationDescriptor) (joint : bool) (lsn : Lsn)
    (m : ConfigurationMember) : ScaleUpWitness :=
  {| suw_resource_uid := "set"; suw_identity := cm_identity m; suw_role := cm_role m;
     suw_process_session_id := "s"; suw_report_sequence := 1; suw_epoch := cd_epoch c;
     suw_previous_configuration_id :=
       then_some joint (cd_configuration_id (sui_previous_configuration intent));
     suw_current_configuration_id := cd_configuration_id c;
     suw_verified_replication_lsn := lsn;
     suw_write_status := if negb joint && (member_id m =? cd_primary_id c) then Granted
                         else ReconfigurationPending;
     suw_pending_operation_id := None;
     suw_retained_operation_id :=
       Some (sui_command_operation_id intent
               (if joint then SuPreviousCurrent else SuCurrentOnly) (cm_identity m) c) |}.

Definition final_witness (id : Z) (instance : string) (lsn : Lsn) : ScaleUpFinalWitness :=
  {| sfw_replica_id := id; sfw_process_session_id := "s"; sfw_report_sequence := 2;
     sfw_current_progress := lsn; sfw_committed_lsn := 2; sfw_deactivated_lsn := lsn;
     sfw_fence_operation_id :=
       sui_command_operation_id intent SuPreviousCurrent (Sample.identity id instance)
         provisional |}.

(** Replicas 2 and 3 vote; replica 3 has the longest fenced prefix. *)
Definition election : ScaleUpFinalElectionEvidence :=
  {| sfe_selected_primary_replica_id := 3;
     sfe_witnesses := [final_witness 2 "b" 5; final_witness 3 "c" 7];
     sfe_previous_read_quorum := [2; 3]; sfe_current_read_quorum := [2; 3] |}.

Definition survivors : list ScaleUpWitness :=
  map (witness (expanded 2 1) true 4)
    [Sample.member 2 "b" ActiveSecondary; Sample.member 3 "c" ActiveSecondary].

Definition evidence (final : ScaleUpFinalElectionEvidence) : ScaleUpFailoverEvidence :=
  {| sufe_intent := intent; sufe_provisional_configuration := provisional;
     sufe_previous_read_quorum := survivors; sufe_current_read_quorum := survivors;
     sufe_final_election := Some final |}.

Definition elected : ConfigurationDescriptor := expanded 4 3.

Definition receipt : ScaleUpReceipt :=
  {| sur_intent := intent; sur_accepted_configuration := elected;
     sur_failover_evidence := receipt_from_evidence (evidence election);
     sur_failover_safe_lsn := Some 7;
     sur_current_only_write_quorum := map (witness elected false 8) (take 3 (cd_members elected)) |}.

Definition command : EnsureConfiguration :=
  {| ec_operation_id := sui_command_operation_id intent SuPreviousCurrent
                          (Sample.identity 3 "c") elected;
     ec_previous_configuration := Some Sample.previous; ec_current_configuration := elected;
     ec_previous_epoch := Some (mkEpoch 0 1); ec_current_epoch := mkEpoch 0 4;
     ec_effective_policy := Sample.policy 4; ec_previous_policy := Some (Sample.policy 3);
     ec_secondary_removal_evidence := None;
     ec_scale_up_evidence := Some (FailoverEvidence (evidence election));
     ec_local_replica_id := 3; ec_expected_instance_id := "c";
     ec_expected_agent_generation := agent_generation (Sample.identity 3 "c");
     ec_transition_kind := Failover; ec_failover_safe_lsn := Some 7;
     ec_primary_write_status := ReconfigurationPending; ec_current_only := false;
     ec_retire_build_ids := []; ec_switchover_handoff := None;
     ec_retire_switchover_preparation_ids := [] |}.

(** The write quorum that acknowledged a write up to LSN 10. *)
Definition writers : gset ReplicaIdentity :=
  {[Sample.identity 1 "a"; Sample.identity 3 "c"; Sample.identity 4 "d"]}.

End Expansion.

Lemma scale_up_safe_witness : scale_up_intent Expansion.intent.
Proof. apply (scale_up_safe Expansion.intent ∅ ∅); [split|]; vm_compute; reflexivity. Defined.

Lemma final_election_covers_writes_witness :
  exists s k w, safe_lsn Expansion.election = Some s /\ k ∈ Expansion.writers /\
    w ∈ sfe_witnesses Expansion.election /\ sfw_replica_id w = replica_id k /\
    fenced_witness (Expansion.evidence Expansion.election) w /\ witness_safe_lsn w <= s.
Proof.
  apply (final_election_covers_writes (Expansion.evidence Expansion.election) Expansion.election).
  - split; [split|]; vm_compute; reflexivity.
  - vm_compute. reflexivity.
  - reflexivity.
  - split; [|by vm_compute]. apply (bool_decide_unpack _). by vm_compute.
  - right. apply (bool_decide_unpack _). by vm_compute.
Defined.

Lemma scale_up_receipt_certifies_witness :
  valid_configuration Expansion.elected (Some (Sample.policy 4)).
Proof.
  destruct (scale_up_receipt_certifies Expansion.receipt ∅) as (_ & Hv & _).
  - split; vm_compute; reflexivity.
  - vm_compute. reflexivity.
  - vm_compute. reflexivity.
  - exact Hv.
Defined.

Lemma scale_up_command_authority_witness :
  ec_local_identity Expansion.command ∈ exact_identities Expansion.elected.
Proof.
  destruct (scale_up_command_authority Expansion.command
              (FailoverEvidence (Expansion.evidence Expansion.election)))
    as (_ & _ & _ & _ & _ & Hin & _).
  - reflexivity.
  - split; vm_compute; reflexivity.
  - vm_compute. reflexivity.
  - intros e [= <-]. split; [split|]; vm_compute; reflexivity.
  - vm_compute. reflexivity.
  - exact Hin.
Defined.
