(* ===== verification/SnapshotValidation.v ===== *)
(** * Validation of accepted status and observed reports
    ([protocol/validation.rs], [protocol/validation/scale_down.rs])

    [validate_status] checks what the controller has accepted, [validate_report_internal]
    a report by itself, [validate_report_authority] a report against the accepted
    authority, and [validate_snapshot] all of them over a snapshot.  The blocks of
    [validate_status] and of [validate_report_authority] are definitions of their own,
    chained in the order of the code. *)

From S2P Require Import Prelude Digest Types Intents Validation Commands Observations.
From S2P Require Import ScaleDown ScaleUp.
From stdpp Require Import base gmap strings list pretty.
From Stdlib Require Import ZArith Lia.
Local Open Scope Z_scope.

(** [if let Some(x) = o { f(x)? }] *)
Definition when_some {E A} (o : option A) (f : A -> res E unit) : res E unit :=
  match o with Some a => f a | None => Ok tt end.

(** [members.iter().find(|m| m.replica_id == primary_id)] *)
Definition named_primary (c : ConfigurationDescriptor) : option ConfigurationMember :=
  List.find (fun m => member_id m == cd_primary_id c) (cd_members c).

(** Some member has this logical id and incarnation. *)
Definition has_instance (c : ConfigurationDescriptor) (id : ReplicaId) (instance : ReplicaInstanceId)
    : bool :=
  existsb (fun m => (member_id m == id) && (instance_id (cm_identity m) == instance)) (cd_members c).

(** The scale-up a transition carries, by itself or through a failover. *)
Definition active_scale_up (t : TransitionIntent) : option ScaleUpIntent :=
  or_else (ti_scale_up t) (sufe_intent <$> ti_scale_up_failover t).

Definition removal_of (e : SecondaryRemovalEvidence) : SecondaryScaleDownIntent :=
  srp_intent (sre_preparation e).

Section snapshot.
Context `{Sha256}.

(** ** Reports by themselves *)

Definition check_accepted_removal (r : AgentReport) (committed : SecondaryScaleDownCleanup)
    : validation :=
  validate_secondary_scale_down_cleanup committed ;?
  let intent := removal_of (sdc_evidence committed) in
  let current := sdi_current_configuration intent in
  reject ((sdi_resource_uid intent != ar_resource_uid r)
          || negb (has_member current (ar_identity r))
          || epoch_ltb (ar_epoch r) (cd_epoch current)
          || ((ar_epoch r == cd_epoch current)
              && ((ar_current_configuration r != Some current)
                  || is_some (ar_previous_configuration r)
                  || is_some_and (fun p => sdi_previous_configuration (srp_intent p) != current)
                       (ar_prepared_secondary_removal r)
                  || (ar_secondary_removal_evidence r != Some (sdc_evidence committed)))))
    (invalid_removal "accepted removal receipt differs from installed current-only authority").

Definition check_prepared_removal (r : AgentReport) (p : SecondaryRemovalPreparation) : validation :=
  validate_secondary_removal_preparation p ;?
  let previous := sdi_previous_configuration (srp_intent p) in
  reject ((sdi_primary (srp_intent p) != ar_identity r)
          || (sdi_resource_uid (srp_intent p) != ar_resource_uid r)
          || is_empty (ar_process_session_id r)
          || (ar_report_sequence r == 0)
          || ((ar_process_session_id r == srp_process_session_id p)
              && (ar_report_sequence r <? srp_report_sequence p))
          || (ar_write_status r == Granted)
          || is_some (ar_prepared_switchover r)
          || (is_none (ar_secondary_removal_evidence r)
              && ((ar_current_configuration r != Some previous)
                  || is_some (ar_previous_configuration r)
                  || (ar_epoch r != cd_epoch previous)
                  || (ar_role r != Primary))))
    (invalid_removal "preparation report differs from write-closed primary").

Definition check_removal_evidence (r : AgentReport) (e : SecondaryRemovalEvidence) : validation :=
  validate_secondary_removal_evidence e (is_none (ar_previous_configuration r)) ;?
  let intent := removal_of e in
  let current := sdi_current_configuration intent in
  reject ((ar_resource_uid r != sdi_resource_uid intent)
          || is_empty (ar_process_session_id r)
          || (ar_report_sequence r == 0)
          || (ar_current_configuration r != Some current)
          || (ar_epoch r != cd_epoch current)
          || is_some_and (fun previous => previous != sdi_previous_configuration intent)
               (ar_previous_configuration r)
          || negb (has_member_with_role current (ar_identity r) (ar_role r))
          || (is_some (ar_previous_configuration r) && (ar_write_status r == Granted))
          || is_some_and (fun prepared =>
               (prepared != sre_preparation e)
               && negb (is_none (ar_previous_configuration r)
                        && (sdi_previous_configuration (srp_intent prepared) == current)
                        && is_some_and (fun c => sdc_evidence c == e)
                             (ar_accepted_secondary_removal r)))
               (ar_prepared_secondary_removal r))
    (invalid_removal "reported reduced authority is not bound to admission evidence").

Definition check_retired (r : AgentReport) (retirement : ReplicaRetirementReport) : validation :=
  validate_replica_retirement retirement ;?
  reject ((sdi_target (rrr_intent retirement) != ar_identity r)
          || (sdi_resource_uid (rrr_intent retirement) != ar_resource_uid r)
          || is_empty (ar_process_session_id r)
          || (ar_report_sequence r == 0)
          || ((rrr_process_session_id retirement == ar_process_session_id r)
              && (ar_report_sequence r <? rrr_report_sequence retirement))
          || (rrr_epoch retirement != ar_epoch r)
          || (ar_role r != RoleNone)
          || (ar_read_status r == Granted)
          || (ar_write_status r == Granted)
          || is_some (ar_previous_configuration r)
          || is_some (ar_current_configuration r)
          || is_some (ar_pending_operation_id r)
          || (ar_retained_operation_id r != Some (rrr_operation_id retirement))
          || is_some (ar_prepared_secondary_removal r)
          || is_some (ar_secondary_removal_evidence r)
          || is_some (ar_prepared_switchover r))
    (invalid_removal "retired report still claims active authority").

Definition validate_secondary_removal_report (r : AgentReport) : validation :=
  when_some (ar_accepted_secondary_removal r) (check_accepted_removal r) ;?
  when_some (ar_prepared_secondary_removal r) (check_prepared_removal r) ;?
  when_some (ar_secondary_removal_evidence r) (check_removal_evidence r) ;?
  when_some (ar_retired_replica r) (check_retired r).

(** The builds of a report, with distinct ids. *)
Definition build_malformed (b : AgentBuildReport) : bool :=
  is_empty (ab_build_id b) || (replica_id (ab_target b) <=? 0)
  || is_empty (instance_id (ab_target b)) || is_empty (agent_generation (ab_target b))
  || (ab_replication_boundary_lsn b <? 0) || (ab_durable_lsn b <? 0)
  || is_some_and (fun boundary => boundary <? 0) (ab_catch_up_boundary_lsn b).
Fixpoint builds_malformed (seen : gset string) (builds : list AgentBuildReport) : bool :=
  match builds with
  | [] => false
  | b :: builds => build_malformed b || bool_decide (ab_build_id b ∈ seen)
                   || builds_malformed ({[ab_build_id b]} ∪ seen) builds
  end.

(** The configurations a report of a scale-up may have. *)
Definition scale_up_current_matches (i : ScaleUpIntent) (current : ConfigurationDescriptor) : bool :=
  let target := sui_current_configuration i in
  (current == target)
  || ((exact_identities current == exact_identities target)
      && (data_loss_number (cd_epoch current) == data_loss_number (cd_epoch target))
      && (configuration_number (cd_epoch target) <? configuration_number (cd_epoch current))).
Definition scale_up_previous_matches (i : ScaleUpIntent) (current previous : ConfigurationDescriptor)
    : bool :=
  (previous == sui_previous_configuration i)
  || ((current != sui_current_configuration i)
      && (exact_identities previous == exact_identities current)
      && (data_loss_number (cd_epoch previous) == data_loss_number (cd_epoch current))
      && (configuration_number (cd_epoch previous) <? configuration_number (cd_epoch current))).

Definition check_reported_scale_up (r : AgentReport) (i : ScaleUpIntent) : validation :=
  validate_scale_up i ;?
  let? current := ok_or (ar_current_configuration r)
                    (InvalidScaleUp "scale-up report requires current authority") in
  reject ((ar_resource_uid r != sui_resource_uid i)
          || negb (scale_up_current_matches i current)
          || negb (is_none_or (scale_up_previous_matches i current) (ar_previous_configuration r))
          || negb (has_member current (ar_identity r)))
    (InvalidScaleUp "report differs from exact scale-up authority").

Definition pending_command_differs (r : AgentReport) (c : EnsureConfiguration) : bool :=
  (ar_pending_operation_id r != Some (ec_operation_id c))
  || (ec_local_replica_id c != replica_id (ar_identity r))
  || (ec_expected_instance_id c != instance_id (ar_identity r))
  || (ec_expected_agent_generation c != agent_generation (ar_identity r)).

Definition validate_report_internal (r : AgentReport) : validation :=
  let unauthorized := InvalidReplicaReportAuthority (replica_id (ar_identity r)) in
  reject (is_some_and (pending_command_differs r) (ar_pending_configuration r)
          || (is_none (ar_pending_operation_id r) && is_some (ar_pending_configuration r)))
    unauthorized ;?
  validate_secondary_removal_report r ;?
  reject (is_some (ar_scale_up_intent r) && is_some (ar_secondary_removal_evidence r))
    (InvalidScaleUp "report cannot combine scale-up and removal evidence") ;?
  reject (builds_malformed ∅ (ar_builds r)) unauthorized ;?
  when_some (ar_scale_up_intent r) (check_reported_scale_up r) ;?
  reject (is_some (ar_previous_configuration r) && is_none (ar_current_configuration r))
    unauthorized ;?
  reject (is_some_and (fun current => cd_epoch current != ar_epoch r) (ar_current_configuration r))
    unauthorized ;?
  reject ((ar_role r == Primary) && is_none (ar_current_configuration r)) unauthorized ;?
  reject ((ar_write_status r == Granted) && (ar_role r != Primary)) unauthorized ;?
  reject (is_some_and (fun verified => (verified <? 0) || (ar_current_progress r <? verified)
                                       || is_none (ar_current_configuration r))
            (ar_verified_replication_lsn r)) unauthorized ;?
  when_some (ar_prepared_switchover r) (fun handoff =>
    validate_switchover_handoff handoff ;?
    reject (sh_source handoff != ar_identity r) InvalidSwitchoverHandoff) ;?
  match ar_previous_configuration r, ar_current_configuration r with
  | Some previous, Some current =>
      reject ((data_loss_number (cd_epoch previous) != data_loss_number (cd_epoch current))
              || (configuration_number (cd_epoch current)
                    <=? configuration_number (cd_epoch previous))
              || ((logical_ids previous != logical_ids current)
                  && is_none (ar_secondary_removal_evidence r) && is_none (ar_scale_up_intent r)))
        unauthorized
  | _, _ => Ok tt
  end.

Definition validate_report_sequence (s : ObservationSnapshot) (key : ReplicaObservationKey)
    (session : ProcessSessionId) (sequence : Z) : validation :=
  when_some (os_previous_report_watermarks s !! key) (fun previous =>
    reject ((rw_process_session_id previous == session) && (sequence <=? rw_report_sequence previous))
      (StaleReportSequence (rok_replica_id key) sequence (rw_report_sequence previous))).

(** ** Reports against the accepted authority *)

(** A completed certificate remains evidence of local history after accepted authority
    advances, but never authorizes work or access at that authority. *)
Definition stale_completed (s : ObservationSnapshot) (r : AgentReport) : bool :=
  is_some_and (fun receipt =>
    let intent := removal_of (srr_evidence receipt) in
    is_some_and (fun topology => epoch_ltb (ar_epoch r) (cd_epoch topology)
                                 && has_member topology (ar_identity r)) (st_topology (os_status s))
    && (ar_write_status r != Granted)
    && is_none (ar_previous_configuration r)
    && is_none (ar_prepared_secondary_removal r)
    && (ar_current_configuration r == Some (sdi_current_configuration intent))
    && (ar_secondary_removal_evidence r == Some (srr_evidence receipt))
    && is_none_or (fun accepted =>
         (sdc_evidence accepted == srr_evidence receipt)
         && (sdc_current_only_write_quorum accepted == srr_current_only_write_quorum receipt))
         (ar_accepted_secondary_removal r))
    (st_last_secondary_removal (os_status s)).

(** The removal whose reduced topology is accepted. *)
Definition committed_removal (st : AcceptedStatus) : option SecondaryScaleDownCleanup :=
  or_else (st_secondary_scale_down_cleanup st)
    (srr_committed <$>
       opt_filter (fun receipt =>
         is_some_and (fun topology =>
           topology == sdi_current_configuration (removal_of (srr_evidence receipt)))
           (st_topology st)) (st_last_secondary_removal st)).

(** The removal under way, or the committed one. *)
Definition frozen_removal (st : AcceptedStatus) : option SecondaryScaleDownIntent :=
  or_else (st_transition st ≫= ti_secondary_scale_down)
    ((fun c => removal_of (sdc_evidence c)) <$> committed_removal st).

(** The evidence under which the frozen removal was admitted. *)
Definition frozen_removal_evidence (st : AcceptedStatus) : option SecondaryRemovalEvidence :=
  or_else (st_transition st ≫= ti_secondary_removal_evidence)
    (sdc_evidence <$> opt_filter (fun c => frozen_removal st == Some (removal_of (sdc_evidence c)))
                        (committed_removal st)).

(** A removal the report names: frozen, installed before, or superseded. *)
Definition check_named_removal (s : ObservationSnapshot) (r : AgentReport)
    (intent : SecondaryScaleDownIntent) : validation :=
  let removal := frozen_removal (os_status s) in
  let current := sdi_current_configuration intent in
  let historical :=
    is_some_and (fun e =>
      (removal_of e == intent)
      && is_none (ar_previous_configuration r)
      && is_none_or (fun p => removal == Some (srp_intent p)) (ar_prepared_secondary_removal r)
      && (ar_current_configuration r == Some current)
      && is_some_and (fun topology =>
           (topology == current)
           || is_some_and (fun active => sdi_previous_configuration active == current) removal)
           (st_topology (os_status s)))
      (ar_secondary_removal_evidence r) in
  let known_history :=
    stale_completed s r
    && is_some_and (fun receipt => removal_of (srr_evidence receipt) == intent)
         (st_last_secondary_removal (os_status s)) in
  reject ((removal != Some intent) && negb historical && negb known_history)
    (invalid_removal "report is not authorized by the frozen removal").

Definition named_removals (r : AgentReport) : list SecondaryScaleDownIntent :=
  option_list (srp_intent <$> ar_prepared_secondary_removal r)
  ++ option_list (removal_of <$> ar_secondary_removal_evidence r)
  ++ option_list (rrr_intent <$> ar_retired_replica r).

(** The reported evidence keeps what the frozen removal was admitted with. *)
Definition check_frozen_evidence (st : AcceptedStatus) (r : AgentReport)
    (e : SecondaryRemovalEvidence) : validation :=
  if frozen_removal st == Some (removal_of e) then
    let lost := invalid_removal "report does not retain the frozen admission evidence" in
    let? frozen := ok_or (frozen_removal_evidence st) lost in
    let reduced_matches :=
      (is_some (ar_previous_configuration r) && (sre_reduced_write_quorum e == []))
      || (sre_reduced_write_quorum e == sre_reduced_write_quorum frozen) in
    reject ((sre_preparation e != sre_preparation frozen)
            || (sre_previous_read_quorum e != sre_previous_read_quorum frozen)
            || negb reduced_matches) lost
  else Ok tt.

Definition validate_reported_removal (s : ObservationSnapshot) (r : AgentReport) : validation :=
  let st := os_status s in
  for_each (check_named_removal s r) (named_removals r) ;?
  when_some (frozen_removal st) (fun intent =>
    reject (is_some_and (fun c => removal_of (sdc_evidence c) == intent)
              (ar_accepted_secondary_removal r)
            && is_none_or (fun c => removal_of (sdc_evidence c) != intent) (committed_removal st))
      (invalid_removal "local acceptance cannot precede committed cluster topology")) ;?
  match committed_removal st, ar_accepted_secondary_removal r with
  | Some committed, Some reported =>
      reject ((removal_of (sdc_evidence reported) == removal_of (sdc_evidence committed))
              && ((sdc_evidence reported != sdc_evidence committed)
                  || (sdc_current_only_write_quorum reported
                        != sdc_current_only_write_quorum committed)))
        (invalid_removal "local acceptance must retain the exact committed quorum evidence")
  | _, _ => Ok tt
  end ;?
  when_some (frozen_removal st) (fun intent =>
    reject ((ar_current_configuration r == Some (sdi_current_configuration intent))
            && (is_none (ar_secondary_removal_evidence r)
                || (is_some_and (fun t => ti_secondary_scale_down t == Some intent) (st_transition st)
                    && (ar_write_status r == Granted))))
      (invalid_removal "reduced authority requires evidence and pre-commit write closure")) ;?
  when_some (ar_secondary_removal_evidence r) (check_frozen_evidence st r) ;?
  when_some (frozen_removal_evidence st) (fun frozen =>
    reject (is_some_and (fun prepared => prepared != sre_preparation frozen)
              (ar_prepared_secondary_removal r))
      (invalid_removal "preparation differs from frozen admission boundary")).

(** The report of a replica that is being provisioned claims no authority. *)
Definition check_provisioning_report (r : AgentReport) : validation :=
  reject (negb ((ar_role r == RoleNone) || (ar_role r == IdleSecondary))
          || (ar_write_status r == Granted)
          || (ar_epoch r != epoch_default)
          || is_some (ar_previous_configuration r)
          || is_some (ar_current_configuration r))
    (ProvisioningClaimsAuthority (replica_id (ar_identity r))).

Definition check_bootstrap_report (t : TransitionIntent) (r : AgentReport) : validation :=
  let id := replica_id (ar_identity r) in
  reject (is_some (ar_previous_configuration r)) (BootstrapReportHasPreviousConfiguration id) ;?
  reject (ar_write_status r == Granted) (BootstrapWriteGranted id) ;?
  let? expected := expect (find_member (ar_identity r) (ti_current_configuration t)) in
  reject ((cm_role expected != Primary) && (ar_role r == Primary)) (BootstrapRoleConflict id).

(** Under a planned switchover newer authority is write-closed and certified. *)
Definition check_switchover_epoch (accepted : option ConfigurationDescriptor) (t : TransitionIntent)
    (r : AgentReport) : validation :=
  if ti_kind t == PlannedSwitchover then
    let? accepted := expect accepted in
    reject (epoch_ltb (cd_epoch accepted) (ar_epoch r)
            && ((ar_write_status r == Granted)
                || is_none_or (fun i => is_none (psi_handoff i)) (ti_switchover t)))
      InvalidSwitchoverEvidence
  else Ok tt.

Definition check_switchover_configuration (accepted current : option ConfigurationDescriptor)
    (i : PlannedSwitchoverIntent) (r : AgentReport) (reported : ConfigurationDescriptor) : validation :=
  reject (negb (existsb (fun c => c == reported)
            (option_list accepted ++ [psi_requested_configuration i] ++ option_list current)))
    InvalidSwitchoverEvidence ;?
  reject ((reported == psi_requested_configuration i)
          && is_some_and (fun previous => Some previous != accepted) (ar_previous_configuration r))
    (ReportedPreviousConfigurationMismatch (replica_id (ar_identity r))).

(** A report of the transition's configuration names the configuration before it. *)
Definition check_reported_previous (accepted : option ConfigurationDescriptor) (t : TransitionIntent)
    (r : AgentReport) : validation :=
  if (ti_kind t != Bootstrap)
     && (ar_epoch r == cd_epoch (ti_current_configuration t))
     && is_some_and (fun c => cd_configuration_id c == cd_configuration_id (ti_current_configuration t))
          (ar_current_configuration r)
  then
    when_some (ar_previous_configuration r) (fun reported =>
      let? previous := expect (or_else
        (psi_requested_configuration <$>
           opt_filter (fun i => psi_resolution i == CompensatingOldPrimary) (ti_switchover t))
        accepted) in
      reject (reported != previous)
        (ReportedPreviousConfigurationMismatch (replica_id (ar_identity r))))
  else Ok tt.

(** An authorized configuration at the report's epoch is the one it names. *)
Definition conflicting_configuration (r : AgentReport) (c : ConfigurationDescriptor) : bool :=
  (ar_epoch r == cd_epoch c)
  && is_some_and (fun observed => cd_configuration_id observed != cd_configuration_id c)
       (ar_current_configuration r).
Definition matching_configuration (r : AgentReport) (c : ConfigurationDescriptor) : bool :=
  (ar_epoch r == cd_epoch c)
  && is_some_and (fun observed => cd_configuration_id observed == cd_configuration_id c)
       (ar_current_configuration r).

(** The report of an exact member: not newer than the highest authority, not older than
    the accepted one, and at an authorized configuration. *)
Definition check_member_report (st : AcceptedStatus) (accepted current : option ConfigurationDescriptor)
    (accepted_exact : bool) (r : AgentReport) : validation :=
  let id := replica_id (ar_identity r) in
  let? highest := expect (or_else current accepted) in
  reject (epoch_ltb (cd_epoch highest) (ar_epoch r))
    (UnauthorizedReplicaEpoch id (ar_epoch r) (cd_epoch highest)) ;?
  match opt_filter (fun c => accepted_exact && epoch_ltb (ar_epoch r) (cd_epoch c)) accepted with
  | Some accepted =>
      let? m := expect (find_member (ar_identity r) accepted) in
      if is_none (st_transition st) && (cm_role m != Primary) then Ok tt
      else Err (StaleReplicaEpoch id (ar_epoch r) (cd_epoch accepted))
  | None =>
      let requested := psi_requested_configuration <$> (st_transition st ≫= ti_switchover) in
      for_each (fun c => reject (conflicting_configuration r c)
                           (ConflictingReplicaConfiguration id (ar_epoch r)))
        (option_list accepted ++ option_list requested ++ option_list current) ;?
      reject ((ar_write_status r == Granted)
              && negb (existsb (matching_configuration r) (option_list current ++ option_list accepted)))
        (ConflictingReplicaConfiguration id (ar_epoch r))
  end.

Definition provisioned (s : ObservationSnapshot) (r : AgentReport) : bool :=
  is_none (st_transition (os_status s))
  && is_some_and (fun p => pi_target_identity p (os_resource_uid s) == ar_identity r)
       (st_provisioning (os_status s)).

Definition validate_report_authority (s : ObservationSnapshot) (r : AgentReport) : validation :=
  validate_reported_removal s r ;?
  if provisioned s r then check_provisioning_report r
  else
    let st := os_status s in
    let i := ar_identity r in
    let accepted := st_topology st in
    let current := ti_current_configuration <$> st_transition st in
    let exact := is_some_and (fun c => has_member c i) in
    let instance := is_some_and (fun c => has_instance c (replica_id i) (instance_id i)) in
    let known := exact accepted || exact current in
    reject (negb known && (instance accepted || instance current))
      (ConflictingReplicaIdentity (replica_id i)) ;?
    when_some (opt_filter (fun t => (ti_kind t == Bootstrap) && exact current) (st_transition st))
      (fun t => check_bootstrap_report t r) ;?
    when_some (st_transition st) (fun t => check_switchover_epoch accepted t r) ;?
    match st_transition st ≫= ti_switchover, ar_current_configuration r with
    | Some intent, Some reported =>
        if known then check_switchover_configuration accepted current intent r reported else Ok tt
    | _, _ => Ok tt
    end ;?
    when_some (st_transition st) (fun t => check_reported_previous accepted t r) ;?
    if known then check_member_report st accepted current (exact accepted) r
    else
      reject (is_some_and (fun t => ti_kind t == Bootstrap) (st_transition st))
        BootstrapHasUnrelatedAuthority ;?
      reject ((ar_role r == Primary) || (ar_write_status r == Granted))
        (UnrelatedReplicaClaimsAuthority (replica_id i)).

(** ** Accepted status *)

Definition validate_replacement_cleanup (c : ReplacementCleanup) : validation :=
  match rci_pod (rc_resources c), rci_pvc (rc_resources c) with
  | CleanupPresent _ pod, CleanupPresent _ pvc =>
      reject ((replica_id (rc_target c) <=? 0)
              || is_empty (rc_resource_uid c) || is_empty pod || is_empty pvc
              || (pod != instance_id (rc_target c))
              || (derive_agent_generation
                    (derive_initialization_id (rc_resource_uid c) (replica_id (rc_target c)) pod pvc)
                    != agent_generation (rc_target c))
              || existsb (fun r => is_empty (cleanup_name r) || present_and is_empty r)
                   [rci_pod (rc_resources c); rci_pvc (rc_resources c); rci_endpoint (rc_resources c)]
              || (cleanup_name (rci_endpoint (rc_resources c))
                    != derive_replica_endpoint_name (rc_resource_uid c) (rc_target c)))
        InvalidReplacementCleanup
  | _, _ => Err InvalidReplacementCleanup
  end.

(** The ordinal that the next scale-up of the accepted topology restores. *)
Definition expected_allocation_target (st : AcceptedStatus) : option ReplicaId :=
  topology ← st_topology st;
  policy ← st_effective_policy st;
  size ← u32_checked_add (replica_set_size policy) 1;
  first_missing (logical_ids topology) size.

Definition check_allocation (st : AcceptedStatus) (a : ScaleUpAllocation) : validation :=
  validate_scale_up_allocation a ;?
  reject (negb (st_initialized st)
          || is_none_or (fun c => cd_configuration_id c != sua_accepted_configuration_id a)
               (st_topology st)
          || is_none_or (fun p => (replica_set_size p == u32_max)
                                  || (sua_desired_replicas a <=? replica_set_size p))
               (st_effective_policy st)
          || (expected_allocation_target st != Some (sua_target_replica_id a))
          || is_some (st_provisioning st)
          || is_some_and (fun t =>
               (ti_kind t != Failover) || is_some (ti_scale_up t) || is_some (ti_scale_up_failover t)
               || (ti_previous_configuration_id t != Some (sua_accepted_configuration_id a)))
               (st_transition st)
          || is_some (st_scale_up_cleanup st)
          || is_some (st_secondary_scale_down_cleanup st)
          || is_some (st_pending_replacement_cleanup st)
          || is_some (st_last_replacement st))
    (InvalidScaleUp "allocation must bind compatible accepted or failover authority").

Definition check_admission_started (st : AcceptedStatus) (operation : OperationId) : validation :=
  reject (is_none_or (fun i => sui_operation_id i != operation)
            (st_transition st ≫= active_scale_up))
    (InvalidScaleUp "scale-up admission-start fence differs from active authority").

(** Only the target is replaced, and the transition that replaces it bears the
    provenance of the cleanup. *)
Definition replaces_other (c : ReplacementCleanup) (topology : ConfigurationDescriptor)
    (t : TransitionIntent) : bool :=
  negb ((ti_kind t == Replacement) || (ti_kind t == Failover))
  || existsb (fun old => cm_identity old != rc_target c)
       (List.filter (fun old => negb (has_member (ti_current_configuration t) (cm_identity old)))
          (cd_members topology))
  || (negb (has_member (ti_current_configuration t) (rc_target c))
      && (ti_transition_id t
            != rc_transition_id c (ti_kind t) (cd_configuration_id (ti_current_configuration t)))).

Definition provisions_other (c : ReplacementCleanup) (p : ProvisioningIntent) : bool :=
  (pi_replacement p != Some (rc_target c))
  || (pi_pod_uid p == instance_id (rc_target c))
  || present_and (fun uid => uid == pi_pvc_uid p) (rci_pvc (rc_resources c))
  || (pi_operation_id p != rc_provisioning_operation_id c (pi_pod_uid p) (pi_pvc_uid p)).

Definition check_pending_replacement (st : AcceptedStatus) (c : ReplacementCleanup) : validation :=
  validate_replacement_cleanup c ;?
  let? topology := ok_or (st_topology st) InvalidReplacementCleanup in
  reject (is_some (st_last_replacement st)
          || is_some (st_secondary_scale_down_cleanup st)
          || is_some (st_scale_up_cleanup st)
          || negb (has_member topology (rc_target c))
          || is_some_and (provisions_other c) (st_provisioning st)
          || is_some_and (replaces_other c topology) (st_transition st))
    InvalidReplacementCleanup.

Definition check_last_replacement (st : AcceptedStatus) (c : ReplacementCleanup) : validation :=
  reject (negb (is_ok (validate_replacement_cleanup c))
          || is_some (st_provisioning st)
          || is_some (st_transition st)
          || is_some (st_secondary_scale_down_cleanup st)
          || is_some (st_scale_up_cleanup st)
          || is_none_or (fun topology =>
               negb (existsb (fun m => (member_id m == replica_id (rc_target c))
                                       && (instance_id (cm_identity m) != instance_id (rc_target c)))
                       (cd_members topology))) (st_topology st))
    InvalidReplacementCleanup.

(** Two cleanups meet in a resource when its names or its uids agree. *)
Definition same_resource (a b : CleanupResourceIdentity) : bool :=
  (cleanup_name a == cleanup_name b) || present_and (fun x => present_and (fun y => x == y) b) a.

Definition check_protected_resources (c : ReplacementCleanup) (receipt : SecondaryRemovalReceipt)
    : validation :=
  let protected := sdi_cleanup (removal_of (srr_evidence receipt)) in
  reject (same_resource (rci_pod (rc_resources c)) (rci_pod protected)
          || same_resource (rci_pvc (rc_resources c)) (rci_pvc protected)
          || same_resource (rci_endpoint (rc_resources c)) (rci_endpoint protected))
    InvalidReplacementCleanup.

(** The accepted topology is at most as old as [c], and at its epoch it is [c]. *)
Definition supersedes (st : AcceptedStatus) (c : ConfigurationDescriptor) (policy : EffectivePolicy)
    : bool :=
  is_some_and (fun topology =>
    negb (epoch_ltb (cd_epoch topology) (cd_epoch c))
    && negb ((cd_epoch topology == cd_epoch c)
             && ((topology != c) || (st_effective_policy st != Some policy)))) (st_topology st).

Definition check_last_removal (st : AcceptedStatus) (receipt : SecondaryRemovalReceipt) : validation :=
  validate_secondary_scale_down_cleanup (srr_committed receipt) ;?
  let intent := removal_of (srr_evidence receipt) in
  reject (is_some (st_secondary_scale_down_cleanup st)
          || negb (supersedes st (sdi_current_configuration intent) (sdi_current_policy intent)))
    (InvalidSecondaryScaleDown
       "completed removal must bind accepted or superseded authority without cleanup").

(** The accepted topology still has the members a scale-up started from. *)
Definition keeps_members (st : AcceptedStatus) (previous : ConfigurationDescriptor) : bool :=
  is_some_and (fun topology =>
    epoch_leb (cd_epoch previous) (cd_epoch topology)
    && (exact_identities topology == exact_identities previous)) (st_topology st).

Definition check_scale_up_cleanup (st : AcceptedStatus) (c : ScaleUpCleanup) : validation :=
  validate_scale_up_cleanup c ;?
  let? scale_up := ok_or (pi_scale_up (suc_provisioning c))
                     (InvalidScaleUp "cleanup requires scale-up provisioning") in
  let allows_failover :=
    is_none_or (fun t =>
      (ti_kind t == Failover) && is_none (ti_scale_up t) && is_none (ti_scale_up_failover t)
      && negb (existsb (fun m => (member_id m == replica_id (suc_target c))
                                 || (cm_identity m == suc_target c))
                 (cd_members (ti_current_configuration t)))) (st_transition st) in
  reject (is_some (st_provisioning st)
          || negb allows_failover
          || is_some (st_secondary_scale_down_cleanup st)
          || is_some (st_pending_replacement_cleanup st)
          || is_some (st_last_replacement st)
          || negb (keeps_members st (sup_previous_configuration scale_up))
          || (st_effective_policy st != Some (sup_previous_policy scale_up)))
    (InvalidScaleUp "cleanup must bind uncommitted accepted authority").

Definition check_last_scale_up (st : AcceptedStatus) (r : ScaleUpReceipt) : validation :=
  validate_scale_up_receipt r ;?
  reject (negb (supersedes st (sur_accepted_configuration r) (sui_current_policy (sur_intent r))))
    (InvalidScaleUp "completed scale-up must bind accepted or superseded authority").

Definition check_removal_cleanup (st : AcceptedStatus) (c : SecondaryScaleDownCleanup) : validation :=
  validate_secondary_scale_down_cleanup c ;?
  let intent := removal_of (sdc_evidence c) in
  reject (is_some (st_transition st)
          || is_some (st_provisioning st)
          || is_some (st_primary_failure st)
          || is_some (st_scale_up_cleanup st)
          || (st_topology st != Some (sdi_current_configuration intent))
          || (st_effective_policy st != Some (sdi_current_policy intent)))
    (InvalidSecondaryScaleDown "cleanup must exclusively bind accepted reduced authority").

(** The receipts and obligations a status carries. *)
Definition validate_obligations (st : AcceptedStatus) : validation :=
  when_some (st_scale_up_allocation st) (check_allocation st) ;?
  when_some (st_scale_up_admission_started st) (check_admission_started st) ;?
  when_some (st_pending_replacement_cleanup st) (check_pending_replacement st) ;?
  when_some (st_last_replacement st) (check_last_replacement st) ;?
  when_some (or_else (st_pending_replacement_cleanup st) (st_last_replacement st)) (fun c =>
    when_some (st_last_secondary_removal st) (check_protected_resources c)) ;?
  when_some (st_last_secondary_removal st) (check_last_removal st) ;?
  when_some (st_scale_up_cleanup st) (check_scale_up_cleanup st) ;?
  when_some (st_last_scale_up st) (check_last_scale_up st) ;?
  when_some (st_secondary_scale_down_cleanup st) (check_removal_cleanup st) ;?
  when_some (st_last_switchover st) validate_switchover_receipt.

(** Topology and policy exist exactly once initialized. *)
Definition validate_initialization (st : AcceptedStatus) : validation :=
  match st_initialized st, st_topology st with
  | true, None => Err InitializedWithoutTopology
  | false, Some _ => Err TopologyBeforeInitialization
  | _, _ => Ok tt
  end ;?
  match st_initialized st, st_effective_policy st with
  | true, None => Err InitializedWithoutPolicy
  | false, Some _ => reject (is_none (st_transition st)) PolicyBeforeInitialization
  | _, _ => Ok tt
  end ;?
  when_some (st_effective_policy st) validate_policy.

(** The provisioning a transition goes on with: the scale-up it carries, or one whose
    cleanup waits for an ordinary failover. *)
Definition retained_provenance (p : ProvisioningIntent) (i : ScaleUpIntent) : bool :=
  is_some_and (fun frozen =>
    (sup_resource_uid frozen == sui_resource_uid i)
    && (sup_spec_generation frozen == sui_spec_generation i)
    && (sup_desired_replicas frozen == sui_desired_replicas i)
    && (sup_previous_configuration frozen == sui_previous_configuration i)
    && (sup_previous_policy frozen == sui_previous_policy i)
    && (sup_current_policy frozen == sui_current_policy i)
    && (pi_target_identity p (sui_resource_uid i) == sui_target i)
    && (pi_scale_up_build_id p (sui_resource_uid i) == Some (sui_build_id i))) (pi_scale_up p).

Definition deferred_cleanup (p : ProvisioningIntent) (t : TransitionIntent) : bool :=
  is_some_and (fun frozen =>
    (ti_kind t == Failover) && is_none (ti_scale_up t) && is_none (ti_scale_up_failover t)
    && (ti_effective_policy t == sup_previous_policy frozen)
    && epoch_ltb (cd_epoch (sup_previous_configuration frozen)) (cd_epoch (ti_current_configuration t))
    && (exact_identities (ti_current_configuration t)
          == exact_identities (sup_previous_configuration frozen))
    && negb (has_member (ti_current_configuration t)
               (pi_target_identity p (sup_resource_uid frozen)))) (pi_scale_up p).

Definition validate_status_provisioning (st : AcceptedStatus) : validation :=
  reject (is_some_and (fun t => is_some (ti_scale_up t) || is_some (ti_scale_up_failover t))
            (st_transition st)
          && is_none (st_provisioning st))
    (InvalidScaleUp "active scale-up transition requires exact provisioning provenance") ;?
  match st_provisioning st, st_transition st with
  | Some p, Some t =>
      reject (negb (is_some_and (retained_provenance p) (active_scale_up t))
              && negb (deferred_cleanup p t)) ProvisioningAndTransition
  | _, _ => Ok tt
  end ;?
  reject (is_some (st_provisioning st) && (negb (st_initialized st) || is_none (st_topology st)))
    ProvisioningWithoutTopology ;?
  when_some (st_provisioning st) (fun p =>
    validate_scale_up_provisioning p ;?
    when_some (pi_scale_up p) (fun scale_up =>
      reject (negb (keeps_members st (sup_previous_configuration scale_up))
              || (st_effective_policy st != Some (sup_previous_policy scale_up))
              || is_some (st_scale_up_cleanup st))
        (InvalidScaleUp "provisioning differs from accepted authority"))).

(** The failures a status records are those of its topology. *)
Definition validate_failures (st : AcceptedStatus) : validation :=
  when_some (st_topology st) (fun c => validate_configuration c (st_effective_policy st)) ;?
  when_some (st_primary_failure st) (fun failure =>
    let? primary := ok_or (st_topology st ≫= named_primary) PrimaryFailureMismatch in
    reject (pfo_primary failure != cm_identity primary) PrimaryFailureMismatch) ;?
  when_some (st_quorum_loss st) (fun loss =>
    reject (is_none_or (fun c => cd_configuration_id c != qlo_configuration_id loss) (st_topology st))
      QuorumLossMismatch).

(** ** The transition of a status *)

Definition check_scale_up_transition (st : AcceptedStatus) (t : TransitionIntent) : validation :=
  let? i := ok_or (ti_scale_up t) (InvalidScaleUp "missing frozen scale-up intent") in
  validate_scale_up i ;?
  reject ((st_topology st != Some (sui_previous_configuration i))
          || (st_effective_policy st != Some (sui_previous_policy i))
          || (ti_effective_policy t != sui_current_policy i)
          || (ti_current_configuration t != sui_current_configuration i)
          || (ti_previous_configuration_id t
                != Some (cd_configuration_id (sui_previous_configuration i)))
          || (ti_spec_generation t != sui_spec_generation i)
          || (ti_transition_id t != sui_transition_id i ScaleUp (sui_current_configuration i))
          || (ti_build_id t != Some (sui_build_id i))
          || is_some (ti_scale_up_failover t)
          || is_some (ti_switchover t)
          || is_some (ti_secondary_scale_down t)
          || is_some (ti_secondary_removal_evidence t)
          || is_some (ti_repair t)
          || is_some (ti_election_lsn t)
          || (is_some (st_primary_failure st) && is_some (st_scale_up_admission_started st)))
    (InvalidScaleUp "transition differs from immutable intent").

Definition check_scale_down_transition (st : AcceptedStatus) (t : TransitionIntent) : validation :=
  let? i := ok_or (ti_secondary_scale_down t) (InvalidSecondaryScaleDown "missing frozen intent") in
  validate_secondary_scale_down i ;?
  reject ((st_topology st != Some (sdi_previous_configuration i))
          || (st_effective_policy st != Some (sdi_previous_policy i))
          || (ti_effective_policy t != sdi_current_policy i)
          || (ti_current_configuration t != sdi_current_configuration i)
          || (ti_previous_configuration_id t
                != Some (cd_configuration_id (sdi_previous_configuration i)))
          || (ti_spec_generation t != sdi_spec_generation i)
          || (ti_transition_id t
                != derive_transition_id (sdi_resource_uid i) (ti_kind t)
                     (cd_configuration_id (sdi_current_configuration i)))
          || is_some (ti_switchover t)
          || is_some (ti_build_id t)
          || is_some (ti_repair t)
          || is_some (ti_election_lsn t)
          || is_some (ti_scale_up t)
          || is_some (ti_scale_up_failover t)
          || is_some (st_primary_failure st))
    (InvalidSecondaryScaleDown "transition differs from immutable intent") ;?
  when_some (ti_secondary_removal_evidence t) (fun e =>
    validate_secondary_removal_evidence e false ;?
    reject (removal_of e != i) (InvalidSecondaryScaleDown "evidence differs from immutable intent")).

(** The configuration of a failover that carries a scale-up is the provisional one until
    the final election, and then the elected one. *)
Definition election_differs (e : ScaleUpFailoverEvidence) (t : TransitionIntent) : bool :=
  match ti_election_lsn t, sufe_final_election e with
  | None, None => ti_current_configuration t != sufe_provisional_configuration e
  | Some lsn, Some final =>
      (sfe_final_configuration final (sufe_provisional_configuration e)
         != Some (ti_current_configuration t))
      || (Some lsn != safe_lsn final)
  | _, _ => true
  end.

Definition check_carried_scale_up (st : AcceptedStatus) (t : TransitionIntent)
    (e : ScaleUpFailoverEvidence) : validation :=
  validate_scale_up_failover_transition e (ti_current_configuration t) (ti_effective_policy t) ;?
  let i := sufe_intent e in
  reject ((st_topology st != Some (sui_previous_configuration i))
          || (st_effective_policy st != Some (sui_previous_policy i))
          || (ti_previous_configuration_id t
                != Some (cd_configuration_id (sui_previous_configuration i)))
          || (ti_spec_generation t != sui_spec_generation i)
          || (ti_transition_id t != sui_transition_id i Failover (ti_current_configuration t))
          || (ti_build_id t != Some (sui_build_id i))
          || is_some (ti_scale_up t)
          || is_some (ti_switchover t)
          || is_some (ti_secondary_scale_down t)
          || is_some (ti_secondary_removal_evidence t)
          || is_some_and (fun lsn => lsn <? 0) (ti_election_lsn t)
          || election_differs e t)
    (InvalidScaleUp "failover transition differs from carried scale-up authority").

Definition check_bootstrap_transition (st : AcceptedStatus) (t : TransitionIntent) : validation :=
  reject (is_some (ti_switchover t)) UnexpectedSwitchoverIntent ;?
  reject (is_some (ti_previous_configuration_id t)) BootstrapHasPreviousConfiguration ;?
  reject (is_some (ti_build_id t)) InvalidReplacementMembership ;?
  reject (is_some (ti_repair t)) InvalidFailoverRepairTarget ;?
  reject (is_some (ti_election_lsn t)) InvalidFailoverElectionLsn ;?
  reject (is_some (st_topology st)) BootstrapHasTopology.

Definition check_previous_id (t : TransitionIntent) (topology : ConfigurationDescriptor) : validation :=
  reject (ti_previous_configuration_id t != Some (cd_configuration_id topology))
    (PreviousConfigurationMismatch (ti_previous_configuration_id t) (cd_configuration_id topology)).

(** Replacements and failovers of the accepted topology. *)
Definition check_successor_transition (st : AcceptedStatus) (t : TransitionIntent) : validation :=
  reject (is_some (ti_switchover t)) UnexpectedSwitchoverIntent ;?
  let? topology := ok_or (st_topology st) TransitionWithoutTopology in
  check_previous_id t topology ;?
  validate_configuration topology (Some (ti_effective_policy t)) ;?
  validate_transition_relationship (ti_kind t) (Some topology) (ti_current_configuration t)
    (ti_effective_policy t) ;?
  reject ((ti_kind t == Replacement) && is_none (ti_build_id t)) InvalidReplacementMembership ;?
  reject ((ti_kind t == Replacement) && is_some (ti_repair t)) InvalidFailoverRepairTarget ;?
  reject ((ti_kind t == Replacement) && is_some (ti_election_lsn t)) InvalidFailoverElectionLsn ;?
  if ti_kind t == Failover then
    reject (is_none_or (fun lsn => lsn <? 0) (ti_election_lsn t)) InvalidFailoverElectionLsn ;?
    reject ((exact_identities topology != exact_identities (ti_current_configuration t))
            && is_none (ti_build_id t)) FailoverReplacementWithoutBuild ;?
    when_some (ti_repair t) (fun repair =>
      reject (negb (existsb (fun m => (cm_identity m == rri_target repair) && (cm_role m != Primary))
                      (cd_members (ti_current_configuration t)))) InvalidFailoverRepairTarget)
  else Ok tt.

(** The resolution of a switchover decides which configuration is installed. *)
Definition check_switchover_resolution (t : TransitionIntent) (i : PlannedSwitchoverIntent)
    : validation :=
  let current := ti_current_configuration t in
  let compensates :=
    validate_transition_relationship (ti_kind t) (Some (psi_requested_configuration i)) current
      (ti_effective_policy t) in
  match psi_resolution i with
  | RequestedTarget | RestoringOldPrimary =>
      reject (current != psi_requested_configuration i) InvalidSwitchoverResolution
  | CompensatingOldPrimary =>
      compensates ;?
      reject ((cd_primary_id current != replica_id (psi_source i)) || is_none (psi_handoff i))
        InvalidSwitchoverResolution
  | ResolutionUnsafe =>
      if current != psi_requested_configuration i then
        compensates ;?
        reject (cd_primary_id current != replica_id (psi_source i)) InvalidSwitchoverResolution
      else Ok tt
  end.

Definition check_switchover_certificate (topology : ConfigurationDescriptor)
    (i : PlannedSwitchoverIntent) (h : SwitchoverHandoff) : validation :=
  validate_switchover_handoff h ;?
  reject ((sh_preparation_generation h != psi_preparation_generation i)
          || (sh_request_id h != psi_request_id i)
          || (sh_source h != psi_source i)
          || (sh_target h != psi_target i)
          || (sh_starting_configuration_id h != cd_configuration_id topology)
          || (sh_starting_epoch h != cd_epoch topology)) InvalidSwitchoverHandoff.

Definition check_switchover_transition (st : AcceptedStatus) (t : TransitionIntent) : validation :=
  let? topology := ok_or (st_topology st) TransitionWithoutTopology in
  check_previous_id t topology ;?
  reject (is_some (ti_election_lsn t) || is_some (ti_build_id t) || is_some (ti_repair t))
    InvalidSwitchoverEvidence ;?
  let? i := ok_or (ti_switchover t) MissingSwitchoverIntent in
  reject (is_empty (psi_request_id i) || (psi_preparation_generation i == 0)
          || (psi_preparation_generation i != ti_spec_generation t)) MissingSwitchoverIntent ;?
  reject (is_some_and (fun receipt =>
            (pso_request_id receipt == psi_request_id i)
            && negb ((pso_outcome receipt == OutcomeUnsafe)
                     && (psi_resolution i == ResolutionUnsafe))) (st_last_switchover st))
    InvalidSwitchoverReceipt ;?
  let? primary := expect (named_primary topology) in
  reject (psi_source i != cm_identity primary) InvalidSwitchoverSource ;?
  reject ((replica_id (psi_target i) == cd_primary_id topology)
          || negb (has_member topology (psi_target i))) InvalidSwitchoverTarget ;?
  validate_transition_relationship (ti_kind t) (Some topology) (psi_requested_configuration i)
    (ti_effective_policy t) ;?
  reject (cd_primary_id (psi_requested_configuration i) != replica_id (psi_target i))
    InvalidSwitchoverResolution ;?
  check_switchover_resolution t i ;?
  when_some (psi_handoff i) (check_switchover_certificate topology i).

(** Transitions that keep the policy. *)
Definition check_ordinary_transition (st : AcceptedStatus) (t : TransitionIntent) : validation :=
  reject (is_some (ti_secondary_scale_down t) || is_some (ti_secondary_removal_evidence t))
    (InvalidSecondaryScaleDown "unexpected removal authority") ;?
  reject (is_some (ti_scale_up t) || is_some (ti_scale_up_failover t))
    (InvalidScaleUp "unexpected scale-up authority") ;?
  reject (is_some_and (fun policy => policy != ti_effective_policy t) (st_effective_policy st)
          || ((ti_kind t != Bootstrap) && is_none (st_effective_policy st)))
    TransitionPolicyMismatch ;?
  validate_policy (ti_effective_policy t) ;?
  validate_configuration (ti_current_configuration t) (Some (ti_effective_policy t)) ;?
  match ti_kind t with
  | ScaleUp | SecondaryScaleDown => Panic
  | Bootstrap => check_bootstrap_transition st t
  | Replacement | Failover => check_successor_transition st t
  | PlannedSwitchover => check_switchover_transition st t
  end.

Definition check_transition (st : AcceptedStatus) (t : TransitionIntent) : validation :=
  match ti_kind t, ti_scale_up_failover t with
  | ScaleUp, _ => check_scale_up_transition st t
  | SecondaryScaleDown, _ => check_scale_down_transition st t
  | Failover, Some e => check_carried_scale_up st t e
  | _, _ => check_ordinary_transition st t
  end.

Definition validate_status (st : AcceptedStatus) : validation :=
  validate_obligations st ;?
  validate_initialization st ;?
  validate_status_provisioning st ;?
  validate_failures st ;?
  when_some (st_transition st) (check_transition st).

(** ** The snapshot *)

(** A cleanup belongs to this resource and its volume to no other member. *)
Definition cleanup_shares_volume (s : ObservationSnapshot) (c : ReplacementCleanup) : bool :=
  existsb (fun m =>
    is_some_and (fun k => present_and (fun uid => is_some_and (fun pvc => pvc == uid) (ko_pvc_uid k))
                            (rci_pvc (rc_resources c)))
      (o ← observation_for_identity s (cm_identity m); ro_kubernetes o))
    (List.filter (fun m => cm_identity m != rc_target c)
       (from_option cd_members [] (st_topology (os_status s))
        ++ from_option (fun t => cd_members (ti_current_configuration t)) []
             (st_transition (os_status s)))).

Definition replacement_cleanups (st : AcceptedStatus) : list ReplacementCleanup :=
  option_list (st_last_replacement st) ++ option_list (st_pending_replacement_cleanup st).

(** Every obligation names this resource. *)
Definition validate_resource_binding (s : ObservationSnapshot) : validation :=
  let st := os_status s in
  let foreign uid := uid != os_resource_uid s in
  reject (existsb (fun c => foreign (rc_resource_uid c)) (replacement_cleanups st))
    InvalidReplacementCleanup ;?
  for_each (fun c => reject (cleanup_shares_volume s c) InvalidReplacementCleanup)
    (replacement_cleanups st) ;?
  let removal := or_else (st_transition st ≫= ti_secondary_scale_down)
                   ((fun c => removal_of (sdc_evidence c)) <$> st_secondary_scale_down_cleanup st) in
  reject (is_some_and (fun i => foreign (sdi_resource_uid i)) removal)
    (InvalidSecondaryScaleDown "resource UID mismatch") ;?
  when_some (st_scale_up_admission_started st) (check_admission_started st) ;?
  reject (is_some_and (fun receipt => foreign (sdi_resource_uid (removal_of (srr_evidence receipt))))
            (st_last_secondary_removal st))
    (InvalidSecondaryScaleDown "completed removal resource UID mismatch") ;?
  reject (is_some_and (fun a => foreign (sua_resource_uid a)) (st_scale_up_allocation st)
          || is_some_and (fun c => is_none_or (fun u => foreign (sup_resource_uid u))
                                     (pi_scale_up (suc_provisioning c))) (st_scale_up_cleanup st)
          || is_some_and (fun r => foreign (sui_resource_uid (sur_intent r))) (st_last_scale_up st))
    (InvalidScaleUp "resource UID mismatch") ;?
  reject (is_some_and (fun i => foreign (sui_resource_uid i)) (st_transition st ≫= active_scale_up))
    (InvalidScaleUp "active transition resource UID mismatch").

Definition validate_snapshot_provisioning (s : ObservationSnapshot) (p : ProvisioningIntent)
    : validation :=
  let st := os_status s in
  validate_scale_up_provisioning p ;?
  let target := pi_target_identity p (os_resource_uid s) in
  reject (is_some_and (fun c => has_instance c (replica_id target) (instance_id target))
            (st_topology st)) ProvisioningReusesAcceptedIncarnation ;?
  let? topology := ok_or (st_topology st) ProvisioningWithoutTopology in
  match pp_kind (pi_purpose p) with
  | PkReplacement =>
      let? replaces := ok_or (pi_replacement p) InvalidProvisioningReplacement in
      reject ((replica_id replaces == cd_primary_id topology) || negb (has_member topology replaces))
        InvalidProvisioningReplacement
  | PkScaleUp =>
      let? scale_up := ok_or (pi_scale_up p) (InvalidScaleUp "missing scale-up provisioning payload") in
      reject ((sup_resource_uid scale_up != os_resource_uid s)
              || negb (epoch_leb (cd_epoch (sup_previous_configuration scale_up)) (cd_epoch topology)
                       && (exact_identities topology
                             == exact_identities (sup_previous_configuration scale_up)))
              || (st_effective_policy st != Some (sup_previous_policy scale_up)))
        (InvalidScaleUp "provisioning differs from accepted authority")
  end.

Definition observation_key_string (k : ReplicaObservationKey) : string :=
  pretty (rok_replica_id k) +:+ "@" +:+ rok_instance_id k.

(** An agent whose store is not initialized, on exactly observed resources. *)
Definition validate_uninitialized (s : ObservationSnapshot) (key : ReplicaObservationKey)
    (o : ReplicaObservation) (u : UninitializedAgentObservation) : validation :=
  let st := os_status s in
  let instance c := has_instance c (rok_replica_id key) (rok_instance_id key) in
  reject ((ua_replica_id u != rok_replica_id key) || (ua_pod_uid u != rok_instance_id key))
    (ReplicaObservationKeyMismatch (observation_key_string key)
       (pretty (ua_replica_id u) +:+ "@" +:+ ua_pod_uid u)) ;?
  reject (ua_resource_uid u != os_resource_uid s) (ReplicaResourceMismatch (rok_replica_id key)) ;?
  validate_report_sequence s key (ua_process_session_id u) (ua_report_sequence u) ;?
  reject (negb (is_some_and (fun k => (ko_replica_id k == rok_replica_id key)
                                      && (ko_pod_uid k == Some (ua_pod_uid u))
                                      && (ko_pvc_uid k == Some (ua_pvc_uid u))) (ro_kubernetes o)))
    UninitializedScaffoldingMismatch ;?
  reject (is_some_and instance (st_topology st)
          || is_some_and (fun t => (ti_kind t != Bootstrap) && instance (ti_current_configuration t))
               (st_transition st)) (EstablishedStoreMissing (rok_replica_id key)) ;?
  reject (is_some_and (fun p => (pi_replica_id p == rok_replica_id key)
                                && (pi_instance_id p == rok_instance_id key)
                                && ((pi_pod_uid p != ua_pod_uid u) || (pi_pvc_uid p != ua_pvc_uid u)))
            (st_provisioning st)) UninitializedProvisioningMismatch.

Definition validate_report (s : ObservationSnapshot) (key : ReplicaObservationKey) (r : AgentReport)
    : validation :=
  let st := os_status s in
  let i := ar_identity r in
  reject ((replica_id i != rok_replica_id key) || (instance_id i != rok_instance_id key))
    (ReplicaObservationKeyMismatch (observation_key_string key)
       (pretty (replica_id i) +:+ "@" +:+ instance_id i)) ;?
  reject (ar_resource_uid r != os_resource_uid s) (ReplicaResourceMismatch (rok_replica_id key)) ;?
  validate_report_sequence s key (ar_process_session_id r) (ar_report_sequence r) ;?
  when_some (ar_previous_configuration r) (fun c => validate_configuration c None) ;?
  when_some (ar_current_configuration r) (fun c => validate_configuration c None) ;?
  when_some (ar_scale_up_intent r) (fun reported =>
    reject (((st_transition st ≫= active_scale_up) != Some reported)
            && ((sur_intent <$> st_last_scale_up st) != Some reported))
      (InvalidScaleUp "reported scale-up attempt differs from persisted authority")) ;?
  validate_report_internal r ;?
  validate_report_authority s r.

Definition validate_observation (s : ObservationSnapshot)
    (entry : ReplicaObservationKey * ReplicaObservation) : validation :=
  let '(key, o) := entry in
  reject (is_some_and (fun k => (ko_replica_id k != rok_replica_id key)
                                || is_some_and (fun uid => uid != rok_instance_id key) (ko_pod_uid k))
            (ro_kubernetes o)) KubernetesObservationKeyMismatch ;?
  match ro_agent o with
  | AgentUninitialized u => validate_uninitialized s key o u
  | AgentReported r => validate_report s key r
  | AgentAbsent | AgentUnreachable _ | AgentInvalid _ _ => Ok tt
  end.

(** The reports of a primary, by the epoch and the id of its configuration. *)
Definition primary_claims (s : ObservationSnapshot) : list ((Epoch * ConfigurationId) * ReplicaIdentity) :=
  omap (fun x =>
    r ← agent_report (ro_agent (snd x));
    current ← (if ar_role r == Primary then ar_current_configuration r else None);
    Some ((ar_epoch r, cd_configuration_id current), ar_identity r)) (replicas_in_order s).

Definition claims_for (key : Epoch * ConfigurationId)
    (claims : list ((Epoch * ConfigurationId) * ReplicaIdentity)) : list ReplicaIdentity :=
  map snd (List.filter (fun c => fst c == key) claims).

(** The least key claimed twice, in the order of the [BTreeMap]. *)
Definition claim_leb (a b : Epoch * ConfigurationId) : bool :=
  epoch_ltb (fst a) (fst b)
  || ((fst a == fst b) && match String.compare (snd a) (snd b) with Gt => false | _ => true end).
Definition conflicting_claim (claims : list ((Epoch * ConfigurationId) * ReplicaIdentity))
    : option (Epoch * ConfigurationId) :=
  fold_left (fun least key =>
    match least with
    | Some l => if claim_leb l key then least else Some key
    | None => Some key
    end)
    (List.filter (fun key => (1 <? length (claims_for key claims))%nat) (map fst claims)) None.

Definition check_primary_claims (s : ObservationSnapshot) : validation :=
  match conflicting_claim (primary_claims s) with
  | Some key => Err (ConflictingPrimaryClaims (map replica_id (claims_for key (primary_claims s))))
  | None => Ok tt
  end.

Definition validate_snapshot (s : ObservationSnapshot) : validation :=
  let st := os_status s in
  reject ((ds_replicas (os_desired s) == 0) && is_none (st_secondary_scale_down_cleanup st)
          && negb (is_some_and (fun t => ti_kind t == SecondaryScaleDown) (st_transition st)))
    DesiredReplicasZero ;?
  validate_status st ;?
  validate_resource_binding s ;?
  when_some (st_provisioning st) (validate_snapshot_provisioning s) ;?
  for_each (validate_observation s) (replicas_in_order s) ;?
  check_primary_claims s.

End snapshot.
