(* ===== verification/StatusFacts.v ===== *)
(** * What a validated status guarantees ([kuberic-runtime/src/protocol/validation.rs])

    [validate_status] accepts a status whose topology is a valid configuration and whose
    transition, if there is one, leads to a valid configuration of a newer epoch.  These
    are the facts the evaluator relies on once a snapshot is admitted. *)

From S2P Require Import Prelude Digest Types Intents Validation Quorums Commands Observations.
From S2P Require Import ScaleDown ScaleUp SnapshotValidation.
From stdpp Require Import base gmap strings list pretty.
From Stdlib Require Import ZArith Lia.
Local Open Scope Z_scope.

(** ** The configurations a status names *)

Definition transition_configurations (t : TransitionIntent) : list ConfigurationDescriptor :=
  [ti_current_configuration t]
  ++ (psi_requested_configuration <$> option_list (ti_switchover t))
  ++ (i ← option_list (ti_scale_up t);
      [sui_previous_configuration i; sui_current_configuration i])
  ++ (e ← option_list (ti_scale_up_failover t);
      [sui_previous_configuration (sufe_intent e); sui_current_configuration (sufe_intent e);
       sufe_provisional_configuration e])
  ++ (i ← option_list (ti_secondary_scale_down t);
      [sdi_previous_configuration i; sdi_current_configuration i]).

Definition status_configurations (st : AcceptedStatus) : list ConfigurationDescriptor :=
  option_list (st_topology st)
  ++ (t ← option_list (st_transition st); transition_configurations t)
  ++ (c ← option_list (st_secondary_scale_down_cleanup st);
      let i := removal_of (sdc_evidence c) in
      [sdi_previous_configuration i; sdi_current_configuration i]).

(** Each of them has fewer than 2^32 members, as its count is taken in a [u32]. *)
Definition countable_status (st : AcceptedStatus) : Prop :=
  Forall countable_members (status_configurations st).

Lemma countable_check st :
  forallb (fun c => Z.of_nat (length (cd_members c)) <? 2 ^ 32) (status_configurations st) = true ->
  countable_status st.
Proof.
  intros Hall. apply Forall_forall. intros c Hc%list_elem_of_In.
  rewrite forallb_forall in Hall. by apply Z.ltb_lt, Hall.
Qed.

(** [c] has a newer configuration number than [old], and the same data-loss number. *)
Definition newer_epoch (old c : ConfigurationDescriptor) : Prop :=
  data_loss_number (cd_epoch c) = data_loss_number (cd_epoch old) /\
  configuration_number (cd_epoch old) < configuration_number (cd_epoch c).

Definition supersedes_topology (st : AcceptedStatus) (c : ConfigurationDescriptor) : Prop :=
  forall old, st_topology st = Some old -> newer_epoch old c.

#[export] Instance newer_epoch_trans : Transitive newer_epoch.
Proof. unfold newer_epoch. intros a b c [? ?] [? ?]. split; [congruence|lia]. Qed.

Lemma when_some_ok {E A} (o : option A) (f : A -> res E unit) a :
  when_some o f = Ok tt -> o = Some a -> f a = Ok tt.
Proof. by intros Hok ->. Qed.

Lemma countable_named st c :
  countable_status st -> c ∈ status_configurations st -> countable_members c.
Proof. unfold countable_status. rewrite Forall_forall. auto. Qed.

Section facts.
Context `{Sha256}.
Variable st : AcceptedStatus.
Hypothesis Hvalid : validate_status st = Ok tt.
Hypothesis Hcount : countable_status st.

Lemma countable_topology c : st_topology st = Some c -> countable_members c.
Proof.
  intros Hc. apply (countable_named _ _ Hcount). unfold status_configurations. rewrite Hc. by left.
Qed.

Lemma countable_transition t c :
  st_transition st = Some t -> c ∈ transition_configurations t -> countable_members c.
Proof.
  intros Ht Hc. apply (countable_named _ _ Hcount). unfold status_configurations.
  apply elem_of_app. right. apply elem_of_app. left. rewrite Ht. simpl.
  by rewrite (app_nil_r _).
Qed.

Lemma valid_topology c :
  st_topology st = Some c -> valid_configuration c (st_effective_policy st).
Proof.
  intros Hc. apply valid_configuration_sound; [by apply countable_topology|].
  unfold validate_status, validate_failures in Hvalid. guards.
  rename select (when_some (st_topology st) _ = _) into Hw. exact (when_some_ok _ _ _ Hw Hc).
Qed.

Lemma checked_transition t : st_transition st = Some t -> check_transition st t = Ok tt.
Proof.
  intros Ht. unfold validate_status in Hvalid. guards.
  rename select (when_some (st_transition st) _ = _) into Hw. exact (when_some_ok _ _ _ Hw Ht).
Qed.

(** ** The kinds of transition *)

Ltac named_configuration :=
  eapply countable_transition; [eassumption|]; unfold transition_configurations;
  repeat match goal with H : _ = Some _ |- _ => rewrite H end; simpl; set_solver.

Lemma countable_scale_up_of t i :
  st_transition st = Some t -> ti_scale_up t = Some i -> countable_scale_up i.
Proof. intros Ht Hi. split; named_configuration. Qed.

Lemma countable_failover_of t e :
  st_transition st = Some t -> ti_scale_up_failover t = Some e -> countable_evidence e.
Proof. intros Ht Hi. split; [split|]; named_configuration. Qed.

Lemma countable_removal_of t i :
  st_transition st = Some t -> ti_secondary_scale_down t = Some i -> countable_intent i.
Proof. intros Ht Hi. split; named_configuration. Qed.

Lemma scale_up_transition_facts t :
  st_transition st = Some t -> ti_kind t = ScaleUp ->
  exists i, ti_scale_up t = Some i /\ scale_up_intent i /\
    st_topology st = Some (sui_previous_configuration i) /\
    ti_current_configuration t = sui_current_configuration i.
Proof.
  intros Ht Hk. pose proof (checked_transition t Ht) as Hok. unfold check_transition in Hok.
  rewrite Hk in Hok. unfold check_scale_up_transition in Hok. guards.
  eexists. split_and!; try done. eauto using validate_scale_up_ok, countable_scale_up_of.
Qed.

Lemma carried_transition_facts t e :
  st_transition st = Some t -> ti_kind t = Failover -> ti_scale_up_failover t = Some e ->
  ti_scale_up t = None /\ recovered e /\
  st_topology st = Some (sui_previous_configuration (sufe_intent e)) /\
  valid_configuration (ti_current_configuration t) (Some (sui_current_policy (sufe_intent e))) /\
  supersedes_topology st (ti_current_configuration t).
Proof.
  intros Ht Hk He. pose proof (checked_transition t Ht) as Hok. unfold check_transition in Hok.
  rewrite Hk, He in Hok.
  unfold check_carried_scale_up, validate_scale_up_failover_transition in Hok. guards.
  rename select (validate_scale_up_failover_evidence e = _) into Hr.
  apply failover_evidence_ok in Hr; [|by eapply countable_failover_of].
  rename select (validate_failover_configuration _ _ _ = _) into Hf.
  apply failover_configuration_ok in Hf as (_ & Hv & Hp & _ & Hdl & Hn);
    [|eapply countable_transition; [done|by left]].
  pose proof (rv_intent _ Hr) as Hi.
  split_and!; try done.
  - by destruct (ti_scale_up t).
  - by rewrite <-Hp.
  - intros old. rename select (st_topology st = _) into Htop. rewrite Htop. intros [= <-].
    split; [by rewrite Hdl, (su_data_loss _ Hi)|]. pose proof (su_number _ Hi). lia.
Qed.

Lemma removal_transition_facts t :
  st_transition st = Some t -> ti_kind t = SecondaryScaleDown ->
  exists i, ti_secondary_scale_down t = Some i /\ removal_intent i /\
    st_topology st = Some (sdi_previous_configuration i) /\
    ti_current_configuration t = sdi_current_configuration i /\
    (forall e, ti_secondary_removal_evidence t = Some e -> removal_of e = i).
Proof.
  intros Ht Hk. pose proof (checked_transition t Ht) as Hok. unfold check_transition in Hok.
  rewrite Hk in Hok. unfold check_scale_down_transition in Hok. guards.
  rename select (when_some _ _ = _) into Hw.
  eexists. split_and!; try done.
  - rename select (validate_secondary_scale_down _ = _) into Hi.
    apply validate_secondary_scale_down_ok in Hi; [done|..];
      by eapply countable_removal_of.
  - intros e He. pose proof (when_some_ok _ _ _ Hw He) as Hok. cbv beta in Hok. by guards.
Qed.

Lemma relationship_newer kind old c policy :
  countable_members old -> countable_members c ->
  validate_transition_relationship kind (Some old) c policy = Ok tt ->
  newer_epoch old c.
Proof. intros Ho Hc Hr. apply valid_transition_sound in Hr; [|done..]. split; apply Hr. Qed.

(** A switchover leads to the requested configuration, or back over a still newer one. *)
Lemma switchover_newer t old :
  st_transition st = Some t -> ti_kind t = PlannedSwitchover -> st_topology st = Some old ->
  check_switchover_transition st t = Ok tt -> newer_epoch old (ti_current_configuration t).
Proof.
  intros Ht Hk Hold Hok. pose proof (countable_topology _ Hold) as Hcold.
  assert (Hcur : countable_members (ti_current_configuration t)) by named_configuration.
  unfold check_switchover_transition in Hok. rewrite Hold in Hok. guards. simplify_eq.
  rename select (ti_switchover t = Some _) into Hi.
  match type of Hi with _ = Some ?i =>
    assert (Hreq : countable_members (psi_requested_configuration i)) by named_configuration end.
  rename select (validate_transition_relationship _ _ _ _ = _) into Hr.
  apply relationship_newer in Hr; [|done..].
  rename select (check_switchover_resolution _ _ = _) into Hres.
  unfold check_switchover_resolution in Hres.
  repeat case_match; guards; try congruence;
    (etrans; [exact Hr|]); by eapply relationship_newer.
Qed.

(** Replacements, failovers, switchovers and the bootstrap keep the policy. *)
Lemma ordinary_transition_facts t :
  st_transition st = Some t ->
  check_ordinary_transition st t = Ok tt ->
  valid_configuration (ti_current_configuration t) (Some (ti_effective_policy t)) /\
  validate_policy (ti_effective_policy t) = Ok tt /\
  supersedes_topology st (ti_current_configuration t).
Proof.
  intros Ht Hok. assert (Hcur : countable_members (ti_current_configuration t)) by named_configuration.
  unfold check_ordinary_transition in Hok. guards.
  rename select (validate_configuration _ _ = _) into Hv. apply valid_configuration_sound in Hv; [|done].
  split_and!; [done..|]. intros old Hold. pose proof (countable_topology _ Hold) as Hcold.
  destruct (ti_kind t) eqn:Hk; try done; [| | |by eapply switchover_newer];
    unfold check_bootstrap_transition, check_successor_transition in *; guards; simplify_eq;
    try (eapply relationship_newer; eassumption).
  rename select (is_some (st_topology st) = false) into Hnone. by rewrite Hold in Hnone.
Qed.

(** Every transition leads to a valid configuration newer than the topology. *)
Lemma transition_target t :
  st_transition st = Some t ->
  (exists policy, valid_configuration (ti_current_configuration t) (Some policy)) /\
  majority_configuration (ti_current_configuration t) /\
  supersedes_topology st (ti_current_configuration t).
Proof.
  intros Ht. pose proof (checked_transition t Ht) as Hok. unfold check_transition in Hok.
  assert (Hmaj : forall policy c, valid_configuration c (Some policy) ->
            validate_policy policy = Ok tt -> majority_configuration c)
    by (intros policy c Hv Hp; eapply valid_configuration_majority; [exact Hv|naive_solver]).
  destruct (ti_kind t) eqn:Hk; try (apply ordinary_transition_facts in Hok; [|done]; naive_solver).
  - destruct (ti_scale_up_failover t) eqn:He;
      [|apply ordinary_transition_facts in Hok; [|done]; naive_solver].
    destruct (carried_transition_facts t _ Ht Hk He) as (_ & Hr & _ & ? & ?).
    split_and!; [by eauto|eapply Hmaj; [eassumption|apply Hr]|done].
  - destruct (removal_transition_facts t Ht Hk) as (i & _ & Hi & Htop & -> & _).
    split_and!; [eexists; apply Hi|eapply Hmaj; apply Hi|]. intros old. rewrite Htop.
    intros [= <-]. split; apply Hi.
  - destruct (scale_up_transition_facts t Ht Hk) as (i & _ & Hi & Htop & ->).
    split_and!; [eexists; apply Hi|eapply Hmaj; apply Hi|]. intros old. rewrite Htop.
    intros [= <-]. split; [apply Hi|]. pose proof (su_number _ Hi). lia.
Qed.

(** A removal whose cleanup is due has been accepted. *)
Lemma removal_cleanup_facts c :
  st_secondary_scale_down_cleanup st = Some c ->
  removal_intent (removal_of (sdc_evidence c)) /\
  st_topology st = Some (sdi_current_configuration (removal_of (sdc_evidence c))).
Proof.
  intros Hc. unfold validate_status, validate_obligations in Hvalid. guards.
  rename select (when_some (st_secondary_scale_down_cleanup st) _ = _) into Hw.
  pose proof (when_some_ok _ _ _ Hw Hc) as Hok. unfold check_removal_cleanup in Hok. guards.
  split; [|done]. assert (Hint : countable_intent (removal_of (sdc_evidence c))).
  { split; apply (countable_named _ _ Hcount); unfold status_configurations; rewrite Hc; simpl;
      set_solver. }
  rename select (validate_secondary_scale_down_cleanup c = _) into Hcl.
  apply cleanup_ok in Hcl as (He & _); [|done]. by apply evidence_ok in He as [? _].
Qed.

End facts.
