(* ===== verification/Totality.v ===== *)
(** * Validation never panics ([kuberic-runtime/src/protocol/validation.rs])

    The checks of [validate_status] and [validate_snapshot] look up members and primaries
    that the checks before them have found.  Nothing a status contains makes its validation
    panic, and a snapshot only needs reported configurations that can be counted. *)

From S2P Require Import Prelude Digest Types Intents Validation Quorums Commands Observations.
From S2P Require Import ScaleDown ScaleUp SnapshotValidation StatusFacts.
From stdpp Require Import base gmap strings list sorting pretty.
From Stdlib Require Import ZArith Lia.
Local Open Scope Z_scope.

Lemma when_some_no_panic {E A} (o : option A) (f : A -> res E unit) :
  (forall a, o = Some a -> f a <> Panic) -> when_some o f <> Panic.
Proof. destruct o; simpl; auto. Qed.

Lemma expect_no_panic {E A} (o : option A) : is_some o = true -> expect (E := E) o <> Panic.
Proof. by destruct o. Qed.

Lemma find_member_is_some i c : has_member c i = true -> is_some (find_member i c) = true.
Proof.
  unfold has_member, find_member. intros (m & Hm & Heq)%existsb_true.
  destruct (List.find _ _) eqn:Hf; [done|]. rewrite find_none_iff in Hf. specialize (Hf m Hm).
  simpl in Hf. congruence.
Qed.

Lemma elem_of_replicas_in_order s key o :
  (key, o) ∈ replicas_in_order s <-> os_replicas s !! key = Some o.
Proof. unfold replicas_in_order. by rewrite merge_sort_Permutation, elem_of_map_to_list. Qed.

(** Take a check apart, through its optional parts too. *)
Ltac total := repeat (progress no_panic
  || match goal with |- when_some _ _ <> Panic => apply when_some_no_panic; intros ? ? end).

#[export] Hint Resolve validate_policy_no_panic policed_configuration_no_panic transition_no_panic
  validate_secondary_scale_down_no_panic validate_removal_witnesses_no_panic
  removal_evidence_no_panic removal_validation_never_panics validate_scale_up_no_panic
  failover_configuration_no_panic failover_evidence_no_panic scale_up_validation_never_panics
  : no_panic.

Section totality.
Context `{Sha256}.

(** ** Primaries *)

Lemma checked_named_primary c policy :
  validate_configuration c policy = Ok tt -> is_some (named_primary c) = true.
Proof.
  intros (m & Hm & _ & Hid)%checked_primary. unfold named_primary.
  destruct (List.find _ _) eqn:Hf; [done|]. rewrite find_none_iff in Hf. specialize (Hf m Hm).
  simpl in Hf. by rewrite bool_decide_true in Hf.
Qed.

Lemma checked_find_primary c policy :
  validate_configuration c policy = Ok tt -> is_some (find_primary c) = true.
Proof.
  intros (m & Hm & Hr & Hid)%checked_primary. unfold find_primary.
  destruct (List.find _ _) eqn:Hf; [done|]. rewrite find_none_iff in Hf. specialize (Hf m Hm).
  simpl in Hf. by rewrite !bool_decide_true in Hf.
Qed.

(** ** The parts of a status *)

Lemma provisioning_request_total u : validate_scale_up_provisioning_request u <> Panic.
Proof. unfold validate_scale_up_provisioning_request. total. Qed.

Lemma provisioning_total p : validate_scale_up_provisioning p <> Panic.
Proof. unfold validate_scale_up_provisioning. total. apply provisioning_request_total. Qed.
Hint Resolve provisioning_total : no_panic.

Lemma scale_up_cleanup_total c : validate_scale_up_cleanup c <> Panic.
Proof. unfold validate_scale_up_cleanup. total. Qed.
Hint Resolve scale_up_cleanup_total : no_panic.

Lemma scale_up_receipt_total r : validate_scale_up_receipt r <> Panic.
Proof.
  unfold validate_scale_up_receipt, validate_failover_receipt, validate_scale_up_failover_transition,
    validate_scale_up_witnesses, check_scale_up_witness. total.
Qed.
Hint Resolve scale_up_receipt_total : no_panic.

Lemma obligations_total st : validate_obligations st <> Panic.
Proof.
  unfold validate_obligations, check_allocation, validate_scale_up_allocation, check_admission_started,
    check_pending_replacement, validate_replacement_cleanup, check_last_replacement,
    check_protected_resources, check_last_removal, check_scale_up_cleanup, check_last_scale_up,
    check_removal_cleanup, validate_switchover_receipt. total.
Qed.

(** ** The transition of a status *)

Lemma switchover_transition_total st t :
  validate_failures st = Ok tt -> check_switchover_transition st t <> Panic.
Proof.
  intros Hf. unfold check_switchover_transition, check_previous_id, check_switchover_resolution,
    check_switchover_certificate, validate_switchover_handoff. total.
  apply expect_no_panic. rename select (ok_or (st_topology st) _ = Ok _) into Htop.
  apply ok_or_ok in Htop. unfold validate_failures in Hf. guards.
  rename select (when_some (st_topology st) _ = _) into Hw.
  eapply checked_named_primary, (when_some_ok _ _ _ Hw Htop).
Qed.

Lemma transition_total st t : validate_failures st = Ok tt -> check_transition st t <> Panic.
Proof.
  intros Hf. unfold check_transition, check_scale_up_transition, check_scale_down_transition,
    check_carried_scale_up, validate_scale_up_failover_transition, check_ordinary_transition,
    check_bootstrap_transition, check_successor_transition, check_previous_id.
  total; auto using switchover_transition_total.
Qed.

(** A topology comes with a policy. *)
Lemma initialized_policy st c :
  validate_initialization st = Ok tt -> st_topology st = Some c ->
  st_initialized st = true /\ is_some (st_effective_policy st) = true.
Proof.
  unfold validate_initialization. intros Hok Hc. rewrite Hc in Hok.
  destruct (st_initialized st), (st_effective_policy st); by guards.
Qed.

(** Whatever the status is, its validation answers. *)
Lemma validate_status_total st : validate_status st <> Panic.
Proof.
  unfold validate_status. total; auto using obligations_total.
  - unfold validate_initialization. total.
  - unfold validate_status_provisioning. total.
  - rename select (validate_initialization st = _) into Hi. destruct a0.
    unfold validate_failures. total. rename select (st_topology st = Some _) into Hc.
    destruct (initialized_policy _ _ Hi Hc) as [_ Hp].
    destruct (st_effective_policy st); [|done]. auto with no_panic.
  - rename select (validate_failures st = _) into Hf. destruct a2. by apply transition_total.
Qed.

(** ** The parts of a snapshot *)

(** Every transition but the bootstrap starts from an accepted topology. *)
Lemma transition_topology st t :
  check_transition st t = Ok tt -> ti_kind t <> Bootstrap -> is_some (st_topology st) = true.
Proof.
  unfold check_transition, check_scale_up_transition, check_scale_down_transition,
    check_carried_scale_up, check_ordinary_transition, check_successor_transition,
    check_switchover_transition.
  intros Hok Hk. destruct (ti_kind t) eqn:Hkind; [done|..];
    try destruct (ti_scale_up_failover t); guards; try done;
    repeat match goal with H : st_topology st = _ |- _ => rewrite H end; done.
Qed.

Lemma report_internal_total r : validate_report_internal r <> Panic.
Proof.
  unfold validate_report_internal, validate_secondary_removal_report, check_accepted_removal,
    check_prepared_removal, validate_secondary_removal_preparation, check_removal_evidence,
    check_retired, validate_replica_retirement, check_reported_scale_up, validate_switchover_handoff.
  total.
Qed.
Hint Resolve report_internal_total : no_panic.

Section snapshot.
Variable s : ObservationSnapshot.
Hypothesis Hvalid : validate_status (os_status s) = Ok tt.

Lemma status_transition_topology t :
  st_transition (os_status s) = Some t -> ti_kind t <> Bootstrap ->
  is_some (st_topology (os_status s)) = true.
Proof. intros Ht. by apply transition_topology, checked_transition. Qed.

Lemma bootstrap_report_total t r :
  has_member (ti_current_configuration t) (ar_identity r) = true -> check_bootstrap_report t r <> Panic.
Proof.
  intros Hm. unfold check_bootstrap_report. total. by apply expect_no_panic, find_member_is_some.
Qed.

Lemma member_report_total r :
  let st := os_status s in
  let exact := is_some_and (fun c => has_member c (ar_identity r)) in
  let current := ti_current_configuration <$> st_transition st in
  exact (st_topology st) || exact current = true ->
  check_member_report st (st_topology st) current (exact (st_topology st)) r <> Panic.
Proof.
  cbv zeta. intros Hknown. unfold check_member_report. total.
  - apply expect_no_panic. destruct (st_topology _), (st_transition _); done.
  - apply expect_no_panic, find_member_is_some.
    rename select (opt_filter _ _ = Some _) into Hf.
    destruct (st_topology (os_status s)) as [accepted|]; [|done]. simpl in *.
    destruct (has_member accepted (ar_identity r)) eqn:Hm; [|done]. simpl in Hf. case_match; congruence.
Qed.

Lemma report_authority_total r : validate_report_authority s r <> Panic.
Proof.
  unfold validate_report_authority, validate_reported_removal, check_named_removal,
    check_frozen_evidence, check_provisioning_report, check_switchover_epoch,
    check_switchover_configuration, check_reported_previous. total; auto using member_report_total.
  - apply bootstrap_report_total. rename select (opt_filter _ _ = Some _) into Hf.
    destruct (st_transition (os_status s)); [|done]. simpl in Hf. case_match; [|done].
    guards. simplify_eq. done.
  - apply expect_no_panic. eapply status_transition_topology; [eassumption|]. guards. congruence.
  - apply expect_no_panic. rename select (st_transition _ = Some _) into Ht.
    guards. pose proof (status_transition_topology _ Ht) as Htop.
    destruct (psi_requested_configuration <$> _); [done|]. simpl. by apply Htop.
Qed.

(** The configurations that reports name can be counted in a [u32]. *)
Definition countable_reports : Prop :=
  forall key o r c, os_replicas s !! key = Some o -> agent_report (ro_agent o) = Some r ->
    ar_previous_configuration r = Some c \/ ar_current_configuration r = Some c -> countable_members c.

Lemma report_total key o r :
  countable_reports -> os_replicas s !! key = Some o -> ro_agent o = AgentReported r ->
  validate_report s key r <> Panic.
Proof.
  intros Hc Ho Ha. unfold validate_report, validate_report_sequence.
  assert (Hr : agent_report (ro_agent o) = Some r) by by rewrite Ha.
  total; eauto using report_authority_total, validate_configuration_no_panic.
Qed.

End snapshot.

Lemma validate_snapshot_total s : countable_reports s -> validate_snapshot s <> Panic.
Proof.
  intros Hc. unfold validate_snapshot, validate_resource_binding, validate_snapshot_provisioning,
    check_admission_started, check_primary_claims. total; auto using validate_status_total.
  rename select (validate_status _ = _) into Hst. destruct a0.
  destruct x as [key o]. unfold validate_observation, validate_uninitialized, validate_report_sequence.
  total. eapply report_total; eauto. by apply elem_of_replicas_in_order.
Qed.

End totality.
