(* ===== verification/EvaluatorBase.v ===== *)
(** * Evaluation: outcomes and shared helpers
    ([kuberic-controller/src/plan.rs], [kuberic-controller/src/evaluator.rs])

    The controller's evaluator is a pure function of a snapshot.  This file has the
    plans it returns and the helpers its parts share: which reports count, quorums
    over reports, the choice of a failover candidate, the commands and the status
    conditions.  An evaluation that reaches an [expect] on an absent value panics,
    so the parts of the evaluator return [eval Plan].  How an error or a reason is
    rendered as text is a parameter ([Texts]): the texts only reach conditions. *)

From S2P Require Import Prelude Digest Types Intents Commands Observations Validation ScaleUp.
From stdpp Require Import base gmap strings list pretty.
From Stdlib Require Import ZArith Lia.
Local Open Scope Z_scope.

(** ** Plans *)

Inductive WaitReason :=
| ActiveTransition | ProvisioningInProgress | AgentUnavailable | AwaitingStableEvidence
| AwaitingAgentInitialization | UnsupportedSpecDuringTransition | FailoverDelay | QuorumLoss.

Inductive UnsafeReason :=
| InvalidDesiredState (message : string)
| InvalidAcceptedAuthority (message : string)
| DurableEvidenceWithoutAuthority
| IncompatibleProtocolVersion (id expected observed : Z)
| ContradictoryReplicaEvidence (message : string).

Inductive Plan :=
| Stable (status : AcceptedStatus) (requeue_after_seconds : Z)
| Apply (changes : list KubernetesChange)
| Execute (command : ProtocolCommand)
| Wait (reason : WaitReason) (status : AcceptedStatus) (requeue_after_seconds : Z)
| Unsafe (reason : UnsafeReason) (status : AcceptedStatus) (safety_changes : list SafetyChange)
    (requeue_after_seconds : Z).

(** The fields of the default build; [public_operation_preview] belongs to the test
    bridge. *)
Record EvaluationConfig := {
  enable_secondary_scale_down : bool;
  allow_scale_up : bool;
  supported_protocol_version : Z;
  stable_resync_seconds : Z;
  wait_requeue_seconds : Z;
  unsafe_requeue_seconds : Z;
}.

Definition PROTOCOL_VERSION : Z := 9.

(** [EvaluationConfig::default] *)
Definition default_config : EvaluationConfig :=
  {| enable_secondary_scale_down := false; allow_scale_up := false;
     supported_protocol_version := PROTOCOL_VERSION; stable_resync_seconds := 30;
     wait_requeue_seconds := 5; unsafe_requeue_seconds := 30 |}.

(** A computation that can only fail by a panic. *)
Abbreviation eval A := (res Empty_set A) (only parsing).

(** [m.is_err()]; a panic of [m] is one of the caller *)
Definition is_err {E A} (m : res E A) : eval bool :=
  match m with Ok _ => Ok false | Err _ => Ok true | Panic => Panic end.

(** [format!("{reason:?}")] and [error.to_string()] *)
Class Texts := {
  debug_reason : UnsafeReason -> string;
  display_error : ValidationError -> string;
}.

(** ** Conditions *)

Definition condition (type_ : string) (status : ConditionStatus) (reason message : string)
    : StatusCondition :=
  {| sc_type := type_; sc_status := status; sc_reason := reason; sc_message := message |}.

Definition ready_condition : StatusCondition :=
  condition "Ready" ConditionTrue "Stable" "Accepted topology is stable".
Definition progressing_condition (reason message : string) : StatusCondition :=
  condition "Progressing" ConditionTrue reason message.

Definition replica_count_difference (requested frozen : Z) : string :=
  "requested replica count " +:+ pretty requested +:+ " differs from frozen replica-set size "
    +:+ pretty frozen.
Definition unsupported_replica_count_condition (requested frozen : Z) : StatusCondition :=
  condition "UnsupportedSpec" ConditionTrue "ReplicaCountImmutable"
    (replica_count_difference requested frozen).

Definition clear_runtime_conditions (s : AcceptedStatus) : AcceptedStatus :=
  without_condition "Progressing" (without_condition "Unsafe" (without_condition "Ready" s)).
Definition clear_evaluator_conditions (s : AcceptedStatus) : AcceptedStatus :=
  without_condition "UnsupportedSpec" (clear_runtime_conditions s).

Definition waiting_status (s : AcceptedStatus) (reason message : string) : AcceptedStatus :=
  with_condition (progressing_condition reason message)
    (with_condition (condition "Ready" ConditionUnknown reason message) (clear_runtime_conditions s)).
Definition transition_status (s : AcceptedStatus) : AcceptedStatus :=
  waiting_status (without_condition "UnsupportedSpec" s) "TransitionActive"
    "Persisted transition remains in progress".

Definition find_condition (type_ : string) (s : AcceptedStatus) : option StatusCondition :=
  List.find (fun c => sc_type c == type_) (st_conditions s).

(** Persist the status with a progress condition, or wait with one. *)
Definition persist (s : AcceptedStatus) (reason message : string) : Plan :=
  Apply [PersistStatus (waiting_status s reason message)].
Definition wait (r : WaitReason) (s : AcceptedStatus) (reason message : string)
    (config : EvaluationConfig) : Plan :=
  Wait r (waiting_status s reason message) (wait_requeue_seconds config).

Section base.
Context `{Sha256, Texts}.

Definition unsafe_plan (status : AcceptedStatus) (reason : UnsafeReason) (config : EvaluationConfig)
    : Plan :=
  Unsafe reason
    (with_condition (condition "Unsafe" ConditionTrue "UnsafeAuthority" (debug_reason reason))
       (with_condition (condition "Ready" ConditionFalse "Unsafe" "Replica authority is unsafe")
          (clear_runtime_conditions status)))
    [SafetyRemoveWriteRouting] (unsafe_requeue_seconds config).

(** ** Which reports count *)

Definition report_for (s : ObservationSnapshot) (i : ReplicaIdentity) : option AgentReport :=
  o ← observation_for_identity s i; agent_report (ro_agent o).

Definition permanent_fault (r : AgentReport) : bool := ar_reported_fault r == Some Permanent.

Definition exact_pod_absent (s : ObservationSnapshot) (i : ReplicaIdentity) : bool :=
  match os_observation_failures s with
  | [] =>
      negb (existsb (fun x => is_some_and (fun k => is_some_and (fun uid => uid == instance_id i)
                                                      (ko_pod_uid k))
                                (ro_kubernetes (snd x)))
              (replicas_in_order s))
  | _ => false
  end.

Definition exact_report (s : ObservationSnapshot) (i : ReplicaIdentity) : option AgentReport :=
  opt_filter (fun r => ar_identity r == i) (report_for s i).

Definition definitively_lost (s : ObservationSnapshot) (i : ReplicaIdentity) : bool :=
  exact_pod_absent s i || is_some_and permanent_fault (exact_report s i).

Definition replica_failed (s : ObservationSnapshot) (i : ReplicaIdentity) : bool :=
  match observation_for_identity s i with
  | None => true
  | Some o =>
      if is_some_and (fun r => ar_healthy r && negb (permanent_fault r)) (agent_report (ro_agent o))
      then is_some_and (fun k => negb (ko_pod_ready k)) (ro_kubernetes o)
      else true
  end.

Definition healthy_report (s : ObservationSnapshot) (i : ReplicaIdentity) : option AgentReport :=
  o ← observation_for_identity s i;
  if is_some_and (fun k => ko_pod_ready k && ko_peer_endpoint_ready k) (ro_kubernetes o)
  then opt_filter (fun r => ar_healthy r && negb (permanent_fault r)) (agent_report (ro_agent o))
  else None.

Definition stable_member_report (r : AgentReport) (m : ConfigurationMember)
    (c : ConfigurationDescriptor) : bool :=
  (ar_identity r == cm_identity m) && (ar_role r == cm_role m) && (ar_epoch r == cd_epoch c)
  && is_none (ar_previous_configuration r) && (ar_current_configuration r == Some c)
  && is_none (ar_pending_operation_id r).

(** The report has the current configuration alone, or still with the previous one. *)
Definition holds_current_only (current : ConfigurationDescriptor) (r : AgentReport) : bool :=
  (ar_epoch r == cd_epoch current) && (ar_current_configuration r == Some current)
  && is_none (ar_previous_configuration r).
Definition holds_joint (previous current : ConfigurationDescriptor) (r : AgentReport) : bool :=
  (ar_epoch r == cd_epoch current) && (ar_previous_configuration r == Some previous)
  && (ar_current_configuration r == Some current).

(** ** Quorums over reports *)

Definition configuration_primary (c : ConfigurationDescriptor) : eval ConfigurationMember :=
  expect (find_primary c).

Definition configuration_union (previous current : ConfigurationDescriptor)
    : list ConfigurationMember :=
  fold_left (fun members m =>
    if existsb (fun x => cm_identity x == cm_identity m) members then members else members ++ [m])
    (cd_members previous ++ cd_members current) [].

Definition available_union_reports (s : ObservationSnapshot) (previous current : ConfigurationDescriptor)
    : list AgentReport :=
  omap (fun m => healthy_report s (cm_identity m)) (configuration_union previous current).

Definition count {A} (f : A -> bool) (l : list A) : Z := Z.of_nat (length (List.filter f l)).

Definition reported (reports : list AgentReport) (m : ConfigurationMember) : bool :=
  existsb (fun r => ar_identity r == cm_identity m) reports.

Definition configuration_report_quorum (c : ConfigurationDescriptor) (reports : list AgentReport)
    : bool :=
  cd_write_quorum c <=? count (reported reports) (cd_members c).

Definition configuration_read_quorum (c : ConfigurationDescriptor) (reports : list AgentReport)
    (quorum : Z) : bool :=
  quorum <=? count (reported reports) (cd_members c).

Definition surviving_exact_members (s : ObservationSnapshot) (c : ConfigurationDescriptor) : Z :=
  count (fun m => negb (definitively_lost s (cm_identity m))) (cd_members c).

Definition configuration_cannot_regain_read_quorum (s : ObservationSnapshot)
    (c : ConfigurationDescriptor) (quorum : Z) : bool :=
  count (fun m => negb (is_some_and permanent_fault (report_for s (cm_identity m)))) (cd_members c)
    <? quorum.

Definition configuration_deactivation_quorum (c : ConfigurationDescriptor) (reports : list AgentReport)
    (quorum : Z) (epoch : Epoch) : bool :=
  quorum <=? count (fun m => existsb (fun r =>
      (ar_identity r == cm_identity m) && (ar_deactivation_epoch r == Some epoch)
      && is_some (ar_deactivated_lsn r)) reports) (cd_members c).

(** ** The failover candidate *)

Definition epoch_compare (a b : Epoch) : comparison :=
  then_with (data_loss_number a ?= data_loss_number b)
    (configuration_number a ?= configuration_number b).

Definition candidate_order (left right : AgentReport) : comparison :=
  then_with (epoch_compare (default epoch_default (ar_deactivation_epoch left))
               (default epoch_default (ar_deactivation_epoch right)))
  (then_with (default 0 (ar_deactivated_lsn left) ?= default 0 (ar_deactivated_lsn right))
  (then_with (ar_current_progress left ?= ar_current_progress right)
  (then_with (ar_committed_lsn left ?= ar_committed_lsn right)
     (replica_id (ar_identity right) ?= replica_id (ar_identity left))))).

Definition failover_candidate (c : ConfigurationDescriptor) (r : AgentReport) : bool :=
  has_member c (ar_identity r)
  && ((ar_write_status r != Granted)
      || ((replica_id (ar_identity r) == cd_primary_id c)
          && (ar_deactivation_epoch r == Some (cd_epoch c))))
  && ((ar_role r != Primary) || (replica_id (ar_identity r) == cd_primary_id c)).

Definition select_failover_candidate (c : ConfigurationDescriptor) (reports : list AgentReport)
    : option AgentReport :=
  max_by candidate_order (List.filter (failover_candidate c) reports).

Definition configuration_with_primary (c : ConfigurationDescriptor) (primary : ReplicaIdentity)
    (epoch : Epoch) : ConfigurationDescriptor :=
  new_configuration epoch (replica_id primary)
    (map (fun m => {| cm_identity := cm_identity m;
                      cm_role := if cm_identity m == primary then Primary else ActiveSecondary |})
       (cd_members c))
    (cd_write_quorum c).

(** [Epoch::new(epoch.data_loss_number, epoch.configuration_number + 1)] *)
Definition next_epoch (e : Epoch) : Epoch :=
  mkEpoch (data_loss_number e) (i64_wrap (configuration_number e + 1)).

(** [replacement_cleanup::transition_id] *)
Definition transition_id (s : ObservationSnapshot) (kind : TransitionKind)
    (current : ConfigurationDescriptor) : TransitionId :=
  match opt_filter (fun c => negb (has_member current (rc_target c)))
          (st_pending_replacement_cleanup (os_status s)) with
  | Some c => rc_transition_id c kind (cd_configuration_id current)
  | None => derive_transition_id (os_resource_uid s) kind (cd_configuration_id current)
  end.

(** A transition without repair, switchover or change of size. *)
Definition plain_transition (id : TransitionId) (kind : TransitionKind) (generation : Z)
    (policy : EffectivePolicy) (previous : option ConfigurationId) (current : ConfigurationDescriptor)
    (election : option Lsn) (build : option OperationId) : TransitionIntent :=
  {| ti_transition_id := id; ti_kind := kind; ti_spec_generation := generation;
     ti_effective_policy := policy; ti_previous_configuration_id := previous;
     ti_current_configuration := current; ti_election_lsn := election; ti_build_id := build;
     ti_repair := None; ti_switchover := None; ti_secondary_scale_down := None;
     ti_secondary_removal_evidence := None; ti_scale_up := None; ti_scale_up_failover := None |}.

(** ** Commands *)

Definition operation_for (t : TransitionIntent) (stage : string) (m : ConfigurationMember) : OperationId :=
  ti_transition_id t +:+ ":" +:+ stage +:+ ":" +:+ pretty (member_id m).
Definition failover_install_operation_id (t : TransitionIntent) (m : ConfigurationMember) : OperationId :=
  operation_for t "election" m.
Definition failover_current_only_operation_id (t : TransitionIntent) (m : ConfigurationMember)
    : OperationId := operation_for t "current-only" m.
Definition replacement_install_operation_id (t : TransitionIntent) (m : ConfigurationMember)
    : OperationId := operation_for t "pc-cc" m.
Definition replacement_current_only_operation_id (t : TransitionIntent) (m : ConfigurationMember)
    : OperationId := operation_for t "current-only" m.
Definition bootstrap_install_operation_id (t : TransitionIntent) (m : ConfigurationMember)
    : OperationId := operation_for t "install" m.

Definition failover_configuration_command (previous current : ConfigurationDescriptor)
    (m : ConfigurationMember) (policy : EffectivePolicy) (operation : OperationId)
    (safe_lsn : option Lsn) (write_status : AccessStatus) (current_only : bool)
    (retire_builds : list OperationId) : EnsureConfiguration :=
  {| ec_operation_id := operation;
     ec_previous_configuration := then_some (negb current_only) previous;
     ec_current_configuration := current;
     ec_previous_epoch := then_some (negb current_only) (cd_epoch previous);
     ec_current_epoch := cd_epoch current; ec_effective_policy := policy; ec_previous_policy := None;
     ec_secondary_removal_evidence := None; ec_scale_up_evidence := None;
     ec_local_replica_id := member_id m; ec_expected_instance_id := instance_id (cm_identity m);
     ec_expected_agent_generation := agent_generation (cm_identity m);
     ec_transition_kind := Failover; ec_failover_safe_lsn := safe_lsn;
     ec_primary_write_status := write_status; ec_current_only := current_only;
     ec_retire_build_ids := retire_builds; ec_switchover_handoff := None;
     ec_retire_switchover_preparation_ids := [] |}.

Definition replacement_configuration_command (previous current : ConfigurationDescriptor)
    (m : ConfigurationMember) (policy : EffectivePolicy) (operation : OperationId)
    (grant_write current_only : bool) (retire_build : option OperationId) : EnsureConfiguration :=
  {| ec_operation_id := operation;
     ec_previous_configuration := then_some (negb current_only) previous;
     ec_current_configuration := current;
     ec_previous_epoch := then_some (negb current_only) (cd_epoch previous);
     ec_current_epoch := cd_epoch current; ec_effective_policy := policy; ec_previous_policy := None;
     ec_secondary_removal_evidence := None; ec_scale_up_evidence := None;
     ec_local_replica_id := member_id m; ec_expected_instance_id := instance_id (cm_identity m);
     ec_expected_agent_generation := agent_generation (cm_identity m);
     ec_transition_kind := Replacement; ec_failover_safe_lsn := None;
     ec_primary_write_status := if grant_write then Granted else ReconfigurationPending;
     ec_current_only := current_only; ec_retire_build_ids := option_list retire_build;
     ec_switchover_handoff := None; ec_retire_switchover_preparation_ids := [] |}.

Definition ensure_configuration_command (c : ConfigurationDescriptor) (m : ConfigurationMember)
    (policy : EffectivePolicy) (operation : OperationId) (write_status : AccessStatus)
    (current_only : bool) : EnsureConfiguration :=
  {| ec_operation_id := operation; ec_previous_configuration := None;
     ec_current_configuration := c; ec_previous_epoch := None; ec_current_epoch := cd_epoch c;
     ec_effective_policy := policy; ec_previous_policy := None;
     ec_secondary_removal_evidence := None; ec_scale_up_evidence := None;
     ec_local_replica_id := member_id m; ec_expected_instance_id := instance_id (cm_identity m);
     ec_expected_agent_generation := agent_generation (cm_identity m);
     ec_transition_kind := Bootstrap; ec_failover_safe_lsn := None;
     ec_primary_write_status := write_status; ec_current_only := current_only;
     ec_retire_build_ids := []; ec_switchover_handoff := None;
     ec_retire_switchover_preparation_ids := [] |}.

Definition build_command (operation : OperationId) (source target : ReplicaIdentity) : ProtocolCommand :=
  CmdEnsureReplicaBuild
    {| erb_operation_id := operation; erb_local_replica_id := replica_id source;
       erb_expected_instance_id := instance_id source;
       erb_expected_agent_generation := agent_generation source; erb_target := target;
       erb_authority := None; erb_source_session_id := None; erb_retire := false |}.

Definition delete_scaffolding_change (k : KubernetesReplicaObservation) : KubernetesChange :=
  DeleteReplicaScaffolding (then_some (negb (is_empty (ko_pod_name k))) (ko_pod_name k)) (ko_pod_uid k)
    (then_some (negb (is_empty (ko_pvc_name k))) (ko_pvc_name k)) (ko_pvc_uid k).

(** ** Guards over all replicas *)

Definition routed (s : ObservationSnapshot) : bool :=
  is_some (ro_write_target (os_routing s)) || ro_unresolved_write_target (os_routing s).

Definition incompatible_protocol_plan (s : ObservationSnapshot) (config : EvaluationConfig)
    : option Plan :=
  head (omap (fun '(key, o) =>
    let observed := match ro_agent o with
                    | AgentUninitialized r => Some (ua_protocol_version r)
                    | AgentReported r => Some (ar_protocol_version r)
                    | _ => None
                    end in
    observed ← observed;
    then_some (observed != supported_protocol_version config)
      (unsafe_plan (os_status s)
         (IncompatibleProtocolVersion (rok_replica_id key) (supported_protocol_version config) observed)
         config)) (replicas_in_order s)).

Definition has_durable_replica_evidence (s : ObservationSnapshot) : bool :=
  os_durable_storage_evidence s
  || existsb (fun x => is_some (agent_report (ro_agent (snd x)))) (replicas_in_order s).

(** ** The desired specification *)

Definition image_of (s : ObservationSnapshot) (m : ConfigurationMember) : option string :=
  o ← observation_for_identity s (cm_identity m); k ← ro_kubernetes o; ko_image k.

Definition image_difference (s : ObservationSnapshot) (m : ConfigurationMember) : option string :=
  image ← image_of s m;
  then_some (image != ds_image (os_desired s))
    ("replica " +:+ pretty (member_id m) +:+ " runs image " +:+ image
       +:+ " instead of requested image " +:+ ds_image (os_desired s)).

Definition desired_spec_state (s : ObservationSnapshot) (c : ConfigurationDescriptor)
    (policy : EffectivePolicy) : bool * option StatusCondition :=
  let d := os_desired s in
  let resized := ds_replicas d != replica_set_size policy in
  let differences :=
    (if resized then [replica_count_difference (ds_replicas d) (replica_set_size policy)] else [])
    ++ (if ds_failover_delay_seconds d != failover_delay_seconds policy
        then ["requested failover delay " +:+ pretty (ds_failover_delay_seconds d)
                +:+ " differs from frozen delay " +:+ pretty (failover_delay_seconds policy)] else [])
    ++ omap (image_difference s) (cd_members c) in
  match differences with
  | [] => (length (omap (image_of s) (cd_members c)) == length (cd_members c), None)
  | _ =>
      (false, Some (if (length differences == 1%nat) && resized
                    then unsupported_replica_count_condition (ds_replicas d) (replica_set_size policy)
                    else condition "UnsupportedSpec" ConditionTrue "SpecDriftUnsupported"
                           (String.concat "; " differences)))
  end.

End base.
