(* ===== verification/EvaluatorSwitchover.v ===== *)
(** * Planned switchover ([kuberic-controller/src/evaluator.rs])

    The evaluator moves the primary to a requested member: it freezes the request,
    removes the write routing, has the source prepare and certify its prefix,
    installs the requested configuration on every member and accepts it.  When the
    target is lost the source is restored or, once newer authority exists,
    compensated under a still newer epoch; contradictory evidence closes every
    possible writer. *)

From S2P Require Import Prelude Digest Types Intents Commands Observations Validation ScaleUp.
From S2P Require Import SnapshotValidation EvaluatorBase.
From stdpp Require Import base gmap strings list pretty.
From Stdlib Require Import ZArith Lia Strings.Ascii.
Local Open Scope Z_scope.

(** [s.trim().is_empty()]: every character is Unicode white space. *)
Fixpoint blank_bytes (codes : list nat) : bool :=
  match codes with
  | [] => true
  | c :: rest =>
      if ((9 <=? c) && (c <=? 13) || (c =? 32))%nat then blank_bytes rest
      else
        match rest with
        | x :: rest =>
            if ((c =? 194) && ((x =? 133) || (x =? 160)))%nat then blank_bytes rest
            else
              match rest with
              | y :: rest =>
                  ((c =? 225) && (x =? 154) && (y =? 128)
                   || (c =? 226) && (x =? 128)
                      && ((128 <=? y) && (y <=? 138) || (y =? 168) || (y =? 169) || (y =? 175))
                   || (c =? 226) && (x =? 129) && (y =? 159)
                   || (c =? 227) && (x =? 128) && (y =? 128))%nat && blank_bytes rest
              | [] => false
              end
        | [] => false
        end
  end.
Definition is_blank (s : string) : bool := blank_bytes (map nat_of_ascii (String.list_ascii_of_string s)).

Section switchover.
Context `{Sha256, Texts}.

(** ** The request *)

Definition switchover_rejection (s : AcceptedStatus) : option StatusCondition :=
  find_condition "SwitchoverRejected" s.

Definition reject_switchover (s : AcceptedStatus) (reason message : string) : AcceptedStatus :=
  with_condition (condition "SwitchoverRejected" ConditionTrue reason message) s.

(** The target must attest healthy, idle secondary authority. *)
Definition eligible_target (s : ObservationSnapshot) (current : ConfigurationDescriptor)
    (target : ConfigurationMember) : bool :=
  (cm_role target == ActiveSecondary)
  && is_some_and (fun r => stable_member_report r target current && (ar_write_status r != Granted)
                           && is_none (ar_prepared_switchover r))
       (healthy_report s (cm_identity target)).

Definition project_switchover_request (s : ObservationSnapshot) (status : AcceptedStatus)
    : AcceptedStatus :=
  let status := without_condition "SwitchoverRejected" status in
  match st_transition (os_status s) ≫= ti_switchover with
  | Some intent =>
      if is_some_and (fun request => (psr_request_id request == psi_request_id intent)
                                     && (psr_target_replica_id request == replica_id (psi_target intent)))
           (ds_switchover (os_desired s))
      then status
      else reject_switchover status "ActiveRequestImmutable"
             "Cancellation or retargeting is rejected; the accepted switchover remains frozen"
  | None =>
      match ds_switchover (os_desired s) with
      | None => status
      | Some request =>
          if is_blank (psr_request_id request) || (psr_target_replica_id request <=? 0)
          then reject_switchover status "MalformedRequest"
                 "Switchover requires a request ID and positive target ID"
          else
            match opt_filter (fun receipt => pso_request_id receipt == psr_request_id request)
                    (st_last_switchover status) with
            | Some receipt =>
                if pso_requested_target_replica_id receipt == psr_target_replica_id request then status
                else reject_switchover status "RequestIdReused"
                       "A completed request ID cannot name a different target"
            | None =>
                match st_topology status with
                | None => status
                | Some current =>
                    if psr_target_replica_id request == cd_primary_id current
                    then reject_switchover status "TargetAlreadyPrimary"
                           "The requested target is already the accepted primary"
                    else
                      match List.find (fun m => member_id m == psr_target_replica_id request)
                              (cd_members current) with
                      | None => reject_switchover status "TargetNotMember"
                                  "The requested target is not an accepted member"
                      | Some target =>
                          if eligible_target s current target then status
                          else reject_switchover status "TargetNotEligible"
                                 "The exact accepted target must attest healthy, idle secondary authority"
                      end
                end
            end
      end
  end.

(** ** Freezing the request *)

Definition swapped_members (previous : ConfigurationDescriptor) (source target : ReplicaIdentity)
    : list ConfigurationMember :=
  map (fun m => {| cm_identity := cm_identity m;
                   cm_role := if cm_identity m == target then Primary
                              else if cm_identity m == source then ActiveSecondary
                              else cm_role m |}) (cd_members previous).

Definition switchover_intent (s : ObservationSnapshot) (status : AcceptedStatus)
    (request : PlannedSwitchoverRequest) (previous current : ConfigurationDescriptor)
    (policy : EffectivePolicy) (source target : ReplicaIdentity) : TransitionIntent :=
  {| ti_transition_id := derive_transition_id (os_resource_uid s) PlannedSwitchover
                           (cd_configuration_id current);
     ti_kind := PlannedSwitchover; ti_spec_generation := ds_generation (os_desired s);
     ti_effective_policy := policy;
     ti_previous_configuration_id := Some (cd_configuration_id previous);
     ti_current_configuration := current; ti_election_lsn := None; ti_build_id := None;
     ti_repair := None;
     ti_switchover := Some {| psi_preparation_generation := ds_generation (os_desired s);
                              psi_request_id := psr_request_id request;
                              psi_source := source; psi_target := target;
                              psi_requested_configuration := current;
                              psi_resolution := RequestedTarget; psi_handoff := None |};
     ti_secondary_scale_down := None; ti_secondary_removal_evidence := None; ti_scale_up := None;
     ti_scale_up_failover := None |}.

Definition begin_switchover (s : ObservationSnapshot) (status : AcceptedStatus)
    (config : EvaluationConfig) : eval (option Plan) :=
  match ds_switchover (os_desired s) with
  | None => Ok None
  | Some request =>
      if is_some (switchover_rejection status)
         || is_some_and (fun receipt => pso_request_id receipt == psr_request_id request)
              (st_last_switchover status)
         || is_some (st_primary_failure status) || is_some (st_quorum_loss status)
      then Ok None
      else
        match st_topology status with
        | None => Ok None
        | Some previous =>
            if negb (forallb (fun m =>
                 is_some_and (fun r => stable_member_report r m previous
                                       && is_none (ar_prepared_switchover r))
                   (healthy_report s (cm_identity m))) (cd_members previous))
            then Ok (Some (Wait AwaitingStableEvidence
                   (waiting_status status "SwitchoverAwaitingStableAuthority"
                      "Every exact member must finish accepted authority before planned movement")
                   (wait_requeue_seconds config)))
            else
              match i64_checked_add (configuration_number (cd_epoch previous)) 1 with
              | None =>
                  Ok (Some (Stable (reject_switchover status "ConfigurationEpochExhausted"
                        "A strictly newer configuration epoch cannot be allocated")
                        (stable_resync_seconds config)))
              | Some number =>
                  let? source := configuration_primary previous in
                  let source := cm_identity source in
                  match List.find (fun m => member_id m == psr_target_replica_id request)
                          (cd_members previous) with
                  | None => Ok None
                  | Some target =>
                      let target := cm_identity target in
                      let current :=
                        new_configuration (mkEpoch (data_loss_number (cd_epoch previous)) number)
                          (replica_id target) (swapped_members previous source target)
                          (cd_write_quorum previous) in
                      let status := waiting_status status "SwitchoverAccepted"
                        "Frozen the exact source, target, and requested authority before revoking routing" in
                      let? policy := expect (st_effective_policy status) in
                      Ok (Some (Apply [PersistStatus (status <| st_transition := Some
                        (switchover_intent s status request previous current policy source target) |>)]))
                  end
              end
        end
  end.

(** ** Stopping an unsafe switchover *)

Definition switchover_wait (status : AcceptedStatus) (reason message : string)
    (config : EvaluationConfig) : Plan :=
  Wait ActiveTransition (waiting_status status reason message) (wait_requeue_seconds config).

#[local] Instance PlannedSwitchoverIntent_fields : Fields PlannedSwitchoverIntent := fun i =>
  Build_PlannedSwitchoverIntent (psi_preparation_generation i) (psi_request_id i) (psi_source i)
    (psi_target i) (psi_requested_configuration i) (psi_resolution i) (psi_handoff i).

(** [status.transition.as_mut().unwrap().switchover.as_mut().unwrap()] changed *)
Definition update_switchover (f : PlannedSwitchoverIntent -> PlannedSwitchoverIntent)
    (status : AcceptedStatus) : eval AcceptedStatus :=
  let? t := expect (st_transition status) in
  let? intent := expect (ti_switchover t) in
  Ok (status <| st_transition := Some (t <| ti_switchover := Some (f intent) |>) |>).
Definition set_resolution (r : PlannedSwitchoverResolution) (status : AcceptedStatus)
    : eval AcceptedStatus :=
  update_switchover (fun i => i <| psi_resolution := r |>) status.

(** The report of a Pod that is current and consistent evidence. *)
Definition trusted_report (s : ObservationSnapshot) (config : EvaluationConfig)
    (key : ReplicaObservationKey) (uid : PodUid) (r : AgentReport) : bool :=
  (ar_protocol_version r == supported_protocol_version config)
  && (ar_resource_uid r == os_resource_uid s)
  && (instance_id (ar_identity r) == uid)
  && (replica_id (ar_identity r) == rok_replica_id key)
  && negb (is_empty (ar_process_session_id r))
  && is_ok (validate_report_internal r)
  && is_none_or (fun previous => is_ok (validate_configuration previous None))
       (ar_previous_configuration r)
  && is_none_or (fun w => (rw_process_session_id w != ar_process_session_id r)
                          || (rw_report_sequence w <? ar_report_sequence r))
       (os_previous_report_watermarks s !! key)
  && is_some_and (fun current =>
       is_ok (validate_configuration current None) && (ar_epoch r == cd_epoch current)
       && is_some_and (fun accepted => epoch_leb (cd_epoch accepted) (cd_epoch current))
            (st_topology (os_status s))
       && has_member current (ar_identity r)) (ar_current_configuration r).

(** The first replica that may still write: close its access, or delete its Pod. *)
Fixpoint close_writers (s : ObservationSnapshot) (status : AcceptedStatus) (config : EvaluationConfig)
    (replicas : list (ReplicaObservationKey * ReplicaObservation)) : eval (option Plan) :=
  match replicas with
  | [] => Ok None
  | (key, o) :: rest =>
      match ro_kubernetes o ≫= (fun pod => (fun uid => (pod, uid)) <$> ko_pod_uid pod) with
      | None => close_writers s status config rest
      | Some (pod, uid) =>
          let delete := Ok (Some (Apply [DeleteExactPod (ko_pod_name pod) uid])) in
          match opt_filter (trusted_report s config key uid) (agent_report (ro_agent o)) with
          | None => delete
          | Some r =>
              if (ar_write_status r != Granted) && is_none (ar_pending_operation_id r)
              then close_writers s status config rest
              else
                match st_topology (os_status s) with
                | None => delete
                | Some starting =>
                    if (ar_current_configuration r == Some starting)
                       && is_none (ar_previous_configuration r) && is_none (ar_pending_operation_id r)
                       && (ar_role r == Primary)
                    then
                      let? primary := configuration_primary starting in
                      match st_effective_policy status with
                      | Some policy =>
                          if ar_identity r == cm_identity primary then
                            let? t := expect (st_transition status) in
                            Ok (Some (Execute (CmdEnsureConfiguration
                              (ensure_configuration_command starting primary policy
                                 (ti_transition_id t +:+ ":unsafe-close") ReconfigurationPending false))))
                          else delete
                      | None => delete
                      end
                    else delete
                end
          end
      end
  end.

Definition switchover_unsafe (s : ObservationSnapshot) (message : string) (config : EvaluationConfig)
    : eval Plan :=
  let status := os_status s in
  match st_transition status ≫= ti_switchover with
  | None => Ok (unsafe_plan status (InvalidAcceptedAuthority message) config)
  | Some intent =>
      if psi_resolution intent != ResolutionUnsafe then
        let? status := set_resolution ResolutionUnsafe status in
        let status := with_condition
          (condition "SwitchoverSafety" ConditionTrue "ClosureRequired" message) status in
        Ok (Apply [RemoveWriteRouting;
                   PersistStatus (waiting_status status "SwitchoverSafetyClosure" message)])
      else if routed s then Ok (Apply [RemoveWriteRouting])
      else
        match os_observation_failures s with
        | _ :: _ => Ok (switchover_wait status "SwitchoverSafetyObservationRequired"
            "Complete Pod and routing observations are required to prove every possible writer closed or absent"
            config)
        | [] =>
            let? closing := close_writers s status config (replicas_in_order s) in
            match closing with
            | Some plan => Ok plan
            | None =>
                let receipt := {| pso_request_id := psi_request_id intent;
                                  pso_requested_target_replica_id := replica_id (psi_target intent);
                                  pso_accepted_target := Some (psi_target intent);
                                  pso_resulting_primary := None; pso_outcome := OutcomeUnsafe |} in
                Ok (unsafe_plan (status <| st_last_switchover := Some receipt |>)
                      (ContradictoryReplicaEvidence message) config)
            end
        end
  end.

(** ** Commands and completion *)

Definition switchover_operation_id (t : TransitionIntent) (m : ConfigurationMember)
    (current_only : bool) : OperationId :=
  operation_for t (if current_only then "current-only" else "pc-cc") m.

Definition switchover_member_complete (r : AgentReport) (t : TransitionIntent)
    (m : ConfigurationMember) (previous : ConfigurationDescriptor) (current_only : bool) : bool :=
  (ar_identity r == cm_identity m) && (ar_role r == cm_role m)
  && (ar_epoch r == cd_epoch (ti_current_configuration t))
  && (ar_current_configuration r == Some (ti_current_configuration t))
  && (ar_previous_configuration r == then_some (negb current_only) previous)
  && (ar_write_status r != Granted) && is_none (ar_pending_operation_id r)
  && (ar_retained_operation_id r == Some (switchover_operation_id t m current_only))
  && (negb current_only || is_none (ar_prepared_switchover r)).

Definition switchover_configuration_command (t : TransitionIntent) (previous : ConfigurationDescriptor)
    (m : ConfigurationMember) (current_only : bool) : eval EnsureConfiguration :=
  let? intent := expect (ti_switchover t) in
  let? handoff := expect (psi_handoff intent) in
  Ok {| ec_operation_id := switchover_operation_id t m current_only;
        ec_previous_configuration := then_some (negb current_only) previous;
        ec_current_configuration := ti_current_configuration t;
        ec_previous_epoch := then_some (negb current_only) (cd_epoch previous);
        ec_current_epoch := cd_epoch (ti_current_configuration t);
        ec_effective_policy := ti_effective_policy t; ec_previous_policy := None;
        ec_secondary_removal_evidence := None; ec_scale_up_evidence := None;
        ec_local_replica_id := member_id m; ec_expected_instance_id := instance_id (cm_identity m);
        ec_expected_agent_generation := agent_generation (cm_identity m);
        ec_transition_kind := PlannedSwitchover; ec_failover_safe_lsn := None;
        ec_primary_write_status := ReconfigurationPending; ec_current_only := current_only;
        ec_retire_build_ids := []; ec_switchover_handoff := Some handoff;
        ec_retire_switchover_preparation_ids :=
          if current_only && (cm_identity m == sh_source handoff) then [sh_preparation handoff] else [] |}.

(** [derive_switchover_preparation_operation_id] of the frozen request *)
Definition preparation_id (s : ObservationSnapshot) (intent : PlannedSwitchoverIntent)
    (starting : ConfigurationDescriptor) : OperationId :=
  derive_switchover_preparation_operation_id (os_resource_uid s) (psi_request_id intent)
    (psi_preparation_generation intent) (cd_configuration_id starting) (psi_source intent)
    (psi_target intent).

(** The certificate is the one of the frozen preparation. *)
Definition handoff_matches (s : ObservationSnapshot) (intent : PlannedSwitchoverIntent)
    (starting : ConfigurationDescriptor) (h : SwitchoverHandoff) : bool :=
  (sh_preparation_operation_id h == preparation_id s intent starting)
  && (sh_preparation_generation h == psi_preparation_generation intent)
  && (sh_request_id h == psi_request_id intent) && (sh_source h == psi_source intent)
  && (sh_target h == psi_target intent) && (sh_starting_epoch h == cd_epoch starting)
  && (sh_starting_configuration_id h == cd_configuration_id starting).

(** ** Recovery *)

(** A command that retires the preparation under the starting authority. *)
Definition restoration_command (t : TransitionIntent) (starting : ConfigurationDescriptor)
    (handoff : option SwitchoverHandoff) (preparation : SwitchoverPreparationId)
    : eval EnsureConfiguration :=
  let? primary := configuration_primary starting in
  let c := ensure_configuration_command starting primary (ti_effective_policy t)
             (ti_transition_id t +:+ ":restore") ReconfigurationPending false in
  Ok (c <| ec_transition_kind := PlannedSwitchover |> <| ec_switchover_handoff := handoff |>
        <| ec_retire_switchover_preparation_ids := [preparation] |>).

(** Before newer authority exists: retire the preparation, then clear the request. *)
Definition restore_source (s : ObservationSnapshot) (t : TransitionIntent)
    (intent : PlannedSwitchoverIntent) (starting : ConfigurationDescriptor) (source : AgentReport)
    (config : EvaluationConfig) : eval Plan :=
  if negb (forallb (fun m =>
       exact_pod_absent s (cm_identity m)
       || is_some_and (fun r => stable_member_report r m starting
                                && ((cm_identity m == psi_source intent) || (ar_write_status r != Granted)))
            (exact_report s (cm_identity m))) (cd_members starting))
  then Ok (switchover_wait (os_status s) "SwitchoverAuthorityAdmissionUnknown"
         "Re-observe idle starting authority on every extant exact member; missing or pending evidence cannot authorize old-epoch restoration"
         config)
  else if psi_resolution intent != RestoringOldPrimary then
    let? status := set_resolution RestoringOldPrimary (os_status s) in
    Ok (Apply [PersistStatus (waiting_status status "SwitchoverRestoring"
          "Target completion is impossible before authority admission; retiring exact preparation at starting authority")])
  else
    match ar_prepared_switchover source with
    | Some handoff =>
        if negb (handoff_matches s intent starting handoff)
           || is_some_and (fun retained => retained != handoff) (psi_handoff intent)
           || (ar_write_status source == Granted)
        then switchover_unsafe s "Restoration certificate contradicts frozen preparation" config
        else
          let? command := restoration_command t starting (Some handoff) (sh_preparation handoff) in
          Ok (Execute (CmdEnsureConfiguration command))
    | None =>
        if ar_retained_operation_id source != Some (ti_transition_id t +:+ ":restore") then
          if is_some (psi_handoff intent)
          then Ok (switchover_wait (os_status s) "SwitchoverRetirementPending"
                 "Re-observe the exact restoration receipt before clearing the frozen operation" config)
          else
            let? command := restoration_command t starting None
              {| spi_generation := psi_preparation_generation intent;
                 spi_operation_id := preparation_id s intent starting |} in
            Ok (Execute (CmdEnsureConfiguration command))
        else
          let status := (os_status s) <| st_transition := None |>
            <| st_observed_generation := ti_spec_generation t |>
            <| st_last_switchover := Some
                 {| pso_request_id := psi_request_id intent;
                    pso_requested_target_replica_id := replica_id (psi_target intent);
                    pso_accepted_target := Some (psi_target intent);
                    pso_resulting_primary := Some (psi_source intent);
                    pso_outcome := OldPrimaryRestored |} |> in
          Ok (Apply [PersistStatus (waiting_status status "SwitchoverRestored"
                "Starting authority and exact retirement accepted; stable convergence may restore source service")])
    end.

(** After newer authority exists: allocate a still newer epoch for the source. *)
Definition compensate_source (s : ObservationSnapshot) (t : TransitionIntent)
    (intent : PlannedSwitchoverIntent) (starting : ConfigurationDescriptor) (source : AgentReport)
    (config : EvaluationConfig) : eval Plan :=
  match psi_handoff intent with
  | None => switchover_unsafe s "Newer authority exists without a frozen handoff certificate" config
  | Some handoff =>
      let? source_member := expect (find_member (psi_source intent) (psi_requested_configuration intent)) in
      let retired := switchover_member_complete source t source_member starting true in
      if (ar_prepared_switchover source != Some handoff) && negb retired
      then switchover_unsafe s "The source cannot prove the whole retained handoff certificate" config
      else if (ar_write_status source == Granted) || (ar_current_progress source <? sh_handoff_lsn handoff)
      then switchover_unsafe s "The source cannot safely retain the frozen write prefix" config
      else
        let reports := List.filter (fun r =>
            (ar_write_status r != Granted)
            && is_some_and (fun current => (current == starting)
                                           || (current == psi_requested_configuration intent))
                 (ar_current_configuration r))
          (omap (fun m => healthy_report s (cm_identity m)) (cd_members starting)) in
        let surviving := surviving_exact_members s starting in
        let policy := ti_effective_policy t in
        if surviving <? write_quorum policy
        then switchover_unsafe s
               "Exact retained membership cannot provide a compensation write quorum" config
        else if negb (configuration_read_quorum starting reports (read_quorum policy)) then
          if surviving <? read_quorum policy
          then switchover_unsafe s
                 "Exact retained membership cannot provide a compensation read quorum" config
          else Ok (switchover_wait (os_status s) "SwitchoverCompensationReadQuorumPending"
                 "Re-observe a read quorum of exact write-closed members under starting or requested authority"
                 config)
        else
          match i64_checked_add
                  (configuration_number (cd_epoch (psi_requested_configuration intent))) 1 with
          | None => switchover_unsafe s "No strictly newer compensation epoch is available" config
          | Some number =>
              let current := new_configuration
                (mkEpoch (data_loss_number (cd_epoch starting)) number)
                (replica_id (psi_source intent)) (cd_members starting) (cd_write_quorum starting) in
              let? status := set_resolution CompensatingOldPrimary (os_status s) in
              let? t := expect (st_transition status) in
              let status := status <| st_transition := Some
                (t <| ti_transition_id := derive_transition_id (os_resource_uid s) PlannedSwitchover
                                            (cd_configuration_id current) |>
                   <| ti_current_configuration := current |>) |> in
              Ok (Apply [PersistStatus (waiting_status status "SwitchoverCompensationAllocated"
                    "Frozen a strictly newer compensation epoch without changing data-loss authority, policy, or exact membership")])
          end
  end.

Definition recover_switchover (s : ObservationSnapshot) (t : TransitionIntent)
    (config : EvaluationConfig) : eval (option Plan) :=
  let? intent := expect (ti_switchover t) in
  let? starting := expect (st_topology (os_status s)) in
  let some (m : eval Plan) : eval (option Plan) := let? plan := m in Ok (Some plan) in
  if definitively_lost s (psi_source intent)
  then some (switchover_unsafe s "The exact source and its retained handoff proof are lost" config)
  else if psi_resolution intent == CompensatingOldPrimary then
    let surviving := surviving_exact_members s starting in
    if surviving <? write_quorum (ti_effective_policy t)
    then some (switchover_unsafe s
           "Exact retained membership can no longer provide a compensation write quorum" config)
    else if surviving <? read_quorum (ti_effective_policy t)
    then some (switchover_unsafe s
           "Exact retained membership can no longer provide a compensation read quorum" config)
    else if is_some_and (fun source =>
              is_some_and (fun h => ar_current_progress source <? sh_handoff_lsn h) (psi_handoff intent))
              (healthy_report s (psi_source intent))
    then some (switchover_unsafe s "Compensation source lost its certified durable prefix" config)
    else Ok None
  else if (psi_resolution intent != RestoringOldPrimary)
          && negb (definitively_lost s (psi_target intent))
  then Ok None
  else
    match healthy_report s (psi_source intent) with
    | None => Ok (Some (switchover_wait (os_status s) "SwitchoverRecoverySourceUnavailable"
        "Re-observe the exact source and its current process session before selecting recovery authority"
        config))
    | Some source =>
        if existsb (fun r => epoch_leb (cd_epoch (psi_requested_configuration intent)) (ar_epoch r))
             (omap (fun m => exact_report s (cm_identity m)) (cd_members starting))
        then some (compensate_source s t intent starting source config)
        else some (restore_source s t intent starting source config)
    end.

(** ** The steps of a switchover *)

(** Without a certificate: have the source prepare, or persist its certificate. *)
Definition prepare_source (s : ObservationSnapshot) (status : AcceptedStatus)
    (intent : PlannedSwitchoverIntent) (source : ConfigurationMember)
    (starting previous : ConfigurationDescriptor) (source_report : AgentReport)
    (config : EvaluationConfig) : eval Plan :=
  if negb (stable_member_report source_report source previous)
  then Ok (switchover_wait status "SwitchoverPreparationPending"
         "Waiting for idle starting authority on the exact source" config)
  else
    match ar_prepared_switchover source_report with
    | Some handoff =>
        if (sh_preparation_operation_id handoff != preparation_id s intent starting)
           || (sh_preparation_generation handoff != psi_preparation_generation intent)
           || (sh_request_id handoff != psi_request_id intent)
           || (sh_source handoff != psi_source intent) || (sh_target handoff != psi_target intent)
           || (sh_starting_configuration_id handoff != cd_configuration_id previous)
           || (sh_starting_epoch handoff != cd_epoch previous)
           || (ar_current_progress source_report <? sh_handoff_lsn handoff)
           || (ar_write_status source_report == Granted)
        then switchover_unsafe s "Prepared switchover differs from the frozen operation" config
        else
          let? status := update_switchover (fun i => i <| psi_handoff := Some handoff |>) status in
          Ok (Apply [PersistStatus (waiting_status status "SwitchoverPrepared"
                "Persisted the old primary's durable write handoff certificate")])
    | None =>
        if ar_write_status source_report != Granted
        then Ok (switchover_wait status "SwitchoverPreparationPending"
               "Waiting for retained write-revocation evidence" config)
        else Ok (Execute (CmdPrepareSwitchover
               {| ps_preparation_generation := psi_preparation_generation intent;
                  ps_operation_id := preparation_id s intent starting;
                  ps_request_id := psi_request_id intent;
                  ps_local_replica_id := replica_id (psi_source intent);
                  ps_expected_instance_id := instance_id (psi_source intent);
                  ps_expected_agent_generation := agent_generation (psi_source intent);
                  ps_source := psi_source intent; ps_target := psi_target intent;
                  ps_current_configuration := previous |}))
    end.

(** The source first, the other members by id, and the new primary last. *)
Definition switchover_order (current : ConfigurationDescriptor) (target : ConfigurationMember)
    (source : ReplicaIdentity) : list ConfigurationMember :=
  let others := List.filter (fun m => cm_identity m != cm_identity target) (cd_members current) in
  sort_by_key member_id (List.filter (fun m => cm_identity m == source) others)
  ++ sort_by_key member_id (List.filter (fun m => cm_identity m != source) others)
  ++ [target].

(** A faulted member of a compensation whose Pod is to be deleted. *)
Definition fence_faulted (s : ObservationSnapshot) (status : AcceptedStatus)
    (primary : ReplicaIdentity) (ordered : list ConfigurationMember) (config : EvaluationConfig)
    : option Plan :=
  m ← List.find (fun m => (cm_identity m != primary) && negb (exact_pod_absent s (cm_identity m))
                          && is_some_and permanent_fault (exact_report s (cm_identity m))) ordered;
  match (o ← observation_for_identity s (cm_identity m); pod ← ro_kubernetes o;
         uid ← ko_pod_uid pod;
         then_some (uid == instance_id (cm_identity m)) (pod, uid)) with
  | None => Some (switchover_wait status "SwitchoverFaultedPodObservationRequired"
                    "Re-observe the exact faulted Pod before safety fencing" config)
  | Some (pod, uid) => Some (Apply [DeleteExactPod (ko_pod_name pod) uid])
  end.

(** A member that takes no part in a compensation: it is not the primary and its Pod
    is gone. *)
Definition left_behind (s : ObservationSnapshot) (compensating : bool) (primary : ReplicaIdentity)
    (m : ConfigurationMember) : bool :=
  compensating && (cm_identity m != primary) && exact_pod_absent s (cm_identity m).

(** Install the joint configuration on every member in turn; the result is a plan, or
    the reports of the members that have it and whether one already went on. *)
Fixpoint install_joint (s : ObservationSnapshot) (status : AcceptedStatus) (t : TransitionIntent)
    (compensating : bool) (primary : ReplicaIdentity) (previous : ConfigurationDescriptor)
    (ordered : list ConfigurationMember) (reports : list AgentReport) (started : bool)
    (config : EvaluationConfig) : eval (Plan + list AgentReport * bool) :=
  match ordered with
  | [] => Ok (inr (reports, started))
  | m :: ordered =>
      let continue := install_joint s status t compensating primary previous ordered in
      if left_behind s compensating primary m then continue reports started config
      else
        match (if compensating && (cm_identity m != primary) then exact_report s (cm_identity m)
               else healthy_report s (cm_identity m)) with
        | None => Ok (inl (switchover_wait status "SwitchoverMemberUnavailable"
                             "Every exact member must attest requested authority" config))
        | Some r =>
            if holds_current_only (ti_current_configuration t) r then continue reports true config
            else if negb (switchover_member_complete r t m previous false) then
              let? command := switchover_configuration_command t previous m false in
              Ok (inl (Execute (CmdEnsureConfiguration command)))
            else continue (reports ++ [r]) started config
        end
  end.

(** Then the current configuration alone. *)
Fixpoint install_current_only (s : ObservationSnapshot) (t : TransitionIntent) (compensating : bool)
    (primary : ReplicaIdentity) (previous : ConfigurationDescriptor)
    (ordered : list ConfigurationMember) : eval (option Plan) :=
  match ordered with
  | [] => Ok None
  | m :: ordered =>
      if left_behind s compensating primary m
      then install_current_only s t compensating primary previous ordered
      else
        let? r := expect (exact_report s (cm_identity m)) in
        if negb (switchover_member_complete r t m previous true) then
          let? command := switchover_configuration_command t previous m true in
          Ok (Some (Execute (CmdEnsureConfiguration command)))
        else install_current_only s t compensating primary previous ordered
  end.

Definition accept_switchover (status : AcceptedStatus) (t : TransitionIntent)
    (intent : PlannedSwitchoverIntent) (primary : ReplicaIdentity) (compensating : bool) : Plan :=
  let status := status <| st_topology := Some (ti_current_configuration t) |>
    <| st_observed_generation := ti_spec_generation t |> <| st_transition := None |>
    <| st_primary_failure := None |> <| st_quorum_loss := None |>
    <| st_last_switchover := Some
         {| pso_request_id := psi_request_id intent;
            pso_requested_target_replica_id := replica_id (psi_target intent);
            pso_accepted_target := Some (psi_target intent);
            pso_resulting_primary := Some primary;
            pso_outcome := if compensating then OldPrimaryCompensated else RequestedTargetCompleted |} |> in
  Apply [PersistStatus (waiting_status status "SwitchoverCompleted"
    "Accepted requested current-only authority; stable convergence will grant writes and publish routing")].

(** With a certificate: the source stays closed, the target has the prefix, and every
    member goes through the joint configuration to the current one. *)
Definition install_switchover (s : ObservationSnapshot) (status : AcceptedStatus)
    (t : TransitionIntent) (intent : PlannedSwitchoverIntent) (handoff : SwitchoverHandoff)
    (compensating : bool) (starting previous : ConfigurationDescriptor) (source_report : AgentReport)
    (config : EvaluationConfig) : eval Plan :=
  let current := ti_current_configuration t in
  let wait reason message := Ok (switchover_wait status reason message config) in
  let? source_member := expect (find_member (psi_source intent) current) in
  let source_retired := switchover_member_complete source_report t source_member previous true in
  let requested := t <| ti_current_configuration := psi_requested_configuration intent |>
    <| ti_transition_id := derive_transition_id (os_resource_uid s) PlannedSwitchover
                             (cd_configuration_id (psi_requested_configuration intent)) |> in
  let? source_requested_retired :=
    if compensating then
      let? m := expect (find_member (psi_source intent) (psi_requested_configuration intent)) in
      Ok (switchover_member_complete source_report requested m starting true)
    else Ok false in
  let compensation_admitted := compensating && (ar_current_configuration source_report == Some current) in
  if compensating && (surviving_exact_members s current <? cd_write_quorum current)
  then switchover_unsafe s "Exact compensation membership can no longer provide write quorum" config
  else if (ar_write_status source_report == Granted)
          || (negb source_retired && negb source_requested_retired && negb compensation_admitted
              && (ar_prepared_switchover source_report != Some handoff))
  then switchover_unsafe s
         "The source must retain the whole exact preparation and remain write-closed until retirement" config
  else
    let? target := configuration_primary current in
    let primary := cm_identity target in
    match healthy_report s primary with
    | None => wait "SwitchoverTargetUnavailable" "Waiting for the exact requested target"
    | Some target_report =>
        let verified := is_some_and (fun lsn => sh_handoff_lsn handoff <=? lsn)
                          (ar_verified_replication_lsn target_report) in
        let? behind :=
          if negb compensating && (ar_epoch target_report == cd_epoch previous) then
            let? m := expect (find_member (psi_target intent) previous) in
            Ok (negb (stable_member_report target_report m previous) || negb verified)
          else Ok false in
        if behind then
          wait "SwitchoverTargetCatchupPending"
            "The exact target must verify the handoff prefix under starting authority; raw progress is insufficient"
        else
          let ordered := switchover_order current target (psi_source intent) in
          match (if compensating then fence_faulted s status primary ordered config else None) with
          | Some plan => Ok plan
          | None =>
              let? installed :=
                install_joint s status t compensating primary previous ordered [] false config in
              match installed with
              | inl plan => Ok plan
              | inr (reports, started) =>
                  if negb started && (negb (configuration_report_quorum previous reports)
                                      || negb (configuration_report_quorum current reports))
                  then wait "SwitchoverJointQuorumPending" "Waiting for exact PC/CC report quorums"
                  else if negb (ar_catch_up_complete target_report) || negb verified
                          || (negb started
                              && ((ar_catch_up_boundary target_report != Some (sh_handoff_lsn handoff))
                                  || (ar_current_configuration_quorum_progress target_report
                                        <? sh_handoff_lsn handoff)))
                  then wait "SwitchoverRequestedCatchupPending"
                         "The requested primary must prove certified catch-up while write-closed"
                  else
                    let? plan := install_current_only s t compensating primary previous ordered in
                    match plan with
                    | Some plan => Ok plan
                    | None => Ok (accept_switchover status t intent primary compensating)
                    end
              end
          end
    end.

(** A member of the requested topology that is lost or does not report. *)
Definition missing_participant (s : ObservationSnapshot) (status : AcceptedStatus)
    (starting : ConfigurationDescriptor) (config : EvaluationConfig) : eval (option Plan) :=
  match List.find (fun m => definitively_lost s (cm_identity m)
                            || is_none (healthy_report s (cm_identity m))) (cd_members starting) with
  | None => Ok None
  | Some m =>
      if definitively_lost s (cm_identity m) then
        let? plan := switchover_unsafe s
          "An exact participant required by the frozen requested topology is definitively lost" config in
        Ok (Some plan)
      else Ok (Some (switchover_wait status "SwitchoverMemberUnavailable"
             "Re-observe every exact participant before admitting further requested authority" config))
  end.

Definition evaluate_switchover (s : ObservationSnapshot) (t : TransitionIntent)
    (config : EvaluationConfig) : eval Plan :=
  let status := project_switchover_request s (os_status s) in
  if switchover_rejection status != switchover_rejection (os_status s)
  then Ok (Apply [PersistStatus status])
  else
    let unsupported := snd (desired_spec_state s (ti_current_configuration t) (ti_effective_policy t)) in
    let status := without_condition "UnsupportedSpec" status in
    let status := match unsupported with Some c => with_condition c status | None => status end in
    if routed s then
      Ok (Apply [RemoveWriteRouting;
                 PersistStatus (waiting_status status "SwitchoverRoutingRemoved"
                   "Removing write routing before old-primary preparation")])
    else
      let? intent := expect (ti_switchover t) in
      let? recovery := recover_switchover s t config in
      match recovery with
      | Some plan => Ok plan
      | None =>
          let? starting := expect (st_topology (os_status s)) in
          let compensating := psi_resolution intent == CompensatingOldPrimary in
          let previous := if compensating then psi_requested_configuration intent else starting in
          match healthy_report s (psi_source intent) with
          | None => Ok (switchover_wait status "SwitchoverSourceUnavailable"
                      "Waiting for the exact source's fresh authority evidence" config)
          | Some source_report =>
              if negb compensating && is_none (healthy_report s (psi_target intent))
              then Ok (switchover_wait status "SwitchoverTargetUnavailable"
                     "Waiting for the exact target's current-session evidence; temporary unavailability does not select recovery"
                     config)
              else
                let? missing := if compensating then Ok None
                                else missing_participant s status starting config in
                match missing with
                | Some plan => Ok plan
                | None =>
                    let? source := configuration_primary starting in
                    match psi_handoff intent with
                    | None => prepare_source s status intent source starting previous source_report config
                    | Some handoff =>
                        install_switchover s status t intent handoff compensating starting previous
                          source_report config
                    end
                end
          end
      end.

End switchover.
