(* ===== verification/EvaluatorFailover.v ===== *)
(** * Failover ([kuberic-controller/src/evaluator.rs])

    When the accepted primary fails the evaluator records the failure, removes the write
    routing, waits out the frozen delay and, given read quorums, persists a newer epoch
    with a provisional primary ([maybe_begin_stable_failover], and
    [maybe_begin_failover] over an outstanding replacement).  [evaluate_failover_transition]
    then installs that epoch, corrects the primary to the one with the most progress,
    repairs lagging members, grants writes and accepts the topology. *)

From S2P Require Import Prelude Digest Types Intents Commands Observations Validation ScaleUp.
From S2P Require Import EvaluatorBase.
From stdpp Require Import base gmap strings list pretty.
From Stdlib Require Import ZArith Lia.
Local Open Scope Z_scope.

Section failover.
Context `{Sha256, Texts}.

(** ** Beginning a failover *)

Definition remove_routing (status : AcceptedStatus) (message : string) : Plan :=
  Apply [RemoveWriteRouting; PersistStatus (waiting_status status "RoutingFencePending" message)].

(** The primary of [accepted] has just been seen to fail. *)
Definition record_failure (s : ObservationSnapshot) (status : AcceptedStatus)
    (primary : ReplicaIdentity) : Plan :=
  let status := status
    <| st_primary_failure := Some {| pfo_primary := primary;
                                     pfo_started_at_unix_seconds := os_now_unix_seconds s |} |>
    <| st_quorum_loss := None |> in
  Apply ((if routed s then [RemoveWriteRouting] else [])
         ++ [PersistStatus (waiting_status status "PrimaryFailureObserved"
               "Persisted exact primary failure observation and fenced write routing")]).

Definition delay_elapsed (s : ObservationSnapshot) (failure : PrimaryFailureObservation)
    (policy : EffectivePolicy) : bool :=
  i64_saturating_add (pfo_started_at_unix_seconds failure)
    (Z.min (failover_delay_seconds policy) i64_max) <=? os_now_unix_seconds s.

(** Without the read quorums there is no failover. *)
Definition without_read_quorum (s : ObservationSnapshot) (status : AcceptedStatus)
    (accepted basis : ConfigurationDescriptor) (policy : EffectivePolicy)
    (abandoned pending : string) (config : EvaluationConfig) : Plan :=
  if configuration_cannot_regain_read_quorum s accepted (read_quorum policy)
     || configuration_cannot_regain_read_quorum s basis (read_quorum policy)
  then unsafe_plan status (ContradictoryReplicaEvidence abandoned) config
  else if is_none_or (fun loss => qlo_configuration_id loss != cd_configuration_id accepted)
            (st_quorum_loss status)
  then persist (status <| st_quorum_loss :=
           Some {| qlo_configuration_id := cd_configuration_id accepted |} |>)
         "FailoverReadQuorumUnavailable" pending
  else wait QuorumLoss status "FailoverReadQuorumUnavailable" pending config.

(** The epoch after both configurations. *)
Definition failover_epoch (accepted basis : ConfigurationDescriptor) : Epoch :=
  mkEpoch (data_loss_number (cd_epoch basis))
    (i64_wrap (Z.max (configuration_number (cd_epoch basis))
                 (configuration_number (cd_epoch accepted)) + 1)).

Definition failover_intent (s : ObservationSnapshot) (accepted basis : ConfigurationDescriptor)
    (policy : EffectivePolicy) (generation : Z) (build : option OperationId)
    (candidate : AgentReport) : TransitionIntent :=
  let current := configuration_with_primary basis (ar_identity candidate)
                   (failover_epoch accepted basis) in
  plain_transition (transition_id s Failover current) Failover generation policy
    (Some (cd_configuration_id accepted)) current (Some (ar_current_progress candidate)) build.

(** The common text of the two ways to begin: [basis] is the accepted configuration, or
    the one of the replacement under way. *)
Definition begin_failover (s : ObservationSnapshot) (status : AcceptedStatus)
    (accepted basis : ConfigurationDescriptor) (generation : Z) (build : option OperationId)
    (abandoned pending : string) (config : EvaluationConfig) : eval (option Plan) :=
  let? primary := configuration_primary basis in
  if negb (replica_failed s (cm_identity primary)) then
    Ok (if is_some (st_primary_failure status)
        then Some (persist (status <| st_primary_failure := None |>) "PrimaryRecovered"
                     "The accepted primary recovered before failover authority was allocated")
        else None)
  else
    let? accepted_primary := configuration_primary accepted in
    match opt_filter (fun f => pfo_primary f == cm_identity accepted_primary)
            (st_primary_failure status) with
    | None => Ok (Some (record_failure s status (cm_identity accepted_primary)))
    | Some failure =>
        if routed s then
          Ok (Some (remove_routing status "Removing routing to the failed primary before failover"))
        else
          let? policy := expect (st_effective_policy (os_status s)) in
          if negb (delay_elapsed s failure policy) then
            Ok (Some (wait FailoverDelay status "FailoverDelay"
                        "Waiting for the frozen primary-failure delay" config))
          else
            let reports := available_union_reports s accepted basis in
            if negb (configuration_read_quorum accepted reports (read_quorum policy))
               || negb (configuration_read_quorum basis reports (read_quorum policy))
            then Ok (Some (without_read_quorum s status accepted basis policy abandoned pending config))
            else
              Ok (candidate ← select_failover_candidate basis reports;
                  Some (persist (status
                          <| st_transition := Some (failover_intent s accepted basis policy generation
                                                      build candidate) |>
                          <| st_quorum_loss := None |>)
                        "FailoverIntentPersisted"
                        "Persisted a newer write-closed failover epoch with a provisional coordinator"))
    end.

Definition maybe_begin_stable_failover (s : ObservationSnapshot) (status : AcceptedStatus)
    (config : EvaluationConfig) : eval (option Plan) :=
  let? accepted := expect (st_topology (os_status s)) in
  begin_failover s status accepted accepted (st_observed_generation (os_status s)) None
    "ordinary recovery would require abandoning accepted configuration quorum"
    "Failover remains write-closed until Current Configuration read quorum is observed" config.

Definition maybe_begin_failover (s : ObservationSnapshot) (active : option TransitionIntent)
    (status : AcceptedStatus) (config : EvaluationConfig) : eval (option Plan) :=
  let? accepted := expect (st_topology (os_status s)) in
  begin_failover s status accepted (from_option ti_current_configuration accepted active)
    (from_option ti_spec_generation (st_observed_generation (os_status s)) active)
    (active ≫= ti_build_id)
    "ordinary recovery would require abandoning PC or outstanding CC quorum"
    "Failover remains write-closed until PC and outstanding CC read quorum are observed" config.

(** ** Repairing a lagging member *)

Definition lagging_member (s : ObservationSnapshot) (t : TransitionIntent)
    (current : ConfigurationDescriptor) (primary : ReplicaIdentity) (reports : list AgentReport)
    (retained_from : Lsn) : option ReplicaRepairIntent :=
  head (omap (fun m =>
    r ← List.find (fun r => ar_identity r == cm_identity m) reports;
    then_some (i64_saturating_add (ar_current_progress r) 1 <? retained_from)
      {| rri_operation_id := derive_failover_repair_operation_id (os_resource_uid s)
                               (ti_transition_id t) (cm_identity m);
         rri_target := cm_identity m |})
    (List.filter (fun m => cm_identity m != primary) (cd_members current))).

Definition build_of (operation : OperationId) (target : ReplicaIdentity) (b : AgentBuildReport) : bool :=
  (ab_build_id b == operation) && (ab_target b == target) && ab_completed b.

Definition evaluate_failover_repair (s : ObservationSnapshot) (t : TransitionIntent)
    (previous current : ConfigurationDescriptor) (primary : ConfigurationMember)
    (primary_report : AgentReport) (reports : list AgentReport) (status : AcceptedStatus)
    : eval (option Plan) :=
  let repair :=
    retained_from ← ar_catch_up_capability primary_report;
    or_else (ti_repair t)
      (lagging_member s t current (cm_identity primary) reports retained_from) in
  match repair with
  | None => Ok None
  | Some repair =>
      if is_none (ti_repair t) then
        Ok (Some (persist (status <| st_transition := Some (t <| ti_repair := Some repair |>) |>)
                    "FailoverFullCopyAuthorized"
                    "Persisted exact full-copy authority for a configured lagging member"))
      else
        let target_report := List.find (fun r => ar_identity r == rri_target repair) reports in
        let source_complete :=
          existsb (fun b => build_of (rri_operation_id repair) (rri_target repair) b
                            && (ar_current_progress primary_report <=? ab_durable_lsn b))
            (ar_builds primary_report) in
        let target_complete :=
          is_some_and (fun r => existsb (build_of (rri_operation_id repair) (rri_target repair))
                                  (ar_builds r)) target_report in
        if negb source_complete || negb target_complete then
          Ok (Some (Execute (build_command (rri_operation_id repair) (cm_identity primary)
                               (rri_target repair))))
        else
          let? target := expect (find_member (rri_target repair) current) in
          let restored :=
            is_some_and (fun r => (ar_role r == cm_role target)
                                  && (ar_current_progress primary_report <=? ar_current_progress r)
                                  && holds_joint previous current r) target_report in
          if negb restored then
            Ok (Some (Execute (CmdEnsureConfiguration
              (failover_configuration_command previous current target (ti_effective_policy t)
                 (operation_for t "post-copy" target) (ti_election_lsn t) ReconfigurationPending
                 false []))))
          else
            Ok (Some (persist (status <| st_transition := Some (t <| ti_repair := None |>) |>)
                        "FailoverFullCopyCompleted"
                        "Completed one exact repair and will evaluate any remaining lagging members"))
  end.

(** ** The failover transition *)

(** The members with the primary last. *)
Definition primary_last (primary : ConfigurationMember) (members : list ConfigurationMember)
    : list ConfigurationMember :=
  List.filter (fun m => cm_identity m != cm_identity primary) members ++ [primary].

(** The first reachable member that has not installed the election epoch. *)
Definition install_election (s : ObservationSnapshot) (t : TransitionIntent)
    (previous : ConfigurationDescriptor) (primary : ConfigurationMember)
    (union : list ConfigurationMember) : option Plan :=
  let current := ti_current_configuration t in
  m ← List.find (fun m => is_some_and (fun r => negb (holds_joint previous current r)
                                                && is_none (ar_pending_operation_id r))
                            (healthy_report s (cm_identity m))) (primary_last primary union);
  Some (Execute (CmdEnsureConfiguration
    (failover_configuration_command previous current m (ti_effective_policy t)
       (failover_install_operation_id t m) (ti_election_lsn t) ReconfigurationPending false []))).

(** The reports of members at the election epoch. *)
Definition exact_joint_reports (s : ObservationSnapshot) (previous current : ConfigurationDescriptor)
    (union : list ConfigurationMember) : list AgentReport :=
  omap (fun m => opt_filter (holds_joint previous current) (exact_report s (cm_identity m))) union.

(** The reports that elect: fenced at the epoch, and not of the failed primary. *)
Definition election_reports (status : AcceptedStatus) (current : ConfigurationDescriptor)
    (reports : list AgentReport) : list AgentReport :=
  List.filter (fun r => has_member current (ar_identity r)
                        && (ar_deactivation_epoch r == Some (cd_epoch current))
                        && is_none_or (fun f => pfo_primary f != ar_identity r)
                             (st_primary_failure status)) reports.

Definition corrected_intent (s : ObservationSnapshot) (t : TransitionIntent) (candidate : AgentReport)
    : TransitionIntent :=
  let current := ti_current_configuration t in
  let corrected := configuration_with_primary current (ar_identity candidate)
                     (next_epoch (cd_epoch current)) in
  plain_transition (transition_id s Failover corrected) Failover (ti_spec_generation t)
    (ti_effective_policy t) (ti_previous_configuration_id t) corrected
    (Some (ar_current_progress candidate)) (ti_build_id t).

Definition grant_elected (t : TransitionIntent) (previous : ConfigurationDescriptor)
    (primary : ConfigurationMember) : Plan :=
  Execute (CmdEnsureConfiguration
    (failover_configuration_command previous (ti_current_configuration t) primary
       (ti_effective_policy t) (operation_for t "grant-write" primary) (ti_election_lsn t)
       Granted false [])).

(** The election: choose, repair, grant, and wait for the deactivation quorums. *)
Definition elect (s : ObservationSnapshot) (t : TransitionIntent) (status : AcceptedStatus)
    (previous : ConfigurationDescriptor) (primary : ConfigurationMember)
    (exact live : list AgentReport) (config : EvaluationConfig) : eval (option Plan) :=
  let current := ti_current_configuration t in
  let quorum := read_quorum (ti_effective_policy t) in
  let pending reason message := Ok (Some (wait AwaitingStableEvidence status reason message config)) in
  match select_failover_candidate current (election_reports status current exact) with
  | None => pending "ElectionProgressPending"
              "Waiting for epoch-fenced progress and deactivation evidence"
  | Some candidate =>
      if is_none (healthy_report s (ar_identity candidate)) then
        pending "ElectionWinnerUnavailable"
          "The highest exact epoch-fenced progress winner is not currently available"
      else
        let primary_report := List.find (fun r => ar_identity r == cm_identity primary) live in
        if (ar_identity candidate != cm_identity primary)
           && is_none_or (fun r => ar_write_status r != Granted) primary_report
        then Ok (Some (persist (status <| st_transition := Some (corrected_intent s t candidate) |>)
                         "FailoverCandidateCorrected"
                         "Allocated a newer epoch for the authoritative progress winner"))
        else
          match primary_report with
          | None => pending "PrimaryElectionEvidencePending"
                      "The selected primary has not completed its write-closed election command"
          | Some primary_report =>
              let? repair := evaluate_failover_repair s t previous current primary primary_report live
                               status in
              match repair with
              | Some plan => Ok (Some plan)
              | None =>
                  if (ar_write_status primary_report != Granted)
                     || negb (ar_catch_up_complete primary_report)
                  then Ok (Some (grant_elected t previous primary))
                  else if negb (configuration_deactivation_quorum previous exact quorum (cd_epoch current))
                          || negb (configuration_deactivation_quorum current exact quorum
                                     (cd_epoch current))
                  then Ok (Some (wait ActiveTransition status "DeactivationQuorumPending"
                         "Waiting for PC and CC deactivation evidence before current-only activation"
                         config))
                  else Ok None
              end
          end
  end.

Definition retired_builds (s : ObservationSnapshot) (t : TransitionIntent)
    (primary : ConfigurationMember) : list OperationId :=
  option_list (ti_build_id t)
  ++ map (fun m => derive_failover_repair_operation_id (os_resource_uid s) (ti_transition_id t)
                     (cm_identity m))
       (List.filter (fun m => cm_identity m != cm_identity primary)
          (cd_members (ti_current_configuration t))).

(** The first reachable member without the current configuration alone. *)
Definition activate_current_only (s : ObservationSnapshot) (t : TransitionIntent)
    (previous : ConfigurationDescriptor) (primary : ConfigurationMember) : option Plan :=
  let current := ti_current_configuration t in
  m ← List.find (fun m => is_some_and (fun r =>
         negb (holds_current_only current r && is_none (ar_pending_operation_id r)
               && (ar_retained_operation_id r == Some (failover_current_only_operation_id t m))))
         (healthy_report s (cm_identity m))) (cd_members current);
  Some (Execute (CmdEnsureConfiguration
    (failover_configuration_command previous current m (ti_effective_policy t)
       (failover_current_only_operation_id t m) (ti_election_lsn t)
       (if cm_identity m == cm_identity primary then Granted else ReconfigurationPending)
       true (retired_builds s t primary)))).

Definition accept_failover (s : ObservationSnapshot) (t : TransitionIntent)
    (previous : ConfigurationDescriptor) : Plan :=
  let current := ti_current_configuration t in
  let retired :=
    existsb (fun p => forallb (fun c => (member_id c != member_id p) || (cm_identity c != cm_identity p))
                        (cd_members current)) (cd_members previous) in
  let accepted := clear_evaluator_conditions (os_status s) in
  let accepted := accepted <| st_observed_generation := ti_spec_generation t |>
    <| st_topology := Some current |> <| st_transition := None |>
    <| st_scale_up_allocation :=
         (fun a => a <| sua_accepted_configuration_id := cd_configuration_id current |>)
           <$> st_scale_up_allocation accepted |> in
  let accepted := if retired
    then accepted <| st_last_replacement := st_pending_replacement_cleanup accepted |>
           <| st_pending_replacement_cleanup := None |>
    else accepted in
  Apply [PersistStatus
    (with_condition (progressing_condition "FailoverTopologyAccepted"
                       "Accepted the epoch-fenced failover topology")
       (accepted <| st_primary_failure := None |> <| st_quorum_loss := None |>))].

(** The primary attests writes under the current configuration alone, with a quorum. *)
Definition current_only_quorum (current : ConfigurationDescriptor) (primary : ConfigurationMember)
    (reports : list AgentReport) : bool :=
  existsb (fun r => (ar_identity r == cm_identity primary) && (ar_write_status r == Granted)) reports
  && configuration_report_quorum current reports.

Definition evaluate_failover_transition (s : ObservationSnapshot) (t : TransitionIntent)
    (status : AcceptedStatus) (config : EvaluationConfig) : eval Plan :=
  let? previous := expect (st_topology (os_status s)) in
  let current := ti_current_configuration t in
  let quorum := read_quorum (ti_effective_policy t) in
  let? primary := configuration_primary current in
  if routed s
  then Ok (remove_routing status "Write routing remains fenced throughout failover")
  else
    let started := existsb (fun m => is_some_and (holds_current_only current)
                                       (healthy_report s (cm_identity m))) (cd_members current) in
    let union := configuration_union previous current in
    match (if started then None else install_election s t previous primary union) with
    | Some plan => Ok plan
    | None =>
        let exact := exact_joint_reports s previous current union in
        let live := List.filter (fun r => is_some (healthy_report s (ar_identity r))) exact in
        if negb started && (negb (configuration_read_quorum previous exact quorum)
                            || negb (configuration_read_quorum current exact quorum))
        then Ok (wait QuorumLoss status "ElectionEpochReadQuorumPending"
               "Eligible replicas must accept the election epoch before candidate selection" config)
        else
          let? election := if started then Ok None
                           else elect s t status previous primary exact live config in
          match election with
          | Some plan => Ok plan
          | None =>
              match activate_current_only s t previous primary with
              | Some plan => Ok plan
              | None =>
                  let reports := omap (fun m => opt_filter (holds_current_only current)
                                                  (healthy_report s (cm_identity m)))
                                   (cd_members current) in
                  if current_only_quorum current primary reports
                  then Ok (accept_failover s t previous)
                  else Ok (Wait ActiveTransition status (wait_requeue_seconds config))
              end
          end
    end.

End failover.
