(* ===== verification/EvaluatorScaleDown.v ===== *)
(** * Removing the highest secondary ([kuberic-controller/src/evaluator/secondary_scale_down.rs])

    A reduction of the replica count removes the committed secondary with the highest id:
    freeze the intent ([scale_down_begin]), close the primary's writes and collect the
    certificates of the frozen removal ([scale_down_transition]), accept the reduced
    topology, then retire the target and delete exactly its frozen resources
    ([scale_down_cleanup]).  A receipt keeps converging retained members afterwards
    ([scale_down_completed], [recover_local_acceptance]). *)

From S2P Require Import Prelude Digest Types Intents Commands Observations Validation.
From S2P Require Import ScaleDown ScaleUp SnapshotValidation EvaluatorBase.
From stdpp Require Import base gmap strings list pretty.
From Stdlib Require Import ZArith Lia.
Local Open Scope Z_scope.

(** ** Exact resources *)

(** The only observation of the target's resources. *)
Definition resources (s : ObservationSnapshot) (target : ReplicaIdentity)
    : option SecondaryScaleDownResourceObservation :=
  match List.filter (fun r => (sro_resource_uid r == os_resource_uid s) && (sro_target r == target))
          (os_secondary_scale_down_resources s) with
  | [r] => Some r
  | _ => None
  end.

(** The frozen resource is gone; another object under its name is not it. *)
Definition absent (identity : CleanupResourceIdentity) (observation : ExactResourceObservation) : bool :=
  match identity, observation with
  | _, ResourceNotFound => true
  | CleanupPresent _ uid, ReplacementPresent replacement version =>
      negb (is_empty replacement) && (replacement != uid) && negb (is_empty version)
  | CleanupAbsent _, ReplacementPresent uid version =>
      negb (is_empty uid) && negb (is_empty version)
  | _, _ => false
  end.

Definition observed (identity : CleanupResourceIdentity) (observation : ExactResourceObservation)
    : bool :=
  absent identity observation
  || match identity, observation with
     | CleanupPresent _ _, FrozenUidPresent version => negb (is_empty version)
     | _, _ => false
     end.

Definition delete_resource (resource : ScaleDownResource) (identity : CleanupResourceIdentity)
    (observation : ExactResourceObservation) : option KubernetesChange :=
  match identity, observation with
  | CleanupPresent name uid, FrozenUidPresent version =>
      then_some (negb (is_empty version)) (DeleteScaleDownResource resource name uid version)
  | _, _ => None
  end.

Definition scale_down_active (s : ObservationSnapshot) : bool :=
  let st := os_status s in
  is_some (st_secondary_scale_down_cleanup st)
  || is_some_and (fun receipt =>
       is_some_and (fun c => c == sdi_current_configuration (removal_of (srr_evidence receipt)))
         (st_topology st)) (st_last_secondary_removal st)
  || is_some_and (fun t => ti_kind t == SecondaryScaleDown) (st_transition st).

(** A healthy report of the exact replica, with its session. *)
Definition session_report (s : ObservationSnapshot) (i : ReplicaIdentity) : option AgentReport :=
  opt_filter (fun r => (ar_identity r == i) && ar_healthy r && negb (permanent_fault r)
                       && negb (is_empty (ar_process_session_id r)) && (0 <? ar_report_sequence r))
    (report_for s i).

Section scale_down.
Context `{Sha256, Texts}.

(** Drift of the specification; a smaller count is what is being done. *)
Definition drift_status (s : ObservationSnapshot) (status : AcceptedStatus) : eval AcceptedStatus :=
  let? topology := expect (st_topology status) in
  let? policy := expect (st_effective_policy status) in
  let drift := snd (desired_spec_state s topology policy) in
  let accepted_count := as_u32 (Z.of_nat (length (cd_members topology))) in
  let status := without_condition "UnsupportedSpec" status in
  match drift with
  | None => Ok status
  | Some c =>
      if (sc_reason c == "ReplicaCountImmutable") && (0 <? ds_replicas (os_desired s)) then
        if ds_replicas (os_desired s) <? accepted_count then Ok status
        else Ok (with_condition (c <| sc_reason := "ScaleUpUnsupported" |>) status)
      else Ok (with_condition c status)
  end.

(** ** Beginning a removal *)

(** A retained member has not settled the last removal yet. *)
Definition retained_unsettled (s : ObservationSnapshot) (previous : ConfigurationDescriptor)
    (receipt : SecondaryRemovalReceipt) : bool :=
  (sdi_current_configuration (removal_of (srr_evidence receipt)) == previous)
  && existsb (fun m =>
       negb (existsb (fun w => srw_identity w == cm_identity m) (srr_current_only_write_quorum receipt))
       && is_none_or (fun r => negb (stable_member_report r m previous)
                               || is_some (ar_prepared_secondary_removal r)
                               || (ar_accepted_secondary_removal r != Some (srr_committed receipt)))
            (session_report s (cm_identity m))) (cd_members previous).

Definition highest_secondary (c : ConfigurationDescriptor) : option ConfigurationMember :=
  max_by_key member_id (List.filter (fun m => cm_role m == ActiveSecondary) (cd_members c)).

Definition idle_member (previous : ConfigurationDescriptor) (m : ConfigurationMember)
    (r : AgentReport) : bool :=
  stable_member_report r m previous && is_none (ar_prepared_switchover r)
  && is_none (ar_prepared_secondary_removal r).

Definition retained_readers (s : ObservationSnapshot) (previous : ConfigurationDescriptor)
    (target : ReplicaIdentity) : Z :=
  count (fun m => is_some_and (idle_member previous m) (session_report s (cm_identity m)))
    (List.filter (fun m => cm_identity m != target) (cd_members previous)).

Definition kubernetes_of (s : ObservationSnapshot) (i : ReplicaIdentity)
    : option KubernetesReplicaObservation :=
  o ← observation_for_identity s i; ro_kubernetes o.

(** The observed Pod and volume are not the ones to be deleted, or the volume is mounted
    by a retained member. *)
Definition maps_differently (r : CleanupResourceIdentity) (name : string) (uid : option string)
    : bool :=
  match r with
  | CleanupPresent frozen_name frozen =>
      is_some_and (fun o => (o != frozen) || (name != frozen_name)) uid
  | CleanupAbsent _ => false
  end.
Definition conflicting_mapping (s : ObservationSnapshot) (previous : ConfigurationDescriptor)
    (target : ReplicaIdentity) (exact : ReplicaCleanupIdentity) : bool :=
  is_some_and (fun k => maps_differently (rci_pod exact) (ko_pod_name k) (ko_pod_uid k)
                        || maps_differently (rci_pvc exact) (ko_pvc_name k) (ko_pvc_uid k))
    (kubernetes_of s target)
  || existsb (fun m => is_some_and (fun o => present_and (fun uid => o == uid) (rci_pvc exact))
                         (kubernetes_of s (cm_identity m) ≫= ko_pvc_uid))
       (List.filter (fun m => cm_identity m != target) (cd_members previous)).

(** Some image is unknown, except of a target whose Pod is gone. *)
Definition images_pending (s : ObservationSnapshot) (previous : ConfigurationDescriptor)
    (target : ReplicaIdentity) (exact : SecondaryScaleDownResourceObservation) : bool :=
  existsb (fun m => is_none (image_of s m)
                    && negb ((cm_identity m == target)
                             && absent (rci_pod (sro_identity exact)) (sro_pod exact)))
    (cd_members previous).

Definition authority_unsettled (s : ObservationSnapshot) (previous : ConfigurationDescriptor)
    (primary : ConfigurationMember) : bool :=
  is_none_or (fun r => negb (stable_member_report r primary previous))
    (session_report s (cm_identity primary))
  || existsb (fun m => is_some_and (fun r => negb (idle_member previous m r))
                         (session_report s (cm_identity m))) (cd_members previous).

Definition scale_down_intent (s : ObservationSnapshot) (previous : ConfigurationDescriptor)
    (policy reduced : EffectivePolicy) (primary target : ReplicaIdentity) (epoch : Epoch)
    (cleanup : ReplicaCleanupIdentity) : SecondaryScaleDownIntent :=
  let draft operation :=
    {| sdi_operation_id := operation; sdi_resource_uid := os_resource_uid s;
       sdi_spec_generation := ds_generation (os_desired s);
       sdi_desired_replicas := ds_replicas (os_desired s);
       sdi_previous_configuration := previous;
       sdi_current_configuration :=
         new_configuration epoch (cd_primary_id previous)
           (List.filter (fun m => cm_identity m != target) (cd_members previous))
           (write_quorum reduced);
       sdi_previous_policy := policy; sdi_current_policy := reduced; sdi_primary := primary;
       sdi_target := target; sdi_cleanup := cleanup |} in
  draft (sdi_expected_operation_id (draft "")).

Definition freeze_removal (s : ObservationSnapshot) (status : AcceptedStatus)
    (i : SecondaryScaleDownIntent) : Plan :=
  let status := waiting_status status "ScaleDownPreparationPending"
    "Frozen exact highest-ID secondary removal; primary preparation is required" in
  let current := sdi_current_configuration i in
  let t := plain_transition
    (derive_transition_id (os_resource_uid s) SecondaryScaleDown (cd_configuration_id current))
    SecondaryScaleDown (sdi_spec_generation i) (sdi_current_policy i)
    (Some (cd_configuration_id (sdi_previous_configuration i))) current None None in
  Apply [PersistStatus (status <| st_quorum_loss := None |>
           <| st_transition := Some (t <| ti_secondary_scale_down := Some i |>) |>)].

(** [begin], once the target and its resources are known *)
Definition admit_removal (s : ObservationSnapshot) (status : AcceptedStatus)
    (previous : ConfigurationDescriptor) (policy : EffectivePolicy)
    (primary target : ConfigurationMember) (exact : SecondaryScaleDownResourceObservation)
    (config : EvaluationConfig) : eval Plan :=
  let wait reason message := Ok (wait ActiveTransition status reason message config) in
  let unsafe reason := Ok (unsafe_plan status reason config) in
  if conflicting_mapping s previous (cm_identity target) (sro_identity exact) then
    unsafe (ContradictoryReplicaEvidence
              "Scale-down exact Pod/PVC mapping conflicts with observed mounted storage")
  else if images_pending s previous (cm_identity target) exact then
    wait "ScaleDownSpecObservationPending"
      "Observe accepted-member images before admitting count-only drift"
  else if authority_unsettled s previous primary then
    wait "ScaleDownAwaitingStableAuthority"
      "Existing exact authority and local work must finish before admission"
  else
    match i64_checked_add (configuration_number (cd_epoch previous)) 1 with
    | None => unsafe (InvalidAcceptedAuthority "Scale-down configuration epoch exhausted")
    | Some number =>
        let? reduced := expect (policy_fixed (replica_set_size policy - 1)
                                  (failover_delay_seconds policy)) in
        let i := scale_down_intent s previous policy reduced (cm_identity primary)
                   (cm_identity target) (mkEpoch (data_loss_number (cd_epoch previous)) number)
                   (sro_identity exact) in
        match validate_secondary_scale_down i with
        | Err e => unsafe (InvalidAcceptedAuthority (display_error e))
        | Panic => Panic
        | Ok _ => Ok (freeze_removal s status i)
        end
    end.

Definition scale_down_begin (s : ObservationSnapshot) (status : AcceptedStatus)
    (config : EvaluationConfig) : eval (option Plan) :=
  let some := fun (m : eval Plan) => let? plan := m in Ok (Some plan) in
  match st_topology status, st_effective_policy status with
  | Some previous, Some policy =>
      if replica_set_size policy <=? ds_replicas (os_desired s) then Ok None
      else if is_some_and (retained_unsettled s previous) (st_last_secondary_removal status) then
        some (Ok (wait ActiveTransition status "ScaleDownRetainedMemberPending"
          "Settle late retained members before superseding their last removal proof" config))
      else
        let? status := drift_status s status in
        let wait reason message := some (Ok (wait ActiveTransition status reason message config)) in
        if is_some (find_condition "UnsupportedSpec" status) then
          wait "ScaleDownUnsupportedDrift"
            "Only replica-count reduction is supported; image and delay remain unchanged"
        else
          let? primary := configuration_primary previous in
          match highest_secondary previous with
          | None => Ok None
          | Some target =>
              if retained_readers s previous (cm_identity target) <? read_quorum policy then
                wait "ScaleDownRetainedReadQuorumUnavailable"
                  "Retained exact members must provide the accepted read quorum before freezing removal; existing service is unchanged"
              else
                match opt_filter (fun r => observed (rci_pod (sro_identity r)) (sro_pod r)
                                           && observed (rci_pvc (sro_identity r)) (sro_pvc r)
                                           && observed (rci_endpoint (sro_identity r)) (sro_endpoint r))
                        (resources s (cm_identity target)) with
                | None => wait "ScaleDownExactIdentityRequired"
                            "Authoritative exact Pod, mounted PVC, and endpoint identities are required"
                | Some exact =>
                    some (admit_removal s status previous policy primary target exact config)
                end
          end
  | _, _ => Ok None
  end.

(** ** Certificates *)

Definition removal_witness (r : AgentReport) : option SecondaryRemovalWitness :=
  current ← ar_current_configuration r;
  verified ← ar_verified_replication_lsn r;
  Some {| srw_resource_uid := ar_resource_uid r; srw_identity := ar_identity r;
          srw_role := ar_role r; srw_process_session_id := ar_process_session_id r;
          srw_report_sequence := ar_report_sequence r; srw_epoch := ar_epoch r;
          srw_previous_configuration_id := cd_configuration_id <$> ar_previous_configuration r;
          srw_current_configuration_id := cd_configuration_id current;
          srw_verified_replication_lsn := verified; srw_write_status := ar_write_status r;
          srw_pending_operation_id := ar_pending_operation_id r;
          srw_retained_operation_id := ar_retained_operation_id r |}.

(** The member's report does not attest the stage. *)
Definition unattested (e : SecondaryRemovalEvidence) (stage : SecondaryRemovalStage)
    (m : ConfigurationMember) (r : AgentReport) : bool :=
  let i := removal_of e in
  let old := stage == SrPrepare in
  let p := sre_preparation e in
  (ar_current_configuration r != Some (stage_configuration i stage))
  || (ar_previous_configuration r
        != then_some (stage == SrPreviousCurrent) (sdi_previous_configuration i))
  || (ar_role r != cm_role m)
  || (ar_write_status r == Granted)
  || is_some (ar_pending_operation_id r)
  || (negb old && (ar_retained_operation_id r
                     != Some (sdi_command_operation_id i stage (cm_identity m))))
  || (negb old && is_none_or (fun v => v <? srp_boundary_lsn p) (ar_verified_replication_lsn r))
  || (old && (cm_identity m == sdi_primary i)
      && ((ar_prepared_secondary_removal r != Some p)
          || (ar_retained_operation_id r != Some (srp_operation_id p)))).

Definition removal_witnesses (s : ObservationSnapshot) (e : SecondaryRemovalEvidence)
    (stage : SecondaryRemovalStage) : list SecondaryRemovalWitness :=
  omap (fun m => r ← session_report s (cm_identity m);
                 if unattested e stage m r then None else removal_witness r)
    (cd_members (sdi_current_configuration (removal_of e))).

Definition removal_configuration_command (e : SecondaryRemovalEvidence) (identity : ReplicaIdentity)
    (current_only : bool) : EnsureConfiguration :=
  let i := removal_of e in
  {| ec_operation_id := sdi_command_operation_id i
       (if current_only then SrCurrentOnly else SrPreviousCurrent) identity;
     ec_previous_configuration := then_some (negb current_only) (sdi_previous_configuration i);
     ec_current_configuration := sdi_current_configuration i;
     ec_previous_epoch := then_some (negb current_only) (cd_epoch (sdi_previous_configuration i));
     ec_current_epoch := cd_epoch (sdi_current_configuration i);
     ec_effective_policy := sdi_current_policy i; ec_previous_policy := Some (sdi_previous_policy i);
     ec_secondary_removal_evidence := Some e; ec_scale_up_evidence := None;
     ec_local_replica_id := replica_id identity; ec_expected_instance_id := instance_id identity;
     ec_expected_agent_generation := agent_generation identity;
     ec_transition_kind := SecondaryScaleDown; ec_failover_safe_lsn := None;
     ec_primary_write_status := ReconfigurationPending; ec_current_only := current_only;
     ec_retire_build_ids := []; ec_switchover_handoff := None;
     ec_retire_switchover_preparation_ids := [] |}.

(** ** Dispatching the configuration commands *)

(** The command a member needs next; replayed when it is already installed and pending. *)
Definition dispatch_member (s : ObservationSnapshot) (e : SecondaryRemovalEvidence)
    (current_only : bool) (m : ConfigurationMember) : option (bool * EnsureConfiguration) :=
  let i := removal_of e in
  r ← session_report s (cm_identity m);
  let installed := ar_current_configuration r == Some (sdi_current_configuration i) in
  if negb installed
     && ((ar_current_configuration r != Some (sdi_previous_configuration i))
         || is_some (ar_previous_configuration r))
  then None
  else
    let admission := {| sre_preparation := sre_preparation e;
                        sre_previous_read_quorum := sre_previous_read_quorum e;
                        sre_reduced_write_quorum := [] |} in
    let pc_cc := removal_configuration_command admission (cm_identity m) false in
    let pending_admission := ar_pending_operation_id r == Some (ec_operation_id pc_cc) in
    command ←
      (if negb installed || (pending_admission && is_some (ar_previous_configuration r))
       then Some pc_cc
       else if current_only
               && (is_some (ar_previous_configuration r)
                   || (ar_pending_operation_id r
                         == Some (sdi_command_operation_id i SrCurrentOnly (cm_identity m))))
       then Some (removal_configuration_command e (cm_identity m) true)
       else None);
    if is_some_and (fun id => id != ec_operation_id command) (ar_pending_operation_id r) then None
    else Some (installed && is_some (ar_pending_operation_id r), command).

Fixpoint dispatch_members (s : ObservationSnapshot) (e : SecondaryRemovalEvidence)
    (current_only : bool) (replay : option EnsureConfiguration) (members : list ConfigurationMember)
    : option EnsureConfiguration :=
  match members with
  | [] => replay
  | m :: members =>
      let continue := fun replay => dispatch_members s e current_only replay members in
      match dispatch_member s e current_only m with
      | None => continue replay
      | Some (false, command) => Some command
      | Some (true, command) =>
          continue (if is_none replay || (cm_role m == Primary) then Some command else replay)
      end
  end.

(** Secondaries by id, the primary last. *)
Definition dispatch (s : ObservationSnapshot) (e : SecondaryRemovalEvidence) (current_only : bool)
    : option Plan :=
  let members := cd_members (sdi_current_configuration (removal_of e)) in
  command ← dispatch_members s e current_only None
              (sort_by_key member_id (List.filter (fun m => cm_role m != Primary) members)
               ++ sort_by_key member_id (List.filter (fun m => cm_role m == Primary) members));
  Some (Execute (CmdEnsureConfiguration command)).

(** ** The transition *)

Definition set_removal_evidence (e : SecondaryRemovalEvidence) (status : AcceptedStatus)
    : eval AcceptedStatus :=
  let? t := expect (st_transition status) in
  Ok (status <| st_transition := Some (t <| ti_secondary_removal_evidence := Some e |>) |>).

(** Prepare the primary, then freeze the read quorum of the accepted epoch. *)
Definition prepare_removal (s : ObservationSnapshot) (status : AcceptedStatus)
    (i : SecondaryScaleDownIntent) (primary : AgentReport) (config : EvaluationConfig) : eval Plan :=
  let operation := sdi_command_operation_id i SrPrepare (sdi_primary i) in
  match ar_prepared_secondary_removal primary with
  | None =>
      if is_some_and (fun id => id != operation) (ar_pending_operation_id primary) then
        Ok (wait ActiveTransition status "ScaleDownPreparationPending"
              "The primary is completing local work" config)
      else
        Ok (Execute (CmdPrepareSecondaryRemoval
          {| psr_operation_id := operation; psr_local_replica_id := replica_id (sdi_primary i);
             psr_expected_instance_id := instance_id (sdi_primary i);
             psr_expected_agent_generation := agent_generation (sdi_primary i); psr_intent := i |}))
  | Some preparation =>
      let collected quorum := {| sre_preparation := preparation; sre_previous_read_quorum := quorum;
                                 sre_reduced_write_quorum := [] |} in
      let e := collected (removal_witnesses s (collected []) SrPrepare) in
      let? unproven :=
        if is_some (ar_pending_operation_id primary)
           || (ar_retained_operation_id primary != Some (srp_operation_id preparation))
           || is_none_or (fun lsn => lsn <? srp_boundary_lsn preparation)
                (ar_verified_replication_lsn primary)
        then Ok true
        else is_err (validate_secondary_removal_evidence e false) in
      if unproven then
        Ok (wait ActiveTransition status "ScaleDownPreviousReadQuorumUnavailable"
              "Fresh retained accepted-epoch read quorum and verified primary preparation are required"
              config)
      else
        let? status := set_removal_evidence e status in
        Ok (persist status "ScaleDownReducedWriteQuorumUnavailable"
              "Frozen previous read evidence; converging write-closed reduced PC/CC")
  end.

(** Collect the reduced write quorum under both configurations. *)
Definition collect_reduced (s : ObservationSnapshot) (status : AcceptedStatus)
    (i : SecondaryScaleDownIntent) (frozen : SecondaryRemovalEvidence) (primary : AgentReport)
    (config : EvaluationConfig) : eval Plan :=
  let e := {| sre_preparation := sre_preparation frozen;
              sre_previous_read_quorum := sre_previous_read_quorum frozen;
              sre_reduced_write_quorum := removal_witnesses s frozen SrPreviousCurrent |} in
  let current := sdi_current_configuration i in
  let? unproven := is_err (validate_secondary_removal_evidence e true) in
  if unproven then
    let admitted_quorum :=
      (ar_current_configuration primary == Some current)
      && (write_quorum (sdi_current_policy i)
            <=? count (fun m => is_some_and (fun r =>
                    (ar_current_configuration r == Some current)
                    && (ar_previous_configuration r == Some (sdi_previous_configuration i)))
                    (session_report s (cm_identity m))) (cd_members current)) in
    Ok (wait ActiveTransition status
          (if admitted_quorum then "ScaleDownReducedCatchUpPending"
           else "ScaleDownReducedWriteQuorumUnavailable")
          "Exact reduced write quorum including the primary must verify the prepared boundary" config)
  else
    let? status := set_removal_evidence e status in
    Ok (persist status "ScaleDownCurrentOnlyQuorumUnavailable"
          "Frozen reduced write evidence; converging fresh current-only write quorum").

(** Collect the current-only write quorum and accept the reduced topology. *)
Definition commit_removal (s : ObservationSnapshot) (status : AcceptedStatus)
    (i : SecondaryScaleDownIntent) (e : SecondaryRemovalEvidence) (config : EvaluationConfig)
    : eval Plan :=
  let cleanup := {| sdc_evidence := e;
                    sdc_current_only_write_quorum := removal_witnesses s e SrCurrentOnly;
                    sdc_retirement := None |} in
  let? unproven := is_err (validate_secondary_scale_down_cleanup cleanup) in
  Ok (if unproven then
    wait ActiveTransition status "ScaleDownCurrentOnlyQuorumUnavailable"
      "Fresh completed exact current-only write quorum must cover the prepared boundary" config
  else
    persist (status <| st_topology := Some (sdi_current_configuration i) |>
               <| st_effective_policy := Some (sdi_current_policy i) |>
               <| st_transition := None |> <| st_quorum_loss := None |>
               <| st_secondary_scale_down_cleanup := Some cleanup |>
               <| st_last_secondary_removal := None |>)
      "ScaleDownRetirementPending"
      "Reduced topology and policy committed atomically; exact target retirement and cleanup remain").

Definition scale_down_transition (s : ObservationSnapshot) (t : TransitionIntent)
    (config : EvaluationConfig) : eval Plan :=
  let? i := expect (ti_secondary_scale_down t) in
  let? status := drift_status s (os_status s) in
  let wait reason message := Ok (wait ActiveTransition status reason message config) in
  if routed s then Ok (Apply [RemoveWriteRouting])
  else
    match session_report s (sdi_primary i) with
    | None => wait "ScaleDownPrimaryUnavailable"
                "The frozen exact primary must recover; no failover or substitution is permitted"
    | Some primary =>
        if (ar_role primary != Primary)
           || is_none_or (fun c => (c != sdi_previous_configuration i)
                                   && (c != sdi_current_configuration i))
                (ar_current_configuration primary)
        then wait "ScaleDownPrimaryUnavailable"
               "The frozen exact primary must attest previous or requested authority"
        else
          match ti_secondary_removal_evidence t with
          | None => prepare_removal s status i primary config
          | Some e =>
              if (ar_current_configuration primary == Some (sdi_previous_configuration i))
                 && ((ar_prepared_secondary_removal primary != Some (sre_preparation e))
                     || is_none_or (fun lsn => lsn <? srp_boundary_lsn (sre_preparation e))
                          (ar_verified_replication_lsn primary))
              then wait "ScaleDownPreparationPending"
                     "Recover the exact frozen durable preparation; never replace its boundary"
              else
                let current_only := sre_reduced_write_quorum e != [] in
                match dispatch s e current_only with
                | Some plan => Ok plan
                | None =>
                    if negb current_only then collect_reduced s status i e primary config
                    else commit_removal s status i e config
                end
          end
    end.

(** ** After the commit *)

(** Tell the members of a committed removal that it is committed. *)
Definition converge_committed (s : ObservationSnapshot) (c : SecondaryScaleDownCleanup)
    : option Plan :=
  match dispatch s (sdc_evidence c) true with
  | Some plan => Some plan
  | None =>
      let i := removal_of (sdc_evidence c) in
      let current := sdi_current_configuration i in
      let operation m := sdi_command_operation_id i SrAcceptCommit (cm_identity m) in
      m ← List.find (fun m => is_some_and (fun r =>
             (ar_identity r == cm_identity m) && (ar_role r == cm_role m)
             && (ar_epoch r == cd_epoch current) && is_none (ar_previous_configuration r)
             && (ar_current_configuration r == Some current)
             && is_none_or (fun id => id == operation m) (ar_pending_operation_id r)
             && (is_some (ar_pending_operation_id r)
                 || is_none_or (fun accepted =>
                      (sdc_evidence accepted != sdc_evidence c)
                      || (sdc_current_only_write_quorum accepted != sdc_current_only_write_quorum c))
                      (ar_accepted_secondary_removal r)))
             (session_report s (cm_identity m))) (cd_members current);
      Some (Execute (CmdAcceptSecondaryRemovalCommit
        {| arc_operation_id := operation m; arc_target := cm_identity m;
           arc_committed := {| sdc_evidence := sdc_evidence c;
                               sdc_current_only_write_quorum := sdc_current_only_write_quorum c;
                               sdc_retirement := None |};
           arc_local_recovery := false |}))
  end.

Definition access (i : SecondaryScaleDownIntent) (primary : ConfigurationMember)
    (status : AccessStatus) : Plan :=
  Execute (CmdEnsureConfiguration
    (ensure_configuration_command (sdi_current_configuration i) primary (sdi_current_policy i)
       ("availability:" +:+ cd_configuration_id (sdi_current_configuration i) +:+ ":"
          +:+ if status == Granted then "grant-write" else "no-write-quorum") status false)).

(** Delete a frozen resource, with the reason persisted first. *)
Definition delete_frozen (s : ObservationSnapshot) (status : AcceptedStatus)
    (resource : ScaleDownResource) (identity : CleanupResourceIdentity)
    (observation : ExactResourceObservation) (reason pending message : string)
    (config : EvaluationConfig) : Plan :=
  let status := waiting_status status reason
    "Post-commit cleanup is limited to frozen UIDs; PVC deletion requires authoritative Pod absence" in
  match delete_resource resource identity observation with
  | Some change => if status != os_status s then Apply [PersistStatus status] else Apply [change]
  | None => wait ActiveTransition status pending message config
  end.

(** The target's own retirement, while its Pod exists and it can take the command. *)
Definition retire_target (s : ObservationSnapshot) (status : AcceptedStatus)
    (c : SecondaryScaleDownCleanup) (exact : SecondaryScaleDownResourceObservation)
    (config : EvaluationConfig) : eval (option Plan) :=
  let i := removal_of (sdc_evidence c) in
  let operation := sdi_command_operation_id i SrRetire (sdi_target i) in
  match (if is_none (sdc_retirement c) && negb (absent (rci_pod (sdi_cleanup i)) (sro_pod exact))
         then opt_filter (fun r => negb (is_empty (ar_process_session_id r))
                                   && (0 <? ar_report_sequence r)
                                   && negb (epoch_ltb (ar_epoch r)
                                              (cd_epoch (sdi_previous_configuration i))
                                            && is_some (ar_current_configuration r)))
                (report_for s (sdi_target i))
         else None) with
  | None => Ok None
  | Some target =>
      match ar_retired_replica target with
      | Some retirement =>
          let? cleanup := expect (st_secondary_scale_down_cleanup status) in
          Ok (Some (persist (status <| st_secondary_scale_down_cleanup := Some
                      {| sdc_evidence := sdc_evidence cleanup;
                         sdc_current_only_write_quorum := sdc_current_only_write_quorum cleanup;
                         sdc_retirement := Some retirement |} |>)
                "ScaleDownCleanupPending"
                "Exact target retirement is durable; resource cleanup remains"))
      | None =>
          if is_none_or (fun id => id == operation) (ar_pending_operation_id target) then
            Ok (Some (Execute (CmdRetireReplica
              {| rr_operation_id := operation; rr_local_replica_id := replica_id (sdi_target i);
                 rr_expected_instance_id := instance_id (sdi_target i);
                 rr_expected_agent_generation := agent_generation (sdi_target i);
                 rr_committed := c |})))
          else Ok (Some (wait ActiveTransition status "ScaleDownRetirementPending"
                           "Exact target retirement is pending" config))
      end
  end.

(** Deleting the target's endpoint, its Pod and its volume, in that order. *)
Definition delete_target (s : ObservationSnapshot) (status : AcceptedStatus)
    (c : SecondaryScaleDownCleanup) (exact : SecondaryScaleDownResourceObservation)
    (config : EvaluationConfig) : eval Plan :=
  let frozen := sdi_cleanup (removal_of (sdc_evidence c)) in
  let lookup :=
    "An authoritative exact-name lookup is required; no absence inferred from lists or RPC failure" in
  if negb (absent (rci_endpoint frozen) (sro_endpoint exact)) then
    Ok (delete_frozen s status ResourceEndpoint (rci_endpoint frozen) (sro_endpoint exact)
          "ScaleDownCleanupPending" "ScaleDownCleanupPending"
          "An authoritative exact endpoint lookup is required" config)
  else
    let? retirement := retire_target s status c exact config in
    match retirement with
    | Some plan => Ok plan
    | None =>
        if negb (absent (rci_pod frozen) (sro_pod exact)) then
          Ok (delete_frozen s status ResourcePod (rci_pod frozen) (sro_pod exact)
                "ScaleDownExactPodFencePending" "ScaleDownExactPodAbsenceRequired" lookup config)
        else if negb (absent (rci_pvc frozen) (sro_pvc exact)) then
          Ok (delete_frozen s status ResourcePvc (rci_pvc frozen) (sro_pvc exact)
                "ScaleDownCleanupPending" "ScaleDownCleanupPending" lookup config)
        else
          Ok (persist (status <| st_secondary_scale_down_cleanup := None |>
                         <| st_last_secondary_removal := Some
                              {| srr_evidence := sdc_evidence c;
                                 srr_current_only_write_quorum := sdc_current_only_write_quorum c |} |>)
                "ScaleDownCleanupComplete"
                "Exact cleanup completed; re-observe latest desired state before another removal")
    end.

Definition scale_down_cleanup (s : ObservationSnapshot) (c : SecondaryScaleDownCleanup)
    (config : EvaluationConfig) : eval Plan :=
  let i := removal_of (sdc_evidence c) in
  let current := sdi_current_configuration i in
  let? status := drift_status s (os_status s) in
  let wait reason message := Ok (wait ActiveTransition status reason message config) in
  match session_report s (sdi_primary i) with
  | None =>
      if routed s then Ok (Apply [RemoveWriteRouting])
      else wait "ScaleDownPrimaryUnavailable"
             "Accepted reduced authority remains frozen during cleanup; the exact primary must recover"
  | Some primary =>
      match converge_committed s c with
      | Some plan => Ok plan
      | None =>
          let quorum :=
            write_quorum (sdi_current_policy i)
              <=? count (fun m => is_some_and (fun r =>
                      stable_member_report r m current
                      && is_some_and (fun v => srp_boundary_lsn (sre_preparation (sdc_evidence c)) <=? v)
                           (ar_verified_replication_lsn r)) (session_report s (cm_identity m)))
                    (cd_members current) in
          let? primary_member := configuration_primary current in
          if negb quorum || negb (stable_member_report primary primary_member current) then
            if routed s then Ok (Apply [RemoveWriteRouting])
            else if ar_write_status primary == Granted
            then Ok (access i primary_member NoWriteQuorum)
            else wait "ScaleDownReducedWriteQuorumUnavailable"
                   "Accepted reduced current-only quorum is unavailable"
          else if ar_write_status primary != Granted then Ok (access i primary_member Granted)
          else if negb (ro_service_present (os_routing s)) then Ok (Apply [EnsureWriteRoutingService])
          else if ro_unresolved_write_target (os_routing s)
                  || is_some_and (fun id => id != sdi_primary i) (ro_write_target (os_routing s))
          then Ok (Apply [RemoveWriteRouting])
          else if is_none (ro_write_target (os_routing s))
          then Ok (Apply [PublishWriteRouting (sdi_primary i)])
          else
            match opt_filter (fun r => sro_identity r == sdi_cleanup i) (resources s (sdi_target i)) with
            | None => wait "ScaleDownExactPodAbsenceRequired"
                        "Re-observe frozen resource names and UIDs; label-list omission is not absence"
            | Some exact => delete_target s status c exact config
            end
      end
  end.

(** ** Receipts of a completed removal *)

(** A member left behind at the removal's authority. *)
Definition at_removal_authority (receipt : SecondaryRemovalReceipt) (r : AgentReport) : bool :=
  (ar_current_configuration r == Some (sdi_current_configuration (removal_of (srr_evidence receipt))))
  && is_none (ar_previous_configuration r)
  && (ar_secondary_removal_evidence r == Some (srr_evidence receipt))
  && is_none (ar_accepted_secondary_removal r).

Definition recover_local_acceptance (s : ObservationSnapshot) (config : EvaluationConfig)
    : option Plan :=
  receipt ← st_last_secondary_removal (os_status s);
  topology ← st_topology (os_status s);
  let i := removal_of (srr_evidence receipt) in
  let current := sdi_current_configuration i in
  if epoch_leb (cd_epoch topology) (cd_epoch current) then None
  else
    head (omap (fun m =>
      if (cm_role m != ActiveSecondary) || negb (has_member topology (cm_identity m)) then None
      else
        r ← opt_filter (at_removal_authority receipt) (session_report s (cm_identity m));
        let operation := sdi_command_operation_id i SrAcceptCommit (cm_identity m) in
        if (ar_role r != cm_role m) || (ar_epoch r != cd_epoch current)
           || (ar_write_status r == Granted) || is_some (ar_prepared_secondary_removal r)
           || is_some_and (fun id => id != operation) (ar_pending_operation_id r)
           || is_none_or (fun lsn => lsn <? srp_boundary_lsn (sre_preparation (srr_evidence receipt)))
                (ar_verified_replication_lsn r)
        then Some (wait ActiveTransition (os_status s) "ScaleDownLocalAcceptancePending"
               "Exact historical local authority, completed work and verified boundary are required before correction"
               config)
        else Some (Execute (CmdAcceptSecondaryRemovalCommit
               {| arc_operation_id := operation; arc_target := cm_identity m;
                  arc_committed := srr_committed receipt; arc_local_recovery := true |})))
      (cd_members current)).

Definition scale_down_completed (s : ObservationSnapshot) (receipt : SecondaryRemovalReceipt)
    (config : EvaluationConfig) : option Plan :=
  let current := sdi_current_configuration (removal_of (srr_evidence receipt)) in
  topology ← st_topology (os_status s);
  if topology != current then None
  else
    match converge_committed s (srr_committed receipt) with
    | Some plan => Some plan
    | None =>
        then_some (existsb (fun m => is_some_and (fun r => negb (stable_member_report r m current))
                                       (report_for s (cm_identity m))) (cd_members current))
          (wait ActiveTransition (os_status s) "ScaleDownRetainedMemberPending"
             "Retained local work must complete; conflicting pending commands cannot be replaced" config)
    end.

End scale_down.
