(* ===== verification/EvaluatorReplacement.v ===== *)
(** * Replacing a secondary ([kuberic-controller/src/evaluator.rs],
    [kuberic-controller/src/evaluator/replacement_cleanup.rs])

    A failed secondary is replaced by a new incarnation of the same logical replica: the
    old incarnation's resources are frozen for cleanup, the new one is provisioned and
    built outside authority ([evaluate_provisioning]), takes part in a transition of equal
    cardinality ([evaluate_replacement_transition]), and the frozen resources are deleted
    once the new topology is accepted ([evaluate_cleanup]). *)

From S2P Require Import Prelude Digest Types Intents Commands Observations Validation.
From S2P Require Import ScaleDown ScaleUp SnapshotValidation EvaluatorBase.
From S2P Require Import EvaluatorFailover EvaluatorScaleDown.
From stdpp Require Import base gmap strings list pretty.
From Stdlib Require Import ZArith Lia.
Local Open Scope Z_scope.

Section replacement.
Context `{Sha256, Texts}.

(** ** Cleanup of the old incarnation *)

(** The endpoint as it is observed now. *)
Definition frozen_endpoint (identity : CleanupResourceIdentity) (o : ExactResourceObservation)
    : option CleanupResourceIdentity :=
  match identity, o with
  | _, ResourceNotFound => Some (CleanupAbsent (cleanup_name identity))
  | CleanupPresent _ _, FrozenUidPresent _ => Some identity
  | _, _ => None
  end.

Definition freeze (s : ObservationSnapshot) (target : ReplicaIdentity) : option ReplacementCleanup :=
  exact ← resources s target;
  let i := sro_identity exact in
  if observed (rci_pod i) (sro_pod exact) && observed (rci_pvc i) (sro_pvc exact)
     && observed (rci_endpoint i) (sro_endpoint exact)
  then
    endpoint ← frozen_endpoint (rci_endpoint i) (sro_endpoint exact);
    opt_filter (fun c => is_ok (validate_replacement_cleanup c))
      (Some {| rc_resource_uid := os_resource_uid s; rc_target := target;
               rc_resources := {| rci_pod := rci_pod i; rci_pvc := rci_pvc i;
                                  rci_endpoint := endpoint |} |})
  else None.

Definition cleanup_waiting (s : ObservationSnapshot) (config : EvaluationConfig) : Plan :=
  if is_none (st_last_replacement (os_status s))
     && is_none (st_pending_replacement_cleanup (os_status s))
  then wait ActiveTransition (os_status s) "ReplacementCleanupIdentityPending"
         "Authoritative old-incarnation cleanup identity is required before replacement; legacy in-flight work without provenance remains fenced"
         config
  else wait ActiveTransition (os_status s) "ReplacementCleanupPending"
         "Exact replacement cleanup must finish before another operation can start" config.

(** [replacement_cleanup::admit] *)
Definition admit_cleanup (s : ObservationSnapshot) (target : ReplicaIdentity)
    (config : EvaluationConfig) : eval (option Plan) :=
  match st_pending_replacement_cleanup (os_status s) with
  | Some c => Ok (if rc_target c != target then Some (cleanup_waiting s config) else None)
  | None =>
      match freeze s target with
      | None => Ok (Some (cleanup_waiting s config))
      | Some c =>
          let status := (os_status s) <| st_pending_replacement_cleanup := Some c |> in
          let? invalid := is_err (validate_status status) in
          Ok (Some (if invalid then cleanup_waiting s config
                    else persist status "ReplacementCleanupFrozen"
                           "Persist exact old-incarnation cleanup before replacement side effects"))
      end
  end.

(** Delete the endpoint, the Pod and the volume of the old incarnation, one at a time. *)
Definition evaluate_cleanup (s : ObservationSnapshot) (c : ReplacementCleanup)
    (config : EvaluationConfig) : Plan :=
  match opt_filter (fun r => (sro_identity r == rc_resources c)
                             && (sro_resource_uid r == rc_resource_uid c)) (resources s (rc_target c)) with
  | None => cleanup_waiting s config
  | Some exact =>
      match List.find (fun x => negb (absent (snd (fst x)) (snd x)))
              [(ResourceEndpoint, rci_endpoint (rc_resources c), sro_endpoint exact);
               (ResourcePod, rci_pod (rc_resources c), sro_pod exact);
               (ResourcePvc, rci_pvc (rc_resources c), sro_pvc exact)] with
      | Some (kind, frozen, observation) =>
          match delete_resource kind frozen observation with
          | Some change => Apply [change]
          | None => cleanup_waiting s config
          end
      | None =>
          persist ((os_status s) <| st_last_replacement := None |>) "ReplacementCleanupComplete"
            "Frozen replacement resources are absent; re-observe before admitting new work"
      end
  end.

(** ** Which members are replaced *)

Definition orphaned_storage (s : ObservationSnapshot) (id : ReplicaId) : bool :=
  existsb (fun x => (rok_replica_id (fst x) == id)
                    && is_some_and (fun k => is_none (ko_pod_uid k) && is_some (ko_pvc_uid k))
                         (ro_kubernetes (snd x))) (replicas_in_order s).

Definition replacement_needed (s : ObservationSnapshot) (c : ConfigurationDescriptor)
    (m : ConfigurationMember) : bool :=
  if cm_role m == Primary then false
  else
    is_some_and (fun r => permanent_fault r
                          || ((ar_role r != Primary) && (ar_write_status r != Granted)
                              && epoch_ltb (ar_epoch r) (cd_epoch c))) (report_for s (cm_identity m))
    || (is_none (kubernetes_of s (cm_identity m)) && orphaned_storage s (member_id m)).

(** A fresh incarnation of the logical replica, with its own storage. *)
Definition fresh_candidate (s : ObservationSnapshot) (failed : ReplicaIdentity)
    : option (ReplicaObservationKey * ReplicaObservation) :=
  List.find (fun x =>
    (rok_replica_id (fst x) == replica_id failed) && (rok_instance_id (fst x) != instance_id failed)
    && is_some_and (fun k => has_exact_scaffolding k && ko_peer_endpoint_ready k)
         (ro_kubernetes (snd x))
    && match ro_agent (snd x) with AgentUninitialized _ => true | _ => false end)
    (replicas_in_order s).

(** The Pod and volume of such a candidate. *)
Definition exact_scaffolding (o : ReplicaObservation) : eval (PodUid * PvcUid) :=
  let? k := expect (ro_kubernetes o) in
  let? pod := expect (ko_pod_uid k) in
  let? pvc := expect (ko_pvc_uid k) in
  Ok (pod, pvc).

(** ** Provisioning *)

Definition delete_provisioned (p : ProvisioningIntent) : KubernetesChange :=
  DeleteReplicaScaffolding None (Some (pi_pod_uid p)) None (Some (pi_pvc_uid p)).

Definition abandon_provisioning (s : ObservationSnapshot) (p : ProvisioningIntent)
    (status : AcceptedStatus) (primary : ReplicaIdentity) : Plan :=
  let started := from_option pfo_started_at_unix_seconds (os_now_unix_seconds s)
                   (opt_filter (fun f => pfo_primary f == primary) (st_primary_failure (os_status s))) in
  let status := status <| st_provisioning := None |>
    <| st_primary_failure := Some {| pfo_primary := primary;
                                     pfo_started_at_unix_seconds := started |} |> in
  Apply ([delete_provisioned p] ++ (if routed s then [RemoveWriteRouting] else [])
         ++ [PersistStatus (waiting_status status "ProvisioningAbandonedForFailover"
               "Abandoned the unaccepted replacement attempt and fenced the failed primary")]).

Definition initialize_provisioned (s : ObservationSnapshot) (p : ProvisioningIntent)
    (u : UninitializedAgentObservation) (topology : ConfigurationDescriptor) : eval Plan :=
  let? policy := expect (st_effective_policy (os_status s)) in
  Ok (Execute (CmdInitializeAgentStore
    {| ias_initialization_id := pi_initialization_id p (os_resource_uid s);
       ias_resource_uid := os_resource_uid s; ias_local_replica_id := pi_replica_id p;
       ias_expected_instance_id := pi_instance_id p; ias_expected_pod_uid := ua_pod_uid u;
       ias_expected_pvc_uid := ua_pvc_uid u;
       ias_assigned_agent_generation := pi_assigned_agent_generation p (os_resource_uid s);
       ias_effective_policy := policy; ias_bootstrap_configuration := topology;
       ias_provisioning := Some p |})).

(** The accepted configuration with the new incarnation in place of the old one. *)
Definition replacement_configuration (p : ProvisioningIntent) (topology : ConfigurationDescriptor)
    (policy : EffectivePolicy) (target : ReplicaIdentity) : ConfigurationDescriptor :=
  new_configuration (next_epoch (cd_epoch topology)) (cd_primary_id topology)
    (map (fun m => if pi_replacement p == Some (cm_identity m)
                   then {| cm_identity := target; cm_role := ActiveSecondary |} else m)
       (cd_members topology))
    (write_quorum policy).

Definition begin_replacement (s : ObservationSnapshot) (p : ProvisioningIntent)
    (topology : ConfigurationDescriptor) (target : ReplicaIdentity) : eval Plan :=
  let? policy := expect (st_effective_policy (os_status s)) in
  let current := replacement_configuration p topology policy target in
  let t := plain_transition (transition_id s Replacement current) Replacement
             (st_observed_generation (os_status s)) policy (Some (cd_configuration_id topology))
             current None (Some (pi_operation_id p)) in
  Ok (persist ((os_status s) <| st_provisioning := None |> <| st_transition := Some t |>)
        "ReplacementTransitionPersisted" "Persisted equal-cardinality PC/CC replacement authority").

Definition build_provisioned (s : ObservationSnapshot) (p : ProvisioningIntent)
    (status : AcceptedStatus) (topology : ConfigurationDescriptor) (source : ConfigurationMember)
    (target : ReplicaIdentity) (target_report : AgentReport) (config : EvaluationConfig) : eval Plan :=
  match report_for s (cm_identity source) with
  | None => Ok (Wait ProvisioningInProgress status (wait_requeue_seconds config))
  | Some source_report =>
      let source_complete :=
        existsb (fun b => build_of (pi_operation_id p) target b
                          && (ar_current_progress source_report <=? ab_durable_lsn b))
          (ar_builds source_report) in
      let target_complete :=
        existsb (build_of (pi_operation_id p) target) (ar_builds target_report) in
      if negb source_complete || negb target_complete
      then Ok (Execute (build_command (pi_operation_id p) (cm_identity source) target))
      else begin_replacement s p topology target
  end.

Definition evaluate_provisioning (s : ObservationSnapshot) (p : ProvisioningIntent)
    (config : EvaluationConfig) : eval Plan :=
  let status := waiting_status (os_status s) "ProvisioningInProgress"
    "An exact replacement remains outside authority" in
  let target := pi_target_identity p (os_resource_uid s) in
  let? topology := expect (st_topology (os_status s)) in
  let? source := expect (named_primary topology) in
  if replica_failed s (cm_identity source)
  then Ok (abandon_provisioning s p status (cm_identity source))
  else
    match observation_for_identity s target with
    | None => Ok (Apply [delete_provisioned p; PersistStatus (status <| st_provisioning := None |>)])
    | Some o =>
        match ro_agent o with
        | AgentUninitialized u => initialize_provisioned s p u topology
        | AgentReported r => build_provisioned s p status topology source target r config
        | AgentAbsent | AgentUnreachable _ =>
            Ok (Wait ProvisioningInProgress status (wait_requeue_seconds config))
        | AgentInvalid message _ =>
            Ok (unsafe_plan status (ContradictoryReplicaEvidence message) config)
        end
    end.

(** ** The replacement transition *)

(** The first reporting member, the primary last, that has not installed both
    configurations. *)
Definition install_replacement (s : ObservationSnapshot) (t : TransitionIntent)
    (previous : ConfigurationDescriptor) (primary : ConfigurationMember)
    (union : list ConfigurationMember) : option Plan :=
  let current := ti_current_configuration t in
  m ← List.find (fun m => is_some_and (fun r =>
         negb (holds_joint previous current r && is_none (ar_pending_operation_id r)
               && (ar_retained_operation_id r == Some (replacement_install_operation_id t m))))
         (report_for s (cm_identity m))) (primary_last primary union);
  Some (Execute (CmdEnsureConfiguration
    (replacement_configuration_command previous current m (ti_effective_policy t)
       (replacement_install_operation_id t m) (cm_identity m == cm_identity primary) false None))).

(** Then the current configuration alone. *)
Definition activate_replacement (s : ObservationSnapshot) (t : TransitionIntent)
    (previous : ConfigurationDescriptor) (primary : ConfigurationMember) : option Plan :=
  let current := ti_current_configuration t in
  head (omap (fun m =>
    r ← report_for s (cm_identity m);
    let command operation current_only build :=
      Some (Execute (CmdEnsureConfiguration
        (replacement_configuration_command previous current m (ti_effective_policy t) operation
           (cm_identity m == cm_identity primary) current_only build))) in
    if negb (holds_joint previous current r) && negb (holds_current_only current r)
    then command (replacement_install_operation_id t m) false None
    else if negb (holds_current_only current r && is_none (ar_pending_operation_id r)
                  && (ar_retained_operation_id r == Some (replacement_current_only_operation_id t m)))
    then command (replacement_current_only_operation_id t m) true (ti_build_id t)
    else None) (primary_last primary (cd_members current))).

Definition accept_replacement (s : ObservationSnapshot) (t : TransitionIntent) : Plan :=
  let accepted := clear_evaluator_conditions (os_status s) in
  Apply [PersistStatus
    (with_condition (progressing_condition "ReplacementTopologyAccepted"
                       "Accepted the equal-cardinality replacement topology")
       (accepted <| st_observed_generation := ti_spec_generation t |>
          <| st_topology := Some (ti_current_configuration t) |> <| st_transition := None |>
          <| st_last_replacement := st_pending_replacement_cleanup accepted |>
          <| st_pending_replacement_cleanup := None |>))].

Definition evaluate_replacement_transition (s : ObservationSnapshot) (t : TransitionIntent)
    (status : AcceptedStatus) (config : EvaluationConfig) : eval Plan :=
  let? previous := expect (st_topology (os_status s)) in
  let current := ti_current_configuration t in
  let? primary := expect (named_primary current) in
  let union := configuration_union previous current in
  let pc_cc := omap (fun m => opt_filter (holds_joint previous current)
                                (report_for s (cm_identity m))) union in
  let started := existsb (fun m => is_some_and (holds_current_only current)
                                     (report_for s (cm_identity m))) (cd_members current) in
  let current_only_phase :=
    started
    || (is_some_and ar_catch_up_complete
          (List.find (fun r => ar_identity r == cm_identity primary) pc_cc)
        && configuration_report_quorum previous pc_cc && configuration_report_quorum current pc_cc) in
  let waiting := Ok (Wait ActiveTransition status (wait_requeue_seconds config)) in
  if negb current_only_phase then
    match install_replacement s t previous primary union with
    | Some plan => Ok plan
    | None => waiting
    end
  else
    match activate_replacement s t previous primary with
    | Some plan => Ok plan
    | None =>
        let reports := omap (fun m => opt_filter (holds_current_only current)
                                        (report_for s (cm_identity m))) (cd_members current) in
        if current_only_quorum current primary reports then Ok (accept_replacement s t) else waiting
    end.

End replacement.
