(* ===== verification/EvaluatorBootstrap.v ===== *)
(** * Bootstrap ([kuberic-controller/src/evaluator.rs])

    A resource that was never initialized gets its scaffolding, then a write-closed
    genesis configuration over the exact incarnations that report uninitialized storage
    ([evaluate_never_initialized]).  The bootstrap transition initializes every store,
    installs the genesis configuration everywhere and accepts it
    ([evaluate_bootstrap]); an incarnation lost before the installation is superseded. *)

From S2P Require Import Prelude Digest Types Intents Commands Observations Validation.
From S2P Require Import ScaleDown ScaleUp SnapshotValidation EvaluatorBase EvaluatorScaleDown.
From S2P Require Import EvaluatorReplacement.
From stdpp Require Import base gmap strings list pretty.
From Stdlib Require Import ZArith Lia.
Local Open Scope Z_scope.

Section bootstrap.
Context `{Sha256, Texts}.

(** ** Never initialized *)

Definition uninitialized (o : option ReplicaObservation) : bool :=
  is_some_and (fun o => match ro_agent o with AgentUninitialized _ => true | _ => false end) o.

Definition stale_image (s : ObservationSnapshot) : option KubernetesReplicaObservation :=
  head (omap (fun x => opt_filter (fun k => is_some_and (fun image => image != ds_image (os_desired s))
                                              (ko_image k)) (ro_kubernetes (snd x)))
          (replicas_in_order s)).

(** The identity of a replica on these resources. *)
Definition derived_identity (s : ObservationSnapshot) (id : ReplicaId) (pod : PodUid) (pvc : PvcUid)
    : ReplicaIdentity :=
  {| replica_id := id; instance_id := pod;
     agent_generation := derive_agent_generation
                           (derive_initialization_id (os_resource_uid s) id pod pvc) |}.

Fixpoint genesis_members (s : ObservationSnapshot) (primary : ReplicaId) (ids : list ReplicaId)
    : eval (list ConfigurationMember) :=
  match ids with
  | [] => Ok []
  | id :: ids =>
      let? k := expect (scaffolding_for s id) in
      let? pod := expect (ko_pod_uid k) in
      let? pvc := expect (ko_pvc_uid k) in
      let? members := genesis_members s primary ids in
      Ok ({| cm_identity := derived_identity s id pod pvc;
             cm_role := if id == primary then Primary else ActiveSecondary |} :: members)
  end.

(** [ids.into_iter().min()] *)
Definition minimum (ids : list ReplicaId) : option ReplicaId :=
  match ids with [] => None | id :: ids => Some (fold_left Z.min ids id) end.

Definition begin_bootstrap (s : ObservationSnapshot) (policy : EffectivePolicy) : eval Plan :=
  let? primary := expect (minimum (intended_replica_ids s)) in
  let? members := genesis_members s primary (intended_replica_ids s) in
  let current := new_configuration (mkEpoch 0 1) primary members (write_quorum policy) in
  let t := plain_transition
    (derive_transition_id (os_resource_uid s) Bootstrap (cd_configuration_id current)) Bootstrap
    (ds_generation (os_desired s)) policy None current None None in
  Ok (Apply [PersistStatus (with_condition
    (progressing_condition "BootstrapIntentPersisted"
       "Persisted deterministic write-closed genesis authority")
    ((os_status s) <| st_transition := Some t |>))]).

Definition evaluate_never_initialized (s : ObservationSnapshot) (config : EvaluationConfig)
    : eval Plan :=
  if has_durable_replica_evidence s
  then Ok (unsafe_plan (os_status s) DurableEvidenceWithoutAuthority config)
  else
    match policy_fixed (ds_replicas (os_desired s)) (ds_failover_delay_seconds (os_desired s)) with
    | None => Ok (unsafe_plan (os_status s)
                (InvalidDesiredState "desired replica count must be greater than zero") config)
    | Some policy =>
        if negb (has_complete_scaffolding s)
        then Ok (Apply [EnsureReplicaScaffolding (intended_replica_ids s)])
        else if negb (ro_service_present (os_routing s)) then Ok (Apply [EnsureWriteRoutingService])
        else if existsb (fun id => negb (uninitialized (scaffolding_observation_for s id)))
                  (intended_replica_ids s)
        then Ok (wait AwaitingAgentInitialization (os_status s) "AwaitingFreshStorageEvidence"
               "Every intended replica must explicitly report uninitialized storage" config)
        else
          match stale_image s with
          | Some stale => Ok (Apply [delete_scaffolding_change stale])
          | None => begin_bootstrap s policy
          end
    end.

(** ** Superseding a lost incarnation *)

Definition lost_incarnation (s : ObservationSnapshot) (t : TransitionIntent)
    : option ConfigurationMember :=
  List.find (fun m => is_none (kubernetes_of s (cm_identity m)) && orphaned_storage s (member_id m))
    (cd_members (ti_current_configuration t)).

Definition genesis_installed (s : ObservationSnapshot) (t : TransitionIntent) : bool :=
  existsb (fun x => is_some_and (fun r => ar_current_configuration r == Some (ti_current_configuration t))
                      (agent_report (ro_agent (snd x)))) (replicas_in_order s).

Definition superseded_intent (s : ObservationSnapshot) (t : TransitionIntent)
    (missing replacement : ReplicaIdentity) : TransitionIntent :=
  let genesis := ti_current_configuration t in
  let current := new_configuration (next_epoch (cd_epoch genesis)) (cd_primary_id genesis)
    (map (fun m => if cm_identity m == missing
                   then {| cm_identity := replacement; cm_role := cm_role m |} else m)
       (cd_members genesis))
    (cd_write_quorum genesis) in
  plain_transition (derive_transition_id (os_resource_uid s) Bootstrap (cd_configuration_id current))
    Bootstrap (ti_spec_generation t) (ti_effective_policy t) None current None None.

Definition evaluate_bootstrap_supersession (s : ObservationSnapshot) (t : TransitionIntent)
    (status : AcceptedStatus) (config : EvaluationConfig) : eval (option Plan) :=
  match lost_incarnation s t with
  | None => Ok None
  | Some m =>
      let missing := cm_identity m in
      if genesis_installed s t then
        Ok (Some (wait ActiveTransition status "BootstrapSupersessionBlocked"
                    "Genesis configuration was installed before an incarnation disappeared" config))
      else
        match fresh_candidate s missing with
        | None => Ok (Some (Apply [EnsureReplacementScaffolding (replica_id missing) missing]))
        | Some (key, o) =>
            let? scaffolding := exact_scaffolding o in
            let '(pod, pvc) := scaffolding in
            let replacement :=
              {| replica_id := replica_id missing; instance_id := rok_instance_id key;
                 agent_generation := derive_agent_generation
                   (derive_initialization_id (os_resource_uid s) (replica_id missing) pod pvc) |} in
            Ok (Some (persist ((os_status s) <| st_transition :=
                                  Some (superseded_intent s t missing replacement) |>)
                        "BootstrapIncarnationSuperseded"
                        "Replaced one never-installed genesis incarnation"))
        end
  end.

(** ** Installing the genesis configuration *)

Definition bootstrap_initialization_command (s : ObservationSnapshot) (m : ConfigurationMember)
    (o : ReplicaObservation) : res string (option InitializeAgentStore) :=
  let i := cm_identity m in
  match ro_agent o with
  | AgentUninitialized u =>
      let? k := expect (ro_kubernetes o) in
      let? pod := expect (ko_pod_uid k) in
      let? pvc := expect (ko_pvc_uid k) in
      let initialization := derive_initialization_id (os_resource_uid s) (replica_id i) pod pvc in
      reject ((derive_agent_generation initialization != agent_generation i) || (pod != instance_id i))
        ("bootstrap member " +:+ pretty (replica_id i) +:+ " does not match persisted identity") ;?
      let? t := expect (st_transition (os_status s)) in
      Ok (Some {| ias_initialization_id := initialization; ias_resource_uid := os_resource_uid s;
                  ias_local_replica_id := replica_id i; ias_expected_instance_id := instance_id i;
                  ias_expected_pod_uid := ua_pod_uid u; ias_expected_pvc_uid := ua_pvc_uid u;
                  ias_assigned_agent_generation := agent_generation i;
                  ias_effective_policy := ti_effective_policy t;
                  ias_bootstrap_configuration := ti_current_configuration t;
                  ias_provisioning := None |})
  | AgentReported r =>
      reject (ar_identity r != i)
        ("bootstrap member " +:+ pretty (replica_id i) +:+ " reports identity "
           +:+ instance_id (ar_identity r) +:+ "@" +:+ agent_generation (ar_identity r)
           +:+ " instead of " +:+ instance_id i +:+ "@" +:+ agent_generation i) ;?
      Ok None
  | AgentAbsent | AgentUnreachable _ | AgentInvalid _ _ => Ok None
  end.

(** Every observed member is the persisted one. *)
Fixpoint contradictory_member (s : ObservationSnapshot) (members : list ConfigurationMember)
    : eval (option string) :=
  match members with
  | [] => Ok None
  | m :: members =>
      match observation_for_identity s (cm_identity m) with
      | None => contradictory_member s members
      | Some o =>
          match bootstrap_initialization_command s m o with
          | Ok _ => contradictory_member s members
          | Err message => Ok (Some message)
          | Panic => Panic
          end
      end
  end.

Definition genesis_complete (t : TransitionIntent) (m : ConfigurationMember) (r : AgentReport) : bool :=
  let current := ti_current_configuration t in
  (ar_identity r == cm_identity m) && ar_healthy r && (ar_role r == cm_role m)
  && (ar_write_status r != Granted) && (ar_epoch r == cd_epoch current)
  && is_none (ar_previous_configuration r) && (ar_current_configuration r == Some current)
  && (ar_current_progress r == 0) && (ar_committed_lsn r == 0)
  && is_none (ar_pending_operation_id r)
  && (ar_retained_operation_id r == Some (bootstrap_install_operation_id t m)).

(** Initialize, then install, member by member; the result is a plan or the number of
    members that have the genesis configuration. *)
Fixpoint install_genesis (s : ObservationSnapshot) (t : TransitionIntent) (status : AcceptedStatus)
    (installed : Z) (members : list ConfigurationMember) (config : EvaluationConfig)
    : eval (Plan + Z) :=
  let unavailable := Ok (inl (Wait AgentUnavailable status (wait_requeue_seconds config))) in
  match members with
  | [] => Ok (inr installed)
  | m :: members =>
      match observation_for_identity s (cm_identity m) with
      | None => unavailable
      | Some o =>
          match bootstrap_initialization_command s m o with
          | Err _ | Panic => Panic
          | Ok (Some command) => Ok (inl (Execute (CmdInitializeAgentStore command)))
          | Ok None =>
              match agent_report (ro_agent o) with
              | None => unavailable
              | Some r =>
                  if genesis_complete t m r
                  then install_genesis s t status (as_u32 (installed + 1)) members config
                  else Ok (inl (Execute (CmdEnsureConfiguration
                         (ensure_configuration_command (ti_current_configuration t) m
                            (ti_effective_policy t) (bootstrap_install_operation_id t m)
                            ReconfigurationPending false))))
              end
          end
      end
  end.

Definition accept_bootstrap (s : ObservationSnapshot) (t : TransitionIntent) : Plan :=
  Apply [PersistStatus (with_condition
    (progressing_condition "BootstrapTopologyAccepted" "Accepted the full write-closed genesis topology")
    ((clear_evaluator_conditions (os_status s)) <| st_initialized := true |>
       <| st_observed_generation := ti_spec_generation t |>
       <| st_effective_policy := Some (ti_effective_policy t) |>
       <| st_topology := Some (ti_current_configuration t) |> <| st_transition := None |>))].

(** The end of [evaluate_transition], for a bootstrap *)
Definition evaluate_bootstrap (s : ObservationSnapshot) (t : TransitionIntent)
    (status : AcceptedStatus) (config : EvaluationConfig) : eval Plan :=
  let members := cd_members (ti_current_configuration t) in
  let? superseded := evaluate_bootstrap_supersession s t status config in
  match superseded with
  | Some plan => Ok plan
  | None =>
      let? contradiction := contradictory_member s members in
      match contradiction with
      | Some message => Ok (unsafe_plan status (ContradictoryReplicaEvidence message) config)
      | None =>
          let? installed := install_genesis s t status 0 members config in
          match installed with
          | inl plan => Ok plan
          | inr installed =>
              if installed == as_u32 (Z.of_nat (length members)) then Ok (accept_bootstrap s t)
              else Ok (Wait ActiveTransition status (wait_requeue_seconds config))
          end
      end
  end.

End bootstrap.
