(* ===== verification/EvaluatorExpansion.v ===== *)
(** * Scale-up: evidence, receipts and cleanup
    ([kuberic-controller/src/evaluator/scale_up.rs], first part)

    What the steps of a scale-up share: the progress conditions, the builds and reports
    that count as evidence, the configuration commands, the service of the accepted
    topology, the cleanup of an uncommitted candidate ([scale_up_cleanup]), the receipt
    of a completed scale-up ([recover_scale_up_acceptance]) and the beginning of the next
    one ([scale_up_begin]). *)

From S2P Require Import Prelude Digest Types Intents Commands Observations Validation.
From S2P Require Import ScaleDown ScaleUp SnapshotValidation EvaluatorBase.
From S2P Require Import EvaluatorFailover EvaluatorScaleDown.
From stdpp Require Import base gmap strings list pretty.
From Stdlib Require Import ZArith Lia.
Local Open Scope Z_scope.

(** ** Progress conditions *)

Definition accepted_count (status : AcceptedStatus) : Z :=
  from_option replica_set_size 0 (st_effective_policy status).

Definition target_text (i : ReplicaIdentity) : string :=
  pretty (replica_id i) +:+ "@" +:+ instance_id i.

Definition progress_status (s : ObservationSnapshot) (status : AcceptedStatus)
    (reason phase : string) (target : option ReplicaIdentity) (attempt : option OperationId)
    (blocking : string) : AcceptedStatus :=
  waiting_status status reason
    ("accepted=" +:+ pretty (accepted_count status)
       +:+ " desired=" +:+ pretty (ds_replicas (os_desired s))
       +:+ " target=" +:+ from_option target_text "none" target
       +:+ " attempt=" +:+ default "none" attempt
       +:+ " phase=" +:+ phase +:+ " blocking=" +:+ blocking).

Definition persist_progress (s : ObservationSnapshot) (status : AcceptedStatus)
    (reason phase : string) (target : ReplicaIdentity) (attempt : OperationId) (blocking : string)
    : Plan :=
  Apply [PersistStatus (progress_status s status reason phase (Some target) (Some attempt) blocking)].

Definition publish_phase_if_changed (s : ObservationSnapshot) (status : AcceptedStatus)
    (reason phase : string) (target : ReplicaIdentity) (attempt : OperationId) (blocking : string)
    : option Plan :=
  let next := progress_status s status reason phase (Some target) (Some attempt) blocking in
  if next == status then None else Some (Apply [PersistStatus next]).

Definition stable_condition (s : ObservationSnapshot) (receipt : ScaleUpReceipt) : StatusCondition :=
  condition "Ready" ConditionTrue "ScaleUpStable"
    ("accepted=" +:+ pretty (accepted_count (os_status s))
       +:+ " desired=" +:+ pretty (ds_replicas (os_desired s))
       +:+ " target=" +:+ target_text (sui_target (sur_intent receipt))
       +:+ " attempt=" +:+ sui_operation_id (sur_intent receipt) +:+ " phase=stable blocking=none").

Definition wait_progress (r : WaitReason) (s : ObservationSnapshot) (status : AcceptedStatus)
    (reason phase : string) (target : option ReplicaIdentity) (attempt : option OperationId)
    (blocking : string) (config : EvaluationConfig) : Plan :=
  Wait r (progress_status s status reason phase target attempt blocking) (wait_requeue_seconds config).

(** A wait of the shared failover code, with the scale-up's progress in its condition. *)
Definition contextualize_delegated_wait (s : ObservationSnapshot) (plan : Plan)
    (target : ReplicaIdentity) (attempt : OperationId) (phase : string) : Plan :=
  match plan with
  | Wait reason status requeue =>
      let c := find_condition "Progressing" status in
      Wait reason
        (progress_status s status (from_option sc_reason "ScaleUpRecoveryPending" c) phase
           (Some target) (Some attempt)
           (from_option sc_message "delegated accepted-authority recovery is pending" c)) requeue
  | _ => plan
  end.

(** ** Builds *)

Definition find_build (r : AgentReport) (build : OperationId) (target : ReplicaIdentity)
    : option AgentBuildReport :=
  List.find (fun b => (ab_build_id b == build) && (ab_target b == target)) (ar_builds r).

Inductive BuildPair :=
| BuildMissing
| BuildPropagating
| BuildExact (source target : AgentBuildReport).

Definition exact_build_pair (source target : AgentReport) (build : OperationId)
    (identity : ReplicaIdentity) : string + BuildPair :=
  match find_build source build identity, find_build target build identity with
  | Some sb, Some tb =>
      if ab_replication_boundary_lsn sb != ab_replication_boundary_lsn tb
      then inl "source and receiver report conflicting immutable snapshot boundaries"
      else
        let checked :=
          if is_some_and (fun boundary => boundary <? ab_replication_boundary_lsn sb)
               (ab_catch_up_boundary_lsn sb)
          then inl "source and receiver report conflicting immutable build boundaries"
          else inr (BuildExact sb tb) in
        match ab_catch_up_boundary_lsn sb, ab_catch_up_boundary_lsn tb with
        | Some x, Some y =>
            if x != y then inl "source and receiver report conflicting frozen catch-up boundaries"
            else checked
        | Some _, None | None, Some _ => inr BuildPropagating
        | None, None => checked
        end
  | None, None => inr BuildMissing
  | _, _ => inr BuildPropagating
  end.

Definition source_build_operation_id (build : OperationId) : OperationId := build +:+ ":build-replica".
Definition retirement_operation_id (build : OperationId) : OperationId :=
  build +:+ ":retire-abandoned-build".

Definition source_build_command (primary : ConfigurationMember) (target : ReplicaIdentity)
    (build : OperationId) : Plan := Execute (build_command build (cm_identity primary) target).

Definition retire_build_command (source target : ReplicaIdentity) (build : OperationId) : Plan :=
  Execute (CmdEnsureReplicaBuild
    {| erb_operation_id := build; erb_local_replica_id := replica_id source;
       erb_expected_instance_id := instance_id source;
       erb_expected_agent_generation := agent_generation source; erb_target := target;
       erb_authority := None; erb_source_session_id := None; erb_retire := true |}).

(** The candidate has no agent, contradicts itself, or reports a fault. *)
Definition candidate_failed (s : ObservationSnapshot) (target : ReplicaIdentity) : bool :=
  is_none_or (fun o => match ro_agent o with
                       | AgentAbsent | AgentInvalid _ _ => true
                       | AgentReported r => permanent_fault r || negb (ar_healthy r)
                       | AgentUnreachable _ | AgentUninitialized _ => false
                       end) (observation_for_identity s target).

Section expansion.
Context `{Sha256, Texts}.

(** ** Reports as evidence *)

Definition scale_up_witness (r : AgentReport) : option ScaleUpWitness :=
  current ← ar_current_configuration r;
  verified ← ar_verified_replication_lsn r;
  Some {| suw_resource_uid := ar_resource_uid r; suw_identity := ar_identity r;
          suw_role := ar_role r; suw_process_session_id := ar_process_session_id r;
          suw_report_sequence := ar_report_sequence r; suw_epoch := ar_epoch r;
          suw_previous_configuration_id := cd_configuration_id <$> ar_previous_configuration r;
          suw_current_configuration_id := cd_configuration_id current;
          suw_verified_replication_lsn := verified; suw_write_status := ar_write_status r;
          suw_pending_operation_id := ar_pending_operation_id r;
          suw_retained_operation_id := ar_retained_operation_id r |}.

Definition final_witness (r : AgentReport) : option ScaleUpFinalWitness :=
  deactivated ← ar_deactivated_lsn r;
  fence ← ar_retained_operation_id r;
  Some {| sfw_replica_id := replica_id (ar_identity r);
          sfw_process_session_id := ar_process_session_id r;
          sfw_report_sequence := ar_report_sequence r;
          sfw_current_progress := ar_current_progress r; sfw_committed_lsn := ar_committed_lsn r;
          sfw_deactivated_lsn := deactivated; sfw_fence_operation_id := fence |}.

(** The scale-up is verified beyond its catch-up boundary. *)
Definition verified_boundary (r : AgentReport) (i : ScaleUpIntent) : bool :=
  (ar_scale_up_intent r == Some i)
  && is_some_and (fun lsn => sui_catch_up_boundary_lsn i <=? lsn) (ar_verified_replication_lsn r).

Definition exact_pc_cc_report (r : AgentReport) (i : ScaleUpIntent)
    (current : ConfigurationDescriptor) : bool :=
  holds_joint (sui_previous_configuration i) current r && verified_boundary r i.
Definition exact_current_only_report (r : AgentReport) (i : ScaleUpIntent)
    (current : ConfigurationDescriptor) : bool :=
  holds_current_only current r && verified_boundary r i.

(** At the epoch of [current] the replica gave up the writes it could still have taken. *)
Definition fenced_at (r : AgentReport) (current : ConfigurationDescriptor) : bool :=
  (ar_deactivation_epoch r == Some (cd_epoch current)) && is_some (ar_deactivated_lsn r)
  && (ar_write_status r != Granted).

Definition exact_fenced_pc_cc_report (r : AgentReport) (i : ScaleUpIntent)
    (current : ConfigurationDescriptor) : bool :=
  holds_joint (sui_previous_configuration i) current r
  && (ar_scale_up_intent r == Some i)
  && (sui_catch_up_boundary_lsn i <=? ar_current_progress r)
  && is_none (ar_pending_operation_id r)
  && (ar_retained_operation_id r
        == Some (sui_command_operation_id i SuPreviousCurrent (ar_identity r) current))
  && fenced_at r current.

Definition witnessed_provisional_session (e : ScaleUpFailoverEvidence) (r : AgentReport) : bool :=
  existsb (fun w => (suw_identity w == ar_identity r)
                    && (suw_process_session_id w == ar_process_session_id r))
    (sufe_previous_read_quorum e ++ sufe_current_read_quorum e)
  || is_some_and (fun final =>
       existsb (fun w =>
         (sfw_replica_id w == replica_id (ar_identity r))
         && existsb (fun m => (cm_identity m == ar_identity r) && (member_id m == sfw_replica_id w))
              (cd_members (sufe_provisional_configuration e))
         && (sfw_process_session_id w == ar_process_session_id r)) (sfe_witnesses final))
       (sufe_final_election e).

Definition claims_provisional_failover_authority (r : AgentReport) (e : ScaleUpFailoverEvidence)
    : bool :=
  (ar_epoch r == cd_epoch (sufe_provisional_configuration e))
  || (ar_current_configuration r == Some (sufe_provisional_configuration e)).

Definition exact_provisional_failover_report (r : AgentReport) (m : ConfigurationMember)
    (e : ScaleUpFailoverEvidence) : bool :=
  let i := sufe_intent e in
  let provisional := sufe_provisional_configuration e in
  (ar_identity r == cm_identity m)
  && has_member_with_role provisional (ar_identity r) (ar_role r)
  && holds_joint (sui_previous_configuration i) provisional r
  && (sui_catch_up_boundary_lsn i <=? ar_current_progress r)
  && verified_boundary r i
  && (ar_retained_operation_id r
        == Some (sui_command_operation_id i SuPreviousCurrent (ar_identity r) provisional))
  && fenced_at r provisional
  && witnessed_provisional_session e r.

(** The member still has to install both configurations. *)
Definition needs_scale_up_pc_cc (r : AgentReport) (m : ConfigurationMember)
    (e : ScaleUpConfigurationEvidence) : bool :=
  let i := evidence_intent e in
  (is_none (ar_previous_configuration r)
   && (ar_current_configuration r == Some (sui_previous_configuration i))
   && existsb (fun p => (cm_identity p == ar_identity r) && (cm_identity p == cm_identity m)
                        && (cm_role p == ar_role r)) (cd_members (sui_previous_configuration i)))
  || ((cm_identity m == sui_target i) && (ar_identity r == sui_target i)
      && (ar_role r == IdleSecondary) && is_none (ar_previous_configuration r)
      && is_none (ar_current_configuration r))
  || match e with
     | Admission _ => false
     | FailoverEvidence e => exact_provisional_failover_report r m e
     end.

Definition scale_up_configuration_command (e : ScaleUpConfigurationEvidence)
    (current : ConfigurationDescriptor) (m : ConfigurationMember) (current_only : bool)
    (safe : option Lsn) : EnsureConfiguration :=
  let i := evidence_intent e in
  let failover := match e with FailoverEvidence _ => true | Admission _ => false end in
  {| ec_operation_id := sui_command_operation_id i
       (if current_only then SuCurrentOnly else SuPreviousCurrent) (cm_identity m) current;
     ec_previous_configuration := then_some (negb current_only) (sui_previous_configuration i);
     ec_current_configuration := current;
     ec_previous_epoch := then_some (negb current_only) (cd_epoch (sui_previous_configuration i));
     ec_current_epoch := cd_epoch current; ec_effective_policy := sui_current_policy i;
     ec_previous_policy := Some (sui_previous_policy i); ec_secondary_removal_evidence := None;
     ec_scale_up_evidence := Some e; ec_local_replica_id := member_id m;
     ec_expected_instance_id := instance_id (cm_identity m);
     ec_expected_agent_generation := agent_generation (cm_identity m);
     ec_transition_kind := if failover then Failover else ScaleUp; ec_failover_safe_lsn := safe;
     ec_primary_write_status := if failover && negb current_only then ReconfigurationPending
                                else Granted;
     ec_current_only := current_only;
     ec_retire_build_ids := if current_only then [sui_build_id i] else [];
     ec_switchover_handoff := None; ec_retire_switchover_preparation_ids := [] |}.

(** ** The accepted service *)

(** Restore writes and routing of the accepted topology before anything else. *)
Definition restore_accepted_service_before_cleanup (s : ObservationSnapshot)
    (accepted : ConfigurationDescriptor) (policy : EffectivePolicy) (target : ReplicaIdentity)
    (attempt : OperationId) (phase : string) (config : EvaluationConfig) : eval (option Plan) :=
  let? primary := configuration_primary accepted in
  let reports := omap (fun m => opt_filter (fun r => stable_member_report r m accepted)
                                  (healthy_report s (cm_identity m))) (cd_members accepted) in
  let routing := os_routing s in
  let waiting r reason blocking :=
    Ok (Some (wait_progress r s (os_status s) reason phase (Some target) (Some attempt) blocking config)) in
  match List.find (fun r => ar_identity r == cm_identity primary) reports with
  | None => waiting AwaitingStableEvidence "ScaleUpFailoverPrimaryPending"
              "Accepted failover primary must attest exact authority before cleanup"
  | Some primary_report =>
      if Z.of_nat (length reports) <? cd_write_quorum accepted then
        waiting QuorumLoss "ScaleUpFailoverWriteQuorumPending"
          "Accepted failover write quorum must recover before candidate cleanup"
      else if ar_write_status primary_report != Granted then
        Ok (Some (Execute (CmdEnsureConfiguration
          (ensure_configuration_command accepted primary policy
             ("scale-up-failover:" +:+ cd_configuration_id accepted +:+ ":grant-write") Granted false))))
      else if negb (ro_service_present routing) then Ok (Some (Apply [EnsureWriteRoutingService]))
      else if (ro_write_target routing != Some (cm_identity primary))
              || ro_unresolved_write_target routing
      then Ok (Some (Apply [if routed s then RemoveWriteRouting
                            else PublishWriteRouting (cm_identity primary)]))
      else Ok None
  end.

(** ** Cleanup of an uncommitted candidate *)

Definition cleanup_source_build_retirement (s : ObservationSnapshot) (c : ScaleUpCleanup)
    (accepted : ConfigurationDescriptor) (config : EvaluationConfig) : eval (option Plan) :=
  let p := suc_provisioning c in
  let? scale_up := expect (pi_scale_up p) in
  let? source := configuration_primary (sup_previous_configuration scale_up) in
  if negb (has_member accepted (cm_identity source)) then Ok None
  else
    match healthy_report s (cm_identity source) with
    | None => Ok None
    | Some r =>
        let? build := expect (pi_scale_up_build_id p (os_resource_uid s)) in
        let retirement := Ok (Some (retire_build_command (cm_identity source) (suc_target c) build)) in
        match ar_pending_operation_id r with
        | Some pending =>
            if (pending == retirement_operation_id build) || (pending == source_build_operation_id build)
            then retirement
            else Ok (Some (wait_progress ActiveTransition s (os_status s)
                   "ScaleUpSourceBuildRetirementBlocked" "cleanup" (Some (suc_target c))
                   (Some (pi_operation_id p))
                   ("source has unrelated pending operation " +:+ pending
                      +:+ "; exact abandoned build retirement remains fenced") config))
        | None =>
            if ar_retained_operation_id r == Some (retirement_operation_id build) then Ok None
            else if (ar_retained_operation_id r == Some (source_build_operation_id build))
                    || is_some (find_build r build (suc_target c))
            then retirement
            else Ok None
        end
    end.

(** Freeze the exact resources of the candidate that is given up. *)
Definition freeze_cleanup (s : ObservationSnapshot) (p : ProvisioningIntent) (status : AcceptedStatus)
    (reason : string) (primary_failed : bool) (config : EvaluationConfig) : eval Plan :=
  let target := pi_target_identity p (os_resource_uid s) in
  match opt_filter (fun o => observed (rci_pod (sro_identity o)) (sro_pod o)
                             && observed (rci_pvc (sro_identity o)) (sro_pvc o)
                             && observed (rci_endpoint (sro_identity o)) (sro_endpoint o))
          (resources s target) with
  | None =>
      Ok (wait_progress ActiveTransition s status "ScaleUpExactCleanupEvidencePending" "cancellation"
            (Some target) (Some (pi_operation_id p))
            "authoritative exact Pod, PVC, and endpoint observations are required" config)
  | Some exact =>
      let c := {| suc_provisioning := p; suc_target := target; suc_resources := sro_identity exact |} in
      match validate_scale_up_cleanup c with
      | Panic => Panic
      | Err e => Ok (unsafe_plan status (ContradictoryReplicaEvidence (display_error e)) config)
      | Ok _ =>
          let status := status <| st_provisioning := None |> <| st_transition := None |>
            <| st_scale_up_cleanup := Some c |> <| st_scale_up_admission_started := None |> in
          Ok (Apply ((if primary_failed && routed s then [RemoveWriteRouting] else [])
                ++ [PersistStatus (progress_status s status reason
                      (if primary_failed then "failover-recovery" else "cleanup")
                      (Some target) (Some (pi_operation_id p))
                      "frozen exact uncommitted candidate cleanup")]))
      end
  end.

Definition cleanup_delete (r : CleanupResourceIdentity) (o : ExactResourceObservation)
    (resource : ScaleDownResource) : option KubernetesChange :=
  match r, o with
  | CleanupPresent name uid, FrozenUidPresent version =>
      Some (DeleteScaleDownResource resource name uid version)
  | _, _ => None
  end.

Definition allocation_for (s : ObservationSnapshot) (previous : ConfigurationDescriptor)
    (target : ReplicaId) (previous_operation : option OperationId) : ScaleUpAllocation :=
  let draft operation :=
    {| sua_resource_uid := os_resource_uid s; sua_spec_generation := ds_generation (os_desired s);
       sua_desired_replicas := ds_replicas (os_desired s);
       sua_previous_configuration_id := cd_configuration_id previous;
       sua_accepted_configuration_id := cd_configuration_id previous;
       sua_target_replica_id := target; sua_operation_id := operation;
       sua_previous_operation_id := previous_operation; sua_scaffolding_requested := false;
       sua_pod_uid := None; sua_pvc_uid := None; sua_cancellation_started := false |} in
  draft (sua_expected_operation_id (draft "")).

(** Once the candidate is gone: a fresh allocation, or none. *)
Definition complete_cleanup (s : ObservationSnapshot) (c : ScaleUpCleanup) (config : EvaluationConfig)
    : eval Plan :=
  let status := (os_status s) <| st_scale_up_cleanup := None |> in
  let attempt := pi_operation_id (suc_provisioning c) in
  let unsafe reason := Ok (unsafe_plan (os_status s) reason config) in
  let? policy := expect (st_effective_policy status) in
  if replica_set_size policy <? ds_replicas (os_desired s) then
    match u32_checked_add (replica_set_size policy) 1 with
    | None => unsafe (InvalidDesiredState "scale-up retry target ordinal overflowed")
    | Some size =>
        let? topology := expect (st_topology status) in
        match first_missing (logical_ids topology) size with
        | None => unsafe (InvalidAcceptedAuthority
            "scale-up retry could not allocate a logical identity outside accepted authority")
        | Some id =>
            let a := allocation_for s topology id (Some attempt) in
            Ok (persist_progress s (status <| st_scale_up_allocation := Some a |>)
                  "ScaleUpAllocationRetryAccepted" "allocation" (sua_observation_target a)
                  (sua_operation_id a)
                  "atomically began a fresh allocation from the completed provisioning cleanup")
        end
    end
  else
    Ok (persist_progress s status "ScaleUpCleanupComplete" "cleanup" (suc_target c) attempt
          "exact uncommitted candidate is absent").

Definition delete_candidate (s : ObservationSnapshot) (c : ScaleUpCleanup) (config : EvaluationConfig)
    : eval Plan :=
  let waiting reason blocking :=
    wait_progress ActiveTransition s (os_status s) reason "cleanup" (Some (suc_target c))
      (Some (pi_operation_id (suc_provisioning c))) blocking config in
  let delete frozen o resource reason blocking :=
    match cleanup_delete frozen o resource with
    | Some change => Ok (Apply [change])
    | None => Ok (waiting reason blocking)
    end in
  let frozen := suc_resources c in
  match resources s (suc_target c) with
  | None => Ok (waiting "ScaleUpCleanupObservationPending"
                  "fresh exact cleanup observation is unavailable")
  | Some exact =>
      if negb (absent (rci_endpoint frozen) (sro_endpoint exact)) then
        delete (rci_endpoint frozen) (sro_endpoint exact) ResourceEndpoint
          "ScaleUpEndpointCleanupPending" "endpoint lookup is unresolved"
      else if negb (absent (rci_pod frozen) (sro_pod exact)) then
        delete (rci_pod frozen) (sro_pod exact) ResourcePod
          "ScaleUpPodCleanupPending" "Pod lookup is unresolved"
      else if negb (absent (rci_pvc frozen) (sro_pvc exact)) then
        delete (rci_pvc frozen) (sro_pvc exact) ResourcePvc
          "ScaleUpPvcCleanupPending" "PVC lookup is unresolved"
      else complete_cleanup s c config
  end.

Definition scale_up_cleanup (s : ObservationSnapshot) (c : ScaleUpCleanup) (config : EvaluationConfig)
    : eval Plan :=
  let attempt := pi_operation_id (suc_provisioning c) in
  let? failover := if is_none (st_transition (os_status s))
                   then maybe_begin_stable_failover s (os_status s) config else Ok None in
  match failover with
  | Some plan => Ok (contextualize_delegated_wait s plan (suc_target c) attempt "failover-recovery")
  | None =>
      let? accepted := expect (st_topology (os_status s)) in
      let? retirement := cleanup_source_build_retirement s c accepted config in
      match retirement with
      | Some plan => Ok plan
      | None =>
          let? policy := expect (st_effective_policy (os_status s)) in
          let? service := restore_accepted_service_before_cleanup s accepted policy (suc_target c)
                            attempt "cleanup" config in
          match service with
          | Some plan => Ok plan
          | None => delete_candidate s c config
          end
      end
  end.

(** ** The receipt of a completed scale-up *)

(** A newer attempt whose abandoned build has to be retired first. *)
Definition newer_attempt_build_retirement_precedes_receipt (s : ObservationSnapshot)
    (receipt : ScaleUpReceipt) : eval bool :=
  let st := os_status s in
  let attempt :=
    match st_scale_up_cleanup st with
    | Some c => Some (suc_provisioning c, suc_target c, true)
    | None =>
        p ← st_provisioning st;
        then_some (is_some (pi_scale_up p)) (p, pi_target_identity p (os_resource_uid s), false)
    end in
  match attempt with
  | None => Ok false
  | Some (p, target, cleanup_frozen) =>
      if pi_operation_id p == sui_operation_id (sur_intent receipt) then Ok false
      else
        let? scale_up := expect (pi_scale_up p) in
        let? source := configuration_primary (sup_previous_configuration scale_up) in
        let? build := expect (pi_scale_up_build_id p (os_resource_uid s)) in
        let exact_transition :=
          is_none_or (fun t => is_some_and (fun i =>
              (sui_operation_id i == pi_operation_id p) && (sui_build_id i == build)
              && (sui_primary i == cm_identity source) && (sui_target i == target)) (ti_scale_up t))
            (st_transition st) in
        Ok (exact_transition
            && negb (negb cleanup_frozen && (accepted_count st <? ds_replicas (os_desired s))
                     && negb (candidate_failed s target))
            && is_some_and (fun r => is_some_and (fun pending =>
                   (pending == source_build_operation_id build)
                   || (pending == retirement_operation_id build)) (ar_pending_operation_id r))
                 (healthy_report s (cm_identity source)))
  end.

Definition newer_active_attempt_owns_receipt_reports (s : ObservationSnapshot)
    (receipt : ScaleUpReceipt) : bool :=
  is_some_and (fun active =>
    (sui_operation_id active != sui_operation_id (sur_intent receipt))
    && (sui_previous_configuration active == sur_accepted_configuration receipt)
    && is_some_and (fun p =>
         (pi_target_identity p (os_resource_uid s) == sui_target active)
         && (pi_scale_up_build_id p (os_resource_uid s) == Some (sui_build_id active))
         && is_some_and (fun u =>
              (sup_resource_uid u == sui_resource_uid active)
              && (sup_spec_generation u == sui_spec_generation active)
              && (sup_desired_replicas u == sui_desired_replicas active)
              && (sup_previous_configuration u == sui_previous_configuration active)
              && (sup_previous_policy u == sui_previous_policy active)
              && (sup_current_policy u == sui_current_policy active)
              && (sup_target_replica_id u == replica_id (sui_target active))) (pi_scale_up p))
         (st_provisioning (os_status s)))
    (st_transition (os_status s) ≫= active_scale_up).

Definition receipt_member_superseded (accepted : option ConfigurationDescriptor)
    (m : ConfigurationMember) : bool :=
  is_some_and (fun c => forallb (fun a => cm_identity a != cm_identity m) (cd_members c)) accepted.

(** Newer accepted authority still has the member, as a secondary. *)
Definition retired_by_newer (accepted : option ConfigurationDescriptor) (receipt : ScaleUpReceipt)
    (m : ConfigurationMember) : bool :=
  is_some_and (fun c =>
    epoch_ltb (cd_epoch (sur_accepted_configuration receipt)) (cd_epoch c)
    && existsb (fun a => (cm_identity a == cm_identity m) && (cm_role a != Primary)) (cd_members c))
    accepted.

Definition settled_report (accepted : option ConfigurationDescriptor) (receipt : ScaleUpReceipt)
    (m : ConfigurationMember) (r : AgentReport) : bool :=
  is_some_and (fun c => is_none (ar_previous_configuration r) && (ar_current_configuration r == Some c)
                        && epoch_leb (cd_epoch c) (ar_epoch r) && is_none (ar_pending_operation_id r))
    accepted
  || ((ar_role r == cm_role m) && is_none (ar_previous_configuration r)
      && (ar_current_configuration r == Some (sur_accepted_configuration receipt))
      && is_some_and (fun lsn => sui_catch_up_boundary_lsn (sur_intent receipt) <=? lsn)
           (ar_verified_replication_lsn r)
      && (ar_scale_up_intent r == Some (sur_intent receipt)) && is_none (ar_pending_operation_id r)).

Definition prior_receipt_settled (s : ObservationSnapshot) (receipt : ScaleUpReceipt) : bool :=
  let accepted := st_topology (os_status s) in
  forallb (fun m =>
    receipt_member_superseded accepted m
    || match healthy_report s (cm_identity m) with
       | None => retired_by_newer accepted receipt m
       | Some r => (retired_by_newer accepted receipt m && permanent_fault r)
                   || settled_report accepted receipt m r
       end) (cd_members (sur_accepted_configuration receipt)).

(** A pending historical command is replayed exactly as it was frozen. *)
Definition replay_pending (s : ObservationSnapshot) (r : AgentReport)
    (expected : EnsureConfiguration) (omitted mutated : string) (config : EvaluationConfig) : Plan :=
  match ar_pending_configuration r with
  | None => unsafe_plan (os_status s) (ContradictoryReplicaEvidence omitted) config
  | Some frozen =>
      if frozen != expected
      then unsafe_plan (os_status s) (ContradictoryReplicaEvidence mutated) config
      else Execute (CmdEnsureConfiguration frozen)
  end.

(** The command among the two stages that has this operation id. *)
Definition pending_stage (e : ScaleUpConfigurationEvidence) (current : ConfigurationDescriptor)
    (m : ConfigurationMember) (safe : option Lsn) (pending : OperationId) : option EnsureConfiguration :=
  let pc_cc := scale_up_configuration_command e current m false safe in
  let current_only := scale_up_configuration_command e current m true safe in
  if pending == ec_operation_id pc_cc then Some pc_cc
  else if pending == ec_operation_id current_only then Some current_only
  else None.

(** The member missed the expansion altogether. *)
Definition missed_expansion (receipt : ScaleUpReceipt) (r : AgentReport) : bool :=
  let previous := sui_previous_configuration (sur_intent receipt) in
  is_none (ar_previous_configuration r) && (ar_current_configuration r == Some previous)
  && has_member_with_role previous (ar_identity r) (ar_role r).

(** The member stopped at the configuration before the failover. *)
Definition stale_original (receipt : ScaleUpReceipt) (r : AgentReport) : bool :=
  let i := sur_intent receipt in
  is_some (sur_failover_evidence receipt) && (ar_scale_up_intent r == Some i)
  && (ar_current_configuration r == Some (sui_current_configuration i))
  && ((ar_previous_configuration r == Some (sui_previous_configuration i))
      || is_none (ar_previous_configuration r)).

Definition historical_pc_cc (receipt : ScaleUpReceipt) (r : AgentReport) : bool :=
  let i := sur_intent receipt in
  (ar_previous_configuration r == Some (sui_previous_configuration i))
  && (ar_current_configuration r == Some (sur_accepted_configuration receipt))
  && (ar_scale_up_intent r == Some i).

(** The command that brings a member without pending work to the receipt's authority. *)
Definition historical_command (receipt : ScaleUpReceipt) (e : ScaleUpConfigurationEvidence)
    (failover : option ScaleUpFailoverEvidence) (m : ConfigurationMember) (r : AgentReport)
    : option EnsureConfiguration :=
  let accepted := sur_accepted_configuration receipt in
  let safe := sur_failover_safe_lsn receipt in
  if is_some (sur_failover_evidence receipt) && missed_expansion receipt r
  then Some (scale_up_configuration_command e accepted m false safe)
  else if is_none (sur_failover_evidence receipt) && missed_expansion receipt r
  then Some (scale_up_configuration_command (Admission (sur_intent receipt)) accepted m false None)
  else if stale_original receipt r
          || is_some_and (exact_provisional_failover_report r m) failover
  then Some (scale_up_configuration_command e accepted m false safe)
  else if historical_pc_cc receipt r
  then Some (scale_up_configuration_command e accepted m true safe)
  else None.

(** The member's exact Pod is known to be gone. *)
Definition pod_authoritatively_absent (s : ObservationSnapshot) (i : ReplicaIdentity) : bool :=
  is_some_and (fun exact => present_and (fun uid => uid == instance_id i) (rci_pod (sro_identity exact))
                            && absent (rci_pod (sro_identity exact)) (sro_pod exact))
    (resources s i).

(** One pass of the loop: [None] to go on, or what [recover_local_acceptance] returns. *)
Definition recover_member (s : ObservationSnapshot) (receipt : ScaleUpReceipt)
    (e : ScaleUpConfigurationEvidence) (failover : option ScaleUpFailoverEvidence)
    (accepted : ConfigurationDescriptor) (m : ConfigurationMember) (config : EvaluationConfig)
    : option (option Plan) :=
  let i := cm_identity m in
  let intent := sur_intent receipt in
  let st := os_status s in
  let waiting reason blocking :=
    Some (Some (wait_progress ActiveTransition s st reason "local-convergence"
                  (Some (sui_target intent)) (Some (sui_operation_id intent)) blocking config)) in
  let execute command := Some (Some (Execute (CmdEnsureConfiguration command))) in
  if receipt_member_superseded (Some accepted) m then None
  else if is_some_and (fun c => rc_target c == i) (st_pending_replacement_cleanup st)
          || (is_some_and permanent_fault (report_for s i) && has_member accepted i)
          || (pod_authoritatively_absent s i && has_member accepted i)
  then Some None
  else
    match healthy_report s i with
    | None => waiting "ScaleUpCommittedDegraded" "an exact accepted member is unavailable"
    | Some r =>
        if epoch_ltb (cd_epoch (sur_accepted_configuration receipt)) (ar_epoch r)
           && is_some_and (fun t => ar_current_configuration r == Some (ti_current_configuration t))
                (st_transition st)
        then None
        else
          match ar_pending_operation_id r with
          | Some pending =>
              match pending_stage e (sur_accepted_configuration receipt) m
                      (sur_failover_safe_lsn receipt) pending with
              | None => waiting "ScaleUpHistoricalAcceptancePending"
                  "an unrelated durable operation must complete before historical scale-up correction"
              | Some expected =>
                  Some (Some (replay_pending s r expected
                    ("accepted member " +:+ pretty (replica_id i)
                       +:+ " omitted its pending historical scale-up correction")
                    ("accepted member " +:+ pretty (replica_id i)
                       +:+ " mutated its pending historical scale-up correction") config))
              end
          | None =>
              match historical_command receipt e failover m r with
              | Some command => execute command
              | None =>
                  match find_member i accepted with
                  | None => None
                  | Some a =>
                      if is_some (ar_previous_configuration r)
                         || (ar_current_configuration r != Some accepted)
                      then
                        if epoch_ltb (cd_epoch (sur_accepted_configuration receipt)) (cd_epoch accepted)
                           && (cm_role a != Primary)
                        then Some None
                        else waiting "ScaleUpHistoricalAcceptancePending"
                               "historical completion must settle before ordinary accepted-authority correction"
                      else None
                  end
              end
          end
    end.

Fixpoint recover_members (s : ObservationSnapshot) (receipt : ScaleUpReceipt)
    (e : ScaleUpConfigurationEvidence) (failover : option ScaleUpFailoverEvidence)
    (accepted : ConfigurationDescriptor) (members : list ConfigurationMember)
    (config : EvaluationConfig) : option Plan :=
  match members with
  | [] => None
  | m :: members =>
      match recover_member s receipt e failover accepted m config with
      | Some result => result
      | None => recover_members s receipt e failover accepted members config
      end
  end.

Definition service_needs_restoration (s : ObservationSnapshot) (primary : ReplicaIdentity) : bool :=
  negb (ro_service_present (os_routing s)) || ro_unresolved_write_target (os_routing s)
  || (ro_write_target (os_routing s) != Some primary)
  || is_none_or (fun r => ar_write_status r != Granted) (healthy_report s primary).

(** The rest of [recover_local_acceptance], once the service is restored *)
Definition recover_receipt (s : ObservationSnapshot) (receipt : ScaleUpReceipt)
    (accepted : ConfigurationDescriptor) (config : EvaluationConfig) : option Plan :=
  if prior_receipt_settled s receipt then None
  else
    let failover := sur_expanded_failover_evidence receipt in
    if is_some (sur_failover_evidence receipt) && is_none failover then
      Some (unsafe_plan (os_status s) (InvalidAcceptedAuthority
              "scale-up receipt has invalid compact provisional authority") config)
    else
      let e := from_option FailoverEvidence (Admission (sur_intent receipt)) failover in
      recover_members s receipt e failover accepted
        (cd_members (sur_accepted_configuration receipt)) config.

Definition recover_scale_up_acceptance (s : ObservationSnapshot) (config : EvaluationConfig)
    : eval (option Plan) :=
  match st_last_scale_up (os_status s) with
  | None => Ok None
  | Some receipt =>
      if newer_active_attempt_owns_receipt_reports s receipt then Ok None
      else
        let? retirement := newer_attempt_build_retirement_precedes_receipt s receipt in
        match (if retirement then None else st_topology (os_status s)) with
        | None => Ok None
        | Some accepted =>
            let? primary := configuration_primary accepted in
            if replica_failed s (cm_identity primary) then Ok None
            else if is_none (st_transition (os_status s))
                    && service_needs_restoration s (cm_identity primary)
            then
              match st_effective_policy (os_status s) with
              | None => Ok None
              | Some policy =>
                  let? service := restore_accepted_service_before_cleanup s accepted policy
                    (sui_target (sur_intent receipt)) (sui_operation_id (sur_intent receipt))
                    "local-convergence" config in
                  match service with
                  | Some plan => Ok (Some plan)
                  | None => Ok (recover_receipt s receipt accepted config)
                  end
              end
            else Ok (recover_receipt s receipt accepted config)
        end
  end.

(** ** Beginning a scale-up *)

Definition higher_priority_work (status : AcceptedStatus) : bool :=
  is_some (find_condition "UnsupportedSpec" status) || is_some (st_primary_failure status)
  || is_some (st_quorum_loss status) || is_some (st_pending_replacement_cleanup status)
  || is_some (st_last_replacement status) || is_some (st_secondary_scale_down_cleanup status)
  || is_some (st_scale_up_cleanup status).

Definition unrelated_extra (s : ObservationSnapshot) (topology : ConfigurationDescriptor)
    (target : ReplicaId) : bool :=
  existsb (fun x =>
    negb (has_instance topology (rok_replica_id (fst x)) (rok_instance_id (fst x)))
    && (rok_replica_id (fst x) != target) && is_some (ro_kubernetes (snd x))) (replicas_in_order s).

(** The checks of [begin] before it allocates an ordinal. *)
Definition scale_up_blocked (s : ObservationSnapshot) (status : AcceptedStatus)
    (topology : ConfigurationDescriptor) (policy : EffectivePolicy) (config : EvaluationConfig)
    : eval (option Plan) :=
  let blocked reason blocking :=
    Ok (Some (wait_progress ActiveTransition s status reason "admission" None None blocking config)) in
  if higher_priority_work status then
    blocked "ScaleUpBlockedByHigherPriorityWork"
      "repair, cleanup, quorum recovery, or unsupported drift remains active"
  else
    match opt_filter (fun r => negb (prior_receipt_settled s r)) (st_last_scale_up status) with
    | Some receipt =>
        Ok (Some (wait_progress ActiveTransition s status "ScaleUpPriorReceiptPending"
          "local-convergence" (Some (sui_target (sur_intent receipt)))
          (Some (sui_operation_id (sur_intent receipt)))
          "late members still require the previous completion receipt" config))
    | None =>
        if (ds_failover_delay_seconds (os_desired s) != failover_delay_seconds policy)
           || existsb (fun m => image_of s m != Some (ds_image (os_desired s))) (cd_members topology)
        then blocked "ScaleUpUnsupportedDrift" "scale-up requires count-only desired-state drift"
        else if existsb (fun m => is_none_or (fun r => negb (stable_member_report r m topology))
                                    (healthy_report s (cm_identity m))) (cd_members topology)
        then blocked "ScaleUpAwaitingStableAuthority"
               "every exact accepted member must attest stable current-only authority"
        else
          let? primary := configuration_primary topology in
          if is_none_or (fun r => ar_write_status r != Granted) (healthy_report s (cm_identity primary))
             || (ro_write_target (os_routing s) != Some (cm_identity primary))
          then blocked "ScaleUpAwaitingWritablePrimary"
                 "accepted write quorum and exact primary routing must be stable"
          else Ok None
    end.

Definition scale_up_begin (s : ObservationSnapshot) (status : AcceptedStatus)
    (config : EvaluationConfig) : eval (option Plan) :=
  match st_topology status, st_effective_policy status with
  | Some topology, Some policy =>
      if ds_replicas (os_desired s) <=? replica_set_size policy then Ok None
      else
        let? blocked := scale_up_blocked s status topology policy config in
        match blocked with
        | Some plan => Ok (Some plan)
        | None =>
            let unsafe reason := Ok (Some (unsafe_plan status reason config)) in
            match u32_checked_add (replica_set_size policy) 1 with
            | None => unsafe (InvalidDesiredState "scale-up target ordinal overflowed")
            | Some size =>
                match first_missing (logical_ids topology) size with
                | None => unsafe (InvalidAcceptedAuthority
                    "scale-up could not allocate a logical identity outside accepted authority")
                | Some id =>
                    if unrelated_extra s topology id then
                      Ok (Some (wait_progress ActiveTransition s status "ScaleUpCleanupBlocking"
                        "admission" None None
                        "unresolved exact lifecycle resources block a fresh scale-up attempt" config))
                    else
                      let a := allocation_for s topology id None in
                      Ok (Some (persist_progress s (status <| st_scale_up_allocation := Some a |>)
                        "ScaleUpAllocationAccepted" "allocation" (sua_observation_target a)
                        (sua_operation_id a)
                        "persisted recoverable candidate allocation before resource creation"))
                end
            end
        end
  | _, _ => Ok None
  end.

End expansion.
