(* ===== verification/EvaluatorCandidate.v ===== *)
(** * Scale-up: the candidate
    ([kuberic-controller/src/evaluator/scale_up.rs], middle part)

    An allocation names the ordinal before any resource exists, freezes the volume and
    then the Pod created for it, and is promoted to provisioning authority or cancelled
    with its exact resources ([evaluate_allocation]).  Provisioning initializes the
    candidate and builds it up to a frozen catch-up boundary; only then a scale-up intent
    is persisted ([evaluate_scale_up_provisioning]). *)

From S2P Require Import Prelude Digest Types Intents Commands Observations Validation.
From S2P Require Import ScaleDown ScaleUp SnapshotValidation EvaluatorBase.
From S2P Require Import EvaluatorFailover EvaluatorScaleDown EvaluatorReplacement EvaluatorExpansion.
From stdpp Require Import base gmap strings list pretty.
From Stdlib Require Import ZArith Lia.
Local Open Scope Z_scope.

Section candidate.
Context `{Sha256, Texts}.

(** ** Allocation *)

(** The object that occupies a name which was free when the allocation was accepted. *)
Definition allocation_identity (r : CleanupResourceIdentity) (o : ExactResourceObservation)
    : option string :=
  match r, o with
  | CleanupAbsent _, ReplacementPresent uid _ => Some uid
  | _, _ => None
  end.

Definition lookup_failed (o : ExactResourceObservation) : bool :=
  match o with LookupFailed _ => true | _ => false end.
Definition not_found (o : ExactResourceObservation) : bool :=
  match o with ResourceNotFound => true | _ => false end.

Definition allocation_wait (s : ObservationSnapshot) (a : ScaleUpAllocation) (reason blocking : string)
    (config : EvaluationConfig) : Plan :=
  wait_progress ActiveTransition s (os_status s) reason "allocation"
    (Some (sua_observation_target a)) (Some (sua_operation_id a)) blocking config.

(** Persist a change of the active allocation, whose ids stay the same. *)
Definition update_allocation (s : ObservationSnapshot) (a : ScaleUpAllocation)
    (f : ScaleUpAllocation -> ScaleUpAllocation) (reason phase blocking : string) : eval Plan :=
  let? active := expect (st_scale_up_allocation (os_status s)) in
  Ok (persist_progress s ((os_status s) <| st_scale_up_allocation := Some (f active) |>) reason phase
        (sua_observation_target a) (sua_operation_id a) blocking).

Definition cancel (a : ScaleUpAllocation) : ScaleUpAllocation := a <| sua_cancellation_started := true |>.

(** The allocation that follows a cancelled one. *)
Definition retry_allocation (a : ScaleUpAllocation) : ScaleUpAllocation :=
  let draft := a <| sua_previous_configuration_id := sua_accepted_configuration_id a |>
    <| sua_previous_operation_id := Some (sua_operation_id a) |> <| sua_operation_id := "" |>
    <| sua_scaffolding_requested := false |> <| sua_pod_uid := None |> <| sua_pvc_uid := None |>
    <| sua_cancellation_started := false |> in
  draft <| sua_operation_id := sua_expected_operation_id draft |>.

Definition retry_or_complete_allocation_cleanup (s : ObservationSnapshot) (a : ScaleUpAllocation)
    (status : AcceptedStatus) : eval Plan :=
  let? policy := expect (st_effective_policy status) in
  if replica_set_size policy <? ds_replicas (os_desired s) then
    let retry := retry_allocation a in
    Ok (persist_progress s (status <| st_scale_up_allocation := Some retry |>)
          "ScaleUpAllocationRetryAccepted" "allocation" (sua_observation_target retry)
          (sua_operation_id retry) "began a fresh allocation after exact prior-attempt cleanup")
  else
    Ok (persist_progress s (status <| st_scale_up_allocation := None |>)
          "ScaleUpAllocationCleanupComplete" "cleanup" (sua_observation_target a) (sua_operation_id a)
          "exact cancelled allocation is absent").

(** The volume was created for this allocation: freeze its uid. *)
Definition freeze_volume (s : ObservationSnapshot) (a : ScaleUpAllocation)
    (exact : SecondaryScaleDownResourceObservation) (k : option KubernetesReplicaObservation)
    (uid : string) (config : EvaluationConfig) : eval Plan :=
  let occupied := allocation_wait s a "ScaleUpAllocationNameOccupied"
    "same-name PVC is unrelated to this allocation operation" config in
  if negb (sua_scaffolding_requested a) then Ok occupied
  else if (sro_pvc_allocation_operation_id exact != Some (sua_operation_id a))
          || ((k ≫= ko_pvc_uid) != Some uid)
  then
    if negb (sua_cancellation_started a) then
      update_allocation s a cancel "ScaleUpAllocationNameCollision" "cleanup"
        "same-name PVC lacks exact allocation creation provenance; abandoned the attempt without adopting the occupant"
    else Ok occupied
  else
    update_allocation s a (fun a => a <| sua_pvc_uid := Some uid |>) "ScaleUpAllocationPvcFrozen"
      "allocation" "persisted exact PVC UID before Pod creation or cleanup".

(** No volume is frozen and none was created under the name. *)
Definition request_volume (s : ObservationSnapshot) (a : ScaleUpAllocation)
    (exact : SecondaryScaleDownResourceObservation) (config : EvaluationConfig) : eval Plan :=
  if negb (not_found (sro_pvc exact)) then
    Ok (allocation_wait s a "ScaleUpAllocationPvcPending" "candidate PVC identity is not yet durable"
          config)
  else if sua_cancellation_started a then
    if negb (not_found (sro_pod exact)) || negb (not_found (sro_endpoint exact)) then
      Ok (unsafe_plan (os_status s) (ContradictoryReplicaEvidence
            "scale-up allocation observed Pod or endpoint without PVC provenance") config)
    else retry_or_complete_allocation_cleanup s a (os_status s)
  else if negb (sua_scaffolding_requested a) then
    update_allocation s a (fun a => a <| sua_scaffolding_requested := true |>)
      "ScaleUpAllocationScaffoldingAuthorized" "allocation"
      "persisted exact-name absence before requesting candidate scaffolding"
  else Ok (Apply [EnsureReplicaScaffolding [sua_target_replica_id a]]).

Definition scale_up_purpose (u : ScaleUpProvisioning) : ProvisioningPurpose :=
  {| pp_kind := PkScaleUp; pp_replaces := None; pp_scale_up := Some u |}.

(** Pod and volume are exactly the allocated ones: provision the candidate. *)
Definition promote_allocation (s : ObservationSnapshot) (a : ScaleUpAllocation)
    (previous : ConfigurationDescriptor) (policy : EffectivePolicy) (pod : PodUid) : eval Plan :=
  let? pvc := expect (sua_pvc_uid a) in
  let? size := expect (u32_checked_add (replica_set_size policy) 1) in
  let? current_policy := expect (policy_fixed size (failover_delay_seconds policy)) in
  let draft operation :=
    {| pi_purpose := scale_up_purpose
         {| sup_resource_uid := sua_resource_uid a; sup_spec_generation := sua_spec_generation a;
            sup_desired_replicas := sua_desired_replicas a; sup_previous_configuration := previous;
            sup_previous_policy := policy; sup_current_policy := current_policy;
            sup_target_replica_id := sua_target_replica_id a |};
       pi_pod_uid := pod; pi_pvc_uid := pvc; pi_operation_id := operation |} in
  let p := draft (pi_expected_operation_id (draft "")) in
  Ok (persist_progress s ((os_status s) <| st_scale_up_allocation := None |>
                            <| st_provisioning := Some p |>)
        "ScaleUpProvisioningAccepted" "provisioning" (pi_target_identity p (os_resource_uid s))
        (pi_operation_id p) "promoted exact allocated Pod and PVC into provisioning authority").

(** The Pod created for the allocation. *)
Definition bind_pod (s : ObservationSnapshot) (a : ScaleUpAllocation)
    (previous : ConfigurationDescriptor) (policy : EffectivePolicy)
    (exact : SecondaryScaleDownResourceObservation) (k : option KubernetesReplicaObservation)
    (uid : string) (config : EvaluationConfig) : eval Plan :=
  let cancelled := sua_cancellation_started a in
  if negb (sua_scaffolding_requested a
           && (sro_pod_allocation_operation_id exact == Some (sua_operation_id a))
           && sro_pod_matches_allocation_metadata exact)
  then
    if negb cancelled then
      update_allocation s a cancel "ScaleUpAllocationPodNameCollision" "cleanup"
        "same-name Pod lacks exact allocation creation provenance; abandoned the attempt without adopting the occupant"
    else
      Ok (allocation_wait s a "ScaleUpAllocationPodNameOccupied"
            "same-name Pod is unrelated to this allocation operation" config)
  else if ((k ≫= ko_pod_uid) != Some uid) || ((k ≫= ko_pvc_uid) != sua_pvc_uid a) then
    let? active := expect (st_scale_up_allocation (os_status s)) in
    let lost := cancel (active <| sua_pod_uid := Some uid |>) in
    Ok (persist_progress s ((os_status s) <| st_scale_up_allocation := Some lost |>)
          "ScaleUpAllocationPodBindingLost" "cleanup" (sua_observation_target lost)
          (sua_operation_id lost)
          "candidate Pod did not bind the frozen PVC; persisted exact candidate-local cleanup")
  else if cancelled then
    update_allocation s a (fun a => a <| sua_pod_uid := Some uid |>) "ScaleUpAllocationPodFrozen"
      "cleanup" "persisted exact Pod UID before cancellation cleanup"
  else if (k ≫= ko_image) != Some (ds_image (os_desired s)) then
    Ok (allocation_wait s a "ScaleUpCandidateImagePending"
          "candidate image differs from accepted desired image" config)
  else promote_allocation s a previous policy uid.

Definition delete_or_wait (s : ObservationSnapshot) (a : ScaleUpAllocation)
    (r : CleanupResourceIdentity) (o : ExactResourceObservation) (resource : ScaleDownResource)
    (reason blocking : string) (config : EvaluationConfig) : eval Plan :=
  match cleanup_delete r o resource with
  | Some change => Ok (Apply [change])
  | None => Ok (allocation_wait s a reason blocking config)
  end.

(** A frozen volume without a Pod. *)
Definition without_pod (s : ObservationSnapshot) (a : ScaleUpAllocation)
    (exact : SecondaryScaleDownResourceObservation) (config : EvaluationConfig) : eval Plan :=
  let pvc := rci_pvc (sro_identity exact) in
  if sua_cancellation_started a then
    if negb (not_found (sro_endpoint exact)) || negb (not_found (sro_pod exact)) then
      Ok (allocation_wait s a "ScaleUpAllocationCleanupPending"
            "endpoint and Pod absence must precede PVC cleanup" config)
    else
      match cleanup_delete pvc (sro_pvc exact) ResourcePvc with
      | Some change => Ok (Apply [change])
      | None =>
          if absent pvc (sro_pvc exact) then retry_or_complete_allocation_cleanup s a (os_status s)
          else Ok (allocation_wait s a "ScaleUpAllocationPvcCleanupPending"
                     "exact PVC cleanup is unresolved" config)
      end
  else Ok (Apply [EnsureReplicaScaffolding [sua_target_replica_id a]]).

(** Both uids are frozen, which only happens to a cancelled allocation. *)
Definition clean_allocation (s : ObservationSnapshot) (a : ScaleUpAllocation)
    (exact : SecondaryScaleDownResourceObservation) (config : EvaluationConfig) : eval Plan :=
  let frozen := sro_identity exact in
  if negb (sua_cancellation_started a) then
    Ok (unsafe_plan (os_status s) (InvalidAcceptedAuthority
          "completed allocation was not promoted to provisioning") config)
  else if negb (not_found (sro_endpoint exact)) then
    Ok (allocation_wait s a "ScaleUpAllocationEndpointCleanupPending"
          "endpoint absence must precede Pod cleanup" config)
  else if negb (absent (rci_pod frozen) (sro_pod exact)) then
    delete_or_wait s a (rci_pod frozen) (sro_pod exact) ResourcePod
      "ScaleUpAllocationPodCleanupPending" "exact Pod cleanup is unresolved" config
  else if negb (absent (rci_pvc frozen) (sro_pvc exact)) then
    delete_or_wait s a (rci_pvc frozen) (sro_pvc exact) ResourcePvc
      "ScaleUpAllocationPvcCleanupPending" "exact PVC cleanup is unresolved" config
  else retry_or_complete_allocation_cleanup s a (os_status s).

(** The frozen volume is gone, replaced, or not this allocation's. *)
Definition volume_lost (a : ScaleUpAllocation) (exact : SecondaryScaleDownResourceObservation) : bool :=
  negb (sua_cancellation_started a) && is_some (sua_pvc_uid a) && is_none (sua_pod_uid a)
  && (absent (rci_pvc (sro_identity exact)) (sro_pvc exact)
      || (sro_pvc_allocation_operation_id exact != Some (sua_operation_id a))).

Definition observe_allocation (s : ObservationSnapshot) (a : ScaleUpAllocation)
    (previous : ConfigurationDescriptor) (policy : EffectivePolicy) (config : EvaluationConfig)
    : eval Plan :=
  match resources s (sua_observation_target a) with
  | None => Ok (allocation_wait s a "ScaleUpAllocationObservationPending"
                  "fresh exact allocation lookups are unavailable" config)
  | Some exact =>
      if lookup_failed (sro_endpoint exact) || lookup_failed (sro_pod exact)
         || lookup_failed (sro_pvc exact)
      then Ok (allocation_wait s a "ScaleUpAllocationObservationPending"
                 "fresh exact allocation lookups are unresolved" config)
      else if volume_lost a exact then
        update_allocation s a cancel "ScaleUpAllocationStorageLost" "cleanup"
          "authoritative frozen PVC absence, replacement, or provenance loss abandoned the exact allocation"
      else
        let k := scaffolding_observation_for s (sua_target_replica_id a) ≫= ro_kubernetes in
        match sua_pvc_uid a, allocation_identity (rci_pvc (sro_identity exact)) (sro_pvc exact) with
        | None, Some uid => freeze_volume s a exact k uid config
        | None, None => request_volume s a exact config
        | Some _, _ =>
            match sua_pod_uid a, allocation_identity (rci_pod (sro_identity exact)) (sro_pod exact) with
            | None, Some uid => bind_pod s a previous policy exact k uid config
            | None, None => without_pod s a exact config
            | Some _, _ => clean_allocation s a exact config
            end
        end
  end.

Definition evaluate_allocation (s : ObservationSnapshot) (a : ScaleUpAllocation)
    (config : EvaluationConfig) : eval Plan :=
  let? previous := expect (st_topology (os_status s)) in
  let? policy := expect (st_effective_policy (os_status s)) in
  if negb (sua_cancellation_started a) && (ds_replicas (os_desired s) <=? replica_set_size policy) then
    update_allocation s a cancel "ScaleUpAllocationCancellationFrozen" "cleanup"
      "persisted irreversible exact allocation cleanup before observing resources"
  else
    let? failover := maybe_begin_stable_failover s (os_status s) config in
    match failover with
    | Some plan => Ok plan
    | None =>
        let? service := restore_accepted_service_before_cleanup s previous policy
          (sua_observation_target a) (sua_operation_id a) "allocation" config in
        match service with
        | Some plan => Ok plan
        | None => observe_allocation s a previous policy config
        end
    end.

(** ** Candidates whose contradictions stay local *)

(** Some replica has installed the scale-up, or a failover carries it. *)
Definition admission_began (s : ObservationSnapshot) (t : TransitionIntent) : bool :=
  is_some_and (fun active =>
    (st_scale_up_admission_started (os_status s) == Some (sui_operation_id active))
    || is_some (ti_scale_up_failover t)
    || existsb (fun x => is_some_and (fun r => exact_pc_cc_report r active (ti_current_configuration t))
                           (agent_report (ro_agent (snd x)))) (replicas_in_order s))
    (active_scale_up t).

Definition at_key (key : ReplicaObservationKey) (i : ReplicaIdentity) : bool :=
  (replica_id i == rok_replica_id key) && (instance_id i == rok_instance_id key).

(** The provisioned candidate before anything was admitted. *)
Definition provisioned_candidate (s : ObservationSnapshot) (key : ReplicaObservationKey)
    (p : ProvisioningIntent) : bool :=
  let target := pi_target_identity p (os_resource_uid s) in
  is_some (pi_scale_up p)
  && negb (is_some_and (fun c => has_member c target) (st_topology (os_status s)))
  && negb (is_some_and (admission_began s) (st_transition (os_status s)))
  && at_key key target.

(** An uninitialized report on a Pod of the allocation whose frozen volume is gone. *)
Definition allocated_candidate (s : ObservationSnapshot) (key : ReplicaObservationKey)
    (a : ScaleUpAllocation) (u : UninitializedAgentObservation) : bool :=
  sua_scaffolding_requested a
  && (sua_target_replica_id a == rok_replica_id key)
  && is_none_or (fun pod => pod == rok_instance_id key) (sua_pod_uid a)
  && is_some_and (fun pvc => ua_pvc_uid u == pvc) (sua_pvc_uid a)
  && (ua_resource_uid u == os_resource_uid s)
  && (ua_replica_id u == sua_target_replica_id a)
  && (ua_pod_uid u == rok_instance_id key)
  && negb (is_empty (ua_process_session_id u))
  && (ua_report_sequence u != 0)
  && is_some_and (fun exact =>
       match rci_pod (sro_identity exact), sro_pod exact with
       | CleanupAbsent _, ReplacementPresent uid _ => uid == rok_instance_id key
       | CleanupPresent _ uid, FrozenUidPresent _ => uid == rok_instance_id key
       | _, _ => false
       end
       && match sro_pvc exact with
          | ResourceNotFound => true
          | ReplacementPresent live _ => live != ua_pvc_uid u
          | FrozenUidPresent _ | LookupFailed _ => false
          end
       && (sro_pod_allocation_operation_id exact == Some (sua_operation_id a))
       && sro_pod_matches_allocation_metadata exact) (resources s (sua_observation_target a)).

Definition invalid_candidate_binding (s : ObservationSnapshot) (key : ReplicaObservationKey)
    (o : ReplicaObservation) : bool :=
  let st := os_status s in
  match ro_agent o with
  | AgentInvalid _ uninitialized =>
      is_some_and (fun c => at_key key (suc_target c)) (st_scale_up_cleanup st)
      || is_some_and (provisioned_candidate s key) (st_provisioning st)
      || match st_scale_up_allocation st, uninitialized with
         | Some a, Some u => allocated_candidate s key a u
         | _, _ => false
         end
  | _ => false
  end.

(** ** Provisioning *)

(** What the build of the candidate is worth on the source. *)
Record BuildState := {
  bs_active : bool;
  bs_busy : bool;
  bs_claimed_complete : bool;
}.
Definition build_state (source : AgentReport) (build : OperationId) : BuildState :=
  let operation := source_build_operation_id build in
  let active := ar_pending_operation_id source == Some operation in
  {| bs_active := active;
     bs_busy := is_some (ar_pending_operation_id source) && negb active;
     bs_claimed_complete := ar_retained_operation_id source == Some operation |}.

Definition build_completed (b : AgentBuildReport) : bool :=
  ab_completed b
  && is_some_and (fun boundary => (boundary <=? ab_durable_lsn b)
                                  && (ab_replication_boundary_lsn b <=? boundary))
       (ab_catch_up_boundary_lsn b).

(** The expanded configuration and the intent that freezes it. *)
Definition expanded_configuration (u : ScaleUpProvisioning) (target : ReplicaIdentity) (number : Z)
    : ConfigurationDescriptor :=
  let previous := sup_previous_configuration u in
  new_configuration (mkEpoch (data_loss_number (cd_epoch previous)) number) (cd_primary_id previous)
    (cd_members previous ++ [{| cm_identity := target; cm_role := ActiveSecondary |}])
    (write_quorum (sup_current_policy u)).

Definition expansion_intent (s : ObservationSnapshot) (u : ScaleUpProvisioning)
    (primary target : ReplicaIdentity) (build : OperationId) (current : ConfigurationDescriptor)
    (snapshot_boundary boundary : Lsn) : ScaleUpIntent :=
  let draft operation :=
    {| sui_operation_id := operation; sui_resource_uid := os_resource_uid s;
       sui_spec_generation := sup_spec_generation u; sui_desired_replicas := sup_desired_replicas u;
       sui_previous_configuration := sup_previous_configuration u; sui_current_configuration := current;
       sui_previous_policy := sup_previous_policy u; sui_current_policy := sup_current_policy u;
       sui_primary := primary; sui_target := target; sui_build_id := build;
       sui_snapshot_boundary_lsn := snapshot_boundary; sui_catch_up_boundary_lsn := boundary |} in
  draft (sui_expected_operation_id (draft "")).

Definition scale_up_transition_intent (i : ScaleUpIntent) : TransitionIntent :=
  let t := plain_transition (sui_transition_id i ScaleUp (sui_current_configuration i)) ScaleUp
    (sui_spec_generation i) (sui_current_policy i)
    (Some (cd_configuration_id (sui_previous_configuration i))) (sui_current_configuration i) None
    (Some (sui_build_id i)) in
  t <| ti_scale_up := Some i |>.

(** The build is complete: persist the scale-up intent. *)
Definition begin_scale_up (s : ObservationSnapshot) (status : AcceptedStatus)
    (u : ScaleUpProvisioning) (primary target : ReplicaIdentity) (build : OperationId)
    (source : AgentBuildReport) (boundary : Lsn) (config : EvaluationConfig) : eval Plan :=
  let unsafe message := Ok (unsafe_plan status (InvalidAcceptedAuthority message) config) in
  match i64_checked_add (configuration_number (cd_epoch (sup_previous_configuration u))) 1 with
  | None => unsafe "scale-up configuration epoch exhausted"
  | Some number =>
      let i := expansion_intent s u primary target build (expanded_configuration u target number)
                 (ab_replication_boundary_lsn source) boundary in
      match validate_scale_up i with
      | Panic => Panic
      | Err e => unsafe (display_error e)
      | Ok _ =>
          Ok (persist_progress s ((os_status s) <| st_transition := Some (scale_up_transition_intent i) |>)
                "ScaleUpPreviousCurrentPersisted" "pc-cc" target (sui_operation_id i)
                "exact candidate build completed through the frozen boundary")
      end
  end.

Section copying.
Variables (s : ObservationSnapshot) (p : ProvisioningIntent) (u : ScaleUpProvisioning)
  (status : AcceptedStatus) (primary : ConfigurationMember) (target : ReplicaIdentity)
  (build : OperationId) (source_report target_report : AgentReport) (config : EvaluationConfig).

Let state := build_state source_report build.
Let waiting (reason phase blocking : string) : eval Plan :=
  Ok (wait_progress ActiveTransition s status reason phase (Some target) (Some build) blocking config).
Let ambiguous : eval Plan := freeze_cleanup s p status "ScaleUpBuildLivenessAmbiguous" false config.
Let copy : eval Plan := Ok (source_build_command primary target build).

Definition copy_missing : eval Plan :=
  if bs_active state then
    waiting "ScaleUpCopyActive" "copying" "the exact source build operation is still active"
  else if bs_busy state then
    waiting "ScaleUpSourceBusy" "copying" "the source has unrelated durable work before copy dispatch"
  else if bs_claimed_complete state then ambiguous
  else
    match publish_phase_if_changed s (os_status s) "ScaleUpCopying" "copying" target build
            "source and receiver build progress has not been observed" with
    | Some plan => Ok plan
    | None => copy
    end.

Definition copy_propagating : eval Plan :=
  let source := find_build source_report build target in
  let receiver := find_build target_report build target in
  if bs_active state then
    waiting "ScaleUpBoundaryPropagationPending" "catch-up"
      "the exact source build operation is still propagating durable evidence"
  else if is_some source && negb (bs_busy state) && negb (bs_claimed_complete state) then copy
  else if is_none source && is_none receiver then copy
  else if bs_busy state
          || (bs_claimed_complete state && negb (is_some_and build_completed source))
          || (is_none source && is_some receiver)
  then ambiguous
  else waiting "ScaleUpBoundaryPropagationPending" "catch-up"
         "source and receiver have not both observed the frozen boundary".

Definition copy_exact (source receiver : AgentBuildReport) : eval Plan :=
  match ab_catch_up_boundary_lsn source with
  | None =>
      if bs_active state then
        waiting "ScaleUpBoundaryPending" "catch-up" "post-enumeration catch-up boundary is not frozen"
      else if bs_claimed_complete state && ab_completed source then
        waiting "ScaleUpCatchUpPending" "catch-up"
          "completed source build evidence is awaiting receiver report propagation"
      else if negb (bs_busy state) && negb (bs_claimed_complete state) then copy
      else ambiguous
  | Some boundary =>
      if negb (ab_completed source) || negb (ab_completed receiver)
         || (ab_catch_up_boundary_lsn receiver != Some boundary)
         || (ab_durable_lsn source <? boundary) || (ab_durable_lsn receiver <? boundary)
      then
        if bs_active state then
          match publish_phase_if_changed s (os_status s) "ScaleUpCatchUpPending" "catch-up" target build
                  "receiver durable progress has not reached the frozen catch-up boundary" with
          | Some plan => Ok plan
          | None => waiting "ScaleUpCatchUpPending" "catch-up"
                      "receiver durable progress has not reached the frozen catch-up boundary"
          end
        else if negb (bs_busy state) && negb (bs_claimed_complete state) then copy
        else ambiguous
      else if bs_active state then
        waiting "ScaleUpBuildSettlementPending" "catch-up"
          "completed build evidence is waiting for the exact source operation to settle"
      else begin_scale_up s status u (cm_identity primary) target build source boundary config
  end.

Definition copy_candidate : eval Plan :=
  match exact_build_pair source_report target_report build target with
  | inl message => Ok (unsafe_plan status (ContradictoryReplicaEvidence message) config)
  | inr BuildMissing => copy_missing
  | inr BuildPropagating => copy_propagating
  | inr (BuildExact source receiver) => copy_exact source receiver
  end.

End copying.

(** The candidate reports an initialized store. *)
Definition provision_report (s : ObservationSnapshot) (p : ProvisioningIntent)
    (u : ScaleUpProvisioning) (status : AcceptedStatus) (primary : ConfigurationMember)
    (target : ReplicaIdentity) (build : OperationId) (o : ReplicaObservation) (r : AgentReport)
    (config : EvaluationConfig) : eval Plan :=
  if (ar_identity r != target) || (ar_resource_uid r != os_resource_uid s)
     || is_some (ar_retired_replica r) || (ar_role r == ActiveSecondary)
     || is_some (ar_current_configuration r)
  then Ok (unsafe_plan status (ContradictoryReplicaEvidence
             "candidate report differs from fresh scale-up initialization authority") config)
  else if is_none_or (fun k => negb (ko_peer_endpoint_ready k)) (ro_kubernetes o)
  then Ok (Apply [EnsureReplicaScaffolding [replica_id target]])
  else
    match healthy_report s (cm_identity primary) with
    | None =>
        Ok (wait_progress ActiveTransition s status "ScaleUpSourceUnavailable" "copying" (Some target)
              (Some build) "accepted primary is unavailable" config)
    | Some source => copy_candidate s p u status primary target build source r config
    end.

(** A delegated failover, with the scale-up's progress. *)
Definition arbitrate_failover (s : ObservationSnapshot) (status : AcceptedStatus)
    (target : ReplicaIdentity) (attempt : OperationId) (blocking : string) (config : EvaluationConfig)
    : eval Plan :=
  let? failover := maybe_begin_stable_failover s status config in
  Ok (match failover with
      | Some plan => contextualize_delegated_wait s plan target attempt "failover-recovery"
      | None => wait_progress ActiveTransition s (os_status s) "ScaleUpFailoverArbitrationPending"
                  "failover-recovery" (Some target) (Some attempt) blocking config
      end).

Definition initialize_candidate (s : ObservationSnapshot) (p : ProvisioningIntent)
    (u : ScaleUpProvisioning) (target : ReplicaIdentity) (a : UninitializedAgentObservation) : Plan :=
  Execute (CmdInitializeAgentStore
    {| ias_initialization_id := pi_initialization_id p (os_resource_uid s);
       ias_resource_uid := os_resource_uid s; ias_local_replica_id := replica_id target;
       ias_expected_instance_id := instance_id target; ias_expected_pod_uid := ua_pod_uid a;
       ias_expected_pvc_uid := ua_pvc_uid a;
       ias_assigned_agent_generation := agent_generation target;
       ias_effective_policy := sup_current_policy u;
       ias_bootstrap_configuration := sup_previous_configuration u; ias_provisioning := Some p |}).

Definition evaluate_scale_up_provisioning (s : ObservationSnapshot) (p : ProvisioningIntent)
    (config : EvaluationConfig) : eval Plan :=
  let? u := expect (pi_scale_up p) in
  let target := pi_target_identity p (os_resource_uid s) in
  let? build := expect (pi_scale_up_build_id p (os_resource_uid s)) in
  let attempt := pi_operation_id p in
  let status := progress_status s (os_status s) "ScaleUpProvisioningInProgress" "provisioning"
    (Some target) (Some attempt) "candidate initialization, endpoint, or build evidence is incomplete" in
  let? accepted := expect (st_topology (os_status s)) in
  let? primary := configuration_primary accepted in
  let abandon reason := freeze_cleanup s p status reason false config in
  if replica_failed s (cm_identity primary) then
    arbitrate_failover s status target attempt "accepted primary failure arbitration is pending" config
  else if accepted != sup_previous_configuration u then
    let? service := restore_accepted_service_before_cleanup s accepted (sup_previous_policy u) target
      attempt "cleanup" config in
    match service with
    | Some plan => Ok plan
    | None => abandon "ScaleUpCleanupPendingAfterFailover"
    end
  else if ds_replicas (os_desired s) <=? replica_set_size (sup_previous_policy u) then
    abandon "ScaleUpCancelledBeforeAdmission"
  else
    match observation_for_identity s target with
    | None => abandon "ScaleUpCandidateDisappeared"
    | Some o =>
        match ro_agent o with
        | AgentInvalid _ _ => abandon "ScaleUpCandidateFailed"
        | AgentReported r =>
            if permanent_fault r then abandon "ScaleUpCandidateFailed"
            else provision_report s p u status primary target build o r config
        | AgentUninitialized a => Ok (initialize_candidate s p u target a)
        | AgentAbsent | AgentUnreachable _ =>
            Ok (wait_progress ActiveTransition s status "ScaleUpCandidateAgentPending" "provisioning"
                  (Some target) (Some attempt) "candidate agent is unavailable" config)
        end
    end.

End candidate.
