(* ===== verification/EvaluatorAdmission.v ===== *)
(** * Scale-up: the transition
    ([kuberic-controller/src/evaluator/scale_up.rs], last part)

    The persisted scale-up installs the joint configuration on every participant, then
    the expanded one alone, and is accepted with a receipt ([scale_up_transition]).  When
    the primary fails on the way the scale-up is carried by a failover: read quorums of
    both configurations choose a provisional primary, every participant is fenced at its
    epoch, and the final election takes the replica with the longest safe prefix. *)

From S2P Require Import Prelude Digest Types Intents Commands Observations Validation.
From S2P Require Import ScaleDown ScaleUp SnapshotValidation EvaluatorBase.
From S2P Require Import EvaluatorFailover EvaluatorScaleDown EvaluatorReplacement EvaluatorExpansion.
From S2P Require Import EvaluatorCandidate.
From stdpp Require Import base gmap strings list pretty.
From Stdlib Require Import ZArith Lia.
Local Open Scope Z_scope.

Section admission.
Context `{Sha256, Texts}.

(** ** Witnesses *)

Definition quorum_witnesses (s : ObservationSnapshot) (i : ScaleUpIntent)
    (current eligible : ConfigurationDescriptor) (stage : ScaleUpStage) : list ScaleUpWitness :=
  omap (fun m =>
    r ← healthy_report s (cm_identity m);
    let exact := if stage == SuCurrentOnly then exact_current_only_report r i current
                 else exact_pc_cc_report r i current in
    if exact && is_none (ar_pending_operation_id r)
       && (ar_retained_operation_id r == Some (sui_command_operation_id i stage (cm_identity m) current))
    then scale_up_witness r else None) (cd_members eligible).

Definition recovery_witnesses (s : ObservationSnapshot) (i : ScaleUpIntent)
    (eligible : ConfigurationDescriptor) : list ScaleUpWitness :=
  let current := sui_current_configuration i in
  omap (fun m =>
    r ← healthy_report s (cm_identity m);
    stage ← (if exact_pc_cc_report r i current then Some SuPreviousCurrent
             else if exact_current_only_report r i current then Some SuCurrentOnly else None);
    if is_none (ar_pending_operation_id r)
       && (ar_retained_operation_id r == Some (sui_command_operation_id i stage (cm_identity m) current))
    then scale_up_witness r else None) (cd_members eligible).

Definition fenced_failover_reports (s : ObservationSnapshot) (i : ScaleUpIntent)
    (current eligible : ConfigurationDescriptor) : list AgentReport :=
  omap (fun m => opt_filter (fun r => ar_healthy r && negb (permanent_fault r)
                                      && exact_fenced_pc_cc_report r i current)
                   (healthy_report s (cm_identity m))) (cd_members eligible).

Definition length_text {A} (l : list A) : string := pretty (Z.of_nat (length l)).

(** ** Beginning a failover that carries the scale-up *)

(** Which read quorum is missing, and how far it is. *)
Definition recovery_pending (i : ScaleUpIntent) (previous current : list ScaleUpWitness)
    (previous_missing current_missing : bool) : string * string :=
  let previous_counts := "observed=" +:+ length_text previous +:+ " required="
                           +:+ pretty (read_quorum (sui_previous_policy i)) in
  let current_counts := "observed=" +:+ length_text current +:+ " required="
                          +:+ pretty (read_quorum (sui_current_policy i)) in
  let text (missing : bool) which counts :=
    if missing then "missing " +:+ which +:+ " configuration read quorum: " +:+ counts
    else which +:+ " configuration satisfied: " +:+ counts in
  ((if previous_missing then
      if current_missing then "ScaleUpDualQuorumEvidencePending"
      else "ScaleUpPreviousQuorumEvidencePending"
    else "ScaleUpCurrentQuorumEvidencePending"),
   text previous_missing "previous" previous_counts +:+ "; "
     +:+ text current_missing "current" current_counts).

(** The surviving witness with the most verified progress, the lowest id among equals. *)
Definition recovery_order (left right : ScaleUpWitness) : comparison :=
  then_with (suw_verified_replication_lsn left ?= suw_verified_replication_lsn right)
    (replica_id (suw_identity right) ?= replica_id (suw_identity left)).

Definition carried_transition (t : TransitionIntent) (i : ScaleUpIntent)
    (failover : ConfigurationDescriptor) (e : ScaleUpFailoverEvidence) : TransitionIntent :=
  (plain_transition (sui_transition_id i Failover failover) Failover (ti_spec_generation t)
     (sui_current_policy i) (Some (cd_configuration_id (sui_previous_configuration i))) failover None
     (Some (sui_build_id i))) <| ti_scale_up_failover := Some e |>.

Definition begin_carried_failover (s : ObservationSnapshot) (t : TransitionIntent) (i : ScaleUpIntent)
    (config : EvaluationConfig) : eval Plan :=
  let current := sui_current_configuration i in
  let st := os_status s in
  let previous_witnesses := recovery_witnesses s i (sui_previous_configuration i) in
  let current_witnesses := recovery_witnesses s i current in
  let previous_missing := Z.of_nat (length previous_witnesses) <? read_quorum (sui_previous_policy i) in
  let current_missing := Z.of_nat (length current_witnesses) <? read_quorum (sui_current_policy i) in
  let waiting reason blocking :=
    Ok (wait_progress ActiveTransition s st reason "failover-recovery" (Some (sui_target i))
          (Some (sui_operation_id i)) blocking config) in
  if previous_missing || current_missing then
    let '(reason, blocking) :=
      recovery_pending i previous_witnesses current_witnesses previous_missing current_missing in
    waiting reason blocking
  else
    match max_by recovery_order
            (List.filter (fun w => suw_identity w != sui_primary i) current_witnesses) with
    | None => waiting "ScaleUpFailoverCandidatePending"
                "no exact surviving current member can become primary"
    | Some candidate =>
        match i64_checked_add (configuration_number (cd_epoch current)) 1 with
        | None => Ok (unsafe_plan st (InvalidAcceptedAuthority "scale-up failover epoch exhausted") config)
        | Some number =>
            let failover := configuration_with_primary current (suw_identity candidate)
              (mkEpoch (data_loss_number (cd_epoch current)) number) in
            let e := {| sufe_intent := i; sufe_provisional_configuration := failover;
                        sufe_previous_read_quorum := previous_witnesses;
                        sufe_current_read_quorum := current_witnesses; sufe_final_election := None |} in
            match validate_scale_up_failover_evidence e with
            | Panic => Panic
            | Err error =>
                Ok (unsafe_plan st (ContradictoryReplicaEvidence (display_error error)) config)
            | Ok _ =>
                let status := st <| st_transition := Some (carried_transition t i failover e) |>
                  <| st_primary_failure := None |> in
                Ok (Apply ((if routed s then [RemoveWriteRouting] else [])
                      ++ [PersistStatus (progress_status s status "ScaleUpFailoverPersisted"
                            "failover-recovery" (Some (sui_target i)) (Some (sui_operation_id i))
                            "preserved original PC and expanded CC and persisted a provisional write-closed election epoch")]))
            end
        end
    end.

(** ** The final election *)

Definition fenced_pending (i : ScaleUpIntent) (previous current : list AgentReport)
    (previous_missing current_missing : bool) : string * string :=
  let previous_counts := "observed=" +:+ length_text previous +:+ " required="
                           +:+ pretty (read_quorum (sui_previous_policy i)) in
  let current_counts := "observed=" +:+ length_text current +:+ " required="
                          +:+ pretty (read_quorum (sui_current_policy i)) in
  let missing which counts := which +:+ " configuration read quorum is insufficient: " +:+ counts in
  let satisfied which counts := which +:+ " configuration quorum is satisfied: " +:+ counts in
  ((if previous_missing then
      if current_missing then "ScaleUpFencedDualQuorumPending" else "ScaleUpFencedPreviousQuorumPending"
    else "ScaleUpFencedCurrentQuorumPending"),
   (if previous_missing then missing "fresh fenced previous" previous_counts
    else satisfied "fresh fenced previous" previous_counts) +:+ "; "
     +:+ (if current_missing then missing "fresh current" current_counts
          else satisfied "fresh current" current_counts)).

Definition report_safe_lsn (r : AgentReport) : Lsn :=
  Z.min (ar_current_progress r) (default 0 (ar_deactivated_lsn r)).
Definition fenced_order (left right : AgentReport) : comparison :=
  then_with (report_safe_lsn left ?= report_safe_lsn right)
  (then_with (ar_current_progress left ?= ar_current_progress right)
  (then_with (ar_committed_lsn left ?= ar_committed_lsn right)
     (replica_id (ar_identity right) ?= replica_id (ar_identity left)))).

(** One witness per replica, the first that reports. *)
Definition final_witnesses (reports : list AgentReport) : list ScaleUpFinalWitness :=
  fold_left (fun ws r =>
    if existsb (fun w => sfw_replica_id w == replica_id (ar_identity r)) ws then ws
    else ws ++ option_list (final_witness r)) reports [].

Definition finalized_transition (t : TransitionIntent) (i : ScaleUpIntent)
    (finalized : ConfigurationDescriptor) (safe : Lsn) (e : ScaleUpFailoverEvidence)
    : TransitionIntent :=
  t <| ti_transition_id := sui_transition_id i Failover finalized |>
    <| ti_current_configuration := finalized |> <| ti_election_lsn := Some safe |>
    <| ti_scale_up_failover := Some e |>.

Definition persist_election (s : ObservationSnapshot) (t : TransitionIntent) (i : ScaleUpIntent)
    (candidate : AgentReport) (safe number : Z) (previous current : list AgentReport)
    (config : EvaluationConfig) : eval Plan :=
  let provisional := ti_current_configuration t in
  let finalized := configuration_with_primary provisional (ar_identity candidate)
    (mkEpoch (data_loss_number (cd_epoch provisional)) number) in
  let final := {| sfe_selected_primary_replica_id := replica_id (ar_identity candidate);
                  sfe_witnesses := final_witnesses (previous ++ current);
                  sfe_previous_read_quorum := map (fun r => replica_id (ar_identity r)) previous;
                  sfe_current_read_quorum := map (fun r => replica_id (ar_identity r)) current |} in
  let? carried := expect (ti_scale_up_failover t) in
  let e := {| sufe_intent := sufe_intent carried;
              sufe_provisional_configuration := sufe_provisional_configuration carried;
              sufe_previous_read_quorum := sufe_previous_read_quorum carried;
              sufe_current_read_quorum := sufe_current_read_quorum carried;
              sufe_final_election := Some final |} in
  match validate_scale_up_failover_evidence e with
  | Panic => Panic
  | Err error => Ok (unsafe_plan (os_status s) (ContradictoryReplicaEvidence (display_error error)) config)
  | Ok _ =>
      Ok (persist_progress s
            ((os_status s) <| st_transition := Some (finalized_transition t i finalized safe e) |>)
            "ScaleUpFencedElectionFinalized" "failover-election" (sui_target i) (sui_operation_id i)
            ("fresh epoch-fenced PC and CC evidence selected replica "
               +:+ pretty (replica_id (ar_identity candidate)) +:+ " with safe prefix LSN "
               +:+ pretty safe))
  end.

Definition finalize_fenced_failover (s : ObservationSnapshot) (t : TransitionIntent) (i : ScaleUpIntent)
    (config : EvaluationConfig) : eval Plan :=
  let provisional := ti_current_configuration t in
  let previous := fenced_failover_reports s i provisional (sui_previous_configuration i) in
  let current := fenced_failover_reports s i provisional provisional in
  let previous_missing := Z.of_nat (length previous) <? read_quorum (sui_previous_policy i) in
  let current_missing := Z.of_nat (length current) <? read_quorum (sui_current_policy i) in
  let waiting reason blocking :=
    Ok (wait_progress ActiveTransition s (os_status s) reason "failover-election" (Some (sui_target i))
          (Some (sui_operation_id i)) blocking config) in
  if previous_missing || current_missing then
    let '(reason, blocking) := fenced_pending i previous current previous_missing current_missing in
    waiting reason blocking
  else
    match max_by fenced_order (List.filter (fun r => ar_identity r != sui_primary i) current) with
    | None => waiting "ScaleUpFencedCandidatePending"
                "fresh fenced current-configuration evidence has no surviving primary candidate"
    | Some candidate =>
        let? deactivated := expect (ar_deactivated_lsn candidate) in
        let safe := Z.min (ar_current_progress candidate) deactivated in
        match i64_checked_add (configuration_number (cd_epoch provisional)) 1 with
        | None => Ok (unsafe_plan (os_status s)
                        (InvalidAcceptedAuthority "scale-up final failover epoch exhausted") config)
        | Some number => persist_election s t i candidate safe number previous current config
        end
    end.

(** ** The transition *)

Section transition.
Variables (s : ObservationSnapshot) (t : TransitionIntent) (e : ScaleUpConfigurationEvidence)
  (p : ProvisioningIntent) (config : EvaluationConfig).

Let i := evidence_intent e.
Let current := ti_current_configuration t.
Let st := os_status s.
Let ordinary := ti_kind t == ScaleUp.
Let failover := ti_kind t == Failover.
Let admission_started := st_scale_up_admission_started st == Some (sui_operation_id i).
Let progress (status : AcceptedStatus) (reason phase blocking : string) : Plan :=
  persist_progress s status reason phase (sui_target i) (sui_operation_id i) blocking.
Let waiting (reason phase blocking : string) : Plan :=
  wait_progress ActiveTransition s st reason phase (Some (sui_target i)) (Some (sui_operation_id i))
    blocking config.
Let abandon (reason : string) : eval Plan := freeze_cleanup s p st reason false config.
Let unsafe (message : string) : Plan := unsafe_plan st (ContradictoryReplicaEvidence message) config.
Let command (m : ConfigurationMember) (current_only : bool) : EnsureConfiguration :=
  scale_up_configuration_command e current m current_only (ti_election_lsn t).
Let execute (c : EnsureConfiguration) : Plan := Execute (CmdEnsureConfiguration c).

(** An ordinary scale-up before its admission fence: a plan, or whether it goes on
    collecting the evidence for a failover. *)
Definition before_admission : eval (Plan + bool) :=
  let inl := fun (m : eval Plan) => let? plan := m in Ok (inl plan) in
  let failed := replica_failed s (sui_primary i) in
  if negb ordinary then Ok (inr false)
  else if negb failed && is_some_and (fun f => pfo_primary f == sui_primary i) (st_primary_failure st)
  then inl (Ok (progress (st <| st_primary_failure := None |>) "ScaleUpPrimaryRecovered"
                  "failover-recovery" "accepted primary recovered before failover allocation"))
  else if failed then
    if negb admission_started then
      inl (arbitrate_failover s st (sui_target i) (sui_operation_id i)
             "accepted primary recovery is pending before scale-up admission" config)
    else if (read_quorum (sui_previous_policy i)
               <=? Z.of_nat (length (recovery_witnesses s i (sui_previous_configuration i))))
            && (read_quorum (sui_current_policy i)
                  <=? Z.of_nat (length (recovery_witnesses s i (sui_current_configuration i))))
    then inl (begin_carried_failover s t i config)
    else Ok (inr true)
  else if admission_started then Ok (inr false)
  else
    let? service := restore_accepted_service_before_cleanup s (sui_previous_configuration i)
      (sui_previous_policy i) (sui_target i) (sui_operation_id i) "failover-recovery" config in
    match service with
    | Some plan => inl (Ok plan)
    | None =>
        if ds_replicas (os_desired s) <=? replica_set_size (sui_previous_policy i)
        then inl (abandon "ScaleUpCancelledBeforePreviousCurrent")
        else if candidate_failed s (sui_target i)
        then inl (abandon "ScaleUpCandidateFailedBeforeAdmission")
        else inl (Ok (progress (st <| st_scale_up_admission_started := Some (sui_operation_id i) |>)
                        "ScaleUpAdmissionStarted" "pc-cc"
                        "persisted monotonic admission fence before the first PC/CC command"))
    end.

(** The joint configuration on one participant. *)
Definition install_participant (recovering : bool) (primary m : ConfigurationMember)
    : eval (option Plan) :=
  match healthy_report s (cm_identity m) with
  | None =>
      if failover || recovering then Ok None
      else if (cm_identity m == sui_target i) && negb admission_started then
        let? plan := abandon "ScaleUpCandidateDisappearedBeforeAdmission" in Ok (Some plan)
      else if cm_identity m != cm_identity primary then Ok None
      else Ok (Some (waiting "ScaleUpParticipantPending" "pc-cc" "an exact participant is unavailable"))
  | Some r =>
      let operation := sui_command_operation_id i SuPreviousCurrent (cm_identity m) current in
      if ar_pending_operation_id r
           == Some (sui_command_operation_id i SuCurrentOnly (cm_identity m) current)
      then Ok (Some (execute (command m true)))
      else
        let installed := if failover && is_none (ti_election_lsn t)
                         then exact_fenced_pc_cc_report r i current
                         else exact_pc_cc_report r i current in
        if negb installed || is_some (ar_pending_operation_id r)
           || (ar_retained_operation_id r != Some operation)
        then
          if is_some_and (fun pending => pending != operation) (ar_pending_operation_id r)
          then Ok (Some (waiting "ScaleUpCommandPending" "pc-cc"
                           "one exact authority command remains pending"))
          else Ok (Some (execute (command m false)))
        else Ok None
  end.

Fixpoint install_participants (recovering : bool) (primary : ConfigurationMember)
    (members : list ConfigurationMember) : eval (option Plan) :=
  match members with
  | [] => Ok None
  | m :: members =>
      let? plan := install_participant recovering primary m in
      match plan with
      | Some plan => Ok (Some plan)
      | None => install_participants recovering primary members
      end
  end.

(** The elected primary reached the safe prefix with writes closed. *)
Definition selected_primary_ready (primary : ConfigurationMember) (safe : Lsn) : bool :=
  is_some_and (fun r =>
    exact_pc_cc_report r i current && is_none (ar_pending_operation_id r)
    && (ar_deactivation_epoch r == Some (cd_epoch current))
    && is_some_and (fun lsn => safe <=? lsn) (ar_deactivated_lsn r)
    && is_some_and (fun lsn => safe <=? lsn) (ar_verified_replication_lsn r)
    && ar_catch_up_complete r && (ar_write_status r == ReconfigurationPending))
    (healthy_report s (cm_identity primary)).

(** The quorums of both configurations, the candidate and the primary. *)
Definition joint_quorum (primary : ConfigurationMember) : eval (option Plan) :=
  let previous_witnesses :=
    quorum_witnesses s i current (sui_previous_configuration i) SuPreviousCurrent in
  let current_witnesses := quorum_witnesses s i current current SuPreviousCurrent in
  let quorum policy := if failover then read_quorum policy else write_quorum policy in
  let candidate_ready :=
    existsb (fun w => (suw_identity w == sui_target i)
                      && (sui_catch_up_boundary_lsn i <=? suw_verified_replication_lsn w))
      current_witnesses in
  let primary_ready :=
    existsb (fun w => (suw_identity w == cm_identity primary)
                      && (failover || (suw_write_status w == Granted))) current_witnesses in
  if (Z.of_nat (length previous_witnesses) <? quorum (sui_previous_policy i))
     || (Z.of_nat (length current_witnesses) <? quorum (sui_current_policy i))
  then Ok (Some (wait_progress QuorumLoss s st "ScaleUpDualQuorumUnavailable" "pc-cc"
                   (Some (sui_target i)) (Some (sui_operation_id i))
                   "previous and current configuration quorum evidence is insufficient" config))
  else
    let? caught_up := if failover then
                        let? safe := expect (ti_election_lsn t) in
                        Ok (selected_primary_ready primary safe)
                      else Ok true in
    if negb caught_up then
      Ok (Some (waiting "ScaleUpFinalPrimaryCatchupPending" "catch-up"
            "selected primary must durably reach the exact fenced safe prefix while write-closed"))
    else if negb candidate_ready || negb primary_ready then
      Ok (Some (waiting "ScaleUpDualQuorumPending" "catch-up"
            "both configurations, the exact candidate boundary, and writable primary are required"))
    else Ok None.

Definition joint_phase (recovering : bool) (primary : ConfigurationMember) : eval (option Plan) :=
  let some := fun (m : eval Plan) => let? plan := m in Ok (Some plan) in
  let? plan := install_participants recovering primary
    (List.filter (fun m => (cm_identity m != cm_identity primary)
                           && (negb failover || (cm_identity m != sui_primary i)))
       (cd_members current) ++ [primary]) in
  match plan with
  | Some plan => Ok (Some plan)
  | None =>
      if recovering then some (begin_carried_failover s t i config)
      else if failover && is_none (ti_election_lsn t) then some (finalize_fenced_failover s t i config)
      else joint_quorum primary
  end.

(** ** Current-only convergence *)

Definition exact_current_only (m : ConfigurationMember) : bool :=
  is_some_and (fun r =>
    exact_current_only_report r i current && is_none (ar_pending_operation_id r)
    && (ar_retained_operation_id r
          == Some (sui_command_operation_id i SuCurrentOnly (cm_identity m) current)))
    (healthy_report s (cm_identity m)).

(** The failed primary takes part again only under the failover's authority. *)
Definition retained_original_participant (m : ConfigurationMember) : bool :=
  if negb failover || (cm_identity m != sui_primary i) then true
  else
    match healthy_report s (cm_identity m), e with
    | Some r, FailoverEvidence carried =>
        claims_provisional_failover_authority r carried
        || ((ar_scale_up_intent r == Some i) && (ar_epoch r == cd_epoch current)
            && (ar_current_configuration r == Some current))
    | _, _ => false
    end.

(** The first pending command of this transition, replayed as frozen. *)
Definition replay_participant (m : ConfigurationMember) : option Plan :=
  r ← healthy_report s (cm_identity m);
  pending ← ar_pending_operation_id r;
  expected ← pending_stage e current m (ti_election_lsn t) pending;
  Some (replay_pending s r expected
          ("scale-up member " +:+ pretty (member_id m) +:+ " omitted its pending final configuration")
          ("scale-up member " +:+ pretty (member_id m) +:+ " mutated its pending final configuration")
          config).

Definition converge_member (m : ConfigurationMember) : option Plan :=
  r ← healthy_report s (cm_identity m);
  let operation := sui_command_operation_id i SuCurrentOnly (cm_identity m) current in
  let malformed :=
    match e with
    | FailoverEvidence carried => claims_provisional_failover_authority r carried
                                  && negb (exact_provisional_failover_report r m carried)
    | Admission _ => false
    end in
  if malformed then
    Some (unsafe ("scale-up member " +:+ pretty (member_id m)
                    +:+ " reports malformed provisional failover authority"))
  else if needs_scale_up_pc_cc r m e then Some (execute (command m false))
  else if negb (exact_current_only_report r i current) || is_some (ar_pending_operation_id r)
          || (ar_retained_operation_id r != Some operation)
  then
    if is_some_and (fun pending => pending != operation) (ar_pending_operation_id r) then None
    else Some (execute (command m true))
  else None.

(** The primary last, or first once the others nearly form a quorum. *)
Definition convergence_order (primary : ConfigurationMember) : list ConfigurationMember :=
  List.filter (fun m => (cm_identity m != cm_identity primary) && retained_original_participant m)
    (cd_members current).
Definition prioritize_primary (primary : ConfigurationMember) : bool :=
  negb (exact_current_only primary)
  && (saturating_sub (write_quorum (sui_current_policy i)) 1
        <=? count (fun m => (cm_identity m != cm_identity primary) && exact_current_only m)
              (cd_members current)).

Definition converge (primary : ConfigurationMember) : option Plan :=
  let others := convergence_order primary in
  match head (omap replay_participant (others ++ [primary])) with
  | Some plan => Some plan
  | None => head (omap converge_member
                    (if prioritize_primary primary then primary :: others else others ++ [primary]))
  end.

Definition scale_up_receipt (witnesses : list ScaleUpWitness) : ScaleUpReceipt :=
  {| sur_intent := i; sur_accepted_configuration := current;
     sur_failover_evidence := match e with
                              | Admission _ => None
                              | FailoverEvidence carried => receipt_from_evidence carried
                              end;
     sur_failover_safe_lsn := ti_election_lsn t; sur_current_only_write_quorum := witnesses |}.

Definition accept_scale_up (receipt : ScaleUpReceipt) : Plan :=
  let ready := is_some_and (fun r => exact_current_only_report r i current
                                     && (ar_role r == ActiveSecondary))
                 (healthy_report s (sui_target i)) in
  let accepted := (clear_evaluator_conditions st) <| st_observed_generation := ti_spec_generation t |>
    <| st_effective_policy := Some (sui_current_policy i) |> <| st_topology := Some current |>
    <| st_provisioning := None |> <| st_transition := None |> <| st_scale_up_cleanup := None |>
    <| st_last_scale_up := Some receipt |> <| st_scale_up_admission_started := None |>
    <| st_primary_failure := None |> <| st_quorum_loss := None |> in
  if ready then progress accepted "ScaleUpTopologyAccepted" "current-only"
    "expanded topology committed; stable routing and fresh local evidence remain"
  else progress accepted "ScaleUpCommittedDegraded" "local-convergence"
    "expanded topology committed without exact candidate local acceptance".

Definition commit_scale_up (primary : ConfigurationMember) : eval Plan :=
  let witnesses := quorum_witnesses s i current current SuCurrentOnly in
  if (write_quorum (sui_current_policy i) <=? Z.of_nat (length witnesses))
     && existsb (fun w => (suw_identity w == cm_identity primary) && (suw_write_status w == Granted))
          witnesses
  then
    let receipt := scale_up_receipt witnesses in
    match validate_scale_up_receipt receipt with
    | Panic => Panic
    | Err error => Ok (unsafe (display_error error))
    | Ok _ => Ok (accept_scale_up receipt)
    end
  else Ok (waiting "ScaleUpCurrentOnlyQuorumPending" "current-only"
             "expanded current-only write quorum including the primary is required").

Definition drive_scale_up : eval Plan :=
  let? admission := before_admission in
  match admission with
  | inl plan => Ok plan
  | inr recovering =>
      let? primary := configuration_primary current in
      let started := existsb (fun m => is_some_and (fun r => exact_current_only_report r i current)
                                         (healthy_report s (cm_identity m))) (cd_members current) in
      let? joint := if started then Ok None else joint_phase recovering primary in
      match joint with
      | Some plan => Ok plan
      | None =>
          match publish_phase_if_changed s st "ScaleUpCurrentOnlyInstalling" "current-only"
                  (sui_target i) (sui_operation_id i)
                  "installing expanded current-only authority one exact member at a time" with
          | Some plan => Ok plan
          | None =>
              match converge primary with
              | Some plan => Ok plan
              | None => commit_scale_up primary
              end
          end
      end
  end.

End transition.

Definition scale_up_transition (s : ObservationSnapshot) (t : TransitionIntent)
    (config : EvaluationConfig) : eval Plan :=
  let? e := expect (or_else (Admission <$> ti_scale_up t) (FailoverEvidence <$> ti_scale_up_failover t)) in
  match st_provisioning (os_status s) with
  | None => Ok (unsafe_plan (os_status s) (InvalidAcceptedAuthority
                  "active scale-up transition lacks exact provisioning provenance") config)
  | Some p => drive_scale_up s t e p config
  end.

End admission.
