(* ===== verification/Evaluator.v ===== *)
(** * The evaluator ([kuberic-controller/src/evaluator.rs])

    [evaluate] takes one snapshot to the next safe plan: it refuses disabled features,
    validates the snapshot (around the few replicas whose stale authority it is itself
    correcting), arbitrates contradictory or missing evidence, and then dispatches on what
    the status says is under way, down to [evaluate_stable] for an idle topology. *)

From S2P Require Import Prelude Digest Types Intents Commands Observations Validation.
From S2P Require Import ScaleDown ScaleUp SnapshotValidation EvaluatorBase.
From S2P Require Import EvaluatorSwitchover EvaluatorFailover EvaluatorScaleDown EvaluatorReplacement.
From S2P Require Import EvaluatorBootstrap EvaluatorExpansion EvaluatorCandidate EvaluatorAdmission.
From stdpp Require Import base gmap strings list pretty.
From Stdlib Require Import ZArith Lia.
Local Open Scope Z_scope.

Section evaluator.
Context `{Sha256, Texts}.

(** ** Members the evaluator corrects itself *)

Definition scale_up_authority_active (s : ObservationSnapshot) : bool :=
  let st := os_status s in
  is_some (st_scale_up_cleanup st) || is_some (st_scale_up_allocation st)
  || is_some_and (fun p => is_some (pi_scale_up p)) (st_provisioning st)
  || is_some_and (fun t => is_some (ti_scale_up t) || is_some (ti_scale_up_failover t))
       (st_transition st).

Definition correction_operation_id (accepted : ConfigurationDescriptor) (m : ConfigurationMember)
    : OperationId :=
  "scale-up-accepted-correction:" +:+ cd_configuration_id accepted +:+ ":" +:+ pretty (member_id m).
Definition correction_current_only_id (accepted : ConfigurationDescriptor) (m : ConfigurationMember)
    : OperationId :=
  "scale-up-accepted-current-only:" +:+ cd_configuration_id accepted +:+ ":" +:+ pretty (member_id m).

Definition correction_command (previous accepted : ConfigurationDescriptor) (m : ConfigurationMember)
    (policy : EffectivePolicy) (operation : OperationId) (current_only : bool) : EnsureConfiguration :=
  failover_configuration_command previous accepted m policy operation (Some 0) ReconfigurationPending
    current_only [].

(** A completed scale-up explains the member's stale configuration. *)
Definition receipt_pc_cc (s : ObservationSnapshot) (accepted previous : ConfigurationDescriptor)
    (m : ConfigurationMember) (r : AgentReport) : bool :=
  is_some_and (fun receipt =>
    let i := sur_intent receipt in
    (sur_accepted_configuration receipt == accepted)
    && has_member (sur_accepted_configuration receipt) (cm_identity m)
    && (previous == sui_previous_configuration i)
    && has_member_with_role (sui_previous_configuration i) (cm_identity m) (ar_role r)
    && is_none_or (fun pending =>
         pending == sui_command_operation_id i SuPreviousCurrent (cm_identity m)
                      (sur_accepted_configuration receipt)) (ar_pending_operation_id r))
    (st_last_scale_up (os_status s)).

Definition fresh_session_sequence (s : ObservationSnapshot) (i : ReplicaIdentity) (r : AgentReport)
    : bool :=
  is_none_or (fun w => (rw_process_session_id w != ar_process_session_id r)
                       || (rw_report_sequence w <? ar_report_sequence r))
    (os_previous_report_watermarks s !! identity_key i).

Definition stale_correction (s : ObservationSnapshot) (accepted : ConfigurationDescriptor)
    (policy : EffectivePolicy) (m : ConfigurationMember) : eval (option ReplicaIdentity) :=
  match report_for s (cm_identity m) with
  | None => Ok None
  | Some r =>
      match ar_current_configuration r with
      | None => Ok None
      | Some previous =>
          let? invalid := if cm_role m != Primary
                          then is_err (validate_transition_relationship Failover (Some previous)
                                         accepted policy)
                          else Ok true in
          let operation := correction_operation_id accepted m in
          let pending_is_exact :=
            is_none_or (fun pending =>
              (pending == operation)
              && (ar_pending_configuration r
                    == Some (correction_command previous accepted m policy operation false)))
              (ar_pending_operation_id r) in
          Ok (then_some
                ((ar_identity r == cm_identity m) && (ar_resource_uid r == os_resource_uid s)
                 && negb (permanent_fault r) && epoch_ltb (ar_epoch r) (cd_epoch accepted)
                 && fresh_session_sequence s (cm_identity m) r
                 && has_member_with_role previous (cm_identity m) (ar_role r)
                 && ((negb invalid && pending_is_exact) || receipt_pc_cc s accepted previous m r))
                (cm_identity m))
      end
  end.

Fixpoint stale_corrections (s : ObservationSnapshot) (accepted : ConfigurationDescriptor)
    (policy : EffectivePolicy) (members : list ConfigurationMember) : eval (list ReplicaIdentity) :=
  match members with
  | [] => Ok []
  | m :: members =>
      let? identity := stale_correction s accepted policy m in
      let? rest := stale_corrections s accepted policy members in
      Ok (option_list identity ++ rest)
  end.

Definition scale_up_stale_correction_identities (s : ObservationSnapshot)
    : eval (list ReplicaIdentity) :=
  if negb (scale_up_authority_active s) && is_none (st_last_scale_up (os_status s)) then Ok []
  else
    match st_topology (os_status s), st_effective_policy (os_status s) with
    | Some accepted, Some policy => stale_corrections s accepted policy (cd_members accepted)
    | _, _ => Ok []
    end.

(** [scale_up::recoverable_failover_conflict_identity] *)
Definition recoverable_failover_conflict_identity (s : ObservationSnapshot) : option ReplicaIdentity :=
  carried ← st_transition (os_status s) ≫= ti_scale_up_failover;
  let i := sufe_intent carried in
  let current := sui_current_configuration i in
  m ← List.find (fun m => (cm_identity m == sui_primary i) && (cm_role m == Primary)) (cd_members current);
  r ← healthy_report s (cm_identity m);
  if (ar_epoch r != cd_epoch current) || (ar_current_configuration r != Some current)
     || (ar_scale_up_intent r != Some i) || is_some (ar_pending_operation_id r)
     || (ar_identity r != sui_primary i) || (ar_role r != Primary)
  then None
  else
    stage ← (if (ar_previous_configuration r == Some (sui_previous_configuration i))
                && ((ar_write_status r == Granted) || (ar_write_status r == ReconfigurationPending))
             then Some SuPreviousCurrent
             else if is_none (ar_previous_configuration r) && (ar_write_status r == Granted)
             then Some SuCurrentOnly else None);
    then_some (ar_retained_operation_id r
                 == Some (sui_command_operation_id i stage (ar_identity r) current)) (ar_identity r).

(** Validate the snapshot without the reports that are being corrected. *)
Fixpoint hide_corrections (s remaining : ObservationSnapshot) (identities : list ReplicaIdentity)
    : res ValidationError ObservationSnapshot :=
  match identities with
  | [] => Ok remaining
  | i :: identities =>
      let? r := ok_or (report_for s i) (InvalidScaleUp "stale correction report is unavailable") in
      validate_report_internal r ;?
      let? o := expect (os_replicas remaining !! identity_key i) in
      hide_corrections s
        (remaining <| os_replicas := <[identity_key i := {| ro_kubernetes := ro_kubernetes o;
                                                            ro_agent := AgentAbsent |}]>
                                       (os_replicas remaining) |>) identities
  end.

Definition validate_snapshot_around_authorized_corrections (s : ObservationSnapshot)
    (identities : list ReplicaIdentity) : validation :=
  let? remaining := hide_corrections s s identities in
  validate_snapshot remaining.

(** A correction that a member already has pending is replayed exactly as frozen. *)
Definition pending_correction (s : ObservationSnapshot) (accepted : ConfigurationDescriptor)
    (policy : EffectivePolicy) (m : ConfigurationMember) (r : AgentReport) (pending : OperationId)
    (config : EvaluationConfig) : option Plan :=
  let unsafe message := Some (unsafe_plan (os_status s) (ContradictoryReplicaEvidence message) config) in
  let member := "accepted member " +:+ pretty (member_id m) in
  let replay current_only :=
    match ar_pending_configuration r with
    | None => unsafe (member +:+ " omitted its durable pending configuration")
    | Some frozen =>
        match (if current_only : bool then Some accepted else ec_previous_configuration frozen) with
        | None => unsafe "pending PC/CC correction omitted Previous Configuration"
        | Some previous =>
            if frozen != correction_command previous accepted m policy pending current_only
            then unsafe (member +:+ " pending correction differs from frozen authority")
            else Some (Execute (CmdEnsureConfiguration frozen))
        end
    end in
  if pending == correction_operation_id accepted m then replay false
  else if pending == correction_current_only_id accepted m then replay true
  else if is_some_and (fun c => (ec_operation_id c == pending) && is_some (ec_scale_up_evidence c))
            (ar_pending_configuration r)
  then None
  else if epoch_ltb (ar_epoch r) (cd_epoch accepted)
          || ((ar_epoch r == cd_epoch accepted) && (ar_current_configuration r == Some accepted)
              && is_none (ar_scale_up_intent r))
  then unsafe (member +:+ " has unrelated pending configuration operation " +:+ pending)
  else None.

Definition correct_member (s : ObservationSnapshot) (accepted : ConfigurationDescriptor)
    (policy : EffectivePolicy) (config : EvaluationConfig) (m : ConfigurationMember) : option Plan :=
  r ← report_for s (cm_identity m);
  match ar_pending_operation_id r with
  | Some pending => pending_correction s accepted policy m r pending config
  | None =>
      match (if negb (permanent_fault r) && epoch_ltb (ar_epoch r) (cd_epoch accepted)
             then ar_current_configuration r else None) with
      | Some previous =>
          Some (Execute (CmdEnsureConfiguration
            (correction_command previous accepted m policy (correction_operation_id accepted m) false)))
      | None =>
          previous ← ar_previous_configuration r;
          then_some ((ar_epoch r == cd_epoch accepted) && (ar_current_configuration r == Some accepted)
                     && is_none (ar_scale_up_intent r))
            (Execute (CmdEnsureConfiguration
               (correction_command previous accepted m policy (correction_current_only_id accepted m)
                  true)))
      end
  end.

Definition scale_up_accepted_correction (s : ObservationSnapshot) (config : EvaluationConfig)
    : option Plan :=
  if negb (scale_up_authority_active s) then None
  else
    accepted ← st_topology (os_status s);
    policy ← st_effective_policy (os_status s);
    head (omap (correct_member s accepted policy config)
            (List.filter (fun m => cm_role m != Primary) (cd_members accepted))).

(** ** A stable topology *)

Definition stable_status (s : ObservationSnapshot) (c : ConfigurationDescriptor)
    (policy : EffectivePolicy) (config : EvaluationConfig) : AcceptedStatus :=
  let status := clear_evaluator_conditions (os_status s) in
  let grows := replica_set_size policy <? ds_replicas (os_desired s) in
  match desired_spec_state s c policy with
  | (_, Some drift) =>
      let count_only := sc_reason drift == "ReplicaCountImmutable" in
      if allow_scale_up config && count_only && grows then without_condition "UnsupportedSpec" status
      else if enable_secondary_scale_down config && count_only && grows
      then with_condition (drift <| sc_reason := "ScaleUpUnsupported" |>) status
      else with_condition drift status
  | (true, None) => status <| st_observed_generation := ds_generation (os_desired s) |>
  | (false, None) => status
  end.

(** The secondary that a requested reduction would remove. *)
Definition removal_target (s : ObservationSnapshot) (status : AcceptedStatus)
    (c : ConfigurationDescriptor) (policy : EffectivePolicy) (config : EvaluationConfig)
    : option ConfigurationMember :=
  if enable_secondary_scale_down config && (ds_replicas (os_desired s) <? replica_set_size policy)
     && is_none (st_pending_replacement_cleanup status)
  then highest_secondary c else None.

(** A member that stays has no ready endpoint. *)
Definition endpoint_missing (s : ObservationSnapshot) (status : AcceptedStatus)
    (c : ConfigurationDescriptor) (target : option ConfigurationMember) (m : ConfigurationMember) : bool :=
  if (target == Some m) && is_none (report_for s (cm_identity m)) then false
  else if is_some_and (fun x => rc_target x == cm_identity m) (st_pending_replacement_cleanup status)
          || replacement_needed s c m
  then false
  else is_some_and (fun k => negb (ko_peer_endpoint_ready k)) (kubernetes_of s (cm_identity m)).

Definition find_map {A B} (f : A -> option B) (l : list A) : option B := head (omap f l).

(** A secondary left at an older epoch. *)
Definition stale_member (s : ObservationSnapshot) (c : ConfigurationDescriptor)
    : option (ConfigurationMember * AgentReport) :=
  find_map (fun m =>
    if cm_role m == Primary then None
    else r ← report_for s (cm_identity m);
         then_some (epoch_ltb (ar_epoch r) (cd_epoch c)) (m, r)) (cd_members c).

(** A secondary still in the joint configuration. *)
Definition joint_member (s : ObservationSnapshot) (c : ConfigurationDescriptor)
    : option (ConfigurationMember * AgentReport * ConfigurationDescriptor) :=
  find_map (fun m =>
    if cm_role m == Primary then None
    else r ← report_for s (cm_identity m);
         previous ← ar_previous_configuration r;
         then_some ((ar_identity r == cm_identity m) && (ar_role r == cm_role m)
                    && (ar_epoch r == cd_epoch c) && (ar_current_configuration r == Some c))
           (m, r, previous)) (cd_members c).

Definition correct_stable (s : ObservationSnapshot) (c : ConfigurationDescriptor)
    (policy : EffectivePolicy) : option Plan :=
  let command previous m r operation current_only :=
    Some (Execute (CmdEnsureConfiguration
      (failover_configuration_command previous c m policy
         (operation +:+ ":" +:+ cd_configuration_id c +:+ ":" +:+ pretty (member_id m))
         (Some (ar_current_progress r)) ReconfigurationPending current_only []))) in
  match ('(m, r) ← stale_member s c; previous ← ar_current_configuration r; Some (m, r, previous)) with
  | Some (m, r, previous) => command previous m r "accepted-correction" false
  | None =>
      '(m, r, previous) ← joint_member s c;
      command previous m r "accepted-current-only" true
  end.

(** The switchover gave the service back to its old primary, which does not serve yet. *)
Definition recovering_service (s : ObservationSnapshot) (status : AcceptedStatus)
    (c : ConfigurationDescriptor) : eval bool :=
  match opt_filter (fun receipt =>
          (pso_outcome receipt == OldPrimaryRestored) || (pso_outcome receipt == OldPrimaryCompensated))
          (st_last_switchover status) with
  | None => Ok false
  | Some receipt =>
      let? m := configuration_primary c in
      let primary := cm_identity m in
      Ok ((pso_resulting_primary receipt == Some primary)
          && ((ro_write_target (os_routing s) != Some primary)
              || is_some_and (fun r => ar_write_status r != Granted) (healthy_report s primary))
          && (cd_write_quorum c
                <=? count (fun m => is_some_and (fun r => stable_member_report r m c)
                                      (healthy_report s (cm_identity m))) (cd_members c)))
  end.

(** The secondary to replace. *)
Definition failed_secondary (s : ObservationSnapshot) (status : AcceptedStatus)
    (c : ConfigurationDescriptor) (recovering : bool) : option ConfigurationMember :=
  List.find (fun m =>
    match st_pending_replacement_cleanup status with
    | Some cleanup => (rc_target cleanup == cm_identity m) && (cm_role m != Primary)
    | None => negb recovering && (member_id m != cd_primary_id c) && replacement_needed s c m
    end) (cd_members c).

Definition replace_secondary (s : ObservationSnapshot) (status : AcceptedStatus)
    (failed : ReplicaIdentity) (config : EvaluationConfig) : eval Plan :=
  let? admission := admit_cleanup s failed config in
  match admission with
  | Some plan => Ok plan
  | None =>
      match fresh_candidate s failed with
      | None => Ok (Apply [EnsureReplacementScaffolding (replica_id failed) failed])
      | Some (_, o) =>
          let? scaffolding := exact_scaffolding o in
          let '(pod, pvc) := scaffolding in
          let? cleanup := expect (st_pending_replacement_cleanup (os_status s)) in
          let p := {| pi_purpose := {| pp_kind := PkReplacement; pp_replaces := Some failed;
                                       pp_scale_up := None |};
                      pi_pod_uid := pod; pi_pvc_uid := pvc;
                      pi_operation_id := rc_provisioning_operation_id cleanup pod pvc |} in
          Ok (Apply [PersistStatus ((waiting_status status "ReplacementProvisioning"
                       "Persisting one exact replacement outside authority")
                       <| st_provisioning := Some p |>)])
      end
  end.

(** Resources of a replica that is no member and no candidate. *)
Definition unmanaged_resources (s : ObservationSnapshot) (c : ConfigurationDescriptor)
    (policy : EffectivePolicy) (config : EvaluationConfig) : option KubernetesReplicaObservation :=
  find_map (fun x =>
    let key := fst x in
    let candidate :=
      allow_scale_up config && (replica_set_size policy <? ds_replicas (os_desired s))
      && (Z.min u32_max (replica_set_size policy + 1) == rok_replica_id key) in
    if negb (has_instance c (rok_replica_id key) (rok_instance_id key)) && negb candidate
    then ro_kubernetes (snd x) else None) (replicas_in_order s).

(** The member attests exactly the accepted authority. *)
Definition attests_accepted (c : ConfigurationDescriptor) (m : ConfigurationMember) (r : AgentReport)
    : bool :=
  (ar_identity r == cm_identity m) && (ar_role r == cm_role m) && (ar_epoch r == cd_epoch c)
  && is_none (ar_previous_configuration r)
  && is_some_and (fun current => cd_configuration_id current == cd_configuration_id c)
       (ar_current_configuration r).

Definition attested_members (s : ObservationSnapshot) (c : ConfigurationDescriptor) : Z :=
  as_u32 (count (fun m => is_some_and (attests_accepted c m) (healthy_report s (cm_identity m)))
            (cd_members c)).

(** The report of the last member with the primary's identity that is healthy. *)
Definition attesting_primary (s : ObservationSnapshot) (c : ConfigurationDescriptor)
    (primary : ReplicaIdentity) : option AgentReport :=
  fold_left (fun found m =>
    match healthy_report s (cm_identity m) with
    | Some r => if cm_identity m == primary then opt_filter (attests_accepted c m) (Some r) else found
    | None => found
    end) (cd_members c) None.

Definition availability (c : ConfigurationDescriptor) (primary : ConfigurationMember)
    (policy : EffectivePolicy) (operation : string) (access : AccessStatus) : Plan :=
  Execute (CmdEnsureConfiguration
    (ensure_configuration_command c primary policy
       ("availability:" +:+ cd_configuration_id c +:+ ":" +:+ operation) access false)).

(** Too few members attest: mark the loss and close the writes. *)
Definition lose_write_quorum (s : ObservationSnapshot) (status : AcceptedStatus)
    (c : ConfigurationDescriptor) (primary : ConfigurationMember) (policy : EffectivePolicy)
    (r : AgentReport) (config : EvaluationConfig) : Plan :=
  if negb (is_some_and (fun loss => qlo_configuration_id loss == cd_configuration_id c)
             (st_quorum_loss status))
  then persist (status <| st_quorum_loss := Some {| qlo_configuration_id := cd_configuration_id c |} |>)
         "NoWriteQuorum" "Current Configuration write quorum is unavailable"
  else if ar_write_status r != NoWriteQuorum
  then availability c primary policy "no-write-quorum" NoWriteQuorum
  else wait QuorumLoss status "NoWriteQuorum"
         "Writes remain closed until Current Configuration quorum returns" config.

(** The routing follows the attested primary. *)
Definition converge_routing (s : ObservationSnapshot) (status : AcceptedStatus)
    (primary : ReplicaIdentity) : option Plan :=
  let routing := os_routing s in
  if negb (ro_service_present routing) then Some (Apply [EnsureWriteRoutingService])
  else if ro_unresolved_write_target routing
  then Some (remove_routing status "Removing unresolved write routing")
  else
    match ro_write_target routing with
    | Some target =>
        if target == primary then None
        else Some (remove_routing status "Removing routing to a non-authoritative target")
    | None =>
        Some (Apply [PublishWriteRouting primary;
                     PersistStatus (waiting_status status "RoutingPublicationPending"
                       "Publishing routing to the attested primary")])
    end.

(** The end of [evaluate_stable]: quorum, access and routing, then growth. *)
Definition serve (s : ObservationSnapshot) (status : AcceptedStatus) (c : ConfigurationDescriptor)
    (policy : EffectivePolicy) (config : EvaluationConfig) : eval Plan :=
  let? primary := expect (named_primary c) in
  match attesting_primary s c (cm_identity primary) with
  | None => Ok (wait AwaitingStableEvidence status "PrimaryAuthorityUnproven"
                  "The accepted primary has not attested its exact authority" config)
  | Some r =>
      if attested_members s c <? cd_write_quorum c
      then Ok (lose_write_quorum s status c primary policy r config)
      else if ar_write_status r != Granted
      then Ok (availability c primary policy "grant-write" Granted)
      else if is_some (st_quorum_loss status)
      then Ok (persist (status <| st_quorum_loss := None |>) "WriteQuorumRestored"
                 "Current Configuration quorum returned and writes are restored")
      else
        match converge_routing s status (cm_identity primary) with
        | Some plan => Ok plan
        | None =>
            let? growth := if allow_scale_up config then scale_up_begin s status config else Ok None in
            match growth with
            | Some plan => Ok plan
            | None =>
                Ok (Stable (with_condition (from_option (stable_condition s) ready_condition
                                              (st_last_scale_up status)) status)
                      (stable_resync_seconds config))
            end
        end
  end.

(** Extra resources are marked or deleted before serving. *)
Definition serve_managed (s : ObservationSnapshot) (status : AcceptedStatus)
    (c : ConfigurationDescriptor) (policy : EffectivePolicy) (recovering : bool)
    (config : EvaluationConfig) : eval Plan :=
  if is_some (st_pending_replacement_cleanup status) then Ok (cleanup_waiting s config)
  else
    let status := without_condition "UnmanagedReplicaResources" status in
    match unmanaged_resources s c policy config with
    | Some extra =>
        if enable_secondary_scale_down config then
          serve s (with_condition (condition "UnmanagedReplicaResources" ConditionTrue
                     "ExactCleanupAuthorityRequired"
                     "Extra resources are not deletion authority; an exact lifecycle receipt is required")
                     status) c policy config
        else if negb recovering then Ok (Apply [delete_scaffolding_change extra])
        else serve s status c policy config
    | None => serve s status c policy config
    end.

(** Requests of the specification on a converged topology. *)
Definition begin_requested (s : ObservationSnapshot) (status : AcceptedStatus)
    (config : EvaluationConfig) : eval (option Plan) :=
  if is_some (st_pending_replacement_cleanup status) then Ok None
  else
    let? switchover := begin_switchover s status config in
    match switchover with
    | Some plan => Ok (Some plan)
    | None => if enable_secondary_scale_down config then scale_down_begin s status config else Ok None
    end.

Definition evaluate_stable (s : ObservationSnapshot) (config : EvaluationConfig) : eval Plan :=
  let? c := expect (st_topology (os_status s)) in
  let? policy := expect (st_effective_policy (os_status s)) in
  let status := stable_status s c policy config in
  let? failover := maybe_begin_stable_failover s status config in
  match failover with
  | Some plan => Ok plan
  | None =>
      if existsb (endpoint_missing s status c (removal_target s status c policy config)) (cd_members c)
      then Ok (Apply [EnsureReplicaScaffolding (map member_id (cd_members c))])
      else
        match correct_stable s c policy with
        | Some plan => Ok plan
        | None =>
            let status := project_switchover_request s status in
            if switchover_rejection status != switchover_rejection (os_status s)
            then Ok (Apply [PersistStatus status])
            else
              let? requested := begin_requested s status config in
              match requested with
              | Some plan => Ok plan
              | None =>
                  let? recovering := recovering_service s status c in
                  match failed_secondary s status c recovering with
                  | Some failed => replace_secondary s status (cm_identity failed) config
                  | None => serve_managed s status c policy recovering config
                  end
              end
        end
  end.

(** ** A transition under way *)

Definition disabled_scale_up (s : ObservationSnapshot) (config : EvaluationConfig) : Plan :=
  Wait ActiveTransition
    (with_condition (progressing_condition "ScaleUpAuthorityPendingImplementation"
       "Persisted scale-up authority is valid but execution remains disabled") (os_status s))
    (stable_resync_seconds config).

(** The status while a transition is under way, with the part of the specification that
    must wait for it. *)
Definition projected_status (s : ObservationSnapshot) (t : TransitionIntent) : AcceptedStatus :=
  let status := transition_status (os_status s) in
  from_option (fun drift => with_condition drift status) status
    (snd (desired_spec_state s (ti_current_configuration t) (ti_effective_policy t))).

Definition projection_due (s : ObservationSnapshot) (status : AcceptedStatus) : bool :=
  let precise := existsb (fun c => (sc_type c == "Progressing") && (sc_reason c == "ElectionProgressPending"))
                   (st_conditions (os_status s)) in
  let unsupported_changed :=
    find_condition "UnsupportedSpec" (os_status s) != find_condition "UnsupportedSpec" status in
  (status != os_status s) && (negb precise || unsupported_changed).

Definition evaluate_transition (s : ObservationSnapshot) (t : TransitionIntent)
    (config : EvaluationConfig) : eval Plan :=
  if ti_kind t == SecondaryScaleDown then scale_down_transition s t config
  else if ti_kind t == PlannedSwitchover then evaluate_switchover s t config
  else if is_some (ti_scale_up t) || is_some (ti_scale_up_failover t)
  then Ok (disabled_scale_up s config)
  else
    let status := projected_status s t in
    if projection_due s status then Ok (Apply [PersistStatus status])
    else if ti_kind t == Replacement then
      let? failover := maybe_begin_failover s (Some t) status config in
      match failover with
      | Some plan => Ok plan
      | None => evaluate_replacement_transition s t status config
      end
    else if ti_kind t == Failover then evaluate_failover_transition s t status config
    else evaluate_bootstrap s t status config.

(** ** The whole evaluation *)

Definition invalid_agent_plan (s : ObservationSnapshot) (config : EvaluationConfig) : option Plan :=
  find_map (fun '(key, o) =>
    match ro_agent o with
    | AgentInvalid message _ =>
        if invalid_candidate_binding s key o then None
        else Some (unsafe_plan (os_status s) (ContradictoryReplicaEvidence
               ("replica " +:+ pretty (rok_replica_id key) +:+ "@" +:+ rok_instance_id key
                  +:+ " returned invalid evidence: " +:+ message)) config)
    | _ => None
    end) (replicas_in_order s).

(** State of the public-operation preview, which this build does not run. *)
Definition preview_state (s : ObservationSnapshot) : bool :=
  let st := os_status s in
  is_some (ds_preview_lifecycle (os_desired s)) || is_some (st_preview_lifecycle st)
  || is_some (st_public_fault_action st) || is_some (st_last_public_fault_action st)
  || is_some (st_public_service_clear st).

Definition removal_reported (r : AgentReport) : bool :=
  is_some (ar_prepared_secondary_removal r) || is_some (ar_secondary_removal_evidence r)
  || is_some (ar_retired_replica r) || is_some (ar_accepted_secondary_removal r).

(** Some replica's report satisfies [f]. *)
Definition any_report (s : ObservationSnapshot) (f : AgentReport -> bool) : bool :=
  existsb (fun x => is_some_and f (agent_report (ro_agent (snd x)))) (replicas_in_order s).

Definition scale_down_authority (s : ObservationSnapshot) : bool :=
  let st := os_status s in
  is_some (st_secondary_scale_down_cleanup st) || is_some (st_last_secondary_removal st)
  || is_some_and (fun t => ti_kind t == SecondaryScaleDown) (st_transition st)
  || any_report s removal_reported.

Definition scale_up_authority_present (s : ObservationSnapshot) : bool :=
  let st := os_status s in
  is_some (st_scale_up_cleanup st) || is_some (st_scale_up_allocation st)
  || is_some (st_last_scale_up st)
  || is_some_and (fun p => is_some (pi_scale_up p)) (st_provisioning st)
  || is_some_and (fun t => is_some (ti_scale_up t) || is_some (ti_scale_up_failover t))
       (st_transition st)
  || any_report s (fun r => is_some (ar_scale_up_intent r)).

Definition active_switchover (s : ObservationSnapshot) : option TransitionIntent :=
  opt_filter (fun t => ti_kind t == PlannedSwitchover) (st_transition (os_status s)).

(** [validate_snapshot] failed with [e], which no correction explains. *)
Definition rejected_snapshot (s : ObservationSnapshot) (e : ValidationError)
    (config : EvaluationConfig) : eval Plan :=
  let stale := match e with StaleReportSequence _ _ _ => true | _ => false end in
  if enable_secondary_scale_down config && scale_down_active s && stale
  then Ok (wait ActiveTransition (os_status s) "ScaleDownFreshReportRequired"
             "Re-observe a newer report in the exact process session" config)
  else if is_some (active_switchover s) then
    if stale
    then Ok (switchover_wait (os_status s) "SwitchoverFreshReportRequired"
               "Re-observe a strictly newer report in the current process session" config)
    else switchover_unsafe s (display_error e) config
  else
    Ok (unsafe_plan (os_status s)
          (match e with
           | DesiredReplicasZero => InvalidDesiredState (display_error e)
           | _ => InvalidAcceptedAuthority (display_error e)
           end) config).

(** Validate around the corrections in [identities]; [None] lets the evaluation continue. *)
Definition around_corrections (s : ObservationSnapshot) (identities : list ReplicaIdentity)
    (config : EvaluationConfig) : eval (option Plan) :=
  match validate_snapshot_around_authorized_corrections s identities with
  | Ok _ => Ok None
  | Err other =>
      Ok (Some (unsafe_plan (os_status s) (InvalidAcceptedAuthority (display_error other)) config))
  | Panic => Panic
  end.

Definition admitted_snapshot (s : ObservationSnapshot) (config : EvaluationConfig)
    : eval (option Plan) :=
  match validate_snapshot s with
  | Ok _ => Ok None
  | Panic => Panic
  | Err e =>
      let? stale := if allow_scale_up config then scale_up_stale_correction_identities s else Ok [] in
      let conflict :=
        match e with
        | ConflictingReplicaConfiguration _ _ =>
            if allow_scale_up config then recoverable_failover_conflict_identity s else None
        | _ => None
        end in
      let exact :=
        match e with
        | StaleReplicaEpoch id _ _ => existsb (fun i => replica_id i == id) stale
        | _ => false
        end in
      if exact then around_corrections s stale config
      else
        match conflict with
        | Some i => around_corrections s (if decide (i ∈ stale) then stale else stale ++ [i]) config
        | None => let? plan := rejected_snapshot s e config in Ok (Some plan)
        end
  end.

(** Contradictory or missing evidence, before anything is dispatched. *)
Definition arbitrate (s : ObservationSnapshot) (config : EvaluationConfig) : eval (option Plan) :=
  let guard (found : option Plan) (message : string) (otherwise : eval (option Plan)) :=
    match found with
    | Some plan =>
        if is_some (active_switchover s)
        then let? unsafe := switchover_unsafe s message config in Ok (Some unsafe)
        else Ok (Some plan)
    | None => otherwise
    end in
  guard (incompatible_protocol_plan s config)
    "An exact participant uses incompatible protocol authority"
    (guard (invalid_agent_plan s config) "An exact participant reports contradictory authority"
       (match os_observation_failures s with
        | [] => Ok None
        | _ => Ok (Some (wait AgentUnavailable (os_status s) "ObservationFailed"
                           "A required observation failed" config))
        end)).

(** An accepted member is corrected, unless the accepted primary has failed. *)
Definition arbitrate_correction (s : ObservationSnapshot) (plan : Plan) (config : EvaluationConfig)
    : eval Plan :=
  let? failed := match st_topology (os_status s) with
                 | None => Ok false
                 | Some c => let? primary := configuration_primary c in
                             Ok (replica_failed s (cm_identity primary))
                 end in
  if negb failed then Ok plan
  else
    match opt_filter (fun t => is_some (ti_scale_up t) || is_some (ti_scale_up_failover t))
            (st_transition (os_status s)) with
    | Some t => scale_up_transition s t config
    | None =>
        let? failover := maybe_begin_stable_failover s (os_status s) config in
        Ok (default plan failover)
    end.

Definition correct_accepted (s : ObservationSnapshot) (config : EvaluationConfig)
    : eval (option Plan) :=
  if negb (allow_scale_up config) then Ok None
  else
    let? recovery := recover_scale_up_acceptance s config in
    match recovery with
    | Some plan => Ok (Some plan)
    | None =>
        match scale_up_accepted_correction s config with
        | Some plan => let? plan := arbitrate_correction s plan config in Ok (Some plan)
        | None => Ok None
        end
    end.

(** A member of the accepted topology has no place in the transition's configuration. *)
Definition replaces_member (s : ObservationSnapshot) (t : TransitionIntent) : bool :=
  ((ti_kind t == Replacement) || (ti_kind t == Failover))
  && is_some_and (fun c =>
       existsb (fun old => negb (has_member (ti_current_configuration t) (cm_identity old)))
         (cd_members c)) (st_topology (os_status s)).

(** What the status says is under way. *)
Definition dispatch_status (s : ObservationSnapshot) (config : EvaluationConfig) : eval Plan :=
  let st := os_status s in
  let scaling := allow_scale_up config in
  match st_transition st with
  | Some t =>
      if scaling && (is_some (ti_scale_up t) || is_some (ti_scale_up_failover t))
      then scale_up_transition s t config
      else if replaces_member s t && is_none (st_pending_replacement_cleanup st)
      then Ok (cleanup_waiting s config)
      else evaluate_transition s t config
  | None =>
  match (if scaling then st_scale_up_allocation st else None) with
  | Some allocation => evaluate_allocation s allocation config
  | None =>
  match st_provisioning st with
  | Some p =>
      if scaling && is_some (pi_scale_up p) then evaluate_scale_up_provisioning s p config
      else if is_none (st_pending_replacement_cleanup st) then Ok (cleanup_waiting s config)
      else evaluate_provisioning s p config
  | None =>
  match (if scaling then st_scale_up_cleanup st else None) with
  | Some cleanup => scale_up_cleanup s cleanup config
  | None =>
  match st_secondary_scale_down_cleanup st with
  | Some cleanup => scale_down_cleanup s cleanup config
  | None =>
  match (receipt ← st_last_secondary_removal st; scale_down_completed s receipt config) with
  | Some plan => Ok plan
  | None =>
      if st_initialized st then evaluate_stable s config else evaluate_never_initialized s config
  end end end end end end.

(** Features that the configuration leaves off. *)
Definition disabled_feature (s : ObservationSnapshot) (config : EvaluationConfig) : option Plan :=
  if preview_state s
  then Some (unsafe_plan (os_status s) (InvalidDesiredState
               "public-operation preview lifecycle is not enabled") config)
  else if negb (enable_secondary_scale_down config) && scale_down_authority s
  then Some (unsafe_plan (os_status s) (InvalidAcceptedAuthority
               "Secondary scale-down execution is not enabled") config)
  else None.

Definition closed_switchover (s : ObservationSnapshot) : bool :=
  is_some_and (fun i => psi_resolution i == ResolutionUnsafe) (active_switchover s ≫= ti_switchover).

Definition closed_message (s : ObservationSnapshot) : string :=
  from_option sc_message "Frozen switchover cannot safely complete"
    (find_condition "SwitchoverSafety" (os_status s)).

(** The evaluation of an admitted snapshot. *)
Definition evaluate_admitted (s : ObservationSnapshot) (config : EvaluationConfig) : eval Plan :=
  let? guard := arbitrate s config in
  match guard with
  | Some plan => Ok plan
  | None =>
      let? correction := correct_accepted s config in
      match correction with
      | Some plan => Ok plan
      | None =>
          if negb (os_supporting_resources_ready s) then Ok (Apply [EnsureReplicaSupport])
          else if negb (allow_scale_up config) && scale_up_authority_present s
          then Ok (disabled_scale_up s config)
          else
            match recover_local_acceptance s config with
            | Some plan => Ok plan
            | None =>
                match st_last_replacement (os_status s) with
                | Some cleanup => Ok (evaluate_cleanup s cleanup config)
                | None => dispatch_status s config
                end
            end
      end
  end.

Definition evaluate (s : ObservationSnapshot) (config : EvaluationConfig) : eval Plan :=
  match disabled_feature s config with
  | Some plan => Ok plan
  | None =>
      if closed_switchover s then switchover_unsafe s (closed_message s) config
      else
        let? rejected := admitted_snapshot s config in
        match rejected with
        | Some plan => Ok plan
        | None => evaluate_admitted s config
        end
  end.

End evaluator.
