(* ===== verification/PlanSafety.v ===== *)
(** * What the plans of the evaluator may do

    [safe_plan s p] states what every plan [p] for a snapshot [s] promises, whatever part
    of the evaluator made it: an unsafe plan takes the write routing away; routing is only
    published to the primary of the accepted topology, which reports granted writes while a
    write quorum attests the same topology; a persisted status keeps the accepted topology
    or replaces it by the configuration of the transition under way, which a write quorum
    of its own members already reports; and a volume is deleted by its frozen uid, after
    the Pod and the endpoint of the same replica are gone.  [quiet] is the part of it that
    most plans satisfy by their shape, and the tactics here take an evaluation apart. *)

From S2P Require Import Prelude Digest Types Intents Commands Observations Validation Quorums.
From S2P Require Import ScaleDown ScaleUp SnapshotValidation StatusFacts EvaluatorBase.
From S2P Require Import EvaluatorSwitchover EvaluatorFailover EvaluatorScaleDown EvaluatorReplacement.
From S2P Require Import EvaluatorBootstrap EvaluatorExpansion EvaluatorCandidate EvaluatorAdmission.
From S2P Require Import Evaluator.
From stdpp Require Import base gmap strings list sorting pretty.
From Stdlib Require Import ZArith Lia.
Local Open Scope Z_scope.

(** ** Reading a plan *)

Definition plan_changes (p : Plan) : list KubernetesChange :=
  match p with Apply changes => changes | _ => [] end.

Definition plan_statuses (p : Plan) : list AcceptedStatus :=
  match p with
  | Stable status _ | Wait _ status _ | Unsafe _ status _ _ => [status]
  | Apply changes =>
      omap (fun c => match c with PersistStatus status => Some status | _ => None end) changes
  | Execute _ => []
  end.

(** ** Evidence of a snapshot *)

(** Some replica of the snapshot reports [r]. *)
Definition reporting (s : ObservationSnapshot) (r : AgentReport) : Prop :=
  exists key o, os_replicas s !! key = Some o /\ agent_report (ro_agent o) = Some r.

(** A write quorum of [c] whose members report what [P] says. *)
Definition quorum_reports (s : ObservationSnapshot) (c : ConfigurationDescriptor)
    (P : AgentReport -> Prop) : Prop :=
  exists Q, write_quorum_of c Q /\
    forall i, i ∈ Q -> exists r, reporting s r /\ ar_identity r = i /\ P r.

(** The report is of [c] and of nothing before it. *)
Definition reports_only (c : ConfigurationDescriptor) (r : AgentReport) : Prop :=
  ar_epoch r = cd_epoch c /\ ar_previous_configuration r = None /\
  cd_configuration_id <$> ar_current_configuration r = Some (cd_configuration_id c).

(** What publishing the routing to [i] takes. *)
Definition serving (s : ObservationSnapshot) (i : ReplicaIdentity) : Prop :=
  exists c m r,
    st_topology (os_status s) = Some c /\
    m ∈ cd_members c /\ cm_identity m = i /\ member_id m = cd_primary_id c /\
    reporting s r /\ ar_identity r = i /\ ar_role r = cm_role m /\ reports_only c r /\
    ar_write_status r = Granted /\
    quorum_reports s c (reports_only c).

(** What accepting [c] takes. *)
Definition acceptable (s : ObservationSnapshot) (c : ConfigurationDescriptor) : Prop :=
  (exists t, st_transition (os_status s) = Some t /\ c = ti_current_configuration t) /\
  supersedes_topology (os_status s) c /\
  quorum_reports s c (fun r => holds_current_only c r = true).

(** The resources whose deletion the status has frozen. *)
Definition frozen_resources (st : AcceptedStatus) : list (ReplicaIdentity * ReplicaCleanupIdentity) :=
  ((fun c => (rc_target c, rc_resources c)) <$> option_list (st_last_replacement st))
  ++ ((fun c => let i := removal_of (sdc_evidence c) in (sdi_target i, sdi_cleanup i))
        <$> option_list (st_secondary_scale_down_cleanup st))
  ++ ((fun c => (suc_target c, suc_resources c)) <$> option_list (st_scale_up_cleanup st)).

(** The resources of an allocation that is being cancelled, as they are observed. *)
Definition cancelled_allocation (st : AcceptedStatus) (target : ReplicaIdentity) : Prop :=
  exists a, st_scale_up_allocation st = Some a /\ target = sua_observation_target a /\
    sua_cancellation_started a = true.

(** What deleting a volume takes. *)
Definition released (s : ObservationSnapshot) (name uid version : string) : Prop :=
  exists target exact frozen,
    resources s target = Some exact /\
    ((target, frozen) ∈ frozen_resources (os_status s) \/
     (cancelled_allocation (os_status s) target /\ frozen = sro_identity exact)) /\
    absent (rci_endpoint frozen) (sro_endpoint exact) = true /\
    absent (rci_pod frozen) (sro_pod exact) = true /\
    rci_pvc frozen = CleanupPresent name uid /\ sro_pvc exact = FrozenUidPresent version.

Record safe_plan (s : ObservationSnapshot) (p : Plan) : Prop := {
  sp_closes : forall reason status changes seconds,
    p = Unsafe reason status changes seconds ->
    SafetyRemoveWriteRouting ∈ changes /\ st_topology status = st_topology (os_status s);
  sp_routing : forall i, PublishWriteRouting i ∈ plan_changes p -> serving s i;
  sp_topology : forall status, status ∈ plan_statuses p ->
    st_topology status = st_topology (os_status s) \/
    exists c, st_topology status = Some c /\ acceptable s c;
  sp_volumes : forall name uid version,
    DeleteScaleDownResource ResourcePvc name uid version ∈ plan_changes p ->
    released s name uid version;
}.

(** *** Where reports come from *)

Create HintDb reporting.

Lemma report_for_reporting s i r : report_for s i = Some r -> reporting s r.
Proof.
  unfold report_for. intros (o & Ho & Hr)%bind_Some. by exists (identity_key i), o.
Qed.

Lemma opt_filter_some {A} (f : A -> bool) o a : opt_filter f o = Some a -> o = Some a /\ f a = true.
Proof. destruct o as [b|]; simpl; [|done]. destruct (f b) eqn:Hb; naive_solver. Qed.

Lemma exact_report_reporting s i r :
  exact_report s i = Some r -> reporting s r /\ ar_identity r = i.
Proof.
  unfold exact_report. intros [Hr Hi]%opt_filter_some. guards. eauto using report_for_reporting.
Qed.

Lemma session_report_reporting s i r :
  session_report s i = Some r -> reporting s r /\ ar_identity r = i.
Proof.
  unfold session_report. intros [Hr Hi]%opt_filter_some. guards. eauto using report_for_reporting.
Qed.

Lemma healthy_report_reporting s i r : healthy_report s i = Some r -> reporting s r.
Proof.
  unfold healthy_report. intros (o & Ho & Hr)%bind_Some. case_match; [|done].
  apply opt_filter_some in Hr as [Hr _]. by exists (identity_key i), o.
Qed.
#[export] Hint Resolve report_for_reporting healthy_report_reporting : reporting.

Lemma stable_member_reports r m c :
  stable_member_report r m c = true ->
  ar_identity r = cm_identity m /\ ar_role r = cm_role m /\ reports_only c r.
Proof.
  unfold stable_member_report. intros Hs. guards. split_and!; [done..|].
  rename select (ar_current_configuration r = Some c) into Hc. unfold reports_only. rewrite Hc.
  by destruct (ar_previous_configuration r).
Qed.

(** *** Quorums of reports *)

Lemma count_set {A} `{Countable K} (f : A -> bool) (key : A -> K) l :
  NoDup (map key l) ->
  Z.of_nat (size (list_to_set (map key (List.filter f l)) : gset K)) = count f l.
Proof.
  intros Hnd. unfold count. rewrite size_list_to_set.
  - f_equal. apply length_map.
  - clear -Hnd. induction l as [|x l IH]; simpl in *; [done|].
    apply NoDup_cons in Hnd as [Hx Hnd]. destruct (f x); simpl; [|by auto].
    apply NoDup_cons. split; [|by auto]. rewrite list_elem_of_fmap in Hx |- *.
    intros (y & Hxy & Hy). apply Hx. exists y. split; [done|].
    apply list_elem_of_In, List.filter_In in Hy as [Hy _]. by apply list_elem_of_In.
Qed.

Lemma count_mono {A} (f g : A -> bool) l :
  (forall x, x ∈ l -> f x = true -> g x = true) -> count f l <= count g l.
Proof.
  unfold count. intros Hfg. induction l as [|x l IH]; simpl; [done|].
  pose proof (Hfg x ltac:(by left)) as Hx. specialize (IH ltac:(intros; apply Hfg; [by right|done])).
  destruct (f x), (g x); simpl; try lia.
Qed.

Lemma length_omap_count {A B} (f : A -> option B) l :
  Z.of_nat (length (omap f l)) = count (fun x => is_some (f x)) l.
Proof.
  unfold count. induction l as [|x l IH]; csimpl; [done|]. destruct (f x); csimpl; lia.
Qed.

Section quorums.
Context `{Sha256}.

Lemma quorum_of_members s c policy P (f : ConfigurationMember -> bool) :
  valid_configuration c policy -> cd_write_quorum c <= count f (cd_members c) ->
  (forall m, m ∈ cd_members c -> f m = true ->
     exists r, reporting s r /\ ar_identity r = cm_identity m /\ P r) ->
  quorum_reports s c P.
Proof.
  intros Hv Hq Hf. exists (list_to_set (map cm_identity (List.filter f (cd_members c)))).
  assert (Hin : forall i, i ∈ (list_to_set (map cm_identity (List.filter f (cd_members c))) : gset _) ->
            exists m, i = cm_identity m /\ m ∈ cd_members c /\ f m = true).
  { intros i. rewrite elem_of_list_to_set, list_elem_of_fmap. intros (m & -> & Hm).
    apply list_elem_of_In, List.filter_In in Hm as [Hm ?]. apply list_elem_of_In in Hm. eauto. }
  split; [split|].
  - intros i (m & -> & Hm & _)%Hin. apply elem_of_exact_identities. eauto.
  - rewrite count_set; [done|]. by eapply valid_identities_NoDup.
  - intros i (m & -> & Hm & Hfm)%Hin. eauto.
Qed.

(** All members are a quorum. *)
Lemma reporting_quorum_within c policy (f : ConfigurationMember -> bool) :
  valid_configuration c policy -> majority_configuration c ->
  (forall m, m ∈ cd_members c -> f m = true) -> cd_write_quorum c <= count f (cd_members c).
Proof.
  intros Hv Hmaj Hf. etrans; [|apply (count_mono (fun _ => true)); auto].
  assert (Hlen : count (fun _ => true) (cd_members c) = member_count c).
  { unfold count, member_count. do 2 f_equal. clear. by induction (cd_members c) as [|? ? IH]; simpl; [|rewrite IH]. }
  rewrite Hlen, (mc_quorum _ Hmaj). pose proof (valid_members_not_empty _ _ Hv) as Hne.
  assert (1 <= member_count c) by (unfold member_count; destruct (cd_members c); [done|simpl; lia]).
  pose proof (Z.div_mod (member_count c) 2). pose proof (Z.mod_pos_bound (member_count c) 2). lia.
Qed.

Lemma configuration_primary_ok c policy m :
  valid_configuration c policy -> configuration_primary c = Ok m ->
  m ∈ cd_members c /\ member_id m = cd_primary_id c.
Proof.
  intros Hv Hm. unfold configuration_primary in Hm. apply expect_ok in Hm.
  destruct (find_primary_some c policy Hv) as (m' & Hm' & ? & _ & ?). naive_solver.
Qed.

End quorums.

(** ** Plans that are safe by their shape *)

Create HintDb safe_plans.

Definition keeps_topology (s : ObservationSnapshot) (status : AcceptedStatus) : Prop :=
  st_topology status = st_topology (os_status s).

Definition quiet_change (s : ObservationSnapshot) (c : KubernetesChange) : Prop :=
  match c with
  | PersistStatus status => keeps_topology s status
  | PublishWriteRouting _ | DeleteScaleDownResource ResourcePvc _ _ _ => False
  | _ => True
  end.

Definition quiet (s : ObservationSnapshot) (p : Plan) : Prop :=
  match p with
  | Stable status _ | Wait _ status _ => keeps_topology s status
  | Unsafe _ status changes _ => keeps_topology s status /\ changes = [SafetyRemoveWriteRouting]
  | Apply changes => Forall (quiet_change s) changes
  | Execute _ => True
  end.

Lemma quiet_safe s p : quiet s p -> safe_plan s p.
Proof.
  intros Hp. split.
  - intros reason status changes seconds ->. destruct Hp as [Hst ->].
    split; [by apply list_elem_of_singleton|exact Hst].
  - intros i Hi. destruct p; try by apply elem_of_nil in Hi. simpl in *.
    by rewrite Forall_forall in Hp; apply Hp in Hi.
  - intros status Hst. left. destruct p as [st ?|changes|?|? st ?|? st ? ?]; simpl in *;
      try (apply list_elem_of_singleton in Hst as ->; apply Hp); [|by apply elem_of_nil in Hst].
    apply list_elem_of_omap in Hst as (c & Hc & Heq). rewrite Forall_forall in Hp.
    apply Hp in Hc. destruct c; simplify_eq. done.
  - intros name uid version Hc. destruct p; try by apply elem_of_nil in Hc. simpl in *.
    by rewrite Forall_forall in Hp; apply Hp in Hc.
Qed.

(** A plan that accepts the configuration of the transition under way. *)
Lemma accept_safe `{Sha256} s t status :
  validate_status (os_status s) = Ok tt -> countable_status (os_status s) ->
  st_transition (os_status s) = Some t ->
  st_topology status = Some (ti_current_configuration t) ->
  quorum_reports s (ti_current_configuration t)
    (fun r => holds_current_only (ti_current_configuration t) r = true) ->
  safe_plan s (Apply [PersistStatus status]).
Proof.
  intros Hv Hc Ht Htop Hq. split; [done|..].
  - intros i Hi. by apply list_elem_of_singleton in Hi.
  - intros status' Hs. simpl in Hs. apply list_elem_of_singleton in Hs as ->. right.
    eexists. split; [exact Htop|]. split_and!; [by eauto| |done]. by apply transition_target.
  - intros name uid version Hd. by apply list_elem_of_singleton in Hd.
Qed.

(** ** Taking an evaluation apart *)

Lemma head_omap_some {A B} (f : A -> option B) l y :
  head (omap f l) = Some y -> exists x, x ∈ l /\ f x = Some y.
Proof.
  intros Hy. apply list_elem_of_omap. destruct (omap f l); simplify_eq/=. by left.
Qed.

(** The topology does not depend on the other fields of the status. *)
Ltac keeps_topology :=
  solve [ reflexivity | match goal with H : keeps_topology _ _ |- _ => exact H end ].

Ltac quiet_plan :=
  apply quiet_safe;
  repeat match goal with
  | |- quiet _ (if ?b then _ else _) => destruct b
  | |- quiet _ _ => hnf
  | |- Forall _ ((if ?b then _ else _) ++ _) => destruct b; simpl
  | |- Forall _ _ => constructor
  | |- _ /\ _ => split
  | |- quiet_change _ _ => hnf
  | |- True => exact I
  | |- keeps_topology _ _ => keeps_topology
  | |- st_topology _ = _ => keeps_topology
  | |- _ = [SafetyRemoveWriteRouting] => reflexivity
  end.

(** Follow the result of an evaluation backwards through its binds and branches. *)
Ltac eval_step :=
  match goal with
  | H : res_bind _ _ = Ok _ |- _ =>
      apply bind_ok in H; let x := fresh "x" in let Hx := fresh "Hx" in destruct H as (x & Hx & H);
      cbv beta zeta in H
  | H : (_ ≫= _) = Some _ |- _ => apply bind_Some in H;
      let x := fresh "x" in let Hx := fresh "Hx" in destruct H as (x & Hx & H); cbv beta zeta in H
  | H : Ok _ = Ok _ |- _ => injection H as H
  | H : Some _ = Some _ |- _ => injection H as H
  | H : inl _ = inl _ |- _ => injection H as H
  | H : Ok _ = Panic |- _ => discriminate H
  | H : Ok _ = Err _ |- _ => discriminate H
  | H : Err _ = Ok _ |- _ => discriminate H
  | H : Panic = Ok _ |- _ => discriminate H
  | H : Some _ = None |- _ => discriminate H
  | H : None = Some _ |- _ => discriminate H
  | H : inl _ = inr _ |- _ => discriminate H
  | H : inr _ = inl _ |- _ => discriminate H
  | H : then_some _ _ = Some _ |- _ => unfold then_some in H
  | H : expect _ = Ok _ |- _ => apply expect_ok in H
  | H : (match ?x with _ => _ end) = Ok _ |- _ => destruct x eqn:?; cbv beta zeta in H
  | H : (match ?x with _ => _ end) = Some _ |- _ => destruct x eqn:?; cbv beta zeta in H
  end.
Ltac eval_inv := cbv beta zeta in *; repeat eval_step.
