(* ===== verification/SwitchoverSafety.v ===== *)
(** * Safety of a switchover

    Every plan of a switchover is a [safe_plan]; the accepted topology changes in the one
    step that follows the report of the transition's configuration alone by every member it needs. *)

From S2P Require Import Prelude Digest Types Intents Commands Observations Validation Quorums.
From S2P Require Import ScaleDown ScaleUp SnapshotValidation StatusFacts EvaluatorBase.
From S2P Require Import EvaluatorSwitchover EvaluatorFailover EvaluatorScaleDown EvaluatorReplacement.
From S2P Require Import EvaluatorBootstrap PlanSafety.
From stdpp Require Import base gmap strings list sorting pretty.
From Stdlib Require Import ZArith Lia.
Local Open Scope Z_scope.

Section switchover.
Context `{Sha256, Texts}.

Lemma begin_switchover_safe s status config p :
  keeps_topology s status -> begin_switchover s status config = Ok (Some p) -> safe_plan s p.
Proof. intros Hst Hp. unfold begin_switchover in Hp. eval_inv; subst; quiet_plan. Qed.

Lemma update_switchover_keeps s f status status' :
  keeps_topology s status -> update_switchover f status = Ok status' -> keeps_topology s status'.
Proof. intros Hst Hu. unfold update_switchover in Hu. eval_inv; subst. exact Hst. Qed.

Ltac switchover_update :=
  try match goal with H : update_switchover _ _ = Ok _ |- _ =>
        eapply update_switchover_keeps in H; [|first [eassumption|reflexivity]] end.

Lemma close_writers_safe s status config replicas p :
  close_writers s status config replicas = Ok (Some p) -> safe_plan s p.
Proof.
  induction replicas as [|[key o] replicas IH]; simpl; intros Hp; eval_inv; subst; auto;
    quiet_plan.
Qed.

Lemma switchover_unsafe_safe s message config p :
  switchover_unsafe s message config = Ok p -> safe_plan s p.
Proof.
  intros Hp. unfold switchover_unsafe, set_resolution in Hp. eval_inv; subst;
    switchover_update;
    eauto using close_writers_safe; quiet_plan.
Qed.
Hint Resolve switchover_unsafe_safe : safe_plans.

Lemma restore_source_safe s t intent starting source config p :
  restore_source s t intent starting source config = Ok p -> safe_plan s p.
Proof.
  intros Hp. unfold restore_source, set_resolution in Hp. eval_inv; subst;
    switchover_update;
    eauto with safe_plans; quiet_plan.
Qed.

Lemma compensate_source_safe s t intent starting source config p :
  compensate_source s t intent starting source config = Ok p -> safe_plan s p.
Proof.
  intros Hp. unfold compensate_source, set_resolution in Hp. eval_inv; subst;
    switchover_update;
    eauto with safe_plans; quiet_plan.
Qed.
Hint Resolve restore_source_safe compensate_source_safe : safe_plans.

Lemma recover_switchover_safe s t config p :
  recover_switchover s t config = Ok (Some p) -> safe_plan s p.
Proof.
  intros Hp. unfold recover_switchover in Hp. eval_inv; subst; eauto with safe_plans; quiet_plan.
Qed.

Lemma prepare_source_safe s status intent source starting previous r config p :
  keeps_topology s status ->
  prepare_source s status intent source starting previous r config = Ok p -> safe_plan s p.
Proof.
  intros Hst Hp. unfold prepare_source in Hp. eval_inv; subst;
    switchover_update;
    eauto with safe_plans; quiet_plan.
Qed.

Lemma install_joint_safe s status t compensating primary previous ordered reports started config p :
  keeps_topology s status ->
  install_joint s status t compensating primary previous ordered reports started config = Ok (inl p) ->
  safe_plan s p.
Proof.
  intros Hst. revert reports started.
  induction ordered as [|m ordered IH]; simpl; intros reports started Hp; eval_inv; subst; eauto;
    quiet_plan.
Qed.

Lemma install_current_only_safe s t compensating primary previous ordered p :
  install_current_only s t compensating primary previous ordered = Ok (Some p) -> safe_plan s p.
Proof.
  induction ordered as [|m ordered IH]; simpl; intros Hp; eval_inv; subst; auto; quiet_plan.
Qed.

Lemma fence_faulted_safe s status primary ordered config p :
  keeps_topology s status -> fence_faulted s status primary ordered config = Some p -> safe_plan s p.
Proof. intros Hst Hp. unfold fence_faulted in Hp. eval_inv; subst; quiet_plan. Qed.

Lemma project_switchover_keeps s status :
  keeps_topology s status -> keeps_topology s (project_switchover_request s status).
Proof. intros Hst. unfold project_switchover_request. repeat case_match; exact Hst. Qed.

Lemma missing_participant_safe s status starting config p :
  keeps_topology s status -> missing_participant s status starting config = Ok (Some p) ->
  safe_plan s p.
Proof.
  intros Hst Hp. unfold missing_participant in Hp. eval_inv; subst; eauto with safe_plans; quiet_plan.
Qed.
(** Without a plan, every member that takes part has the configuration alone. *)
Lemma install_current_only_done s t compensating primary previous ordered :
  install_current_only s t compensating primary previous ordered = Ok None ->
  forall m, m ∈ ordered -> left_behind s compensating primary m = false ->
    exists r, exact_report s (cm_identity m) = Some r /\
      switchover_member_complete r t m previous true = true.
Proof.
  induction ordered as [|n ordered IH]; simpl; intros Hn m Hm Hl; [by apply elem_of_nil in Hm|].
  apply elem_of_cons in Hm as [->|Hm]; eval_inv; try rewrite Hl in *; try done; eauto.
  rename select (negb _ = false) into Hdone. apply negb_false_iff in Hdone. eauto.
Qed.

Lemma switchover_member_holds r t m previous :
  switchover_member_complete r t m previous true = true ->
  holds_current_only (ti_current_configuration t) r = true.
Proof.
  unfold switchover_member_complete, holds_current_only. intros Hc. guards.
  rename select (ar_previous_configuration r = _) into Hp. rewrite Hp.
  rewrite !bool_decide_true by done. done.
Qed.

Lemma switchover_order_covers current target source m :
  m ∈ cd_members current -> m ∈ switchover_order current target source \/
    (cm_identity m = cm_identity target /\ target ∈ switchover_order current target source).
Proof.
  intros Hm. unfold switchover_order.
  destruct (decide (cm_identity m = cm_identity target)) as [Heq|Hne];
    [right; split; [done|]; apply elem_of_app; right; apply elem_of_app; right; by left|left].
  rewrite !elem_of_app, !sort_by_key_perm, !elem_of_filterb.
  rewrite (bool_decide_false (cm_identity m = cm_identity target)) by done.
  destruct (decide (cm_identity m = source)) as [Hs|Hs];
    [left; by rewrite bool_decide_true|right; left; by rewrite bool_decide_false].
Qed.

Section accepting.
Variables (s : ObservationSnapshot) (t : TransitionIntent).
Hypothesis Hvalid : validate_status (os_status s) = Ok tt.
Hypothesis Hcount : countable_status (os_status s).
Hypothesis Ht : st_transition (os_status s) = Some t.
Let current := ti_current_configuration t.

(** Enough members take part in a switchover, and a compensation. *)
Lemma participants_quorum compensating primary :
  compensating && (surviving_exact_members s current <? cd_write_quorum current) = false ->
  cd_write_quorum current
    <= count (fun m => negb (left_behind s compensating primary m)) (cd_members current).
Proof.
  destruct (transition_target _ Hvalid Hcount t Ht) as ([policy Hv] & Hmaj & _).
  unfold left_behind. destruct compensating; simpl; intros Hq.
  - apply Z.ltb_ge in Hq. etrans; [exact Hq|]. apply count_mono. intros m _.
    unfold definitively_lost. intros Hm. guards. rename select (exact_pod_absent _ _ = _) into Ha.
    by rewrite Ha, andb_false_r.
  - by eapply reporting_quorum_within.
Qed.

Lemma switchover_quorum compensating primary previous target source :
  compensating && (surviving_exact_members s current <? cd_write_quorum current) = false ->
  install_current_only s t compensating primary previous
    (switchover_order current target source) = Ok None ->
  cm_identity target = primary ->
  quorum_reports s current (fun r => holds_current_only current r = true).
Proof.
  intros Hq Hdone Htarget. destruct (transition_target _ Hvalid Hcount t Ht) as ([policy Hv] & _).
  eapply quorum_of_members; [exact Hv|exact (participants_quorum compensating primary Hq)|]. simpl.
  intros m Hm Hl. apply negb_true_iff in Hl.
  assert (exists n, n ∈ switchover_order current target source /\ cm_identity n = cm_identity m /\
            left_behind s compensating primary n = false) as (n & Hn & Heq & Hln).
  { destruct (switchover_order_covers current target source m Hm) as [?|[Heq Hn]]; [by eauto|].
    exists target. split_and!; [done..|]. unfold left_behind. rewrite Htarget.
    by rewrite bool_decide_true, andb_false_r. }
  destruct (install_current_only_done _ _ _ _ _ _ Hdone n Hn Hln) as (r & Hr & Hc).
  apply exact_report_reporting in Hr as [Hr Hi]. apply switchover_member_holds in Hc.
  exists r. split_and!; [done| |done]. congruence.
Qed.

Lemma install_switchover_safe status intent handoff compensating starting previous r config p :
  keeps_topology s status ->
  install_switchover s status t intent handoff compensating starting previous r config = Ok p ->
  safe_plan s p.
Proof.
  intros Hst Hp. unfold install_switchover in Hp. eval_inv; subst;
    eauto using install_joint_safe, install_current_only_safe, fence_faulted_safe with safe_plans;
    try (quiet_plan; fail);
    (eapply accept_safe; [done..|reflexivity|]; eapply switchover_quorum; eauto).
Qed.

Lemma evaluate_switchover_safe config p :
  evaluate_switchover s t config = Ok p -> safe_plan s p.
Proof.
  intros Hp. unfold evaluate_switchover in Hp. cbv zeta in Hp.
  assert (Hst : keeps_topology s (project_switchover_request s (os_status s)))
    by by apply project_switchover_keeps.
  set (unsupported := snd _) in Hp. set (status' := match unsupported with Some _ => _ | None => _ end) in Hp.
  assert (Hst' : keeps_topology s status') by (subst status'; destruct unsupported; exact Hst).
  clearbody status'. eval_inv; subst;
    eauto using recover_switchover_safe, missing_participant_safe, prepare_source_safe,
      install_switchover_safe;
    quiet_plan.
Qed.

End accepting.
End switchover.
