(* ===== verification/FailoverSafety.v ===== *)
(** * Safety of failover, replacement and bootstrap

    Their plans are [safe_plan]s, and the topology is accepted only when a write quorum of
    the new configuration (every member, for the bootstrap) reports it alone. *)

From S2P Require Import Prelude Digest Types Intents Commands Observations Validation Quorums.
From S2P Require Import ScaleDown ScaleUp SnapshotValidation StatusFacts EvaluatorBase.
From S2P Require Import EvaluatorSwitchover EvaluatorFailover EvaluatorScaleDown EvaluatorReplacement.
From S2P Require Import EvaluatorBootstrap PlanSafety.
From stdpp Require Import base gmap strings list sorting pretty.
From Stdlib Require Import ZArith Lia.
Local Open Scope Z_scope.

Section plans.
Context `{Sha256, Texts}.

(** ** Beginning *)

Lemma begin_failover_safe s status accepted basis generation build abandoned pending config p :
  keeps_topology s status ->
  begin_failover s status accepted basis generation build abandoned pending config = Ok (Some p) ->
  safe_plan s p.
Proof.
  intros Hst Hp. unfold begin_failover, without_read_quorum in Hp. eval_inv; subst; quiet_plan.
Qed.

Lemma maybe_begin_stable_failover_safe s status config p :
  keeps_topology s status -> maybe_begin_stable_failover s status config = Ok (Some p) ->
  safe_plan s p.
Proof. intros Hst Hp. unfold maybe_begin_stable_failover in Hp. eval_inv. by eapply begin_failover_safe. Qed.

Lemma maybe_begin_failover_safe s active status config p :
  keeps_topology s status -> maybe_begin_failover s active status config = Ok (Some p) ->
  safe_plan s p.
Proof. intros Hst Hp. unfold maybe_begin_failover in Hp. eval_inv. by eapply begin_failover_safe. Qed.

(** ** The steps *)

Lemma evaluate_failover_repair_safe s t previous current primary r reports status p :
  keeps_topology s status ->
  evaluate_failover_repair s t previous current primary r reports status = Ok (Some p) ->
  safe_plan s p.
Proof. intros Hst Hp. unfold evaluate_failover_repair in Hp. eval_inv; subst; quiet_plan. Qed.

Lemma elect_safe s t status previous primary exact live config p :
  keeps_topology s status -> elect s t status previous primary exact live config = Ok (Some p) ->
  safe_plan s p.
Proof.
  intros Hst Hp. unfold elect in Hp. eval_inv; subst; eauto using evaluate_failover_repair_safe;
    quiet_plan.
Qed.

Lemma install_election_safe s t previous primary union p :
  install_election s t previous primary union = Some p -> safe_plan s p.
Proof. intros Hp. unfold install_election in Hp. eval_inv; subst. quiet_plan. Qed.

Lemma activate_current_only_safe s t previous primary p :
  activate_current_only s t previous primary = Some p -> safe_plan s p.
Proof. intros Hp. unfold activate_current_only in Hp. eval_inv; subst. quiet_plan. Qed.

Lemma install_replacement_safe s t previous primary union p :
  install_replacement s t previous primary union = Some p -> safe_plan s p.
Proof. intros Hp. unfold install_replacement in Hp. eval_inv; subst. quiet_plan. Qed.

Lemma activate_replacement_safe s t previous primary p :
  activate_replacement s t previous primary = Some p -> safe_plan s p.
Proof.
  intros (m & _ & Hp)%head_omap_some. eval_inv; subst; quiet_plan.
Qed.

Lemma evaluate_provisioning_safe s p config plan :
  evaluate_provisioning s p config = Ok plan -> safe_plan s plan.
Proof.
  intros Hp.
  unfold evaluate_provisioning, initialize_provisioned, build_provisioned, begin_replacement in Hp.
  eval_inv; subst; quiet_plan.
Qed.

Lemma evaluate_bootstrap_supersession_safe s t status config p :
  keeps_topology s status -> evaluate_bootstrap_supersession s t status config = Ok (Some p) ->
  safe_plan s p.
Proof.
  intros Hst Hp. unfold evaluate_bootstrap_supersession in Hp. eval_inv; subst; quiet_plan.
Qed.

Lemma install_genesis_safe s t status installed members config p :
  keeps_topology s status -> install_genesis s t status installed members config = Ok (inl p) ->
  safe_plan s p.
Proof.
  intros Hst. revert installed.
  induction members as [|m members IH]; simpl; intros installed Hp; eval_inv; subst; eauto; quiet_plan.
Qed.

Lemma evaluate_never_initialized_safe s config p :
  evaluate_never_initialized s config = Ok p -> safe_plan s p.
Proof.
  intros Hp. unfold evaluate_never_initialized, begin_bootstrap in Hp. eval_inv; subst; quiet_plan.
Qed.

(** ** Accepting *)

(** A run through all members ends with each of them at the genesis configuration. *)
Lemma install_genesis_done s t status installed members config n :
  install_genesis s t status installed members config = Ok (inr n) ->
  forall m, m ∈ members -> exists r, reporting s r /\ genesis_complete t m r = true.
Proof.
  revert installed. induction members as [|x members IH]; simpl; intros installed Hp m Hm;
    [by apply elem_of_nil in Hm|]. eval_inv; subst; try done.
  apply elem_of_cons in Hm as [->|Hm]; [|by eauto].
  eexists. split; [|eassumption]. eexists _, _. eauto.
Qed.

Lemma genesis_complete_holds t m r :
  genesis_complete t m r = true ->
  ar_identity r = cm_identity m /\ holds_current_only (ti_current_configuration t) r = true.
Proof.
  unfold genesis_complete, holds_current_only. intros Hg. guards. split; [done|].
  rename select (is_none (ar_previous_configuration r) = true) into Hn. rewrite Hn.
  by rewrite !bool_decide_true by done.
Qed.

Section accepting.
Variables (s : ObservationSnapshot) (t : TransitionIntent).
Hypothesis Hvalid : validate_status (os_status s) = Ok tt.
Hypothesis Hcount : countable_status (os_status s).
Hypothesis Ht : st_transition (os_status s) = Some t.
Let current := ti_current_configuration t.

Lemma current_only_quorum_reports primary reports :
  current_only_quorum current primary reports = true ->
  (forall r, r ∈ reports -> reporting s r /\ holds_current_only current r = true) ->
  quorum_reports s current (fun r => holds_current_only current r = true).
Proof.
  intros Hq Hr. unfold current_only_quorum, configuration_report_quorum in Hq. guards.
  destruct (transition_target _ Hvalid Hcount t Ht) as ([policy Hv] & _).
  eapply quorum_of_members; [exact Hv|eassumption|]. unfold reported.
  intros m Hm (r & Hin & Hi)%existsb_true. guards. apply Hr in Hin as [? ?]. eauto.
Qed.

(** The reports of members that have the configuration alone. *)
Lemma filtered_reports (f : ReplicaIdentity -> option AgentReport) (members : list ConfigurationMember) :
  (forall i r, f i = Some r -> reporting s r) ->
  forall r, r ∈ omap (fun m => opt_filter (holds_current_only current) (f (cm_identity m))) members ->
    reporting s r /\ holds_current_only current r = true.
Proof.
  intros Hf r (m & _ & [Hr ?]%opt_filter_some)%list_elem_of_omap. eauto.
Qed.

Lemma accept_failover_safe previous primary :
  current_only_quorum current primary
    (omap (fun m => opt_filter (holds_current_only current) (healthy_report s (cm_identity m)))
       (cd_members current)) = true ->
  safe_plan s (accept_failover s t previous).
Proof.
  intros Hq. eapply accept_safe; [done..| |].
  - case_match; reflexivity.
  - eapply current_only_quorum_reports; [exact Hq|]. apply filtered_reports.
    eauto using healthy_report_reporting.
Qed.

Lemma evaluate_failover_transition_safe status config p :
  keeps_topology s status -> evaluate_failover_transition s t status config = Ok p -> safe_plan s p.
Proof.
  intros Hst Hp. unfold evaluate_failover_transition in Hp. eval_inv; subst;
    eauto using install_election_safe, activate_current_only_safe, elect_safe, accept_failover_safe; quiet_plan.
Qed.

Lemma evaluate_replacement_transition_safe status config p :
  keeps_topology s status -> evaluate_replacement_transition s t status config = Ok p ->
  safe_plan s p.
Proof.
  intros Hst Hp. unfold evaluate_replacement_transition in Hp. eval_inv; subst;
    eauto using install_replacement_safe, activate_replacement_safe; try (quiet_plan; fail).
  eapply accept_safe; [done..|reflexivity|].
  eapply current_only_quorum_reports; [eassumption|]. apply filtered_reports.
  eauto using report_for_reporting.
Qed.

Lemma evaluate_bootstrap_safe status config p :
  keeps_topology s status -> evaluate_bootstrap s t status config = Ok p -> safe_plan s p.
Proof.
  intros Hst Hp. unfold evaluate_bootstrap in Hp. eval_inv; subst;
    eauto using evaluate_bootstrap_supersession_safe, install_genesis_safe; try (quiet_plan; fail).
  eapply accept_safe; [done..|reflexivity|].
  destruct (transition_target _ Hvalid Hcount t Ht) as ([policy Hv] & Hmaj & _).
  eapply (quorum_of_members _ _ _ _ (fun _ => true)); [exact Hv|by eapply reporting_quorum_within|].
  intros m Hm _. eapply install_genesis_done in Hm as (r & Hr & Hg); [|eassumption].
  apply genesis_complete_holds in Hg as [? ?]. eauto.
Qed.

End accepting.
End plans.
