(* ===== verification/FailoverElection.v ===== *)
(** * The election of a failover

    A failover begins after the frozen delay, with the routing gone and with read quorums
    of the accepted configuration and of the one under way; its primary is the reachable
    member whose evidence is the most advanced; its epoch is newer than both, as long as the
    configuration number does not overflow. *)

From S2P Require Import Prelude Digest Types Intents Commands Observations Validation Quorums.
From S2P Require Import ScaleDown ScaleUp SnapshotValidation StatusFacts EvaluatorBase.
From S2P Require Import EvaluatorSwitchover EvaluatorFailover PlanSafety.
From stdpp Require Import base gmap strings list sorting pretty.
From Stdlib Require Import ZArith Lia.
Local Open Scope Z_scope.

(** ** The order of the candidates *)

Fixpoint lex_compare (xs ys : list Z) : comparison :=
  match xs, ys with
  | x :: xs, y :: ys => then_with (x ?= y) (lex_compare xs ys)
  | _, _ => Eq
  end.

Lemma lex_compare_trans xs ys zs :
  length xs = length ys -> length ys = length zs ->
  lex_compare xs ys <> Gt -> lex_compare ys zs <> Gt -> lex_compare xs zs <> Gt.
Proof.
  revert ys zs. induction xs as [|x xs IH]; intros [|y ys] [|z zs]; simpl; try done.
  intros [= Hxy] [= Hyz]. unfold then_with.
  destruct (Z.compare_spec x y), (Z.compare_spec y z), (Z.compare_spec x z); try done; try lia; eauto.
Qed.

Lemma lex_compare_refl xs : lex_compare xs xs = Eq.
Proof. induction xs as [|x xs IH]; simpl; [done|]. by rewrite Z.compare_refl. Qed.

Lemma lex_compare_antisym xs ys :
  length xs = length ys -> lex_compare xs ys = Gt -> lex_compare ys xs <> Gt.
Proof.
  revert ys. induction xs as [|x xs IH]; intros [|y ys]; simpl; try done. intros [= Hlen].
  unfold then_with. rewrite (Z.compare_antisym x y). destruct (x ?= y); simpl; eauto.
Qed.

(** The largest element of a total preorder is above every other. *)
Lemma max_by_maximal {A} (compare : A -> A -> comparison) l x :
  (forall a, compare a a <> Gt) ->
  (forall a b, compare a b = Gt -> compare b a <> Gt) ->
  (forall a b c, compare a b <> Gt -> compare b c <> Gt -> compare a c <> Gt) ->
  max_by compare l = Some x -> x ∈ l /\ forall y, y ∈ l -> compare y x <> Gt.
Proof.
  intros Hrefl Hanti Htrans. unfold max_by.
  assert (Hsome : forall l best, fold_left (fun best x =>
            match best with
            | Some b => match compare b x with Gt => best | _ => Some x end
            | None => Some x
            end) l best = None -> l = [] /\ best = None).
  { clear. induction l as [|y l IH]; simpl; [done|]. intros best Hb. apply IH in Hb as [_ Hb].
    destruct best as [b|]; [destruct (compare b y)|]; done. }
  revert x. induction l as [|y l IH] using rev_ind; [done|]. intros x. rewrite fold_left_app. simpl.
  destruct (fold_left _ l None) as [b|] eqn:Hb.
  - destruct (IH b eq_refl) as [Hin Hmax]. intros Hx.
    assert (compare b y = Gt /\ b = x \/ compare b y <> Gt /\ y = x) as [[E ->]|[E ->]].
    { destruct (compare b y); simplify_eq; auto. }
    + split; [apply elem_of_app; by left|].
      intros z [Hz|Hz%list_elem_of_singleton]%elem_of_app; subst; auto.
    + split; [apply elem_of_app; right; by left|].
      intros z [Hz|Hz%list_elem_of_singleton]%elem_of_app; subst; eauto.
  - apply Hsome in Hb as [-> _]. intros [= <-]. split; [by left|].
    intros z Hz%list_elem_of_singleton. by subst.
Qed.

(** The evidence of a report: its deactivation, its progress, and the lower id. *)
Definition candidate_rank (r : AgentReport) : list Z :=
  let fenced := default epoch_default (ar_deactivation_epoch r) in
  [data_loss_number fenced; configuration_number fenced; default 0 (ar_deactivated_lsn r);
   ar_current_progress r; ar_committed_lsn r; - replica_id (ar_identity r)].

Lemma candidate_order_rank a b :
  candidate_order a b = lex_compare (candidate_rank a) (candidate_rank b).
Proof.
  unfold candidate_order, candidate_rank, epoch_compare, then_with. simpl.
  rewrite (Z.compare_opp (replica_id (ar_identity a)) (replica_id (ar_identity b))).
  repeat (unfold then_with; case_match); done.
Qed.

Lemma select_candidate_maximal c reports candidate :
  select_failover_candidate c reports = Some candidate ->
  candidate ∈ reports /\ failover_candidate c candidate = true /\
  forall r, r ∈ reports -> failover_candidate c r = true ->
    lex_compare (candidate_rank r) (candidate_rank candidate) <> Gt.
Proof.
  intros Hc. unfold select_failover_candidate in Hc.
  apply max_by_maximal in Hc as [Hin Hmax].
  - apply elem_of_filterb in Hin as [Hin Hok]. split_and!; [done..|].
    intros r Hr Hrc. rewrite <-candidate_order_rank. apply Hmax, elem_of_filterb. done.
  - intros a. by rewrite candidate_order_rank, lex_compare_refl.
  - intros a b. rewrite !candidate_order_rank. by apply lex_compare_antisym.
  - intros a b d. rewrite !candidate_order_rank. by apply lex_compare_trans.
Qed.

Section election.
Context `{Sha256, Texts}.

(** What a failover that begins rests on. *)
Record elected (s : ObservationSnapshot) (accepted basis : ConfigurationDescriptor)
    (policy : EffectivePolicy) (candidate : AgentReport) : Prop := {
  el_routing : routed s = false;
  el_failed : forall m, configuration_primary basis = Ok m -> replica_failed s (cm_identity m) = true;
  el_accepted : configuration_read_quorum accepted (available_union_reports s accepted basis)
                  (read_quorum policy) = true;
  el_basis : configuration_read_quorum basis (available_union_reports s accepted basis)
               (read_quorum policy) = true;
  el_available : candidate ∈ available_union_reports s accepted basis;
  el_member : has_member basis (ar_identity candidate) = true;
  el_best : forall r, r ∈ available_union_reports s accepted basis ->
              failover_candidate basis r = true ->
              lex_compare (candidate_rank r) (candidate_rank candidate) <> Gt;
}.

(** [C18] When a failover is begun (a plan persists a transition that the status did not have),
    the primary of the configuration under way has failed and the write routing is gone,
    read quorums of the accepted configuration and of the one under way report, the new
    primary is a member among the reporting replicas whose fencing, durable and committed
    progress no other eligible report exceeds, and the persisted transition installs it on
    the same members. *)
Theorem failover_elects_the_most_advanced s status accepted basis generation build abandoned pending
    config p next :
  begin_failover s status accepted basis generation build abandoned pending config = Ok (Some p) ->
  next ∈ plan_statuses p -> st_transition next <> st_transition status ->
  exists policy candidate,
    st_effective_policy (os_status s) = Some policy /\
    elected s accepted basis policy candidate /\
    st_transition next = Some (failover_intent s accepted basis policy generation build candidate).
Proof.
  intros Hp Hs Ht. unfold begin_failover, without_read_quorum in Hp. eval_inv; subst; simpl in Hs;
    repeat match goal with
    | H : context [omap _ ((if ?b then _ else _) ++ _)] |- _ => destruct b; simpl in H
    | H : context [plan_statuses (if ?b then _ else _)] |- _ => destruct b; simpl in H
    | H : _ ∈ [_] |- _ => apply list_elem_of_singleton in H as ->; try done
    end.
  guards. rename select (select_failover_candidate _ _ = Some _) into Hc.
  apply select_candidate_maximal in Hc as (Hin & Hok & Hmax).
  eexists _, _. split_and!; [eassumption| |reflexivity].
  split; try eassumption; [congruence|]. unfold failover_candidate in Hok. by guards.
Qed.

(** ** The configuration a failover installs *)

Lemma exact_identities_with_primary c primary epoch :
  exact_identities (configuration_with_primary c primary epoch) = exact_identities c.
Proof.
  apply set_eq. intros i. rewrite !elem_of_exact_identities. simpl.
  setoid_rewrite sort_by_key_perm. setoid_rewrite list_elem_of_fmap. naive_solver.
Qed.

(** As long as neither configuration number is the largest [i64], the failover's
    configuration has exactly the members of the one under way, the candidate as its only
    primary, and an epoch newer than both configurations. *)
Theorem failover_configuration_is_newer s accepted basis policy generation build candidate :
  i64_range (configuration_number (cd_epoch accepted)) ->
  i64_range (configuration_number (cd_epoch basis)) ->
  configuration_number (cd_epoch accepted) < i64_max ->
  configuration_number (cd_epoch basis) < i64_max ->
  let c := ti_current_configuration
             (failover_intent s accepted basis policy generation build candidate) in
  exact_identities c = exact_identities basis /\
  cd_primary_id c = replica_id (ar_identity candidate) /\
  (forall m, m ∈ cd_members c -> cm_role m = Primary <-> cm_identity m = ar_identity candidate) /\
  data_loss_number (cd_epoch c) = data_loss_number (cd_epoch basis) /\
  configuration_number (cd_epoch accepted) < configuration_number (cd_epoch c) /\
  configuration_number (cd_epoch basis) < configuration_number (cd_epoch c).
Proof.
  unfold i64_range, i64_max. intros Ha Hb Hla Hlb. cbv zeta. split_and!; try done.
  - apply exact_identities_with_primary.
  - simpl. intros m Hm. rewrite sort_by_key_perm in Hm.
    apply list_elem_of_fmap in Hm as (n & -> & _). simpl. case_bool_decide; naive_solver.
  - simpl. rewrite i64_wrap_id by (unfold i64_range; lia). lia.
  - simpl. rewrite i64_wrap_id by (unfold i64_range; lia). lia.
Qed.

(** At the largest configuration number the addition wraps around: the failover's
    configuration has a negative number, which no validation accepts. *)
Theorem failover_epoch_wraps s accepted basis policy generation build candidate required :
  configuration_number (cd_epoch accepted) <= i64_max ->
  configuration_number (cd_epoch basis) = i64_max ->
  let c := ti_current_configuration
             (failover_intent s accepted basis policy generation build candidate) in
  configuration_number (cd_epoch c) = i64_min /\
  validate_configuration c required = Err InvalidConfigurationEpoch.
Proof.
  intros Ha Hb c.
  assert (Hn : configuration_number (cd_epoch c) = i64_min).
  { simpl. rewrite Hb, Z.max_l by done. reflexivity. }
  split; [done|]. unfold validate_configuration. rewrite Hn.
  by rewrite (proj2 (Z.ltb_lt i64_min 0) ltac:(done)), orb_true_r.
Qed.

End election.
