(* ===== verification/ScaleDownSafety.v ===== *)
(** * Safety of the secondary scale-down and of the cleanups

    The reduced topology is accepted with a certificate whose witnesses are a write quorum
    of its members; afterwards the routing only follows its primary, and the resources of
    the removed replica, like those of a replaced incarnation, are deleted by their frozen
    uids in the order endpoint, Pod, volume. *)

From S2P Require Import Prelude Digest Types Intents Commands Observations Validation Quorums.
From S2P Require Import ScaleDown ScaleUp SnapshotValidation StatusFacts EvaluatorBase.
From S2P Require Import EvaluatorSwitchover EvaluatorFailover EvaluatorScaleDown EvaluatorReplacement.
From S2P Require Import PlanSafety.
From stdpp Require Import base gmap strings list sorting pretty.
From Stdlib Require Import ZArith Lia.
Local Open Scope Z_scope.

(** A plan that deletes one resource. *)
Lemma delete_safe s resource name uid version :
  (resource = ResourcePvc -> released s name uid version) ->
  safe_plan s (Apply [DeleteScaleDownResource resource name uid version]).
Proof.
  intros Hr. split; [done|..].
  - intros i Hi. by apply list_elem_of_singleton in Hi.
  - intros status Hs. by apply elem_of_nil in Hs.
  - intros name' uid' version' Hd. apply list_elem_of_singleton in Hd as [= <- <- <- <-]. auto.
Qed.

(** A plan that publishes the routing. *)
Lemma publish_safe s changes i :
  serving s i -> Forall (quiet_change s) changes ->
  safe_plan s (Apply (PublishWriteRouting i :: changes)).
Proof.
  intros Hi Hq. destruct (quiet_safe s (Apply changes) Hq) as [? Hroute Htop Hvol].
  split; [done|..]; simpl in *.
  - intros j [[= ->]|Hj]%elem_of_cons; auto.
  - exact Htop.
  - intros name uid version [Hd|Hd]%elem_of_cons; [done|auto].
Qed.

Section plans.
Context `{Sha256, Texts}.

Lemma drift_status_keeps s status status' :
  keeps_topology s status -> drift_status s status = Ok status' -> keeps_topology s status'.
Proof. intros Hst Hd. unfold drift_status in Hd. eval_inv; subst; exact Hst. Qed.

(** Statuses that come out of the scale-down's own updates. *)
Lemma set_removal_evidence_keeps s e status status' :
  keeps_topology s status -> set_removal_evidence e status = Ok status' -> keeps_topology s status'.
Proof. intros Hst Hu. unfold set_removal_evidence in Hu. eval_inv; subst. exact Hst. Qed.

Ltac kept_status :=
  repeat match goal with
  | H : drift_status _ _ = Ok _ |- _ =>
      eapply drift_status_keeps in H; [|first [eassumption|reflexivity]]
  | H : set_removal_evidence _ _ = Ok _ |- _ =>
      eapply set_removal_evidence_keeps in H; [|first [eassumption|reflexivity]]
  end.

Lemma admit_removal_safe s status previous policy primary target exact config p :
  keeps_topology s status ->
  admit_removal s status previous policy primary target exact config = Ok p -> safe_plan s p.
Proof. intros Hst Hp. unfold admit_removal in Hp. eval_inv; subst; quiet_plan. Qed.

Lemma scale_down_begin_safe s status config p :
  keeps_topology s status -> scale_down_begin s status config = Ok (Some p) -> safe_plan s p.
Proof.
  intros Hst Hp. unfold scale_down_begin in Hp. eval_inv; subst; kept_status;
    eauto using admit_removal_safe; quiet_plan.
Qed.

Lemma prepare_removal_safe s status i primary config p :
  keeps_topology s status -> prepare_removal s status i primary config = Ok p -> safe_plan s p.
Proof.
  intros Hst Hp. unfold prepare_removal in Hp. eval_inv; subst; kept_status; quiet_plan.
Qed.

Lemma collect_reduced_safe s status i frozen primary config p :
  keeps_topology s status -> collect_reduced s status i frozen primary config = Ok p -> safe_plan s p.
Proof.
  intros Hst Hp. unfold collect_reduced in Hp. eval_inv; subst; kept_status; quiet_plan.
Qed.

Lemma dispatch_safe s e current_only p : dispatch s e current_only = Some p -> safe_plan s p.
Proof. intros Hp. unfold dispatch in Hp. eval_inv; subst. quiet_plan. Qed.

Lemma converge_committed_safe s c p : converge_committed s c = Some p -> safe_plan s p.
Proof.
  intros Hp. unfold converge_committed in Hp. eval_inv; subst; eauto using dispatch_safe. quiet_plan.
Qed.

Lemma recover_local_acceptance_safe s config p :
  recover_local_acceptance s config = Some p -> safe_plan s p.
Proof.
  intros Hp. unfold recover_local_acceptance in Hp. eval_inv.
  apply head_omap_some in Hp as (m & _ & Hp). eval_inv; subst; quiet_plan.
Qed.

Lemma scale_down_completed_safe s receipt config p :
  scale_down_completed s receipt config = Some p -> safe_plan s p.
Proof.
  intros Hp. unfold scale_down_completed in Hp. eval_inv; subst; eauto using converge_committed_safe.
  quiet_plan.
Qed.

Lemma retire_target_safe s status c exact config p :
  keeps_topology s status -> retire_target s status c exact config = Ok (Some p) -> safe_plan s p.
Proof. intros Hst Hp. unfold retire_target in Hp. eval_inv; subst; quiet_plan. Qed.

Lemma cleanup_waiting_safe s config : safe_plan s (cleanup_waiting s config).
Proof. unfold cleanup_waiting. quiet_plan. Qed.
Hint Resolve cleanup_waiting_safe : safe_plans.

Lemma admit_cleanup_safe s target config p :
  admit_cleanup s target config = Ok (Some p) -> safe_plan s p.
Proof.
  intros Hp. unfold admit_cleanup in Hp. eval_inv; subst; auto with safe_plans.
  destruct x; [by auto with safe_plans|]. quiet_plan.
Qed.

(** ** Deleting frozen resources *)

Lemma delete_frozen_safe s status resource frozen o reason pending message config :
  keeps_topology s status ->
  (forall name uid version, resource = ResourcePvc ->
     frozen = CleanupPresent name uid -> o = FrozenUidPresent version ->
     released s name uid version) ->
  safe_plan s (delete_frozen s status resource frozen o reason pending message config).
Proof.
  intros Hst Hr. unfold delete_frozen, delete_resource.
  destruct frozen as [name uid|name], o as [version|? ?| |?]; try (quiet_plan; fail).
  destruct (is_empty version); [quiet_plan|]. simpl. case_match; [quiet_plan|].
  apply delete_safe. eauto.
Qed.

(** A volume is deleted after the other two resources. *)
Lemma delete_target_safe s status c exact config p :
  keeps_topology s status -> st_secondary_scale_down_cleanup (os_status s) = Some c ->
  resources s (sdi_target (removal_of (sdc_evidence c))) = Some exact ->
  delete_target s status c exact config = Ok p -> safe_plan s p.
Proof.
  intros Hst Hc Hex Hp. unfold delete_target in Hp. eval_inv; subst; eauto using retire_target_safe;
    try (quiet_plan; fail); guards; apply delete_frozen_safe; try done.
  intros name uid version _ Hf Ho. eexists _, _, _. split_and!; try eassumption.
  left. unfold frozen_resources. rewrite Hc. simpl. set_solver.
Qed.

Lemma evaluate_cleanup_safe s c config :
  st_last_replacement (os_status s) = Some c -> safe_plan s (evaluate_cleanup s c config).
Proof.
  intros Hc. unfold evaluate_cleanup. destruct (opt_filter _ _) as [exact|] eqn:Hex;
    [|by auto with safe_plans].
  apply opt_filter_some in Hex as [Hex _]. cbn [List.find fst snd].
  destruct (absent (rci_endpoint _) _) eqn:He; cbn [negb];
  [destruct (absent (rci_pod _) _) eqn:Hp; cbn [negb];
   [destruct (absent (rci_pvc _) _) eqn:Hv; cbn [negb]; [quiet_plan|]|]|];
  unfold delete_resource; repeat case_match; auto with safe_plans; simplify_eq;
  unfold then_some in *; repeat case_match; simplify_eq; apply delete_safe; try done.
  intros _. eexists _, _, _. split_and!; try eassumption.
  left. unfold frozen_resources. rewrite Hc. by left.
Qed.

(** ** Accepting the reduced topology *)

Lemma is_err_false {E A} (m : res E A) : is_err m = Ok false -> exists a, m = Ok a.
Proof. destruct m; naive_solver. Qed.

Lemma removal_witnesses_reporting s e w :
  w ∈ removal_witnesses s e SrCurrentOnly ->
  exists r, reporting s r /\ ar_identity r = srw_identity w /\ ar_epoch r = srw_epoch w /\
    ar_current_configuration r = Some (sdi_current_configuration (removal_of e)) /\
    ar_previous_configuration r = None.
Proof.
  intros (m & _ & Hw)%list_elem_of_omap. eval_inv.
  rename select (session_report _ _ = Some _) into Hr. apply session_report_reporting in Hr as [Hr _].
  unfold unattested, removal_witness in *. eval_inv; subst. guards. eauto 6.
Qed.

Section accepting.
Variables (s : ObservationSnapshot) (t : TransitionIntent).
Hypothesis Hvalid : validate_status (os_status s) = Ok tt.
Hypothesis Hcount : countable_status (os_status s).
Hypothesis Ht : st_transition (os_status s) = Some t.

Lemma commit_removal_safe status i e config p :
  keeps_topology s status -> ti_kind t = SecondaryScaleDown ->
  ti_secondary_scale_down t = Some i -> ti_secondary_removal_evidence t = Some e ->
  commit_removal s status i e config = Ok p -> safe_plan s p.
Proof.
  intros Hst Hk Hi He Hp. unfold commit_removal in Hp. eval_inv. destruct x; subst; [quiet_plan|].
  destruct (removal_transition_facts _ Hvalid Hcount t Ht Hk) as (i' & Hi' & Hint & _ & Hcur & Hev).
  simplify_eq. specialize (Hev _ He).
  eapply accept_safe; [done..|by rewrite Hcur|]. rewrite Hcur.
  rename select (is_err _ = _) into Hok. apply is_err_false in Hok as [[] Hok].
  apply cleanup_ok in Hok as (_ & Hw & _);
    [|change (countable_intent (removal_of e)); rewrite Hev; by eapply countable_removal_of].
  cbn [sdc_evidence sdc_current_only_write_quorum] in Hw.
  change (srp_intent (sre_preparation e)) with (removal_of e) in *.
  pose proof (current_witnesses_write_quorum _ _ SrCurrentOnly ltac:(by rewrite <-Hev in Hint)
    ltac:(done) Hw) as Hq.
  apply removal_witnesses_ok in Hw as [Hall _]. rewrite Forall_forall in Hall.
  exists (witness_identities (removal_witnesses s e SrCurrentOnly)).
  rewrite <-Hev. split; [exact Hq|].
  intros k (w & Hwin & <-)%elem_of_witness_identities. pose proof (at_epoch _ _ _ (Hall w Hwin)) as Hep.
  apply removal_witnesses_reporting in Hwin as (r & Hr & Hid & Hre & Hc & Hpr).
  exists r. split_and!; [done..|]. unfold holds_current_only. rewrite Hc, Hpr, Hre, Hep.
  by rewrite !bool_decide_true.
Qed.

Lemma scale_down_transition_safe config p :
  ti_kind t = SecondaryScaleDown -> scale_down_transition s t config = Ok p -> safe_plan s p.
Proof.
  intros Hk Hp. unfold scale_down_transition in Hp. eval_inv; subst; kept_status;
    eauto using prepare_removal_safe, dispatch_safe, collect_reduced_safe, commit_removal_safe;
    quiet_plan.
Qed.

End accepting.

(** ** Serving during the cleanup *)

Lemma scale_down_cleanup_safe s c config p :
  validate_status (os_status s) = Ok tt -> countable_status (os_status s) ->
  st_secondary_scale_down_cleanup (os_status s) = Some c ->
  scale_down_cleanup s c config = Ok p -> safe_plan s p.
Proof.
  intros Hvalid Hcount Hc Hp.
  destruct (removal_cleanup_facts _ Hvalid Hcount c Hc) as [Hint Htop].
  unfold scale_down_cleanup in Hp. eval_inv; subst; kept_status;
    eauto using converge_committed_safe; try (quiet_plan; fail).
  - apply publish_safe; [|constructor]. guards.
    rename select (configuration_primary _ = Ok _) into Hprimary.
    eapply configuration_primary_ok in Hprimary as [Hin Hid]; [|apply Hint].
    rename select (stable_member_report _ _ _ = true) into Hs.
    apply stable_member_reports in Hs as (Hi & Hrole & Hrep).
    rename select (session_report _ _ = Some _) into Hr.
    apply session_report_reporting in Hr as [Hr Hri].
    eexists _, _, _. split_and!; try eassumption; [congruence|].
    eapply quorum_of_members; [apply Hint|..].
    + rewrite (vc_write_quorum _ _ (ri_current _ Hint)). eassumption.
    + intros m Hm (r & Hsr & Hst)%is_some_and_true. guards.
      rename select (stable_member_report _ m _ = true) into Hs.
      apply stable_member_reports in Hs as (? & _ & ?).
      apply session_report_reporting in Hsr as [? _]. eauto.
  - rename select (opt_filter _ _ = Some _) into Hex. apply opt_filter_some in Hex as [Hex _].
    eapply delete_target_safe; eassumption.
Qed.

End plans.
