(* ===== verification/ExpansionSafety.v ===== *)
(** * Safety of the scale-up

    Every plan of the allocation, the provisioning, the admission and the cleanup of a
    candidate is a [safe_plan].  The routing it restores belongs to the accepted topology,
    the expanded topology is accepted with a validated receipt, and a volume of a candidate
    that is given up is deleted after its Pod and endpoint. *)

From S2P Require Import Prelude Digest Types Intents Commands Observations Validation Quorums.
From S2P Require Import ScaleDown ScaleUp SnapshotValidation StatusFacts EvaluatorBase.
From S2P Require Import EvaluatorSwitchover EvaluatorFailover EvaluatorScaleDown EvaluatorReplacement.
From S2P Require Import EvaluatorExpansion EvaluatorCandidate EvaluatorAdmission.
From S2P Require Import PlanSafety FailoverSafety ScaleDownSafety.
From stdpp Require Import base gmap strings list sorting pretty.
From Stdlib Require Import ZArith Lia.
Local Open Scope Z_scope.

Section plans.
Context `{Sha256, Texts}.

(** ** The accepted service *)

Lemma restore_accepted_service_safe s accepted policy target attempt phase config p :
  validate_status (os_status s) = Ok tt -> countable_status (os_status s) ->
  st_topology (os_status s) = Some accepted ->
  restore_accepted_service_before_cleanup s accepted policy target attempt phase config
    = Ok (Some p) ->
  safe_plan s p.
Proof.
  intros Hvalid Hcount Htop Hp. pose proof (valid_topology _ Hvalid Hcount _ Htop) as Hv.
  unfold restore_accepted_service_before_cleanup in Hp. eval_inv; subst; try (quiet_plan; fail).
  destruct (routed s); [quiet_plan|]. apply publish_safe; [|constructor]. guards.
  rename select (List.find _ _ = Some _) into Hr. apply List.find_some in Hr as [Hr Hi].
  apply bool_decide_eq_true in Hi. apply list_elem_of_In, list_elem_of_omap in Hr as (m & Hm & Hr).
  apply opt_filter_some in Hr as [Hr Hs]. apply stable_member_reports in Hs as (Hid & Hrole & Hrep).
  rename select (configuration_primary _ = Ok _) into Hprimary.
  eapply configuration_primary_ok in Hprimary as [Hin Hpid]; [|exact Hv].
  assert (x = m) as ->.
  { eapply member_id_inj; [by eapply vc_ids|done..|]. unfold member_id. congruence. }
  eexists accepted, m, a. split_and!; try eassumption; try reflexivity; [by eauto with reporting|].
  rename select (_ <= Z.of_nat (length _)) into Hq. rewrite length_omap_count in Hq.
  eapply quorum_of_members; [exact Hv|exact Hq|]. simpl.
  intros n Hn (r & Hrn)%is_some_true. apply opt_filter_some in Hrn as [Hrn Hsn].
  apply stable_member_reports in Hsn as (? & _ & ?). eauto with reporting.
Qed.

(** ** A candidate that is given up *)

Lemma cleanup_source_build_retirement_safe s c accepted config p :
  cleanup_source_build_retirement s c accepted config = Ok (Some p) -> safe_plan s p.
Proof.
  intros Hp. unfold cleanup_source_build_retirement in Hp. eval_inv; subst; quiet_plan.
Qed.

Lemma freeze_cleanup_safe s p status reason failed config plan :
  keeps_topology s status -> freeze_cleanup s p status reason failed config = Ok plan ->
  safe_plan s plan.
Proof. intros Hst Hp. unfold freeze_cleanup in Hp. eval_inv; subst; quiet_plan. Qed.

Lemma complete_cleanup_safe s c config p : complete_cleanup s c config = Ok p -> safe_plan s p.
Proof. intros Hp. unfold complete_cleanup in Hp. eval_inv; subst; quiet_plan. Qed.

Lemma cleanup_delete_safe s frozen o resource change :
  cleanup_delete frozen o resource = Some change ->
  (forall name uid version, resource = ResourcePvc ->
     frozen = CleanupPresent name uid -> o = FrozenUidPresent version ->
     released s name uid version) ->
  safe_plan s (Apply [change]).
Proof.
  intros Hd Hr. unfold cleanup_delete in Hd. eval_inv; subst. apply delete_safe. eauto.
Qed.

Lemma delete_candidate_safe s c config p :
  st_scale_up_cleanup (os_status s) = Some c -> delete_candidate s c config = Ok p -> safe_plan s p.
Proof.
  intros Hc Hp. unfold delete_candidate in Hp. eval_inv; subst; eauto using complete_cleanup_safe;
    try (quiet_plan; fail); guards; (eapply cleanup_delete_safe; [eassumption|]);
    intros name uid version Hpvc ? ?; try done.
  eexists _, _, _. split_and!; try eassumption.
  left. unfold frozen_resources. rewrite Hc. simpl. set_solver.
Qed.

Lemma contextualize_delegated_wait_safe s plan target attempt phase :
  safe_plan s plan -> safe_plan s (contextualize_delegated_wait s plan target attempt phase).
Proof.
  intros Hp. destruct plan as [| | |reason status requeue|]; simpl; try done.
  split; [done|..]; simpl.
  - intros i Hi. by apply elem_of_nil in Hi.
  - intros st Hs. apply list_elem_of_singleton in Hs as ->.
    exact (sp_topology _ _ Hp status ltac:(by left)).
  - intros name uid version Hd. by apply elem_of_nil in Hd.
Qed.

Lemma scale_up_cleanup_safe s c config p :
  validate_status (os_status s) = Ok tt -> countable_status (os_status s) ->
  st_scale_up_cleanup (os_status s) = Some c ->
  scale_up_cleanup s c config = Ok p -> safe_plan s p.
Proof.
  intros Hvalid Hcount Hc Hp. unfold scale_up_cleanup in Hp. eval_inv; subst;
    eauto using cleanup_source_build_retirement_safe, restore_accepted_service_safe,
      delete_candidate_safe.
  eapply contextualize_delegated_wait_safe, maybe_begin_stable_failover_safe; [|eassumption].
  reflexivity.
Qed.

(** ** The receipt of a completed scale-up *)

Lemma replay_pending_safe s r expected omitted mutated config :
  safe_plan s (replay_pending s r expected omitted mutated config).
Proof. unfold replay_pending. repeat case_match; quiet_plan. Qed.

Lemma recover_member_safe s receipt e failover accepted m config p :
  recover_member s receipt e failover accepted m config = Some (Some p) -> safe_plan s p.
Proof.
  intros Hp. unfold recover_member in Hp. eval_inv; subst; auto using replay_pending_safe; quiet_plan.
Qed.

Lemma recover_members_safe s receipt e failover accepted members config p :
  recover_members s receipt e failover accepted members config = Some p -> safe_plan s p.
Proof.
  induction members as [|m members IH]; simpl; intros Hp; eval_inv; subst;
    eauto using recover_member_safe.
Qed.

Lemma recover_receipt_safe s receipt accepted config p :
  recover_receipt s receipt accepted config = Some p -> safe_plan s p.
Proof.
  intros Hp. unfold recover_receipt in Hp. eval_inv; subst; eauto using recover_members_safe;
    quiet_plan.
Qed.

Lemma recover_scale_up_acceptance_safe s config p :
  validate_status (os_status s) = Ok tt -> countable_status (os_status s) ->
  recover_scale_up_acceptance s config = Ok (Some p) -> safe_plan s p.
Proof.
  intros Hvalid Hcount Hp. unfold recover_scale_up_acceptance in Hp. eval_inv; subst;
    eauto using recover_receipt_safe, restore_accepted_service_safe.
Qed.

(** ** Beginning a scale-up *)

Lemma scale_up_blocked_safe s status topology policy config p :
  keeps_topology s status -> scale_up_blocked s status topology policy config = Ok (Some p) ->
  safe_plan s p.
Proof. intros Hst Hp. unfold scale_up_blocked in Hp. eval_inv; subst; quiet_plan. Qed.

Lemma scale_up_begin_safe s status config p :
  keeps_topology s status -> scale_up_begin s status config = Ok (Some p) -> safe_plan s p.
Proof.
  intros Hst Hp. unfold scale_up_begin in Hp. eval_inv; subst; eauto using scale_up_blocked_safe;
    quiet_plan.
Qed.

(** ** The allocation of a candidate *)

Lemma update_allocation_safe s a f reason phase blocking p :
  update_allocation s a f reason phase blocking = Ok p -> safe_plan s p.
Proof. intros Hp. unfold update_allocation in Hp. eval_inv; subst. quiet_plan. Qed.

Lemma retry_allocation_safe s a p :
  retry_or_complete_allocation_cleanup s a (os_status s) = Ok p -> safe_plan s p.
Proof. intros Hp. unfold retry_or_complete_allocation_cleanup in Hp. eval_inv; subst; quiet_plan. Qed.

Lemma freeze_volume_safe s a exact k uid config p :
  freeze_volume s a exact k uid config = Ok p -> safe_plan s p.
Proof.
  intros Hp. unfold freeze_volume in Hp. eval_inv; subst; eauto using update_allocation_safe;
    quiet_plan.
Qed.

Lemma request_volume_safe s a exact config p :
  request_volume s a exact config = Ok p -> safe_plan s p.
Proof.
  intros Hp. unfold request_volume in Hp. eval_inv; subst;
    eauto using update_allocation_safe, retry_allocation_safe; quiet_plan.
Qed.

Lemma bind_pod_safe s a previous policy exact k uid config p :
  bind_pod s a previous policy exact k uid config = Ok p -> safe_plan s p.
Proof.
  intros Hp. unfold bind_pod, promote_allocation in Hp. eval_inv; subst;
    eauto using update_allocation_safe; quiet_plan.
Qed.

Lemma without_pod_safe s a exact config p :
  st_scale_up_allocation (os_status s) = Some a ->
  resources s (sua_observation_target a) = Some exact ->
  without_pod s a exact config = Ok p -> safe_plan s p.
Proof.
  intros Ha Hex Hp. unfold without_pod, not_found in Hp. eval_inv; subst;
    eauto using retry_allocation_safe; try (quiet_plan; fail).
  guards. eapply cleanup_delete_safe; [eassumption|]. intros name uid version _ ? ?.
  exists (sua_observation_target a), exact, (sro_identity exact). split_and!; try done;
    [right; split; [by exists a|done]|..]; unfold absent; repeat case_match; done.
Qed.

Lemma clean_allocation_safe s a exact config p :
  st_scale_up_allocation (os_status s) = Some a ->
  resources s (sua_observation_target a) = Some exact ->
  clean_allocation s a exact config = Ok p -> safe_plan s p.
Proof.
  intros Ha Hex Hp. unfold clean_allocation, delete_or_wait, not_found in Hp. eval_inv; subst;
    eauto using retry_allocation_safe; try (quiet_plan; fail);
    guards; (eapply cleanup_delete_safe; [eassumption|]); intros name uid version ? ? ?; try done.
  exists (sua_observation_target a), exact, (sro_identity exact). split_and!; try done;
    [right; split; [by exists a|done]|]. unfold absent; repeat case_match; done.
Qed.

Lemma evaluate_allocation_safe s a config p :
  validate_status (os_status s) = Ok tt -> countable_status (os_status s) ->
  st_scale_up_allocation (os_status s) = Some a ->
  evaluate_allocation s a config = Ok p -> safe_plan s p.
Proof.
  intros Hvalid Hcount Ha Hp. unfold evaluate_allocation, observe_allocation in Hp. eval_inv; subst;
    eauto using update_allocation_safe, restore_accepted_service_safe, freeze_volume_safe,
      request_volume_safe, bind_pod_safe, without_pod_safe, clean_allocation_safe;
    try (quiet_plan; fail).
  eapply maybe_begin_stable_failover_safe; [|eassumption]. reflexivity.
Qed.

(** ** Provisioning *)

Lemma publish_phase_safe s status reason phase target attempt blocking p :
  keeps_topology s status ->
  publish_phase_if_changed s status reason phase target attempt blocking = Some p -> safe_plan s p.
Proof. intros Hst Hp. unfold publish_phase_if_changed in Hp. eval_inv; subst. quiet_plan. Qed.

Lemma own_phase_safe s reason phase target attempt blocking p :
  publish_phase_if_changed s (os_status s) reason phase target attempt blocking = Some p ->
  safe_plan s p.
Proof. by apply publish_phase_safe. Qed.

Lemma begin_scale_up_safe s status u primary target build source boundary config p :
  keeps_topology s status ->
  begin_scale_up s status u primary target build source boundary config = Ok p -> safe_plan s p.
Proof. intros Hst Hp. unfold begin_scale_up in Hp. eval_inv; subst; quiet_plan. Qed.

Lemma copy_candidate_safe s p u status primary target build source receiver config plan :
  keeps_topology s status ->
  copy_candidate s p u status primary target build source receiver config = Ok plan ->
  safe_plan s plan.
Proof.
  intros Hst Hp. unfold copy_candidate, copy_missing, copy_propagating, copy_exact in Hp.
  eval_inv; subst; eauto using freeze_cleanup_safe, own_phase_safe, begin_scale_up_safe; quiet_plan.
Qed.

Lemma arbitrate_failover_safe s status target attempt blocking config p :
  keeps_topology s status ->
  arbitrate_failover s status target attempt blocking config = Ok p -> safe_plan s p.
Proof.
  intros Hst Hp. unfold arbitrate_failover in Hp. eval_inv; subst. case_match.
  - eauto using contextualize_delegated_wait_safe, maybe_begin_stable_failover_safe.
  - quiet_plan.
Qed.

Lemma evaluate_scale_up_provisioning_safe s p config plan :
  validate_status (os_status s) = Ok tt -> countable_status (os_status s) ->
  evaluate_scale_up_provisioning s p config = Ok plan -> safe_plan s plan.
Proof.
  intros Hvalid Hcount Hp. unfold evaluate_scale_up_provisioning, provision_report in Hp.
  cbv zeta in Hp. set (status := progress_status _ _ _ _ _ _ _) in Hp.
  assert (Hst : keeps_topology s status) by reflexivity. clearbody status.
  eval_inv; subst; eauto using arbitrate_failover_safe, restore_accepted_service_safe,
    freeze_cleanup_safe, copy_candidate_safe; quiet_plan.
Qed.

(** ** Admission *)

Lemma begin_carried_failover_safe s t i config p :
  begin_carried_failover s t i config = Ok p -> safe_plan s p.
Proof. intros Hp. unfold begin_carried_failover in Hp. eval_inv; subst; quiet_plan. Qed.

Lemma finalize_fenced_failover_safe s t i config p :
  finalize_fenced_failover s t i config = Ok p -> safe_plan s p.
Proof.
  intros Hp. unfold finalize_fenced_failover, persist_election in Hp. eval_inv; subst; quiet_plan.
Qed.

Lemma install_participant_safe s t e p config recovering primary m plan :
  install_participant s t e p config recovering primary m = Ok (Some plan) -> safe_plan s plan.
Proof.
  intros Hp. unfold install_participant in Hp. eval_inv; subst; try (quiet_plan; fail).
  eapply freeze_cleanup_safe; [|eassumption]. reflexivity.
Qed.

Lemma install_participants_safe s t e p config recovering primary members plan :
  install_participants s t e p config recovering primary members = Ok (Some plan) ->
  safe_plan s plan.
Proof.
  induction members as [|m members IH]; simpl; intros Hp; eval_inv; subst;
    eauto using install_participant_safe.
Qed.

Lemma joint_phase_safe s t e p config recovering primary plan :
  joint_phase s t e p config recovering primary = Ok (Some plan) -> safe_plan s plan.
Proof.
  intros Hp. unfold joint_phase, joint_quorum in Hp. eval_inv; subst;
    eauto using install_participants_safe, begin_carried_failover_safe, finalize_fenced_failover_safe;
    quiet_plan.
Qed.

Lemma converge_safe s t e config primary plan :
  converge s t e config primary = Some plan -> safe_plan s plan.
Proof.
  intros Hp. unfold converge in Hp. eval_inv; subst.
  - rename select (head _ = Some _) into Hh. apply head_omap_some in Hh as (m & _ & Hm).
    unfold replay_participant in Hm. eval_inv; subst. apply replay_pending_safe.
  - rename select (head _ = Some _) into Hh. apply head_omap_some in Hh as (m & _ & Hm).
    unfold converge_member in Hm. eval_inv; subst; quiet_plan.
Qed.

Lemma quorum_witnesses_reporting s i current w :
  w ∈ quorum_witnesses s i current current SuCurrentOnly ->
  exists r, reporting s r /\ ar_identity r = suw_identity w /\ holds_current_only current r = true.
Proof.
  intros (m & _ & Hw)%list_elem_of_omap. rewrite (bool_decide_true (_ = SuCurrentOnly)) in Hw by done.
  eval_inv. unfold exact_current_only_report in *. guards.
  unfold scale_up_witness in *. eval_inv; subst. guards. eauto with reporting.
Qed.

Section accepting.
Variables (s : ObservationSnapshot) (t : TransitionIntent) (e : ScaleUpConfigurationEvidence)
  (p : ProvisioningIntent) (config : EvaluationConfig).
Hypothesis Hvalid : validate_status (os_status s) = Ok tt.
Hypothesis Hcount : countable_status (os_status s).
Hypothesis Ht : st_transition (os_status s) = Some t.
Hypothesis He :
  or_else (Admission <$> ti_scale_up t) (FailoverEvidence <$> ti_scale_up_failover t) = Some e.

(** The evidence of the transition belongs to its configuration and to the topology. *)
Lemma evidence_facts :
  valid_configuration (ti_current_configuration t)
    (Some (sui_current_policy (evidence_intent e))) /\
  (ti_kind t = ScaleUp ->
   st_topology (os_status s) = Some (sui_previous_configuration (evidence_intent e))).
Proof.
  pose proof (checked_transition _ Hvalid t Ht) as Hok. unfold check_transition in Hok.
  assert (Hno : check_ordinary_transition (os_status s) t = Ok tt -> False).
  { unfold check_ordinary_transition. intros Ho. guards.
    destruct (ti_scale_up t), (ti_scale_up_failover t); done. }
  destruct (ti_kind t) eqn:Hk; try (destruct (Hno Hok)).
  - destruct (ti_scale_up_failover t) as [f|] eqn:Hf; [|destruct (Hno Hok)].
    destruct (carried_transition_facts _ Hvalid Hcount t f Ht Hk Hf) as (Hnone & _ & _ & Hv & _).
    rewrite Hnone in He. simpl in He. injection He as <-. done.
  - destruct (removal_transition_facts _ Hvalid Hcount t Ht Hk) as (i & _).
    unfold check_scale_down_transition in Hok. guards.
    destruct (ti_scale_up t), (ti_scale_up_failover t); done.
  - destruct (scale_up_transition_facts _ Hvalid Hcount t Ht Hk) as (i & Hi & Hint & Htop & ->).
    rewrite Hi in He. simpl in He. injection He as <-. split; [apply Hint|done].
Qed.

Lemma before_admission_safe plan :
  before_admission s t e p config = Ok (inl plan) -> safe_plan s plan.
Proof.
  destruct evidence_facts as [_ Htop]. intros Hp. unfold before_admission in Hp.
  eval_inv; subst; guards;
    eauto using begin_carried_failover_safe, restore_accepted_service_safe;
    try (quiet_plan; fail);
    first [eapply arbitrate_failover_safe; [|eassumption]; reflexivity
          |eapply freeze_cleanup_safe; [|eassumption]; reflexivity].
Qed.

Lemma commit_scale_up_safe primary plan :
  commit_scale_up s t e config primary = Ok plan -> safe_plan s plan.
Proof.
  destruct evidence_facts as [Hv _]. intros Hp. unfold commit_scale_up in Hp. eval_inv; subst;
    try (quiet_plan; fail).
  rename select (validate_scale_up_receipt _ = _) into Hr. unfold validate_scale_up_receipt in Hr.
  guards. rename select (validate_scale_up_witnesses _ _ _ _ _ _ _ = _) into Hw.
  apply current_only_witnesses_ok in Hw as (_ & Hsub & Hq & _). simpl in Hsub, Hq.
  unfold accept_scale_up. cbv zeta. destruct (is_some_and _ (healthy_report _ _)); (eapply accept_safe; [done..|reflexivity|]);
    (eexists; split; [eapply policy_write_quorum; [exact Hv|exact Hsub|exact Hq]|]);
    intros k (w & Hw & <-)%elem_of_scale_up_identities; by apply quorum_witnesses_reporting in Hw.
Qed.

Lemma drive_scale_up_safe plan : drive_scale_up s t e p config = Ok plan -> safe_plan s plan.
Proof.
  intros Hp. unfold drive_scale_up in Hp. eval_inv; subst;
    eauto using before_admission_safe, joint_phase_safe, own_phase_safe, converge_safe,
      commit_scale_up_safe.
Qed.

End accepting.

Lemma scale_up_transition_safe s t config plan :
  validate_status (os_status s) = Ok tt -> countable_status (os_status s) ->
  st_transition (os_status s) = Some t ->
  scale_up_transition s t config = Ok plan -> safe_plan s plan.
Proof.
  intros Hvalid Hcount Ht Hp. unfold scale_up_transition in Hp. eval_inv; subst;
    eauto using drive_scale_up_safe. quiet_plan.
Qed.
End plans.
