(* ===== verification/EvaluatorSafety.v ===== *)
(** * Safety of the evaluator

    Every plan [evaluate] returns, for any snapshot, is a [safe_plan]: the parts are put
    together along the dispatch, and what the admission of the snapshot validated is what
    the parts rely on. *)

From S2P Require Import Prelude Digest Types Intents Commands Observations Validation Quorums.
From S2P Require Import ScaleDown ScaleUp SnapshotValidation StatusFacts EvaluatorBase.
From S2P Require Import EvaluatorSwitchover EvaluatorFailover EvaluatorScaleDown EvaluatorReplacement.
From S2P Require Import EvaluatorBootstrap EvaluatorExpansion EvaluatorCandidate EvaluatorAdmission.
From S2P Require Import Evaluator PlanSafety SwitchoverSafety FailoverSafety ScaleDownSafety.
From S2P Require Import ExpansionSafety.
From stdpp Require Import base gmap strings list sorting pretty.
From Stdlib Require Import ZArith Lia.
Local Open Scope Z_scope.

Section plans.
Context `{Sha256, Texts}.

(** ** The admission of a snapshot *)

Lemma hide_corrections_status s remaining identities s' :
  hide_corrections s remaining identities = Ok s' -> os_status s' = os_status remaining.
Proof.
  revert remaining. induction identities as [|i identities IH]; simpl; intros remaining Hh.
  - by injection Hh as <-.
  - guards. rename select (hide_corrections _ _ _ = _) into Hh. by apply IH in Hh.
Qed.

Lemma validate_snapshot_status s :
  validate_snapshot s = Ok tt -> validate_status (os_status s) = Ok tt.
Proof. unfold validate_snapshot. intros Hok. by guards. Qed.

Lemma admitted_status s config :
  admitted_snapshot s config = Ok None -> validate_status (os_status s) = Ok tt.
Proof.
  intros Ha. unfold admitted_snapshot, around_corrections in Ha.
  assert (Haround : forall identities u,
            validate_snapshot_around_authorized_corrections s identities = Ok u ->
            validate_status (os_status s) = Ok tt).
  { intros identities [] Hok. unfold validate_snapshot_around_authorized_corrections in Hok. guards.
    rename select (hide_corrections _ _ _ = _) into Hh. apply hide_corrections_status in Hh as <-.
    by apply validate_snapshot_status. }
  eval_inv; eauto. destruct a; auto using validate_snapshot_status.
Qed.

(** ** Corrections *)

Lemma scale_up_accepted_correction_safe s config p :
  scale_up_accepted_correction s config = Some p -> safe_plan s p.
Proof.
  intros Hp. unfold scale_up_accepted_correction in Hp. eval_inv.
  apply head_omap_some in Hp as (m & _ & Hp). unfold correct_member, pending_correction in Hp.
  eval_inv; subst; quiet_plan.
Qed.

Lemma correct_stable_safe s c policy p : correct_stable s c policy = Some p -> safe_plan s p.
Proof. intros Hp. unfold correct_stable in Hp. eval_inv; subst; quiet_plan. Qed.

Lemma stable_status_keeps s c policy config : keeps_topology s (stable_status s c policy config).
Proof. unfold stable_status. repeat case_match; reflexivity. Qed.

(** ** Serving *)

Lemma attests_accepted_reports c m r :
  attests_accepted c m r = true ->
  ar_identity r = cm_identity m /\ ar_role r = cm_role m /\ reports_only c r.
Proof.
  unfold attests_accepted. intros Ha. guards. split_and!; [done..|].
  rename select (is_some_and _ _ = true) into Hc. apply is_some_and_true in Hc as (current & Hc & Hid).
  guards. unfold reports_only. rewrite Hc. simpl. rewrite Hid.
  by destruct (ar_previous_configuration r).
Qed.

Lemma attesting_primary_some s c primary r :
  attesting_primary s c primary = Some r ->
  exists m, m ∈ cd_members c /\ cm_identity m = primary /\
    healthy_report s (cm_identity m) = Some r /\ attests_accepted c m r = true.
Proof.
  unfold attesting_primary. induction (cd_members c) as [|m l IH] using rev_ind; [done|].
  rewrite fold_left_app. simpl. set (found := fold_left _ l None) in *.
  assert (Hl : found = Some r -> exists n, n ∈ l ++ [m] /\ cm_identity n = primary /\
            healthy_report s (cm_identity n) = Some r /\ attests_accepted c n r = true).
  { intros (n & Hn & ?)%IH. exists n. rewrite elem_of_app. eauto. }
  destruct (healthy_report s (cm_identity m)) as [r'|] eqn:Hr; [|exact Hl].
  case_bool_decide; [|exact Hl]. destruct (attests_accepted c m r') eqn:Ha; [|done].
  intros [= <-]. exists m. rewrite elem_of_app, list_elem_of_singleton. eauto.
Qed.

Lemma as_u32_le z : 0 <= z -> as_u32 z <= z.
Proof. unfold as_u32. intros. apply Z.mod_le; lia. Qed.

Section validated.
Variables (s : ObservationSnapshot) (config : EvaluationConfig).
Hypothesis Hvalid : validate_status (os_status s) = Ok tt.
Hypothesis Hcount : countable_status (os_status s).

(** The accepted primary attests granted writes, with a write quorum behind it. *)
Lemma attested_serving c primary r :
  st_topology (os_status s) = Some c -> named_primary c = Some primary ->
  attesting_primary s c (cm_identity primary) = Some r ->
  cd_write_quorum c <= attested_members s c -> ar_write_status r = Granted ->
  serving s (cm_identity primary).
Proof.
  intros Htop Hp Hr Hq Hw. pose proof (valid_topology _ Hvalid Hcount _ Htop) as Hv.
  apply attesting_primary_some in Hr as (m & Hm & Hmp & Hr & Ha).
  apply attests_accepted_reports in Ha as (Hi & Hrole & Hrep).
  unfold named_primary in Hp. apply List.find_some in Hp as [Hp Hid].
  apply list_elem_of_In in Hp. apply bool_decide_eq_true in Hid.
  assert (primary = m) as ->.
  { eapply member_id_inj; [by eapply vc_ids|done..|]. unfold member_id. congruence. }
  eexists c, m, r. split_and!; try done; [by eauto with reporting|].
  eapply quorum_of_members; [exact Hv|etrans; [exact Hq|apply as_u32_le; unfold count; lia]|].
  intros n Hn (r' & Hr' & Ha')%is_some_and_true.
  apply attests_accepted_reports in Ha' as (? & _ & ?). eauto with reporting.
Qed.

Lemma serve_safe status c policy p :
  keeps_topology s status -> st_topology (os_status s) = Some c ->
  serve s status c policy config = Ok p -> safe_plan s p.
Proof.
  intros Hst Htop Hp. unfold serve, lose_write_quorum, converge_routing in Hp. eval_inv; subst;
    eauto using scale_up_begin_safe; try (quiet_plan; fail). guards.
  apply publish_safe; [by eapply attested_serving|]. repeat constructor. exact Hst.
Qed.

Lemma serve_managed_safe status c policy recovering p :
  keeps_topology s status -> st_topology (os_status s) = Some c ->
  serve_managed s status c policy recovering config = Ok p -> safe_plan s p.
Proof.
  intros Hst Htop Hp. unfold serve_managed in Hp. eval_inv; subst; auto using cleanup_waiting_safe;
    try (quiet_plan; fail); (eapply serve_safe; [|exact Htop|exact Hp]); exact Hst.
Qed.

Lemma replace_secondary_safe status failed p :
  keeps_topology s status -> replace_secondary s status failed config = Ok p -> safe_plan s p.
Proof.
  intros Hst Hp. unfold replace_secondary in Hp. eval_inv; subst; eauto using admit_cleanup_safe;
    quiet_plan.
Qed.

Lemma evaluate_stable_safe p : evaluate_stable s config = Ok p -> safe_plan s p.
Proof.
  intros Hp. unfold evaluate_stable, begin_requested in Hp. eval_inv; subst;
    try match goal with H : context [stable_status s ?c ?policy config] |- _ =>
          pose proof (stable_status_keeps s c policy config);
          pose proof (project_switchover_keeps s _ (stable_status_keeps s c policy config)) end;
    eauto using maybe_begin_stable_failover_safe, correct_stable_safe, begin_switchover_safe,
      scale_down_begin_safe, replace_secondary_safe, serve_managed_safe; quiet_plan.
Qed.

(** ** Transitions and the dispatch *)

Lemma evaluate_transition_safe t p :
  st_transition (os_status s) = Some t ->
  evaluate_transition s t config = Ok p -> safe_plan s p.
Proof.
  intros Ht Hp. unfold evaluate_transition in Hp. cbv zeta in Hp.
  assert (Hst : keeps_topology s (projected_status s t))
    by (unfold projected_status; destruct (snd _); reflexivity).
  eval_inv; subst; guards;
    eauto using scale_down_transition_safe, evaluate_switchover_safe, maybe_begin_failover_safe,
      evaluate_replacement_transition_safe, evaluate_failover_transition_safe,
      evaluate_bootstrap_safe; quiet_plan.
Qed.

Lemma invalid_agent_plan_safe p : invalid_agent_plan s config = Some p -> safe_plan s p.
Proof.
  intros ([key o] & _ & Hp)%head_omap_some. eval_inv; subst; quiet_plan.
Qed.

Lemma incompatible_protocol_plan_safe p :
  incompatible_protocol_plan s config = Some p -> safe_plan s p.
Proof.
  intros ([key o] & _ & Hp)%head_omap_some. eval_inv; subst; quiet_plan.
Qed.

Lemma arbitrate_safe p : arbitrate s config = Ok (Some p) -> safe_plan s p.
Proof.
  intros Hp. unfold arbitrate in Hp. eval_inv; subst;
    eauto using invalid_agent_plan_safe, incompatible_protocol_plan_safe, switchover_unsafe_safe;
    quiet_plan.
Qed.

Lemma arbitrate_correction_safe plan p :
  safe_plan s plan -> arbitrate_correction s plan config = Ok p -> safe_plan s p.
Proof.
  intros Hplan Hp. unfold arbitrate_correction in Hp. eval_inv; subst; auto;
    try (rename select (opt_filter _ _ = Some _) into Ht; apply opt_filter_some in Ht as [Ht _];
         eauto using scale_up_transition_safe);
    (destruct x0; simpl; [|done]); (eapply maybe_begin_stable_failover_safe; [|eassumption]);
    reflexivity.
Qed.

Lemma correct_accepted_safe p : correct_accepted s config = Ok (Some p) -> safe_plan s p.
Proof.
  intros Hp. unfold correct_accepted in Hp. eval_inv; subst;
    eauto using recover_scale_up_acceptance_safe, arbitrate_correction_safe,
      scale_up_accepted_correction_safe.
Qed.

Lemma dispatch_status_safe p : dispatch_status s config = Ok p -> safe_plan s p.
Proof.
  intros Hp. unfold dispatch_status in Hp. eval_inv; subst;
    eauto using scale_up_transition_safe, cleanup_waiting_safe, evaluate_transition_safe,
      evaluate_allocation_safe, evaluate_scale_up_provisioning_safe, evaluate_provisioning_safe,
      scale_up_cleanup_safe, scale_down_cleanup_safe, scale_down_completed_safe,
      evaluate_stable_safe, evaluate_never_initialized_safe.
Qed.

Lemma evaluate_admitted_safe p : evaluate_admitted s config = Ok p -> safe_plan s p.
Proof.
  intros Hp. unfold evaluate_admitted in Hp. eval_inv; subst;
    eauto using arbitrate_safe, correct_accepted_safe, recover_local_acceptance_safe,
      evaluate_cleanup_safe, dispatch_status_safe; quiet_plan.
Qed.

End validated.

(** ** The whole evaluation *)

Lemma admitted_snapshot_safe s config p :
  admitted_snapshot s config = Ok (Some p) -> safe_plan s p.
Proof.
  intros Hp. unfold admitted_snapshot, around_corrections, rejected_snapshot in Hp.
  eval_inv; subst; eauto using switchover_unsafe_safe; quiet_plan.
Qed.

Lemma evaluate_safe s config p :
  countable_status (os_status s) -> evaluate s config = Ok p -> safe_plan s p.
Proof.
  intros Hcount Hp. unfold evaluate, disabled_feature in Hp. eval_inv; subst;
    eauto using switchover_unsafe_safe, admitted_snapshot_safe, evaluate_admitted_safe, admitted_status;
    quiet_plan.
Qed.

(** ** What the plans promise *)

(** [C4] Whatever the snapshot says, a status the evaluator returns either keeps the accepted
    topology or replaces it by the configuration of the transition the status already had,
    whose epoch is newer, and only when a write quorum of the members of that very
    configuration reports to have it as its only configuration. *)
Theorem topology_changes_need_quorum s config p status c :
  countable_status (os_status s) -> evaluate s config = Ok p ->
  status ∈ plan_statuses p -> st_topology status = Some c ->
  st_topology (os_status s) = Some c \/
  (exists t, st_transition (os_status s) = Some t /\ c = ti_current_configuration t) /\
  (forall old, st_topology (os_status s) = Some old -> newer_epoch old c) /\
  exists Q, write_quorum_of c Q /\ forall i, i ∈ Q ->
    exists r, reporting s r /\ ar_identity r = i /\ ar_epoch r = cd_epoch c /\
      ar_current_configuration r = Some c /\ ar_previous_configuration r = None.
Proof.
  intros Hcount Hp Hs Hc. destruct (sp_topology _ _ (evaluate_safe s config p Hcount Hp) _ Hs)
    as [Heq|(c' & Hc' & Ht & Hnew & Q & Hq & Hr)]; [left; congruence|right].
  assert (c' = c) as -> by congruence. split_and!; [done..|]. exists Q. split; [done|].
  intros i (r & ? & ? & Hh)%Hr. unfold holds_current_only in Hh. guards.
  exists r. split_and!; try done. by destruct (ar_previous_configuration r).
Qed.

(** [C5] Write routing is only ever published to the primary of the accepted topology, and only
    when it reports this topology with writes granted and a write quorum of the members
    reports the same topology and nothing before it. *)
Theorem routing_follows_attested_primary s config p i :
  countable_status (os_status s) -> evaluate s config = Ok p ->
  PublishWriteRouting i ∈ plan_changes p ->
  exists c m r,
    st_topology (os_status s) = Some c /\
    m ∈ cd_members c /\ cm_identity m = i /\ member_id m = cd_primary_id c /\
    reporting s r /\ ar_identity r = i /\ ar_role r = cm_role m /\ reports_only c r /\
    ar_write_status r = Granted /\ quorum_reports s c (reports_only c).
Proof. intros Hcount Hp Hi. exact (sp_routing _ _ (evaluate_safe s config p Hcount Hp) _ Hi). Qed.

(** [C19] An unsafe plan, whatever the reason, takes the write routing away and leaves the
    accepted topology as it is. *)
Theorem unsafe_plans_close_routing s config reason status changes seconds :
  countable_status (os_status s) -> evaluate s config = Ok (Unsafe reason status changes seconds) ->
  SafetyRemoveWriteRouting ∈ changes /\ st_topology status = st_topology (os_status s).
Proof. intros Hcount Hp. exact (sp_closes _ _ (evaluate_safe _ _ _ Hcount Hp) _ _ _ _ eq_refl). Qed.

(** [C20] A cleanup that deletes a volume with [DeleteScaleDownResource] does so by the name and
    uid that the status has frozen for its replica (or, for an allocation the status has
    cancelled, that the observation names), under the resource version observed for that uid,
    and after the endpoint and the Pod of the same replica are seen to be gone. The other
    change that deletes volumes, [DeleteReplicaScaffolding], names the Pod and the volume of an
    unaccepted replica together and is not a matter of this theorem. *)
Theorem frozen_volumes_are_deleted_last s config p name uid version :
  countable_status (os_status s) -> evaluate s config = Ok p ->
  DeleteScaleDownResource ResourcePvc name uid version ∈ plan_changes p ->
  exists target exact frozen,
    resources s target = Some exact /\
    ((target, frozen) ∈ frozen_resources (os_status s) \/
     (cancelled_allocation (os_status s) target /\ frozen = sro_identity exact)) /\
    absent (rci_endpoint frozen) (sro_endpoint exact) = true /\
    absent (rci_pod frozen) (sro_pod exact) = true /\
    rci_pvc frozen = CleanupPresent name uid /\ sro_pvc exact = FrozenUidPresent version.
Proof. intros Hcount Hp Hd. exact (sp_volumes _ _ (evaluate_safe s config p Hcount Hp) _ _ _ Hd). Qed.


(** ** Runs of the controller *)

(** One reconciliation: a snapshot of the status is evaluated and a status of the plan is
    persisted. *)
Inductive reconciles : AcceptedStatus -> AcceptedStatus -> Prop :=
| reconcile s config p status :
    countable_status (os_status s) -> evaluate s config = Ok p -> status ∈ plan_statuses p ->
    reconciles (os_status s) status.

Lemma reconciles_topology status status' c :
  reconciles status status' -> st_topology status = Some c ->
  exists c', st_topology status' = Some c' /\ (c' = c \/ newer_epoch c c').
Proof.
  intros [s config p st Hcount Hp Hs] Hc.
  destruct (sp_topology _ _ (evaluate_safe s config p Hcount Hp) _ Hs)
    as [Heq|(c' & Hc' & _ & Hnew & _)]; [exists c; split; [congruence|by left]|eauto].
Qed.

(** [C6] Along any run of reconciliations, over whatever snapshots, an accepted topology is never
    lost: later statuses have it, or one of the same data-loss number and a strictly newer
    configuration number. *)
Theorem accepted_epochs_never_regress status status' c :
  rtc reconciles status status' -> st_topology status = Some c ->
  exists c', st_topology status' = Some c' /\ (c' = c \/ newer_epoch c c').
Proof.
  intros Hrun. revert c. induction Hrun as [|x y z Hxy _ IH]; intros c Hc; [by eauto|].
  destruct (reconciles_topology _ _ _ Hxy Hc) as (c1 & Hc1 & Hnew).
  destruct (IH c1 Hc1) as (c2 & Hc2 & Hnew2). exists c2. split; [done|].
  destruct Hnew as [->|Hnew], Hnew2 as [->|Hnew2]; auto. right. by etrans.
Qed.

End plans.
