(* ===== verification/PartsTotality.v ===== *)
(** * The parts of the evaluator never panic

    The evaluator looks up what the validation of the snapshot has established: the
    topology and the policy of an initialized resource, the primary of a configuration, the
    intent of a transition, the resources of an uninitialized agent.  This file has what a
    validated status has ([established]) and shows that switchover, failover, replacement,
    bootstrap and scale-down reach their [expect]s only where the value is there. *)

From S2P Require Import Prelude Digest Types Intents Commands Observations Validation Quorums.
From S2P Require Import ScaleDown ScaleUp SnapshotValidation StatusFacts Totality EvaluatorBase.
From S2P Require Import EvaluatorSwitchover EvaluatorFailover EvaluatorScaleDown EvaluatorReplacement.
From S2P Require Import EvaluatorBootstrap EvaluatorExpansion EvaluatorCandidate EvaluatorAdmission.
From S2P Require Import Evaluator.
From stdpp Require Import base gmap strings list sorting pretty.
From Stdlib Require Import ZArith Lia.
Local Open Scope Z_scope.

Section facts.
Context `{Sha256}.

(** ** What a validated status has *)

Record established (st : AcceptedStatus) : Prop := {
  es_topology : forall c, st_topology st = Some c ->
    is_some (find_primary c) = true /\ is_some (named_primary c) = true /\
    exists p, st_effective_policy st = Some p /\ validate_configuration c (Some p) = Ok tt;
  es_initialized : st_initialized st = true -> is_some (st_topology st) = true;
  es_transition : forall t, st_transition st = Some t -> check_transition st t = Ok tt;
  es_current : forall t, st_transition st = Some t ->
    is_some (find_primary (ti_current_configuration t)) = true /\
    is_some (named_primary (ti_current_configuration t)) = true;
  es_provisioning : forall p, st_provisioning st = Some p ->
    is_some (st_topology st) = true /\ validate_scale_up_provisioning p = Ok tt;
  es_allocation : forall a, st_scale_up_allocation st = Some a -> check_allocation st a = Ok tt;
  es_cleanup : forall c, st_scale_up_cleanup st = Some c -> check_scale_up_cleanup st c = Ok tt;
  es_removal : forall c, st_secondary_scale_down_cleanup st = Some c ->
    check_removal_cleanup st c = Ok tt;
  es_pending_replacement : forall c, st_pending_replacement_cleanup st = Some c ->
    check_pending_replacement st c = Ok tt;
}.

Lemma checked_primaries c policy :
  validate_configuration c policy = Ok tt ->
  is_some (find_primary c) = true /\ is_some (named_primary c) = true.
Proof. eauto using checked_find_primary, checked_named_primary. Qed.

Lemma transition_primaries st t :
  check_transition st t = Ok tt ->
  is_some (find_primary (ti_current_configuration t)) = true /\
  is_some (named_primary (ti_current_configuration t)) = true.
Proof.
  unfold check_transition, check_scale_up_transition, validate_scale_up, check_scale_down_transition,
    validate_secondary_scale_down, check_carried_scale_up, validate_scale_up_failover_transition,
    validate_failover_configuration, check_ordinary_transition.
  intros Hok. destruct (ti_kind t); try destruct (ti_scale_up_failover t); guards;
    repeat match goal with H : ti_current_configuration t = _ |- _ => rewrite H; clear H end;
    eauto using checked_primaries.
Qed.

Lemma validated_established st : validate_status st = Ok tt -> established st.
Proof.
  intros Hok. unfold validate_status, validate_obligations, validate_failures in Hok. guards.
  assert (Htop : forall c, st_topology st = Some c -> exists p, st_effective_policy st = Some p /\
            validate_configuration c (Some p) = Ok tt).
  { intros c Hc. rename select (validate_initialization st = _) into Hi.
    destruct (initialized_policy _ _ Hi Hc) as [_ Hp].
    rename select (when_some (st_topology st) _ = _) into Hw.
    pose proof (when_some_ok _ _ _ Hw Hc) as Hv. cbv beta in Hv.
    destruct (st_effective_policy st) as [p|]; [|done]. eauto. }
  split; try (intros; eapply when_some_ok; [|eassumption]; assumption).
  - intros c Hc. destruct (Htop c Hc) as (p & Hp & Hv).
    destruct (checked_primaries _ _ Hv). eauto.
  - intros Hi. rename select (validate_initialization st = _) into Hv.
    unfold validate_initialization in Hv. rewrite Hi in Hv. by destruct (st_topology st).
  - intros t Ht. eapply transition_primaries, when_some_ok; eassumption.
  - intros p Hp. rename select (validate_status_provisioning st = _) into Hv.
    unfold validate_status_provisioning in Hv. rewrite Hp in Hv. guards.
    rename select (when_some (Some p) _ = _) into Hw. simpl in Hw. guards.
    split; [|done]. rename select (_ && _ = false) into Hb. simpl in Hb.
    by destruct (st_initialized st), (st_topology st).
Qed.

End facts.

Lemma configuration_primary_total c :
  is_some (find_primary c) = true -> configuration_primary c <> Panic.
Proof. apply expect_no_panic. Qed.

Lemma is_err_total {E A} (m : res E A) : m <> Panic -> is_err m <> Panic.
Proof. by destruct m. Qed.

Lemma opt_filter_inv {A} (f : A -> bool) o a : opt_filter f o = Some a -> o = Some a /\ f a = true.
Proof. destruct o as [b|]; simpl; [|done]. destruct (f b) eqn:?; naive_solver. Qed.

Lemma is_some_eq {A} (o : option A) a : o = Some a -> is_some o = true.
Proof. by intros ->. Qed.

#[export] Hint Resolve expect_no_panic configuration_primary_total is_err_total is_some_eq : no_panic.

Section parts.
Context `{Sha256, Texts}.
Variable config : EvaluationConfig.

(** ** Switchover *)

Lemma close_writers_total s status replicas :
  is_some (st_transition status) = true -> close_writers s status config replicas <> Panic.
Proof.
  intros Ht. induction replicas as [|[key o] rest IH]; simpl; [done|].
  no_panic; try done. apply configuration_primary_total.
  rename select (opt_filter _ _ = Some _) into Hf. apply opt_filter_inv in Hf as [_ Hf].
  unfold trusted_report in Hf. guards.
  rename select (ar_current_configuration _ = Some _) into Hc.
  rename select (is_some_and _ (ar_current_configuration _) = true) into Hv. rewrite Hc in Hv.
  simpl in Hv. guards. rename select (is_ok (validate_configuration _ None) = true) into Hok.
  destruct (validate_configuration _ None) as [[]| |] eqn:Hvalid; try done.
  by eapply checked_find_primary.
Qed.

Lemma update_switchover_total f status t i :
  st_transition status = Some t -> ti_switchover t = Some i -> update_switchover f status <> Panic.
Proof. intros Ht Hi. unfold update_switchover. by rewrite Ht; simpl; rewrite Hi. Qed.

Lemma switchover_unsafe_total s message : switchover_unsafe s message config <> Panic.
Proof.
  unfold switchover_unsafe, set_resolution. no_panic;
    rename select (st_transition _ ≫= ti_switchover = Some _) into Hi;
    apply bind_Some in Hi as (t & Ht & Hi).
  - by eapply update_switchover_total.
  - apply close_writers_total. by rewrite Ht.
Qed.
Hint Resolve switchover_unsafe_total : no_panic.

(** What a validated switchover names. *)
Record switching (s : ObservationSnapshot) (t : TransitionIntent) (starting : ConfigurationDescriptor)
    (i : PlannedSwitchoverIntent) : Prop := {
  sg_transition : st_transition (os_status s) = Some t;
  sg_intent : ti_switchover t = Some i;
  sg_topology : st_topology (os_status s) = Some starting;
  sg_primary : is_some (find_primary starting) = true;
  sg_current_primary : is_some (find_primary (ti_current_configuration t)) = true;
  sg_source : has_member starting (psi_source i) = true;
  sg_target : has_member starting (psi_target i) = true;
  sg_requested : exact_identities (psi_requested_configuration i) = exact_identities starting;
  sg_current : exact_identities (ti_current_configuration t) = exact_identities starting;
}.

Lemma has_member_identities c i : has_member c i = true <-> i ∈ exact_identities c.
Proof.
  unfold has_member. rewrite existsb_true, elem_of_exact_identities. split.
  - intros (m & Hm & Hi). guards. eauto.
  - intros (m & Hm & ->). exists m. by rewrite bool_decide_true.
Qed.

Lemma switchover_relationship previous current policy :
  validate_transition_relationship PlannedSwitchover (Some previous) current policy = Ok tt ->
  exact_identities previous = exact_identities current.
Proof.
  unfold validate_transition_relationship. simpl. intros Hok. by guards.
Qed.

Lemma switchover_established s t :
  established (os_status s) -> st_transition (os_status s) = Some t ->
  ti_kind t = PlannedSwitchover -> exists starting i, switching s t starting i.
Proof.
  intros Hes Ht Hk. pose proof (es_transition _ Hes t Ht) as Hok.
  destruct (es_current _ Hes t Ht) as [Hcp _].
  unfold check_transition in Hok. rewrite Hk in Hok.
  unfold check_ordinary_transition in Hok. rewrite Hk in Hok. guards.
  rename select (check_switchover_transition _ _ = _) into Hok.
  unfold check_switchover_transition in Hok. rewrite Hk in Hok. guards.
  rename select (validate_transition_relationship _ _ _ _ = _) into Hreq.
  apply switchover_relationship in Hreq.
  eexists _, _. split; try eassumption.
  - by eapply es_topology.
  - unfold has_member. apply existsb_true.
    rename select (named_primary _ = Some _) into Hn. unfold named_primary in Hn.
    apply List.find_some in Hn as [Hn _]. apply list_elem_of_In in Hn.
    eexists. split; [exact Hn|]. by apply bool_decide_eq_true.
  - by rewrite Hreq.
  - rename select (check_switchover_resolution _ _ = _) into Hres.
    unfold check_switchover_resolution in Hres. rewrite Hk in Hres. rewrite Hreq.
    repeat case_match; guards;
      repeat match goal with
      | H : validate_transition_relationship PlannedSwitchover _ _ _ = Ok _ |- _ =>
          apply switchover_relationship in H
      end; congruence.
Qed.

Section switchover.
Variables (s : ObservationSnapshot) (t : TransitionIntent) (starting : ConfigurationDescriptor)
  (i : PlannedSwitchoverIntent).
Hypothesis Hsw : switching s t starting i.

Lemma find_source c :
  exact_identities c = exact_identities starting -> is_some (find_member (psi_source i) c) = true.
Proof.
  intros Hc. apply find_member_is_some, has_member_identities. rewrite Hc.
  by apply has_member_identities, Hsw.
Qed.

Lemma set_resolution_total r : set_resolution r (os_status s) <> Panic.
Proof. eapply update_switchover_total; apply Hsw. Qed.

Lemma restoration_command_total h p : restoration_command t starting h p <> Panic.
Proof. unfold restoration_command. no_panic. apply configuration_primary_total, Hsw. Qed.

Lemma restore_source_total source : restore_source s t i starting source config <> Panic.
Proof.
  unfold restore_source. no_panic; auto using set_resolution_total, restoration_command_total.
Qed.

Lemma compensate_source_total source : compensate_source s t i starting source config <> Panic.
Proof.
  unfold compensate_source. no_panic; auto using set_resolution_total.
  - apply expect_no_panic, find_source, Hsw.
  - rename select (set_resolution _ _ = Ok _) into Hset. unfold set_resolution, update_switchover in Hset.
    guards. simplify_eq. done.
Qed.

Lemma recover_switchover_total : recover_switchover s t config <> Panic.
Proof.
  unfold recover_switchover. rewrite (sg_intent _ _ _ _ Hsw), (sg_topology _ _ _ _ Hsw). simpl.
  no_panic; auto using compensate_source_total, restore_source_total.
Qed.

(** The members report under their own identity. *)
Hypothesis Hexact : forall m r, m ∈ cd_members (ti_current_configuration t) ->
  report_for s (cm_identity m) = Some r -> ar_identity r = cm_identity m.

Lemma exact_report_is_some m r :
  m ∈ cd_members (ti_current_configuration t) -> report_for s (cm_identity m) = Some r ->
  is_some (exact_report s (cm_identity m)) = true.
Proof.
  intros Hm Hr. unfold exact_report. rewrite Hr. simpl. by rewrite bool_decide_true by auto.
Qed.

Lemma healthy_report_for j r : healthy_report s j = Some r -> report_for s j = Some r.
Proof.
  unfold healthy_report, report_for. intros (o & -> & Hr)%bind_Some. simpl.
  case_match; [|done]. by apply opt_filter_inv in Hr as [? _].
Qed.

Lemma install_joint_reports status compensating primary previous ordered reports started result :
  Forall (.∈ cd_members (ti_current_configuration t)) ordered ->
  install_joint s status t compensating primary previous ordered reports started config
    = Ok (inr result) ->
  Forall (fun m => left_behind s compensating primary m = false ->
            is_some (exact_report s (cm_identity m)) = true) ordered.
Proof.
  intros Hin. revert reports started. induction Hin as [|m ordered Hm _ IH]; intros reports started;
    simpl; [done|]. intros Hok. apply Forall_cons.
  destruct (left_behind s compensating primary m) eqn:Hl; [split; [done|]; by eapply IH|].
  destruct (if _ : bool then _ else _) as [r|] eqn:Hr; [|done].
  assert (is_some (exact_report s (cm_identity m)) = true).
  { destruct (compensating && _); [by rewrite Hr|]. apply healthy_report_for in Hr.
    by eapply exact_report_is_some. }
  split; [done|]. destruct (holds_current_only _ r); [by eapply IH|].
  destruct (negb (switchover_member_complete _ _ _ _ _)); [by guards|]. by eapply IH.
Qed.

Lemma switchover_command_total previous m current_only h :
  psi_handoff i = Some h -> switchover_configuration_command t previous m current_only <> Panic.
Proof.
  intros Hh. unfold switchover_configuration_command. rewrite (sg_intent _ _ _ _ Hsw). simpl.
  by rewrite Hh.
Qed.

Lemma install_joint_total status compensating primary previous ordered reports started h :
  psi_handoff i = Some h ->
  install_joint s status t compensating primary previous ordered reports started config <> Panic.
Proof.
  intros Hh. revert reports started. induction ordered as [|m ordered IH]; intros; simpl; [done|].
  no_panic; eauto using switchover_command_total.
Qed.

Lemma install_current_only_total compensating primary previous ordered h :
  psi_handoff i = Some h ->
  Forall (fun m => left_behind s compensating primary m = false ->
            is_some (exact_report s (cm_identity m)) = true) ordered ->
  install_current_only s t compensating primary previous ordered <> Panic.
Proof.
  intros Hh. induction 1 as [|m ordered Hm _ IH]; simpl; [done|].
  no_panic; eauto using switchover_command_total.
Qed.

Lemma switchover_order_members target :
  configuration_primary (ti_current_configuration t) = Ok target ->
  Forall (.∈ cd_members (ti_current_configuration t))
    (switchover_order (ti_current_configuration t) target (psi_source i)).
Proof.
  intros Ht. unfold configuration_primary in Ht. apply expect_ok in Ht. unfold find_primary in Ht.
  apply List.find_some in Ht as [Ht _]. apply list_elem_of_In in Ht.
  apply Forall_forall. unfold switchover_order. intros m.
  rewrite !elem_of_app, !sort_by_key_perm, list_elem_of_singleton, !elem_of_filterb. naive_solver.
Qed.

Lemma install_switchover_total status handoff compensating source_report :
  psi_handoff i = Some handoff ->
  install_switchover s status t i handoff compensating starting
    (if compensating then psi_requested_configuration i else starting) source_report config <> Panic.
Proof.
  intros Hh. unfold install_switchover. no_panic; eauto using install_joint_total;
    try (apply expect_no_panic, find_source; apply Hsw).
  - apply configuration_primary_total, Hsw.
  - destruct compensating; [done|]. apply expect_no_panic, find_member_is_some, Hsw.
  - eapply install_current_only_total; [done|]. eapply install_joint_reports; [|eassumption].
    by apply switchover_order_members.
Qed.

Lemma prepare_source_total status source previous source_report :
  st_transition status = Some t ->
  prepare_source s status i source starting previous source_report config <> Panic.
Proof.
  intros Ht. unfold prepare_source. no_panic; auto using switchover_unsafe_total.
  eapply update_switchover_total; [done|apply Hsw].
Qed.

End switchover.

Lemma missing_participant_total s status starting :
  missing_participant s status starting config <> Panic.
Proof. unfold missing_participant. no_panic. Qed.

Lemma project_switchover_transition s status :
  st_transition (project_switchover_request s status) = st_transition status.
Proof. unfold project_switchover_request. repeat case_match; reflexivity. Qed.

Lemma evaluate_switchover_total s t :
  established (os_status s) -> st_transition (os_status s) = Some t -> ti_kind t = PlannedSwitchover ->
  (forall m r, m ∈ cd_members (ti_current_configuration t) ->
     report_for s (cm_identity m) = Some r -> ar_identity r = cm_identity m) ->
  evaluate_switchover s t config <> Panic.
Proof.
  intros Hes Ht Hk Hexact. destruct (switchover_established s t Hes Ht Hk) as (starting & i & Hsw).
  unfold evaluate_switchover. rewrite (sg_intent _ _ _ _ Hsw), (sg_topology _ _ _ _ Hsw). simpl.
  no_panic; eauto using recover_switchover_total, missing_participant_total, install_switchover_total.
  - apply configuration_primary_total, Hsw.
  - eapply prepare_source_total; [done|].
    rewrite <-Ht, <-(project_switchover_transition s (os_status s)). by destruct (snd (desired_spec_state _ _ _)).
Qed.

Section established.
Variable s : ObservationSnapshot.
Hypothesis Hes : established (os_status s).

Lemma topology_primary c : st_topology (os_status s) = Some c -> is_some (find_primary c) = true.
Proof. intros Hc. by apply (es_topology _ Hes). Qed.
Lemma topology_named c : st_topology (os_status s) = Some c -> is_some (named_primary c) = true.
Proof. intros Hc. by apply (es_topology _ Hes). Qed.
Lemma topology_policy c :
  st_topology (os_status s) = Some c -> is_some (st_effective_policy (os_status s)) = true.
Proof. intros Hc. by destruct (es_topology _ Hes c Hc) as (_ & _ & p & -> & _). Qed.
Lemma current_primary t :
  st_transition (os_status s) = Some t -> is_some (find_primary (ti_current_configuration t)) = true.
Proof. intros Ht. by apply (es_current _ Hes). Qed.
Lemma current_named t :
  st_transition (os_status s) = Some t -> is_some (named_primary (ti_current_configuration t)) = true.
Proof. intros Ht. by apply (es_current _ Hes). Qed.
Lemma topology_of t :
  st_transition (os_status s) = Some t -> ti_kind t <> Bootstrap ->
  is_some (st_topology (os_status s)) = true.
Proof. intros Ht. by apply transition_topology, (es_transition _ Hes). Qed.
Hint Resolve topology_primary topology_named topology_policy current_primary current_named
  : no_panic.

(** ** Failover and replacement *)

Lemma begin_failover_total status accepted basis generation build abandoned pending :
  st_topology (os_status s) = Some accepted -> is_some (find_primary basis) = true ->
  begin_failover s status accepted basis generation build abandoned pending config <> Panic.
Proof. intros Htop Hb. unfold begin_failover. no_panic. Qed.

Lemma stable_failover_total status :
  is_some (st_topology (os_status s)) = true ->
  maybe_begin_stable_failover s status config <> Panic.
Proof.
  intros Htop. unfold maybe_begin_stable_failover.
  destruct (st_topology (os_status s)) as [c|] eqn:Hc; [|done].
  apply begin_failover_total; auto with no_panic.
Qed.

Lemma failover_over_total t status :
  st_transition (os_status s) = Some t -> ti_kind t <> Bootstrap ->
  maybe_begin_failover s (Some t) status config <> Panic.
Proof.
  intros Ht Hk. unfold maybe_begin_failover. pose proof (topology_of t Ht Hk).
  destruct (st_topology (os_status s)) as [c|] eqn:Hc; [|done].
  apply begin_failover_total; simpl; auto with no_panic.
Qed.

Lemma failover_repair_target t repair :
  st_transition (os_status s) = Some t -> ti_kind t = Failover -> ti_scale_up_failover t = None ->
  ti_repair t = Some repair ->
  has_member (ti_current_configuration t) (rri_target repair) = true.
Proof.
  intros Ht Hk Hcarried Hr. pose proof (es_transition _ Hes t Ht) as Hok.
  unfold check_transition in Hok. rewrite Hk, Hcarried in Hok.
  unfold check_ordinary_transition in Hok. rewrite Hk in Hok. guards.
  rename select (check_successor_transition _ _ = _) into Hok.
  unfold check_successor_transition in Hok. rewrite Hk, Hr in Hok. simpl in Hok. guards.
  rename select (existsb _ _ = true) into Hex. apply existsb_true in Hex as (m & Hm & He). guards.
  unfold has_member. apply existsb_true. exists m. by rewrite bool_decide_true.
Qed.

Lemma failover_repair_total t previous primary primary_report reports status :
  st_transition (os_status s) = Some t -> ti_kind t = Failover -> ti_scale_up_failover t = None ->
  evaluate_failover_repair s t previous (ti_current_configuration t) primary primary_report reports
    status <> Panic.
Proof.
  intros Ht Hk Hcarried. unfold evaluate_failover_repair.
  destruct (ti_repair t) as [repair|] eqn:Hr; simpl.
  - destruct (ar_catch_up_capability primary_report); simpl; no_panic.
    apply expect_no_panic, find_member_is_some. by apply failover_repair_target.
  - no_panic.
Qed.

Lemma failover_transition_total t status :
  st_transition (os_status s) = Some t -> ti_kind t = Failover -> ti_scale_up_failover t = None ->
  evaluate_failover_transition s t status config <> Panic.
Proof.
  intros Ht Hk Hcarried. assert (Htop : is_some (st_topology (os_status s)) = true)
    by (apply (topology_of t); [done|congruence]).
  unfold evaluate_failover_transition, elect. no_panic; auto using failover_repair_total.
Qed.

Lemma exact_scaffolding_total o :
  is_some_and (fun k => has_exact_scaffolding k && ko_peer_endpoint_ready k) (ro_kubernetes o) = true ->
  exact_scaffolding o <> Panic.
Proof.
  unfold exact_scaffolding, has_exact_scaffolding. destruct (ro_kubernetes o) as [k|]; [|done].
  simpl. intros Hk. guards. destruct (ko_pod_uid k), (ko_pvc_uid k); done.
Qed.

Lemma fresh_scaffolding_total failed key o :
  fresh_candidate s failed = Some (key, o) -> exact_scaffolding o <> Panic.
Proof.
  unfold fresh_candidate. intros [_ Hf]%List.find_some. guards. by apply exact_scaffolding_total.
Qed.

Lemma admit_cleanup_total target : admit_cleanup s target config <> Panic.
Proof. unfold admit_cleanup. no_panic. apply is_err_total, validate_status_total. Qed.

Lemma provisioning_step_total p :
  st_provisioning (os_status s) = Some p -> evaluate_provisioning s p config <> Panic.
Proof.
  intros Hp. destruct (es_provisioning _ Hes p Hp) as [Htop _].
  unfold evaluate_provisioning, initialize_provisioned, build_provisioned, begin_replacement.
  destruct (st_topology (os_status s)) as [c|] eqn:Hc; [simpl|done].
  no_panic; eauto with no_panic.
Qed.

Lemma replacement_transition_total t status :
  st_transition (os_status s) = Some t -> ti_kind t <> Bootstrap ->
  evaluate_replacement_transition s t status config <> Panic.
Proof.
  intros Ht Hk. pose proof (topology_of t Ht Hk). unfold evaluate_replacement_transition. no_panic.
Qed.

(** ** Bootstrap *)

Lemma genesis_members_total primary ids :
  forallb (fun id => is_some_and has_exact_scaffolding (scaffolding_for s id)) ids = true ->
  genesis_members s primary ids <> Panic.
Proof.
  induction ids as [|id ids IH]; simpl; [done|]. intros [Hid Hids]%andb_true_iff.
  apply is_some_and_true in Hid as (k & -> & Hk). unfold has_exact_scaffolding in Hk. guards. simpl.
  no_panic.
Qed.

Lemma never_initialized_total :
  0 <= ds_replicas (os_desired s) -> evaluate_never_initialized s config <> Panic.
Proof.
  intros Hn. unfold evaluate_never_initialized, begin_bootstrap. no_panic.
  - rename select (policy_fixed _ _ = Some _) into Hp. unfold policy_fixed in Hp.
    destruct (Z.eqb_spec (ds_replicas (os_desired s)) 0) as [|Hne]; [done|].
    unfold intended_replica_ids. destruct (Z.to_nat (ds_replicas (os_desired s))) eqn:Hz; [lia|done].
  - apply genesis_members_total. rename select (negb (has_complete_scaffolding s) = false) into Hc.
    by guards.
Qed.

Hypothesis Hscaffolded : forall key o u, os_replicas s !! key = Some o ->
  ro_agent o = AgentUninitialized u -> is_some_and has_exact_scaffolding (ro_kubernetes o) = true.

Lemma supersession_total t status : evaluate_bootstrap_supersession s t status config <> Panic.
Proof. unfold evaluate_bootstrap_supersession. no_panic. by eapply fresh_scaffolding_total. Qed.

Lemma initialization_command_total m o :
  is_some (st_transition (os_status s)) = true -> observation_for_identity s (cm_identity m) = Some o ->
  bootstrap_initialization_command s m o <> Panic.
Proof.
  intros Ht Ho. unfold bootstrap_initialization_command.
  destruct (ro_agent o) as [|u| | |] eqn:Ha; try (no_panic; fail).
  pose proof (Hscaffolded _ _ _ Ho Ha) as (k & Hk & Hu)%is_some_and_true.
  unfold has_exact_scaffolding in Hu. guards. rewrite Hk. simpl. no_panic.
Qed.

Lemma contradictory_member_total members :
  is_some (st_transition (os_status s)) = true -> contradictory_member s members <> Panic.
Proof.
  intros Ht. induction members as [|m members IH]; simpl; no_panic; auto.
  exfalso. by eapply initialization_command_total.
Qed.

Lemma install_genesis_total t status installed members :
  is_some (st_transition (os_status s)) = true -> contradictory_member s members = Ok None ->
  install_genesis s t status installed members config <> Panic.
Proof.
  intros Ht. revert installed. induction members as [|m members IH]; intros installed; simpl; [done|].
  destruct (observation_for_identity s (cm_identity m)) as [o|] eqn:Ho; [|done].
  pose proof (initialization_command_total m o Ht Ho).
  destruct (bootstrap_initialization_command s m o) as [command| |]; [|done..].
  intros Hc. no_panic.
Qed.

Lemma bootstrap_total t status :
  st_transition (os_status s) = Some t -> evaluate_bootstrap s t status config <> Panic.
Proof.
  intros Ht. assert (is_some (st_transition (os_status s)) = true) by by rewrite Ht.
  unfold evaluate_bootstrap. no_panic;
    auto using supersession_total, contradictory_member_total, install_genesis_total.
Qed.

(** ** Secondary scale-down *)

Lemma drift_status_total status :
  is_some (st_topology status) = true -> is_some (st_effective_policy status) = true ->
  drift_status s status <> Panic.
Proof. intros Ht Hp. unfold drift_status. no_panic. Qed.

(** The transition survives the drift of the specification. *)
Lemma drift_status_transition status status' :
  drift_status s status = Ok status' ->
  st_transition status' = st_transition status /\
  st_secondary_scale_down_cleanup status' = st_secondary_scale_down_cleanup status.
Proof. unfold drift_status. intros Hd. guards. repeat case_match; simplify_eq; done. Qed.

Lemma scale_down_begin_total status :
  0 < ds_replicas (os_desired s) -> st_topology status = st_topology (os_status s) ->
  scale_down_begin s status config <> Panic.
Proof.
  intros Hn Htop. unfold scale_down_begin, admit_removal.
  destruct (st_topology status) as [c|] eqn:Hc; [|done].
  destruct (st_effective_policy status) as [policy|] eqn:Hp; [|done].
  symmetry in Htop. no_panic.
  - apply drift_status_total; [by rewrite Hc|by rewrite Hp].
  - guards. unfold policy_fixed. destruct (Z.eqb_spec (replica_set_size policy - 1) 0); [lia|done].
  - exfalso. by eapply validate_secondary_scale_down_no_panic.
Qed.

Lemma removal_transition_total t :
  st_transition (os_status s) = Some t -> ti_kind t = SecondaryScaleDown ->
  scale_down_transition s t config <> Panic.
Proof.
  intros Ht Hk. pose proof (es_transition _ Hes t Ht) as Hok. unfold check_transition in Hok.
  rewrite Hk in Hok. unfold check_scale_down_transition in Hok. guards.
  unfold scale_down_transition, prepare_removal, collect_reduced, commit_removal,
    set_removal_evidence.
  assert (Hset : forall status, drift_status s (os_status s) = Ok status ->
            is_some (st_transition status) = true)
    by (intros status [-> _]%drift_status_transition; by rewrite Ht).
  no_panic; eauto using drift_status_total with no_panic.
Qed.

Lemma retire_target_total status c exact :
  is_some (st_secondary_scale_down_cleanup status) = true ->
  retire_target s status c exact config <> Panic.
Proof. intros Hc. unfold retire_target. no_panic. Qed.

Lemma removal_cleanup_total c :
  st_secondary_scale_down_cleanup (os_status s) = Some c -> scale_down_cleanup s c config <> Panic.
Proof.
  intros Hc. pose proof (es_removal _ Hes c Hc) as Hok. unfold check_removal_cleanup in Hok. guards.
  rename select (st_topology _ = Some _) into Htop. pose proof (topology_primary _ Htop).
  unfold scale_down_cleanup, delete_target. no_panic; eauto using drift_status_total with no_panic.
  apply retire_target_total. rename select (drift_status _ _ = Ok _) into Hd.
  apply drift_status_transition in Hd as [_ ->]. by rewrite Hc.
Qed.

End established.

End parts.

#[export] Hint Resolve switchover_unsafe_total topology_primary topology_named topology_policy
  current_primary current_named : no_panic.
