(* ===== verification/EvaluatorTotality.v ===== *)
(** * The evaluator never panics

    The steps of a scale-up, the corrections and the dispatch, put together with the parts:
    whatever snapshot is observed, [evaluate] returns a plan. *)

From S2P Require Import Prelude Digest Types Intents Commands Observations Validation Quorums.
From S2P Require Import ScaleDown ScaleUp SnapshotValidation StatusFacts Totality EvaluatorBase.
From S2P Require Import EvaluatorSwitchover EvaluatorFailover EvaluatorScaleDown EvaluatorReplacement.
From S2P Require Import EvaluatorBootstrap EvaluatorExpansion EvaluatorCandidate EvaluatorAdmission.
From S2P Require Import Evaluator PartsTotality.
From stdpp Require Import base gmap strings list sorting pretty.
From Stdlib Require Import ZArith Lia.
Local Open Scope Z_scope.

Section scale_up.
Context `{Sha256, Texts}.
Variables (config : EvaluationConfig) (s : ObservationSnapshot).
Hypothesis Hes : established (os_status s).
Hint Extern 1 (established _) => exact Hes : no_panic.

(** ** Candidates *)

Lemma restore_service_total accepted policy target attempt phase :
  is_some (find_primary accepted) = true ->
  restore_accepted_service_before_cleanup s accepted policy target attempt phase config <> Panic.
Proof. intros Hp. unfold restore_accepted_service_before_cleanup. no_panic. Qed.

Lemma freeze_cleanup_total p status reason failed :
  freeze_cleanup s p status reason failed config <> Panic.
Proof.
  unfold freeze_cleanup. no_panic. exfalso. by eapply scale_up_cleanup_total.
Qed.

(** A scale-up candidate was provisioned from a configuration with a primary. *)
Lemma provisioned_source p u :
  validate_scale_up_provisioning p = Ok tt -> pi_scale_up p = Some u ->
  is_some (find_primary (sup_previous_configuration u)) = true.
Proof.
  unfold validate_scale_up_provisioning, validate_scale_up_provisioning_request. intros Hok Hu.
  rewrite Hu in Hok. guards. by eapply checked_find_primary.
Qed.

Lemma build_id_is_some p u resource :
  pi_scale_up p = Some u -> is_some (pi_scale_up_build_id p resource) = true.
Proof. unfold pi_scale_up_build_id. by intros ->. Qed.

Lemma cleanup_retirement_total c accepted :
  st_scale_up_cleanup (os_status s) = Some c ->
  cleanup_source_build_retirement s c accepted config <> Panic.
Proof.
  intros Hc. pose proof (es_cleanup _ Hes c Hc) as Hok.
  unfold check_scale_up_cleanup, validate_scale_up_cleanup in Hok. guards.
  unfold cleanup_source_build_retirement. rename select (pi_scale_up _ = Some _) into Hu.
  rewrite Hu. simpl. no_panic; eauto using provisioned_source, build_id_is_some with no_panic.
Qed.

Lemma scale_up_cleanup_step_total c :
  st_scale_up_cleanup (os_status s) = Some c -> scale_up_cleanup s c config <> Panic.
Proof.
  intros Hc. pose proof (es_cleanup _ Hes c Hc) as Hok. unfold check_scale_up_cleanup, keeps_members in Hok.
  guards. rename select (is_some_and _ (st_topology _) = true) into Htop.
  apply is_some_and_true in Htop as (topology & Htop & _).
  unfold scale_up_cleanup, delete_candidate, complete_cleanup. rewrite Htop. simpl.
  no_panic; eauto using stable_failover_total, cleanup_retirement_total, restore_service_total with no_panic.
Qed.

(** *** Allocation *)

Section allocation.
Variable a : ScaleUpAllocation.
Hypothesis Ha : st_scale_up_allocation (os_status s) = Some a.

Lemma allocation_authority :
  exists c policy size, st_topology (os_status s) = Some c /\
    st_effective_policy (os_status s) = Some policy /\
    u32_checked_add (replica_set_size policy) 1 = Some size /\ 0 < size.
Proof.
  pose proof (es_allocation _ Hes a Ha) as Hok. unfold check_allocation in Hok. guards.
  rename select (expected_allocation_target _ = Some _) into Ht. unfold expected_allocation_target in Ht.
  apply bind_Some in Ht as (c & Hc & (p & Hp & (size & Hsize & _)%bind_Some)%bind_Some).
  exists c, p, size. split_and!; try done.
  destruct (es_topology _ Hes c Hc) as (_ & _ & p' & Hp' & Hv). simplify_eq.
  apply configuration_checks_ok in Hv as (_ & _ & _ & _ & _ & _ & _ & m & _ & _ & q & Hq & Hlen & _).
  simpl in Hq. simplify_eq. unfold u32_checked_add in Hsize. case_match; simplify_eq.
  pose proof (Z.mod_pos_bound (Z.of_nat (length (cd_members c))) (2 ^ 32)). unfold as_u32 in Hlen. lia.
Qed.

Lemma update_allocation_total f reason phase blocking :
  update_allocation s a f reason phase blocking <> Panic.
Proof. unfold update_allocation. by rewrite Ha. Qed.

Lemma retry_allocation_total :
  retry_or_complete_allocation_cleanup s a (os_status s) <> Panic.
Proof.
  destruct allocation_authority as (c & p & size & _ & Hp & _).
  unfold retry_or_complete_allocation_cleanup. rewrite Hp. simpl. no_panic.
Qed.

Lemma promote_allocation_total previous policy pod :
  st_effective_policy (os_status s) = Some policy -> is_some (sua_pvc_uid a) = true ->
  promote_allocation s a previous policy pod <> Panic.
Proof.
  intros Hp Hpvc. destruct allocation_authority as (c & p & size & _ & Hp' & Hsize & Hpos).
  simplify_eq. unfold promote_allocation. rewrite Hsize. simpl. no_panic.
  unfold policy_fixed. destruct (Z.eqb_spec size 0); [lia|done].
Qed.

Lemma observe_allocation_total previous policy :
  st_effective_policy (os_status s) = Some policy ->
  observe_allocation s a previous policy config <> Panic.
Proof.
  intros Hp. unfold observe_allocation, freeze_volume, request_volume, bind_pod, without_pod,
    clean_allocation, delete_or_wait.
  no_panic; eauto using update_allocation_total, retry_allocation_total, promote_allocation_total
    with no_panic.
Qed.

Lemma allocation_step_total : evaluate_allocation s a config <> Panic.
Proof.
  destruct allocation_authority as (c & p & size & Hc & Hp & _).
  unfold evaluate_allocation. rewrite Hc, Hp. simpl.
  no_panic; eauto using update_allocation_total, stable_failover_total, restore_service_total,
    observe_allocation_total with no_panic.
Qed.

End allocation.

(** *** Provisioning *)

Lemma arbitrate_failover_total status target attempt blocking :
  is_some (st_topology (os_status s)) = true ->
  arbitrate_failover s status target attempt blocking config <> Panic.
Proof. intros Htop. unfold arbitrate_failover. no_panic. by apply stable_failover_total. Qed.

Lemma begin_scale_up_total status u primary target build source boundary :
  begin_scale_up s status u primary target build source boundary config <> Panic.
Proof. unfold begin_scale_up. no_panic. exfalso. by eapply validate_scale_up_no_panic. Qed.

Lemma copy_candidate_total p u status primary target build source r :
  copy_candidate s p u status primary target build source r config <> Panic.
Proof.
  unfold copy_candidate, copy_missing, copy_propagating, copy_exact.
  no_panic; auto using freeze_cleanup_total, begin_scale_up_total.
Qed.

Lemma scale_up_provisioning_total p :
  st_provisioning (os_status s) = Some p -> is_some (pi_scale_up p) = true ->
  evaluate_scale_up_provisioning s p config <> Panic.
Proof.
  intros Hp Hu. destruct (es_provisioning _ Hes p Hp) as [Htop _].
  destruct (pi_scale_up p) as [u|] eqn:Hu'; [|done].
  destruct (st_topology (os_status s)) as [c|] eqn:Hc; [|done].
  unfold evaluate_scale_up_provisioning, provision_report. rewrite Hu', Hc. simpl.
  no_panic; eauto using arbitrate_failover_total, restore_service_total, freeze_cleanup_total,
    copy_candidate_total, build_id_is_some with no_panic.
Qed.

(** ** The scale-up transition *)

Section transition.
Variable t : TransitionIntent.
Hypothesis Ht : st_transition (os_status s) = Some t.

(** It is an admission, or a failover that carries one; both start from the topology. *)
Lemma scale_up_authority e :
  or_else (Admission <$> ti_scale_up t) (FailoverEvidence <$> ti_scale_up_failover t) = Some e ->
  st_topology (os_status s) = Some (sui_previous_configuration (evidence_intent e)) /\
  (ti_kind t = Failover -> is_some (ti_scale_up_failover t) = true).
Proof.
  intros He. pose proof (es_transition _ Hes t Ht) as Hok.
  unfold check_transition, check_scale_up_transition, check_carried_scale_up, check_scale_down_transition,
    check_ordinary_transition in Hok.
  destruct (ti_kind t), (ti_scale_up_failover t), (ti_scale_up t); guards; by simplify_eq/=.
Qed.

Lemma begin_carried_total i : begin_carried_failover s t i config <> Panic.
Proof.
  unfold begin_carried_failover. no_panic. exfalso. by eapply failover_evidence_no_panic.
Qed.

Lemma persist_election_total i candidate safe number previous current :
  is_some (ti_scale_up_failover t) = true ->
  persist_election s t i candidate safe number previous current config <> Panic.
Proof.
  intros Hf. unfold persist_election. no_panic. exfalso. by eapply failover_evidence_no_panic.
Qed.

(** A fenced report says at which LSN it was deactivated. *)
Lemma fenced_deactivated i current eligible r :
  r ∈ fenced_failover_reports s i current eligible -> is_some (ar_deactivated_lsn r) = true.
Proof.
  unfold fenced_failover_reports. intros (m & _ & [_ Hf]%opt_filter_inv)%list_elem_of_omap.
  unfold exact_fenced_pc_cc_report, fenced_at in Hf. by guards.
Qed.

Lemma max_by_elem {A} (order : A -> A -> comparison) l x : max_by order l = Some x -> x ∈ l.
Proof.
  unfold max_by. revert x. induction l as [|y l IH] using rev_ind; [done|]. intros x.
  rewrite fold_left_app. simpl. rewrite elem_of_app, list_elem_of_singleton.
  destruct (fold_left _ l None) as [z|]; [|naive_solver]. case_match; naive_solver.
Qed.

Lemma finalize_total i :
  is_some (ti_scale_up_failover t) = true -> finalize_fenced_failover s t i config <> Panic.
Proof.
  intros Hf. unfold finalize_fenced_failover. no_panic; auto using persist_election_total.
  rename select (max_by _ _ = Some _) into Hmax. apply max_by_elem in Hmax.
  apply elem_of_filterb in Hmax as [Hmax _]. apply expect_no_panic. by eapply fenced_deactivated.
Qed.

Variables (e : ScaleUpConfigurationEvidence) (p : ProvisioningIntent).
Hypothesis He : or_else (Admission <$> ti_scale_up t) (FailoverEvidence <$> ti_scale_up_failover t)
                = Some e.

Lemma before_admission_total : before_admission s t e p config <> Panic.
Proof.
  destruct (scale_up_authority e He) as [Htop _]. unfold before_admission.
  no_panic; eauto using arbitrate_failover_total, begin_carried_total, restore_service_total,
    freeze_cleanup_total with no_panic.
Qed.

Lemma install_participants_total recovering primary members :
  install_participants s t e p config recovering primary members <> Panic.
Proof.
  induction members as [|m members IH]; simpl; [done|]. unfold install_participant.
  no_panic; auto using freeze_cleanup_total.
Qed.

Lemma joint_phase_total recovering primary : joint_phase s t e p config recovering primary <> Panic.
Proof.
  destruct (scale_up_authority e He) as [_ Hf]. unfold joint_phase, joint_quorum.
  no_panic; auto using install_participants_total, begin_carried_total.
  - guards. auto using finalize_total.
  - rename select (_ && is_none (ti_election_lsn t) = false) into Hn.
    by destruct (ti_election_lsn t).
Qed.

Lemma drive_scale_up_total : drive_scale_up s t e p config <> Panic.
Proof.
  unfold drive_scale_up, commit_scale_up.
  no_panic; eauto using before_admission_total, joint_phase_total with no_panic.
  exfalso. by eapply scale_up_receipt_total.
Qed.

End transition.

Lemma scale_up_transition_total t :
  st_transition (os_status s) = Some t ->
  is_some (ti_scale_up t) || is_some (ti_scale_up_failover t) = true ->
  scale_up_transition s t config <> Panic.
Proof.
  intros Ht Hs. unfold scale_up_transition.
  destruct (or_else (Admission <$> ti_scale_up t) _) as [e|] eqn:He; simpl.
  - no_panic. by apply drive_scale_up_total.
  - by destruct (ti_scale_up t), (ti_scale_up_failover t).
Qed.

End scale_up.

(** ** What an admitted snapshot has *)

Section admission.
Context `{Sha256, Texts}.
Variable config : EvaluationConfig.

(** A replica that reports is a member of the accepted topology, by its own identity. *)
Definition corrected (s : ObservationSnapshot) (i : ReplicaIdentity) : Prop :=
  exists r, report_for s i = Some r /\ ar_identity r = i /\
    ((exists c, st_topology (os_status s) = Some c /\ has_member c i = true) \/
     is_some (st_transition (os_status s) ≫= ti_scale_up_failover) = true).

Record admissible (s : ObservationSnapshot) : Prop := {
  am_status : validate_status (os_status s) = Ok tt;
  am_desired : ds_replicas (os_desired s) <> 0 \/ is_some (st_transition (os_status s)) = true \/
               is_some (st_secondary_scale_down_cleanup (os_status s)) = true;
  am_observed : forall key o, os_replicas s !! key = Some o ->
    validate_observation s (key, o) = Ok tt \/ exists i, key = identity_key i /\ corrected s i;
}.

Lemma snapshot_checks s :
  validate_snapshot s = Ok tt ->
  validate_status (os_status s) = Ok tt /\
  (ds_replicas (os_desired s) <> 0 \/ is_some (st_transition (os_status s)) = true \/
   is_some (st_secondary_scale_down_cleanup (os_status s)) = true) /\
  (forall key o, os_replicas s !! key = Some o -> validate_observation s (key, o) = Ok tt).
Proof.
  unfold validate_snapshot. intros Hok. guards. split_and!; [done| |].
  - rename select (_ && _ = false) into Hd.
    destruct (decide (ds_replicas (os_desired s) = 0)) as [Hz|]; [right|by left].
    rewrite bool_decide_true in Hd by done.
    destruct (st_transition (os_status s)), (st_secondary_scale_down_cleanup (os_status s)); auto.
  - intros key o Ho. rename select (for_each _ _ = _) into Hall. rewrite for_each_ok, Forall_forall in Hall.
    by apply Hall, elem_of_replicas_in_order.
Qed.

(** The validation of one observation does not look at the others. *)
Lemma validate_observation_ext s replicas entry :
  validate_observation (s <| os_replicas := replicas |>) entry = validate_observation s entry.
Proof. by destruct entry as [key [k [| | | |]]]. Qed.

Lemma hide_corrections_replicas s replicas identities s' :
  hide_corrections s (s <| os_replicas := replicas |>) identities = Ok s' ->
  exists replicas', s' = s <| os_replicas := replicas' |> /\
    forall key, (forall i, i ∈ identities -> key <> identity_key i) ->
      replicas' !! key = replicas !! key.
Proof.
  revert replicas. induction identities as [|i identities IH]; simpl; intros replicas Hh.
  - simplify_eq. eauto.
  - guards. rename select (hide_corrections _ _ _ = _) into Hh.
    apply (IH (<[identity_key i := _]> replicas)) in Hh as (replicas' & -> & Hsame).
    exists replicas'. split; [done|]. intros key Hkey. rewrite Hsame by set_solver.
    apply lookup_insert_ne. intros Heq. by eapply (Hkey i); [left|].
Qed.

Lemma snapshot_replicas_eta s : s = s <| os_replicas := os_replicas s |>.
Proof. by destruct s. Qed.

Lemma around_corrections_admissible s identities :
  (forall i, i ∈ identities -> corrected s i) ->
  validate_snapshot_around_authorized_corrections s identities = Ok tt -> admissible s.
Proof.
  intros Hcor Hok. unfold validate_snapshot_around_authorized_corrections in Hok. guards.
  rename select (hide_corrections _ _ _ = _) into Hh.
  rewrite (snapshot_replicas_eta s) in Hh at 2.
  apply hide_corrections_replicas in Hh as (replicas & -> & Hsame).
  rename select (validate_snapshot _ = _) into Hv.
  apply snapshot_checks in Hv as (Hst & Hd & Hobs). split; [done..|].
  intros key o Ho. destruct (decide (Exists (fun i => key = identity_key i) identities)) as [Hex|Hno].
  - apply Exists_exists in Hex as (i & Hi & ->). right. eauto.
  - left. rewrite <-(validate_observation_ext s replicas). apply Hobs. simpl. rewrite Hsame; [done|].
    intros i Hi ->. apply Hno, Exists_exists. eauto.
Qed.

Lemma stale_corrections_elem s accepted policy members identities i :
  stale_corrections s accepted policy members = Ok identities -> i ∈ identities ->
  exists m, m ∈ members /\ stale_correction s accepted policy m = Ok (Some i).
Proof.
  revert identities. induction members as [|m members IH]; simpl; intros identities Hok Hi.
  - simplify_eq. set_solver.
  - guards. simplify_eq. apply elem_of_app in Hi as [Hi|Hi].
    + exists m. match type of Hi with _ ∈ option_list ?o => destruct o end; simpl in Hi; set_solver.
    + destruct (IH _ ltac:(eassumption) Hi) as (m' & ? & ?). exists m'. set_solver.
Qed.

Lemma stale_corrected s accepted policy m i :
  st_topology (os_status s) = Some accepted -> m ∈ cd_members accepted ->
  stale_correction s accepted policy m = Ok (Some i) -> corrected s i.
Proof.
  intros Htop Hm. unfold stale_correction. destruct (report_for s (cm_identity m)) as [r|] eqn:Hr; [|done].
  destruct (ar_current_configuration r); [|done]. intros Hok. guards.
  rename select (then_some _ _ = Some _) into Hs. unfold then_some in Hs. case_match; [|done].
  guards. simplify_eq. exists r. split_and!; [done..|]. left. exists accepted. split; [done|].
  unfold has_member. apply existsb_true. exists m. by rewrite bool_decide_true.
Qed.

Lemma stale_identities_corrected s identities i :
  scale_up_stale_correction_identities s = Ok identities -> i ∈ identities -> corrected s i.
Proof.
  unfold scale_up_stale_correction_identities. intros Hok Hi.
  destruct (_ && _); [simplify_eq; set_solver|].
  destruct (st_topology (os_status s)) as [c|] eqn:Hc; [|simplify_eq; set_solver].
  destruct (st_effective_policy (os_status s)) as [p|]; [|simplify_eq; set_solver].
  destruct (stale_corrections_elem _ _ _ _ _ _ Hok Hi) as (m & Hm & Hs). by eapply stale_corrected.
Qed.

Lemma conflict_corrected s i :
  recoverable_failover_conflict_identity s = Some i -> corrected s i.
Proof.
  unfold recoverable_failover_conflict_identity.
  intros (carried & Hcar & (m & Hm & (r & Hr & Hi)%bind_Some)%bind_Some)%bind_Some.
  case_match eqn:Hb; [done|]. apply bind_Some in Hi as (stage & _ & Hi).
  unfold then_some in Hi. case_match; [|done]. simplify_eq. guards.
  apply List.find_some in Hm as [_ Hm]. guards. apply healthy_report_for in Hr.
  exists r. split_and!; try done; [congruence|]. right. by rewrite Hcar.
Qed.

Lemma admitted_admissible s : admitted_snapshot s config = Ok None -> admissible s.
Proof.
  unfold admitted_snapshot, around_corrections. intros Ha.
  destruct (validate_snapshot s) as [[]|e|] eqn:Hv; [|apply bind_ok in Ha as (stale & Hstale & Ha)|done].
  - apply snapshot_checks in Hv as (? & ? & ?). split; eauto.
  - assert (Hcor : forall i, i ∈ stale -> corrected s i).
    { intros i Hi. destruct (allow_scale_up config); [by eapply stale_identities_corrected|].
      simplify_eq. set_solver. }
    assert (Haround : forall identities, (forall i, i ∈ identities -> corrected s i) ->
              match validate_snapshot_around_authorized_corrections s identities with
              | Ok _ => Ok None
              | Err other => Ok (Some (unsafe_plan (os_status s)
                                         (InvalidAcceptedAuthority (display_error other)) config))
              | Panic => Panic
              end = Ok None (E := Empty_set) -> admissible s).
    { intros identities Hids Hok.
      destruct (validate_snapshot_around_authorized_corrections s identities) as [[]| |] eqn:Hr; [|done..].
      by eapply around_corrections_admissible. }
    cbv zeta in Ha. case_match; [by eapply Haround|].
    case_match eqn:Hconf; [|by guards]. eapply Haround; [|exact Ha].
    assert (Hc : corrected s r).
    { destruct e; try done. destruct (allow_scale_up config); [|done]. by apply conflict_corrected. }
    intros i Hi. case_decide; [by auto|]. apply elem_of_app in Hi as [|Hi]; [by auto|].
    by apply list_elem_of_singleton in Hi as ->.
Qed.

(** An uninitialized agent runs on observed resources. *)
Lemma admissible_scaffolded s key o u :
  admissible s -> os_replicas s !! key = Some o -> ro_agent o = AgentUninitialized u ->
  is_some_and has_exact_scaffolding (ro_kubernetes o) = true.
Proof.
  intros Ha Ho Hu. destruct (am_observed _ Ha key o Ho) as [Hok|(i & -> & r & Hr & _)].
  - unfold validate_observation in Hok. rewrite Hu in Hok. unfold validate_uninitialized in Hok. guards.
    rename select (is_some_and _ (ro_kubernetes o) = true) into Hk.
    apply is_some_and_true in Hk as (k & -> & Hk). guards. simpl. unfold has_exact_scaffolding.
    by repeat match goal with H : _ = Some _ |- _ => rewrite H; clear H end.
  - unfold report_for, observation_for_identity in Hr. rewrite Ho in Hr. simpl in Hr.
    by rewrite Hu in Hr.
Qed.

(** A report at the incarnation of a member is a member's. *)
Lemma known_identity s t r :
  validate_report_authority s r = Ok tt -> st_transition (os_status s) = Some t ->
  has_instance (ti_current_configuration t) (replica_id (ar_identity r)) (instance_id (ar_identity r))
    = true ->
  (exists c, st_topology (os_status s) = Some c /\ has_member c (ar_identity r) = true) \/
  has_member (ti_current_configuration t) (ar_identity r) = true.
Proof.
  unfold validate_report_authority, provisioned. intros Hok Ht Hi. rewrite Ht in Hok. simpl in Hok.
  apply bind_ok in Hok as (_ & _ & Hok). apply bind_ok in Hok as (_ & Hok%reject_ok & _).
  rewrite Hi, orb_true_r, andb_true_r in Hok. apply negb_false_iff, orb_true_iff in Hok as [Hok|Hok]; [left|auto].
  by apply is_some_and_true in Hok.
Qed.

(** During a switchover a member reports under its own identity. *)
Lemma admissible_exact s t m r :
  admissible s -> st_transition (os_status s) = Some t -> ti_kind t = PlannedSwitchover ->
  m ∈ cd_members (ti_current_configuration t) -> report_for s (cm_identity m) = Some r ->
  ar_identity r = cm_identity m.
Proof.
  intros Ha Ht Hk Hm Hr. pose proof (validated_established _ (am_status _ Ha)) as Hes.
  destruct (switchover_established s t Hes Ht Hk) as (starting & i & Hsw).
  pose proof (es_transition _ Hes t Ht) as Hok. unfold check_transition in Hok. rewrite Hk in Hok.
  unfold check_ordinary_transition in Hok. guards.
  rename select (validate_configuration (ti_current_configuration t) _ = _) into Hv.
  apply configuration_checks_ok in Hv as (_ & _ & _ & _ & Hids & _).
  assert (Hsame : forall j, j ∈ exact_identities (ti_current_configuration t) ->
            replica_id j = member_id m -> j = cm_identity m).
  { intros j (n & Hn & ->)%elem_of_exact_identities Hid. f_equal. by eapply member_id_inj. }
  unfold report_for, observation_for_identity in Hr. apply bind_Some in Hr as (o & Ho & Hr).
  destruct (am_observed _ Ha _ _ Ho) as [Hobs|(j & Hj & r' & Hr' & Hi & Hc)].
  - unfold validate_observation in Hobs. destruct (ro_agent o) as [| | | |r0]; try done.
    simpl in Hr. simplify_eq. unfold validate_report in Hobs. guards. simpl in *.
    apply Hsame; [|done]. rename select (validate_report_authority _ _ = _) into Hauth.
    destruct (known_identity _ _ _ Hauth Ht) as [(c & Hc & Hin)|Hin].
    + unfold has_instance. apply existsb_true. exists m. split; [done|].
      apply andb_true_iff. by split; apply bool_decide_eq_true.
    + rewrite (sg_current _ _ _ _ Hsw). rewrite (sg_topology _ _ _ _ Hsw) in Hc. simplify_eq.
      by apply has_member_identities.
    + by apply has_member_identities.
  - assert (r' = r) as ->.
    { unfold report_for, observation_for_identity in Hr'. rewrite <-Hj, Ho in Hr'. simpl in Hr'. congruence. }
    rewrite Hi. apply Hsame; [|unfold identity_key in Hj; by simplify_eq].
    destruct Hc as [(c & Hc & Hin)|Hcar].
    + rewrite (sg_current _ _ _ _ Hsw). rewrite (sg_topology _ _ _ _ Hsw) in Hc. simplify_eq.
      by apply has_member_identities.
    + rewrite Ht in Hcar. simpl in Hcar. congruence.
Qed.

(** ** Admission never panics *)

Lemma stale_corrections_total s accepted policy members :
  stale_corrections s accepted policy members <> Panic.
Proof.
  induction members as [|m members IH]; simpl; [done|]. unfold stale_correction. no_panic.
Qed.

Lemma hide_corrections_total s remaining identities :
  (forall i, is_some (os_replicas s !! identity_key i) = true ->
     is_some (os_replicas remaining !! identity_key i) = true) ->
  hide_corrections s remaining identities <> Panic.
Proof.
  revert remaining. induction identities as [|i identities IH]; intros remaining Hdom; simpl; [done|].
  no_panic.
  - apply report_internal_total.
  - apply expect_no_panic, Hdom. rename select (ok_or _ _ = Ok _) into Hr. apply ok_or_ok in Hr.
    unfold report_for, observation_for_identity in Hr. apply bind_Some in Hr as (o & -> & _). done.
  - apply IH. intros j Hj. simpl. destruct (decide (identity_key i = identity_key j)) as [->|Hne].
    + by rewrite lookup_insert_eq.
    + rewrite lookup_insert_ne by done. by apply Hdom.
Qed.

Lemma countable_hidden s replicas identities s' :
  countable_reports s -> hide_corrections s (s <| os_replicas := replicas |>) identities = Ok s' ->
  (forall key o r, replicas !! key = Some o -> agent_report (ro_agent o) = Some r ->
     os_replicas s !! key = Some o) ->
  countable_reports s'.
Proof.
  intros Hc. revert replicas. induction identities as [|i identities IH]; simpl; intros replicas Hh Hsub.
  - simplify_eq. intros key o r c Ho Hr. simpl in Ho. eapply Hc; eauto.
  - guards. rename select (hide_corrections _ _ _ = _) into Hh.
    apply (IH (<[identity_key i := _]> replicas)) in Hh; [done|]. intros key o r Ho Hr.
    apply lookup_insert_Some in Ho as [[_ <-]|[_ Ho]]; [done|eauto].
Qed.

Lemma around_corrections_total s identities :
  countable_reports s -> around_corrections s identities config <> Panic.
Proof.
  intros Hc. unfold around_corrections, validate_snapshot_around_authorized_corrections. no_panic.
  rename select (_ = Panic) into Hp. exfalso. revert Hp. apply bind_no_panic.
  - by apply hide_corrections_total.
  - intros remaining Hh. apply validate_snapshot_total.
    rewrite (snapshot_replicas_eta s) in Hh at 2. eapply countable_hidden; eauto.
Qed.

Lemma admitted_snapshot_total s : countable_reports s -> admitted_snapshot s config <> Panic.
Proof.
  intros Hc. unfold admitted_snapshot, rejected_snapshot, scale_up_stale_correction_identities.
  no_panic; auto using stale_corrections_total, around_corrections_total.
  exfalso. by eapply validate_snapshot_total.
Qed.

(** ** The evaluation of an admitted snapshot *)

Section evaluation.
Variable s : ObservationSnapshot.
Hypothesis Ha : admissible s.
Hypothesis Hdesired : 0 <= ds_replicas (os_desired s).

Lemma admissible_established : established (os_status s).
Proof. apply validated_established, Ha. Qed.
Hint Resolve admissible_established : no_panic.
Hint Extern 1 (established _) => apply admissible_established : core.

Lemma begin_switchover_total status :
  st_topology status = st_topology (os_status s) ->
  st_effective_policy status = st_effective_policy (os_status s) ->
  begin_switchover s status config <> Panic.
Proof.
  intros Htop Hpol. unfold begin_switchover.
  destruct (st_topology status) as [c|] eqn:Hc; [|no_panic]. symmetry in Htop.
  no_panic; eauto using topology_primary with no_panic.
  simpl. rewrite Hpol. apply expect_no_panic. eauto using topology_policy.
Qed.

Lemma serve_total status c policy :
  st_topology (os_status s) = Some c -> st_topology status = Some c ->
  serve s status c policy config <> Panic.
Proof.
  intros Htop Hc. unfold serve, scale_up_begin, scale_up_blocked. rewrite Hc.
  no_panic; eauto using topology_named, topology_primary with no_panic.
Qed.

Lemma replace_secondary_total status failed : replace_secondary s status failed config <> Panic.
Proof.
  unfold replace_secondary. no_panic; eauto using admit_cleanup_total, fresh_scaffolding_total.
  rename select (admit_cleanup _ _ _ = Ok _) into Hadm. unfold admit_cleanup in Hadm.
  destruct (st_pending_replacement_cleanup (os_status s)); [done|].
  destruct (freeze s failed); by guards.
Qed.

(** The status that a stable evaluation serves has the accepted topology and policy. *)
Lemma served_status c policy :
  let status := project_switchover_request s (stable_status s c policy config) in
  st_topology status = st_topology (os_status s) /\
  st_effective_policy status = st_effective_policy (os_status s).
Proof. unfold project_switchover_request, stable_status. split; repeat case_match; reflexivity. Qed.

Lemma evaluate_stable_total :
  is_some (st_topology (os_status s)) = true -> 0 < ds_replicas (os_desired s) ->
  evaluate_stable s config <> Panic.
Proof.
  intros Htop Hd. destruct (st_topology (os_status s)) as [c|] eqn:Hc; [|done].
  unfold evaluate_stable. rewrite Hc. simpl.
  assert (is_some (st_effective_policy (os_status s)) = true) as Hp by eauto using topology_policy.
  destruct (st_effective_policy (os_status s)) as [policy|] eqn:Hpol; [|done]. simpl.
  destruct (served_status c policy) as [Ht Hq]. cbv zeta in *.
  apply bind_no_panic; [apply stable_failover_total; [apply admissible_established|by rewrite Hc]|intros failover _].
  set (status := project_switchover_request s (stable_status s c policy config)) in *. clearbody status.
  unfold begin_requested, recovering_service, serve_managed.
  no_panic; eauto using begin_switchover_total, scale_down_begin_total, replace_secondary_total,
    topology_primary with no_panic.
  all: apply serve_total; [done|]; simpl; by rewrite Ht.
Qed.

Lemma evaluate_transition_total t :
  st_transition (os_status s) = Some t -> evaluate_transition s t config <> Panic.
Proof.
  intros Ht. pose proof admissible_established as Hes. unfold evaluate_transition.
  no_panic; guards.
  - by apply removal_transition_total.
  - apply evaluate_switchover_total; eauto using admissible_exact.
  - apply failover_over_total; congruence.
  - apply replacement_transition_total; congruence.
  - apply failover_transition_total; [done..|]. by destruct (ti_scale_up_failover t), (ti_scale_up t).
  - apply bootstrap_total; eauto using admissible_scaffolded.
Qed.

(** With nothing under way, the specification asks for replicas. *)
Lemma desired_positive :
  st_transition (os_status s) = None -> st_secondary_scale_down_cleanup (os_status s) = None ->
  0 < ds_replicas (os_desired s).
Proof. intros Ht Hr. destruct (am_desired _ Ha) as [Hd|[Hd|Hd]]; [lia|by rewrite Ht in Hd|by rewrite Hr in Hd]. Qed.

Lemma dispatch_status_total : dispatch_status s config <> Panic.
Proof.
  pose proof admissible_established as Hes. unfold dispatch_status.
  destruct (st_transition (os_status s)) as [t|] eqn:Ht.
  { no_panic; guards; auto using scale_up_transition_total, evaluate_transition_total. }
  destruct (allow_scale_up config); simpl;
    no_panic; eauto using allocation_step_total, scale_up_provisioning_total, provisioning_step_total,
    scale_up_cleanup_step_total, removal_cleanup_total, never_initialized_total.
  all: apply evaluate_stable_total; [by apply (es_initialized _ Hes)|by apply desired_positive].
Qed.

(** ** Corrections of the accepted authority *)

Lemma build_retirement_total receipt : newer_attempt_build_retirement_precedes_receipt s receipt <> Panic.
Proof.
  pose proof admissible_established as Hes. unfold newer_attempt_build_retirement_precedes_receipt.
  destruct (match st_scale_up_cleanup (os_status s) with Some _ => _ | None => _ end)
    as [[[p target] frozen]|] eqn:Hattempt; [|done].
  assert (is_some (pi_scale_up p) = true /\ validate_scale_up_provisioning p = Ok tt) as [Hu Hv].
  { destruct (st_scale_up_cleanup (os_status s)) as [c|] eqn:Hc; simplify_eq.
    - pose proof (es_cleanup _ Hes c Hc) as Hok.
      unfold check_scale_up_cleanup, validate_scale_up_cleanup in Hok. guards.
      split; [by eapply is_some_eq|done].
    - apply bind_Some in Hattempt as (q & Hq & Hattempt). unfold then_some in Hattempt.
      destruct (is_some (pi_scale_up q)) eqn:?; simplify_eq.
      split; [done|]. by apply (es_provisioning _ Hes). }
  destruct (pi_scale_up p) as [u|] eqn:Hup; [|done]. simpl.
  no_panic; eauto using provisioned_source, build_id_is_some with no_panic.
Qed.

Lemma recover_acceptance_total : recover_scale_up_acceptance s config <> Panic.
Proof.
  pose proof admissible_established as Hes. unfold recover_scale_up_acceptance.
  destruct (st_topology (os_status s)) as [c|] eqn:Hc; no_panic;
    repeat case_match; simplify_eq;
    eauto using build_retirement_total, topology_primary, restore_service_total with no_panic.
Qed.

Lemma correct_accepted_total : correct_accepted s config <> Panic.
Proof.
  pose proof admissible_established as Hes. unfold correct_accepted, arbitrate_correction.
  no_panic; eauto using recover_acceptance_total, topology_primary with no_panic.
  - rename select (opt_filter _ _ = Some _) into Hf. apply opt_filter_inv in Hf as [Ht Hs].
    by apply scale_up_transition_total.
  - apply stable_failover_total; [done|]. rename select (_ = Ok a0) into Hfailed.
    destruct (st_topology (os_status s)); [done|by simplify_eq].
Qed.

Lemma evaluate_admitted_total : evaluate_admitted s config <> Panic.
Proof.
  unfold evaluate_admitted, arbitrate.
  no_panic; auto using correct_accepted_total, dispatch_status_total with no_panic.
Qed.

End evaluation.

(** [C7] [evaluate] returns a plan for every snapshot, whatever the persisted status holds and
    whatever the replicas report: none of the [expect]s, indexings and unwraps of the
    evaluator and of the validators it calls can fail. The hypotheses only say that the
    values have their machine type: the desired count is unsigned, and the configurations
    that reports name have fewer than 2^32 members. *)
Theorem evaluate_never_panics s :
  countable_reports s -> 0 <= ds_replicas (os_desired s) -> exists plan, evaluate s config = Ok plan.
Proof.
  intros Hc Hd. assert (evaluate s config <> Panic) as Hn.
  { unfold evaluate. no_panic; auto using admitted_snapshot_total with no_panic.
    apply evaluate_admitted_total; [|done]. by eapply admitted_admissible. }
  destruct (evaluate s config) as [plan|[]|]; by eauto.
Qed.

End admission.
