(* ===== verification/EvaluatorExamples.v ===== *)
(** * A cluster of three replicas under the evaluator

    Concrete snapshots on which [evaluate] runs: a stable topology whose routing is to be
    published, a failover whose new topology a write quorum reports, and the cleanup of a
    replaced incarnation. *)

From S2P Require Import Prelude Digest Types Intents Commands Observations Validation Quorums.
From S2P Require Import ScaleDown ScaleUp SnapshotValidation StatusFacts Totality EvaluatorBase.
From S2P Require Import EvaluatorSwitchover EvaluatorFailover EvaluatorScaleDown EvaluatorReplacement.
From S2P Require Import EvaluatorBootstrap EvaluatorExpansion EvaluatorCandidate EvaluatorAdmission.
From S2P Require Import Evaluator PlanSafety FailoverElection EvaluatorSafety EvaluatorTotality.
From stdpp Require Import base gmap strings list pretty.
From Stdlib Require Import ZArith Lia.
Local Open Scope Z_scope.

#[local] Existing Instance padding_sha256.

Definition plain_texts : Texts :=
  {| debug_reason := fun _ => "unsafe"; display_error := fun _ => "invalid" |}.
#[local] Existing Instance plain_texts.

Module Cluster.

Definition policy : EffectivePolicy := Sample.policy 3.
Definition accepted : ConfigurationDescriptor := Sample.previous.
Definition elected : ConfigurationDescriptor :=
  configuration_with_primary accepted (Sample.identity 2 "b") (mkEpoch 0 2).

Definition status (transition : option TransitionIntent) (failure : option PrimaryFailureObservation)
    (replaced : option ReplacementCleanup) : AcceptedStatus :=
  {| st_initialized := true; st_observed_generation := 1; st_effective_policy := Some policy;
     st_topology := Some accepted; st_scale_up_allocation := None; st_provisioning := None;
     st_transition := transition; st_primary_failure := failure; st_quorum_loss := None;
     st_last_switchover := None; st_pending_replacement_cleanup := None;
     st_last_replacement := replaced; st_secondary_scale_down_cleanup := None;
     st_last_secondary_removal := None; st_scale_up_cleanup := None; st_last_scale_up := None;
     st_scale_up_admission_started := None; st_preview_lifecycle := None;
     st_public_fault_action := None; st_public_service_clear := None;
     st_last_public_fault_action := None; st_conditions := [] |}.

Definition report (m : ConfigurationMember) (c : ConfigurationDescriptor) (write : AccessStatus)
    (retained : option OperationId) : AgentReport :=
  {| ar_protocol_version := PROTOCOL_VERSION; ar_resource_uid := "uid";
     ar_identity := cm_identity m; ar_process_session_id := "session"; ar_report_sequence := 7;
     ar_role := cm_role m; ar_read_status := Granted; ar_write_status := write; ar_healthy := true;
     ar_epoch := cd_epoch c; ar_previous_configuration := None; ar_current_configuration := Some c;
     ar_current_progress := 5; ar_verified_replication_lsn := Some 5; ar_committed_lsn := 5;
     ar_catch_up_capability := Some 1; ar_current_configuration_quorum_progress := 5;
     ar_catch_up_boundary := None; ar_catch_up_complete := true; ar_deactivated_lsn := None;
     ar_deactivation_epoch := None; ar_load_metrics := []; ar_reported_fault := None;
     ar_pending_operation_id := None; ar_pending_configuration := None;
     ar_retained_operation_id := retained; ar_builds := []; ar_prepared_switchover := None;
     ar_prepared_secondary_removal := None; ar_secondary_removal_evidence := None;
     ar_retired_replica := None; ar_accepted_secondary_removal := None; ar_scale_up_intent := None |}.

(** The replica of a report, on a ready Pod. *)
Definition replica (r : AgentReport) : ReplicaObservationKey * ReplicaObservation :=
  let i := ar_identity r in
  (identity_key i,
   {| ro_kubernetes := Some
        {| ko_replica_id := replica_id i; ko_pod_name := "pod-" +:+ instance_id i;
           ko_pod_uid := Some (instance_id i); ko_pvc_name := "pvc-" +:+ instance_id i;
           ko_pvc_uid := Some ("volume-" +:+ instance_id i); ko_image := Some "image";
           ko_pod_ready := true; ko_peer_endpoint_ready := true; ko_endpoint_name := None;
           ko_endpoint_uid := None; ko_endpoint_resource_version := None |};
      ro_agent := AgentReported r |}).

Definition snapshot (st : AcceptedStatus) (reports : list AgentReport)
    (resources : list SecondaryScaleDownResourceObservation) : ObservationSnapshot :=
  {| os_resource_uid := "uid"; os_resource_version := "1";
     os_desired := {| ds_generation := 1; ds_replicas := 3; ds_image := "image";
                      ds_failover_delay_seconds := 30; ds_switchover := None;
                      ds_preview_lifecycle := None |};
     os_status := st; os_replicas := list_to_map (map replica reports);
     os_secondary_scale_down_resources := resources; os_previous_report_watermarks := ∅;
     os_durable_storage_evidence := true; os_supporting_resources_ready := true;
     os_routing := {| ro_service_present := true; ro_unresolved_write_target := false;
                      ro_write_target := None; ro_preview_service_location_present := false;
                      ro_write_service_uid := None; ro_write_service_resource_version := None;
                      ro_service_identities := [] |};
     os_observation_failures := []; os_now_unix_seconds := 100 |}.

(** Every member attests the accepted topology; the primary may write. *)
Definition stable_reports : list AgentReport :=
  map (fun m => report m accepted (if cm_role m == Primary then Granted else NotPrimary) None)
    (cd_members accepted).
Definition stable : ObservationSnapshot := snapshot (status None None None) stable_reports [].

(** The primary failed; the two others have installed the elected configuration. *)
Definition failover : TransitionIntent :=
  plain_transition (derive_transition_id "uid" Failover (cd_configuration_id elected)) Failover 1
    policy (Some (cd_configuration_id accepted)) elected (Some 5) None.
Definition failing : ObservationSnapshot :=
  snapshot
    (transition_status (status (Some failover)
       (Some {| pfo_primary := Sample.identity 1 "a"; pfo_started_at_unix_seconds := 10 |}) None))
    (map (fun m => report m elected (if cm_role m == Primary then Granted else NotPrimary)
                     (Some (failover_current_only_operation_id failover m)))
       (List.filter (fun m => member_id m != 1) (cd_members elected))) [].

(** The third replica was replaced; of its old incarnation only the volume is left. *)
Definition old_pod : string := "z".
Definition old_volume : string := "volume-z".
Definition old_incarnation : ReplicaIdentity :=
  {| replica_id := 3; instance_id := old_pod;
     agent_generation := derive_agent_generation
                           (derive_initialization_id "uid" 3 old_pod old_volume) |}.
Definition replaced : ReplacementCleanup :=
  {| rc_resource_uid := "uid"; rc_target := old_incarnation;
     rc_resources := {| rci_pod := CleanupPresent "pod-z" old_pod;
                        rci_pvc := CleanupPresent "pvc-z" old_volume;
                        rci_endpoint := CleanupAbsent
                                          (derive_replica_endpoint_name "uid" old_incarnation) |} |}.
Definition cleaning : ObservationSnapshot :=
  snapshot (status None None (Some replaced)) stable_reports
    [{| sro_resource_uid := "uid"; sro_target := old_incarnation;
        sro_identity := rc_resources replaced; sro_pod := ResourceNotFound;
        sro_pod_allocation_operation_id := None; sro_pod_matches_allocation_metadata := false;
        sro_pvc := FrozenUidPresent "12"; sro_pvc_allocation_operation_id := None;
        sro_endpoint := ResourceNotFound |}].

(** The primary does not answer any more, after the delay. *)
Definition silent : ObservationSnapshot :=
  snapshot (status None (Some {| pfo_primary := Sample.identity 1 "a";
                                 pfo_started_at_unix_seconds := 10 |}) None)
    (List.filter (fun r => replica_id (ar_identity r) != 1) stable_reports) [].

(** A report of another resource. *)
Definition foreign : ObservationSnapshot :=
  stable <| os_resource_uid := "other" |>.

End Cluster.

(** ** Runs of the evaluator *)

Lemma failing_accepts :
  evaluate Cluster.failing default_config
  = Ok (accept_failover Cluster.failing Cluster.failover Cluster.accepted).
Proof. vm_compute. reflexivity. Qed.

Definition failed_over : AcceptedStatus :=
  default (os_status Cluster.failing)
    (head (plan_statuses (accept_failover Cluster.failing Cluster.failover Cluster.accepted))).

Lemma failed_over_persisted :
  failed_over ∈ plan_statuses (accept_failover Cluster.failing Cluster.failover Cluster.accepted).
Proof.
  unfold failed_over. destruct (plan_statuses _) eqn:Hs; [vm_compute in Hs; discriminate|by left].
Qed.

Lemma failed_over_topology : st_topology failed_over = Some Cluster.elected.
Proof. vm_compute. reflexivity. Qed.

Lemma failing_countable : countable_status (os_status Cluster.failing).
Proof. apply countable_check. vm_compute. reflexivity. Qed.

Lemma topology_changes_need_quorum_witness :
  exists Q, write_quorum_of Cluster.elected Q /\ forall i, i ∈ Q ->
    exists r, reporting Cluster.failing r /\ ar_identity r = i /\
      ar_epoch r = cd_epoch Cluster.elected /\
      ar_current_configuration r = Some Cluster.elected /\ ar_previous_configuration r = None.
Proof.
  destruct (topology_changes_need_quorum Cluster.failing default_config _ failed_over Cluster.elected
              failing_countable failing_accepts failed_over_persisted failed_over_topology)
    as [Hsame|(_ & _ & HQ)]; [vm_compute in Hsame; discriminate|exact HQ].
Defined.

Lemma accepted_epochs_never_regress_witness :
  exists c, st_topology failed_over = Some c /\
    (c = Cluster.accepted \/ newer_epoch Cluster.accepted c).
Proof.
  apply (accepted_epochs_never_regress (os_status Cluster.failing) failed_over Cluster.accepted).
  - apply rtc_once. exact (reconcile Cluster.failing default_config _ failed_over failing_countable
                             failing_accepts failed_over_persisted).
  - reflexivity.
Defined.

Lemma routing_follows_attested_primary_witness :
  exists c m r,
    st_topology (os_status Cluster.stable) = Some c /\
    m ∈ cd_members c /\ cm_identity m = Sample.identity 1 "a" /\ member_id m = cd_primary_id c /\
    reporting Cluster.stable r /\ ar_identity r = Sample.identity 1 "a" /\ ar_role r = cm_role m /\
    reports_only c r /\ ar_write_status r = Granted /\
    quorum_reports Cluster.stable c (reports_only c).
Proof.
  destruct (evaluate Cluster.stable default_config) as [p|[]|] eqn:Hp; [|vm_compute in Hp; discriminate].
  refine (routing_follows_attested_primary Cluster.stable default_config p _ _ Hp _).
  - apply countable_check. vm_compute. reflexivity.
  - vm_compute in Hp. injection Hp as <-. by left.
Defined.

Lemma frozen_volumes_are_deleted_last_witness :
  exists target exact frozen,
    resources Cluster.cleaning target = Some exact /\
    ((target, frozen) ∈ frozen_resources (os_status Cluster.cleaning) \/
     (cancelled_allocation (os_status Cluster.cleaning) target /\ frozen = sro_identity exact)) /\
    absent (rci_endpoint frozen) (sro_endpoint exact) = true /\
    absent (rci_pod frozen) (sro_pod exact) = true /\
    rci_pvc frozen = CleanupPresent "pvc-z" "volume-z" /\ sro_pvc exact = FrozenUidPresent "12".
Proof.
  destruct (evaluate Cluster.cleaning default_config) as [p|[]|] eqn:Hp;
    [|vm_compute in Hp; discriminate].
  refine (frozen_volumes_are_deleted_last Cluster.cleaning default_config p _ _ _ _ Hp _).
  - apply countable_check. vm_compute. reflexivity.
  - vm_compute in Hp. injection Hp as <-. by left.
Defined.

Lemma unsafe_plans_close_routing_witness :
  exists reason status changes seconds,
    evaluate Cluster.foreign default_config = Ok (Unsafe reason status changes seconds) /\
    SafetyRemoveWriteRouting ∈ changes /\ st_topology status = st_topology (os_status Cluster.foreign).
Proof.
  destruct (evaluate Cluster.foreign default_config) as [[| | | |reason status changes seconds]|[]|] eqn:Hp;
    try (vm_compute in Hp; discriminate).
  exists reason, status, changes, seconds. split; [reflexivity|].
  apply (unsafe_plans_close_routing Cluster.foreign default_config reason status changes seconds);
    [apply countable_check; vm_compute; reflexivity|exact Hp].
Defined.


Lemma failover_elects_the_most_advanced_witness :
  exists policy candidate,
    elected Cluster.silent Cluster.accepted Cluster.accepted policy candidate.
Proof.
  destruct (begin_failover Cluster.silent (os_status Cluster.silent) Cluster.accepted Cluster.accepted
              1 None "abandoned" "pending" default_config) as [[p|]|[]|] eqn:Hp;
    [|vm_compute in Hp; discriminate..].
  destruct (plan_statuses p) as [|next l] eqn:Hs;
    [vm_compute in Hp; injection Hp as <-; vm_compute in Hs; discriminate|].
  destruct (failover_elects_the_most_advanced Cluster.silent (os_status Cluster.silent)
              Cluster.accepted Cluster.accepted 1 None "abandoned" "pending" default_config p next Hp)
    as (policy & candidate & _ & Hel & _).
  - rewrite Hs. by left.
  - vm_compute in Hp. injection Hp as <-. vm_compute in Hs. injection Hs as <- <-. vm_compute. discriminate.
  - exists policy, candidate. exact Hel.
Defined.

Lemma failover_configuration_is_newer_witness :
  let c := ti_current_configuration
             (failover_intent Cluster.silent Cluster.accepted Cluster.accepted Cluster.policy 1 None
                (Cluster.report (Sample.member 2 "b" ActiveSecondary) Cluster.accepted NotPrimary None)) in
  exact_identities c = exact_identities Cluster.accepted /\
  configuration_number (cd_epoch Cluster.accepted) < configuration_number (cd_epoch c).
Proof.
  destruct (failover_configuration_is_newer Cluster.silent Cluster.accepted Cluster.accepted
              Cluster.policy 1 None
              (Cluster.report (Sample.member 2 "b" ActiveSecondary) Cluster.accepted NotPrimary None))
    as (Hids & _ & _ & _ & Hnew & _);
    [split; vm_compute; congruence|split; vm_compute; congruence|vm_compute; reflexivity
    |vm_compute; reflexivity|].
  split; [exact Hids|exact Hnew].
Defined.

(** The configurations named by the reports of a snapshot, as a check that evaluates. *)
Definition small_reports (s : ObservationSnapshot) : bool :=
  forallb (fun '(_, o) =>
    from_option (fun r => forallb (fun c => Z.of_nat (length (cd_members c)) <? 2 ^ 32)
      (option_list (ar_previous_configuration r) ++ option_list (ar_current_configuration r))) true
      (agent_report (ro_agent o))) (map_to_list (os_replicas s)).

Lemma small_reports_countable s : small_reports s = true -> countable_reports s.
Proof.
  unfold small_reports. intros Hs key o r c Ho Hr Hc. rewrite forallb_forall in Hs.
  specialize (Hs (key, o)). cbv beta iota in Hs. rewrite Hr in Hs. simpl in Hs.
  assert (Hall := Hs ltac:(apply list_elem_of_In, elem_of_map_to_list, Ho)).
  rewrite forallb_forall in Hall. specialize (Hall c). unfold countable_members.
  apply Z.ltb_lt, Hall, list_elem_of_In, elem_of_app.
  destruct Hc as [-> | ->]; [left|right]; by left.
Qed.

Lemma evaluate_never_panics_witness :
  (exists plan, evaluate Cluster.stable default_config = Ok plan) /\
  (exists plan, evaluate Cluster.foreign default_config = Ok plan) /\
  (exists plan, evaluate Cluster.silent default_config = Ok plan).
Proof.
  split_and!; apply (evaluate_never_panics default_config);
    first [apply small_reports_countable; vm_compute; reflexivity|vm_compute; congruence].
Defined.
