(* ===== verification/ManagedConfiguration.v ===== *)
(** * The executable replication configuration
      ([replicator/configuration.rs], [error.rs], [transport.rs], [application.rs])

    The engine's projection of the durable authority, the envelopes that replicas
    exchange, and the fence that decides which envelopes a configuration
    accepts. *)

From S2P Require Import Prelude Digest Types Intents Validation.
From stdpp Require Import base gmap strings list.
From Stdlib Require Import ZArith Lia Strings.Byte.
Local Open Scope Z_scope.

(** ** Errors *)

(** The message of an error: a literal, or the rendering of a validation error. *)
Inductive Message :=
| Text (s : string)
| Rendered (e : ValidationError).

Inductive RuntimeError :=
| Closed
| NotOpen
| RtNotPrimary
| OperationCancelled
| ReplicaRemoved (id : Z)
| RtReconfigurationPending
| QueueFull
| WriteClosed (status : AccessStatus)
| ReadClosed (status : AccessStatus)
| AuthorityNotAdmitted
| AuthorityMismatch (message : Message)
| InvalidReplication (message : string)
| Application (message : Message)
| ControlPlane (message : string)
| EffectOutOfOrder (expected observed : Z)
| EffectConflict (sequence : Z)
| WriteCompletionClosed
| LocalWritePending (operation : string)
| DataLossFenced.

Inductive ContractError :=
| ContractMismatch (message : Message)
| Persistence (message : Message).

(** [impl From<ContractError> for RuntimeError] *)
Definition runtime_error_of_contract (e : ContractError) : RuntimeError :=
  match e with
  | ContractMismatch message => AuthorityMismatch message
  | Persistence message => Application message
  end.

(** [impl From<ValidationError> for RuntimeError] *)
Definition runtime_error_of_validation (e : ValidationError) : RuntimeError :=
  AuthorityMismatch (Rendered e).

Abbreviation result := (res RuntimeError).
Abbreviation contract := (res ContractError).

(** ** Operations and envelopes *)

Abbreviation Bytes := (list byte).

Record Operation := { op_lsn : Lsn; op_committed_lsn : Lsn; op_data : Bytes }.
#[export] Instance Operation_eq_dec : EqDecision Operation.
Proof. solve_decision. Defined.

Record ClientWrite := { cw_operation_id : OperationId; cw_data : Bytes }.
#[export] Instance ClientWrite_eq_dec : EqDecision ClientWrite.
Proof. solve_decision. Defined.

Record DurableApplicationProgress := { dap_applied_lsn : Lsn; dap_committed_lsn : Lsn }.
#[export] Instance DurableApplicationProgress_eq_dec : EqDecision DurableApplicationProgress.
Proof. solve_decision. Defined.

Record ReplicationItem := {
  item_sender : ReplicaIdentity;
  item_receiver : ReplicaIdentity;
  item_epoch : Epoch;
  item_previous_configuration_id : option ConfigurationId;
  item_current_configuration_id : ConfigurationId;
  item_lsn : Lsn;
  item_committed_lsn : Lsn;
  item_data : Bytes;
}.
#[export] Instance ReplicationItem_eq_dec : EqDecision ReplicationItem.
Proof. solve_decision. Defined.

Record ReplicationAck := {
  ack_sender : ReplicaIdentity;
  ack_receiver : ReplicaIdentity;
  ack_epoch : Epoch;
  ack_previous_configuration_id : option ConfigurationId;
  ack_current_configuration_id : ConfigurationId;
  ack_received_lsn : Lsn;
  ack_applied_lsn : Lsn;
  ack_committed_lsn : Lsn;
}.
#[export] Instance ReplicationAck_eq_dec : EqDecision ReplicationAck.
Proof. solve_decision. Defined.

Record CopyItem := {
  ci_build_id : OperationId;
  ci_sender : ReplicaIdentity;
  ci_receiver : ReplicaIdentity;
  ci_epoch : Epoch;
  ci_current_configuration_id : ConfigurationId;
  ci_sequence : Z;
  ci_lsn : Lsn;
  ci_committed_lsn : Lsn;
  ci_replication_boundary_lsn : Lsn;
  ci_catch_up_boundary_lsn : option Lsn;
  ci_final_item : bool;
  ci_snapshot_chunk : bool;
  ci_data : Bytes;
}.
#[export] Instance CopyItem_eq_dec : EqDecision CopyItem.
Proof. solve_decision. Defined.

Record CopyAck := {
  ca_build_id : OperationId;
  ca_sender : ReplicaIdentity;
  ca_receiver : ReplicaIdentity;
  ca_epoch : Epoch;
  ca_current_configuration_id : ConfigurationId;
  ca_sequence : Z;
  ca_durable_lsn : Lsn;
  ca_replication_boundary_lsn : Lsn;
  ca_catch_up_boundary_lsn : option Lsn;
  ca_final_item : bool;
  ca_snapshot_chunk : bool;
}.
#[export] Instance CopyAck_eq_dec : EqDecision CopyAck.
Proof. solve_decision. Defined.

Record AuthorityFence := {
  fence_epoch : Epoch;
  fence_previous_configuration_id : option ConfigurationId;
  fence_current_configuration_id : ConfigurationId;
}.
#[export] Instance AuthorityFence_eq_dec : EqDecision AuthorityFence.
Proof. solve_decision. Defined.

(** ** The managed configuration *)

Record ManagedReplicaConfiguration := {
  mr_local_identity : ReplicaIdentity;
  mr_previous_configuration : option ConfigurationDescriptor;
  mr_current_configuration : ConfigurationDescriptor;
  mr_switchover_handoff : option SwitchoverHandoff;
  mr_secondary_removal : option SecondaryRemovalEvidence;
  mr_scale_up : option ScaleUpConfigurationEvidence;
  mr_build_kind : BuildAuthorityKind;
}.
#[export] Instance ManagedReplicaConfiguration_eq_dec : EqDecision ManagedReplicaConfiguration.
Proof. solve_decision. Defined.

Definition mr_contains_member (a : ManagedReplicaConfiguration) (i : ReplicaIdentity) : bool :=
  has_member (mr_current_configuration a) i
  || is_some_and (fun previous => has_member previous i) (mr_previous_configuration a).

Definition mr_validate (a : ManagedReplicaConfiguration) : result unit :=
  reject (negb (mr_contains_member a (mr_local_identity a)))
    (AuthorityMismatch (Text "local identity is outside executable replication configuration")) ;?
  match mr_previous_configuration a with
  | Some previous =>
      reject (epoch_leb (cd_epoch (mr_current_configuration a)) (cd_epoch previous))
        (AuthorityMismatch
           (Text "executable replication configuration did not advance its epoch"))
  | None => Ok tt
  end.

Definition mr_is_current_only_completion_of (a existing : ManagedReplicaConfiguration) : bool :=
  (mr_local_identity a == mr_local_identity existing)
  && (mr_current_configuration a == mr_current_configuration existing)
  && is_some (mr_previous_configuration existing)
  && is_none (mr_previous_configuration a)
  && (mr_switchover_handoff a == mr_switchover_handoff existing)
  && (mr_scale_up a == mr_scale_up existing)
  && match mr_secondary_removal a, mr_secondary_removal existing with
     | Some next, Some old =>
         (sre_preparation next == sre_preparation old)
         && (sre_previous_read_quorum next == sre_previous_read_quorum old)
         && ((sre_reduced_write_quorum old == [])
             || (sre_reduced_write_quorum next == sre_reduced_write_quorum old))
     | None, None => true
     | _, _ => false
     end.

Definition mr_fence (a : ManagedReplicaConfiguration) : AuthorityFence :=
  {| fence_epoch := cd_epoch (mr_current_configuration a);
     fence_previous_configuration_id := cd_configuration_id <$> mr_previous_configuration a;
     fence_current_configuration_id := cd_configuration_id (mr_current_configuration a) |}.

(** [primary_identity]; the configuration has been validated, so that the
    [expect] holds *)
Definition mr_primary_identity {E} (a : ManagedReplicaConfiguration) : res E ReplicaIdentity :=
  let? primary := expect (find_primary (mr_current_configuration a)) in
  Ok (cm_identity primary).

Definition mr_local_role {E} (a : ManagedReplicaConfiguration) : res E ReplicaRole :=
  let? member := expect
    (or_else (find_member (mr_local_identity a) (mr_current_configuration a))
       (mr_previous_configuration a ≫= find_member (mr_local_identity a))) in
  Ok (cm_role member).

Definition mr_validate_fence (a : ManagedReplicaConfiguration) (sender receiver : ReplicaIdentity)
    (epoch : Epoch) (previous_id : option ConfigurationId) (current_id : ConfigurationId)
    : result unit :=
  let? primary := mr_primary_identity a in
  reject (sender != primary)
    (AuthorityMismatch (Text "replication sender is not the exact configured primary")) ;?
  reject (negb (mr_contains_member a receiver))
    (AuthorityMismatch (Text "replication receiver is outside executable configuration")) ;?
  reject ((epoch != cd_epoch (mr_current_configuration a))
          || (current_id != cd_configuration_id (mr_current_configuration a))
          || (previous_id != (cd_configuration_id <$> mr_previous_configuration a)))
    (AuthorityMismatch (Text "replication epoch or configuration fence is stale")).

Definition mr_validate_envelope (a : ManagedReplicaConfiguration) (e : ReplicationItem)
    : result unit :=
  mr_validate_fence a (item_sender e) (item_receiver e) (item_epoch e)
    (item_previous_configuration_id e) (item_current_configuration_id e).

Definition mr_validate_acknowledgement (a : ManagedReplicaConfiguration) (k : ReplicationAck)
    : result unit :=
  mr_validate_fence a (ack_sender k) (ack_receiver k) (ack_epoch k)
    (ack_previous_configuration_id k) (ack_current_configuration_id k).

(** ** Facts *)

(** The fence that an envelope carries. *)
Definition ack_fence (k : ReplicationAck) : AuthorityFence :=
  {| fence_epoch := ack_epoch k;
     fence_previous_configuration_id := ack_previous_configuration_id k;
     fence_current_configuration_id := ack_current_configuration_id k |}.

Lemma mr_validate_fence_ok a sender receiver epoch previous_id current_id :
  mr_validate_fence a sender receiver epoch previous_id current_id = Ok tt <->
  (exists m, find_primary (mr_current_configuration a) = Some m /\ cm_identity m = sender) /\
  mr_contains_member a receiver = true /\
  mr_fence a = {| fence_epoch := epoch; fence_previous_configuration_id := previous_id;
                  fence_current_configuration_id := current_id |}.
Proof.
  unfold mr_validate_fence, mr_primary_identity, mr_fence. split.
  - intros Hok. guards. split_and!; [eauto|done|]. by subst.
  - intros ((m & Hm & <-) & Hin & [= <- <- <-]). rewrite Hm. simpl.
    rewrite Hin, !bool_decide_true by done. done.
Qed.

(** An acknowledgement is accepted under one fence only. *)
Lemma acknowledgement_fence a k :
  mr_validate_acknowledgement a k = Ok tt ->
  mr_fence a = ack_fence k /\ mr_contains_member a (ack_receiver k) = true.
Proof. by intros (? & ? & ?)%mr_validate_fence_ok. Qed.

Lemma mr_contains_member_iff a i :
  mr_contains_member a i = true <->
  i ∈ exact_identities (mr_current_configuration a) \/
  exists previous, mr_previous_configuration a = Some previous /\ i ∈ exact_identities previous.
Proof.
  assert (Hm : forall c, has_member c i = true <-> i ∈ exact_identities c).
  { intros c. unfold has_member. rewrite existsb_true, elem_of_exact_identities.
    setoid_rewrite bool_decide_eq_true. naive_solver. }
  unfold mr_contains_member. rewrite orb_true_iff, is_some_and_true, Hm.
  setoid_rewrite Hm. done.
Qed.
