(* ===== verification/Quorum.v ===== *)
(** * The quorum tracker ([replicator/quorum.rs])

    The primary's record of what each replica holds.  A [oneshot] channel is a
    number; [channels] keeps the next number and what was sent on each channel,
    in order, so that a completion given to a client can be reasoned about.
    The [BTreeMap]s are finite maps whose keys are visited in increasing order. *)

From S2P Require Import Prelude Digest Types Intents Validation Quorums ScaleDown.
From S2P Require Import ManagedConfiguration.
From stdpp Require Import base gmap strings list sorting pretty.
From Stdlib Require Import ZArith Lia.
Local Open Scope Z_scope.

Abbreviation Channel := nat.

Record Channels := { next_channel : Channel; sent : list (Channel * result Lsn) }.
#[export] Instance Channels_fields : Fields Channels :=
  fun c => Build_Channels (next_channel c) (sent c).

Record QuorumTracker := {
  qt_authority : option ManagedReplicaConfiguration;
  qt_progress : gmap ReplicaIdentity Lsn;
  qt_pending : gmap Z (list Channel);
  qt_highest_lsn : Lsn;
  qt_committed_lsn : Lsn;
  qt_catch_up_boundary : option Lsn;
  qt_must_catch_up : gset ReplicaIdentity;
  qt_sessions : gmap ReplicaIdentity ProcessSessionId;
  qt_obsolete_sessions : gset (ReplicaIdentity * string);
  qt_verified : gmap ReplicaIdentity (Z * Lsn);
  qt_witnesses : gmap ReplicaIdentity SecondaryRemovalWitness;
  qt_live_commits : gmap ReplicaIdentity SecondaryScaleDownCleanup;
  qt_channels : Channels;
}.
#[export] Instance QuorumTracker_fields : Fields QuorumTracker := fun t =>
  Build_QuorumTracker (qt_authority t) (qt_progress t) (qt_pending t) (qt_highest_lsn t)
    (qt_committed_lsn t) (qt_catch_up_boundary t) (qt_must_catch_up t) (qt_sessions t)
    (qt_obsolete_sessions t) (qt_verified t) (qt_witnesses t) (qt_live_commits t) (qt_channels t).

(** [QuorumTracker::default()] *)
Definition tracker_default : QuorumTracker :=
  {| qt_authority := None; qt_progress := ∅; qt_pending := ∅; qt_highest_lsn := 0;
     qt_committed_lsn := 0; qt_catch_up_boundary := None; qt_must_catch_up := ∅;
     qt_sessions := ∅; qt_obsolete_sessions := ∅; qt_verified := ∅; qt_witnesses := ∅;
     qt_live_commits := ∅; qt_channels := {| next_channel := 0; sent := [] |} |}.

(** ** Channels *)

(** [oneshot::channel()]: the fresh channel *)
Definition new_channel (t : QuorumTracker) : QuorumTracker * Channel :=
  (t <| qt_channels := (qt_channels t) <| next_channel := S (next_channel (qt_channels t)) |> |>,
   next_channel (qt_channels t)).

(** [sender.send(outcome)] on each of the channels *)
Definition send_all (outcomes : list (Channel * result Lsn)) (t : QuorumTracker) : QuorumTracker :=
  t <| qt_channels := (qt_channels t) <| sent := sent (qt_channels t) ++ outcomes |> |>.

(** The senders registered for a write. *)
Definition senders (t : QuorumTracker) (lsn : Lsn) : list Channel := default [] (qt_pending t !! lsn).

(** [for (_, senders) in mem::take(&mut self.pending) { ... send(outcome) }] *)
Definition fail_all (outcome : result Lsn) (t : QuorumTracker) : QuorumTracker :=
  let failed := concat (map (senders t) (keys (qt_pending t))) in
  (send_all (map (fun c => (c, outcome)) failed) t) <| qt_pending := ∅ |>.

(** One pass of the loop of [finalize_commit] and [restore_committed_lsn]:
    the write succeeds and is no longer pending. *)
Definition settle (t : QuorumTracker) (lsn : Lsn) : QuorumTracker :=
  (send_all (map (fun c => (c, Ok lsn)) (senders t lsn)) t)
    <| qt_pending := delete lsn (qt_pending t) |>.

(** That loop, over the pending writes up to [bound]. *)
Definition complete_up_to (bound : Lsn) (t : QuorumTracker) : QuorumTracker :=
  let completed := take_while (fun lsn => lsn <=? bound) (keys (qt_pending t)) in
  fold_left settle completed t.

(** ** Quorums over recorded progress *)

Definition progress_of (progress : gmap ReplicaIdentity Lsn) (m : ConfigurationMember) : Lsn :=
  get_or_zero progress (cm_identity m).

Definition quorum_progress (c : ConfigurationDescriptor) (progress : gmap ReplicaIdentity Lsn) : Lsn :=
  let values := merge_sort Z.ge (map (progress_of progress) (cd_members c)) in
  default 0 (values !! Z.to_nat (saturating_sub (cd_write_quorum c) 1)).

Definition has_quorum (c : ConfigurationDescriptor) (progress : gmap ReplicaIdentity Lsn)
    (lsn : Lsn) : bool :=
  cd_write_quorum c <=?
  Z.of_nat (length (List.filter (fun m => lsn <=? progress_of progress m) (cd_members c))).

Definition client_commit_ready (a : ManagedReplicaConfiguration)
    (progress : gmap ReplicaIdentity Lsn) (lsn : Lsn) : bool :=
  has_quorum (mr_current_configuration a) progress lsn
  && is_none_or (fun previous => has_quorum previous progress lsn) (mr_previous_configuration a).

Definition authority_members (a : ManagedReplicaConfiguration) : gset ReplicaIdentity :=
  list_to_set (map cm_identity
    (cd_members (mr_current_configuration a)
     ++ default [] (cd_members <$> mr_previous_configuration a))).

Definition derive_must_catch_up {E} (a : ManagedReplicaConfiguration)
    : res E (gset ReplicaIdentity) :=
  let required : gset ReplicaIdentity :=
    match mr_scale_up a with
    | Some evidence => {[sui_target (evidence_intent evidence)]}
    | None => ∅
    end in
  match mr_previous_configuration a with
  | None => Ok required
  | Some previous =>
      let? primary := expect (find_primary (mr_current_configuration a)) in
      if has_member_with_role previous (cm_identity primary) Primary
      then Ok required
      else Ok ({[cm_identity primary]} ∪ required)
  end.

Definition max_lsn (lsns : list Lsn) : option Lsn :=
  match lsns with
  | [] => None
  | lsn :: rest => Some (fold_left Z.max rest lsn)
  end.

(** ** Operations *)

Abbreviation tracker := (M QuorumTracker RuntimeError).

Definition mismatch {A} (message : string) : tracker A := m_err (AuthorityMismatch (Text message)).

Definition get_authority : tracker ManagedReplicaConfiguration :=
  let! t := m_get in m_lift (ok_or (qt_authority t) AuthorityNotAdmitted).

(** [progress.entry(identity)] raised to [lsn] *)
Definition raise_progress (i : ReplicaIdentity) (lsn : Lsn) (t : QuorumTracker) : QuorumTracker :=
  t <| qt_progress := entry_max i lsn (qt_progress t) |>.

Definition raise_highest (lsn : Lsn) (t : QuorumTracker) : QuorumTracker :=
  t <| qt_highest_lsn := Z.max (qt_highest_lsn t) lsn |>.

(** The boundary that catch-up must reach under a newly installed authority. *)
Definition catch_up_boundary_of (a : ManagedReplicaConfiguration) (highest : Lsn) : option Lsn :=
  or_else ((fun e => sui_catch_up_boundary_lsn (evidence_intent e)) <$> mr_scale_up a)
    (or_else ((fun e => srp_boundary_lsn (sre_preparation e)) <$> mr_secondary_removal a)
       ((fun _ => match mr_switchover_handoff a with
                  | Some handoff => sh_handoff_lsn handoff
                  | None => highest
                  end) <$> mr_previous_configuration a)).

(** What [configure_prevalidated] drops when the authority changes. *)
Definition drop_credit (t : QuorumTracker) : QuorumTracker :=
  t <| qt_progress := ∅ |> <| qt_verified := ∅ |> <| qt_witnesses := ∅ |> <| qt_live_commits := ∅ |>.

Definition configure_prevalidated (a : ManagedReplicaConfiguration) (local_progress : Lsn)
    : tracker unit :=
  let! t := m_get in
  let same_fence := qt_authority t == Some a in
  let current_only_completion :=
    is_some_and (fun existing => is_some (mr_scale_up a)
                                 && mr_is_current_only_completion_of a existing)
      (qt_authority t) in
  (if is_some (qt_authority t) && negb same_fence then
     m_modify (fail_all (Err (AuthorityMismatch
       (Text "authority changed before the write committed")))) ;!
     (if current_only_completion then m_ret tt else m_modify drop_credit)
   else m_ret tt) ;!
  let members := authority_members a in
  m_modify (fun t =>
    t <| qt_sessions := filter (fun '(i, _) => i ∈ members) (qt_sessions t) |>
      <| qt_progress := filter (fun '(i, _) => i ∈ members) (qt_progress t) |>) ;!
  m_modify (raise_progress (mr_local_identity a) local_progress) ;!
  m_modify (raise_highest local_progress) ;!
  (if same_fence then m_ret tt
   else
     m_modify (fun t => t <| qt_catch_up_boundary := catch_up_boundary_of a (qt_highest_lsn t) |>) ;!
     let! required := m_lift (derive_must_catch_up a) in
     m_modify (fun t => t <| qt_must_catch_up := required |>)) ;!
  m_modify (fun t => t <| qt_authority := Some a |>).

(** The sessions of [i] that removal evidence shows to be older than [session]. *)
Definition historical_sessions (a : ManagedReplicaConfiguration) (i : ReplicaIdentity)
    (session : ProcessSessionId) : gset (ReplicaIdentity * string) :=
  match mr_secondary_removal a with
  | Some e =>
      list_to_set (map (fun w => (i, srw_process_session_id w))
        (List.filter (fun w => (srw_identity w == i) && (srw_process_session_id w != session))
           (sre_previous_read_quorum e ++ sre_reduced_write_quorum e)))
  | None => ∅
  end.

Definition register_peer_session (i : ReplicaIdentity) (session : ProcessSessionId) : tracker unit :=
  let! a := get_authority in
  let! t := m_get in
  if is_empty session || (i == mr_local_identity a) || negb (mr_contains_member a i)
     || bool_decide ((i, session) ∈ qt_obsolete_sessions t)
  then mismatch "invalid peer session identity"
  else if qt_sessions t !! i != Some session then
    m_modify (fun t =>
      t <| qt_obsolete_sessions := historical_sessions a i session ∪ qt_obsolete_sessions t |>) ;!
    m_modify (fun t =>
      match qt_sessions t !! i with
      | Some previous => t <| qt_obsolete_sessions := {[(i, previous)]} ∪ qt_obsolete_sessions t |>
      | None => t
      end) ;!
    m_modify (fun t =>
      t <| qt_progress := delete i (qt_progress t) |>
        <| qt_verified := delete i (qt_verified t) |>
        <| qt_witnesses := delete i (qt_witnesses t) |>
        <| qt_live_commits := delete i (qt_live_commits t) |>
        <| qt_sessions := <[i := session]> (qt_sessions t) |>)
  else m_ret tt.

Definition record_verified_local_progress (lsn : Lsn) (t : QuorumTracker) : QuorumTracker :=
  match qt_authority t with
  | Some a => t <| qt_verified := <[mr_local_identity a := (0, lsn)]> (qt_verified t) |>
  | None => t
  end.

(** A recorded verification of the same replica that is not older. *)
Definition verified_since (t : QuorumTracker) (w : SecondaryRemovalWitness) : bool :=
  is_some_and (fun v => srw_report_sequence w <=? fst v) (qt_verified t !! srw_identity w).

Definition record_witness (w : SecondaryRemovalWitness) (t : QuorumTracker) : QuorumTracker :=
  t <| qt_verified := <[srw_identity w := (srw_report_sequence w, srw_verified_replication_lsn w)]>
                        (qt_verified t) |>
    <| qt_witnesses := <[srw_identity w := w]> (qt_witnesses t) |>.

Section removal_progress.
Context `{Sha256}.

Definition observe_secondary_removal (w : SecondaryRemovalWitness) : tracker unit :=
  let! t := m_get in
  if (qt_witnesses t !! srw_identity w == Some w)
     && is_none (qt_live_commits t !! srw_identity w)
  then m_ret tt
  else
  let! a := get_authority in
  let! e := m_lift (ok_or (mr_secondary_removal a) RtReconfigurationPending) in
  let intent := srp_intent (sre_preparation e) in
  let stage := if is_some (mr_previous_configuration a) then SrPreviousCurrent else SrCurrentOnly in
  if (srw_identity w == mr_local_identity a)
     || (qt_sessions t !! srw_identity w != Some (srw_process_session_id w))
     || (srw_resource_uid w != sdi_resource_uid intent)
     || negb (has_member_with_role (sdi_current_configuration intent) (srw_identity w) (srw_role w))
     || (srw_epoch w != cd_epoch (mr_current_configuration a))
     || (srw_current_configuration_id w != cd_configuration_id (mr_current_configuration a))
     || (srw_previous_configuration_id w != fence_previous_configuration_id (mr_fence a))
     || (srw_report_sequence w == 0)
     || (srw_verified_replication_lsn w <? srp_boundary_lsn (sre_preparation e))
     || is_some (srw_pending_operation_id w)
     || (srw_write_status w == Granted)
     || (srw_retained_operation_id w
           != Some (sdi_command_operation_id intent stage (srw_identity w)))
     || verified_since t w
     || existsb (superseded_by w)
          (sre_previous_read_quorum e
           ++ if is_none (mr_previous_configuration a) then sre_reduced_write_quorum e else [])
  then mismatch "stale or unverified reduced-quorum witness"
  else m_modify (record_witness w).

(** The retained operation of a replica that completed the reduction. *)
Definition retained_after_commit (intent : SecondaryScaleDownIntent) (w : SecondaryRemovalWitness)
    : bool :=
  (srw_retained_operation_id w
     == Some (sdi_command_operation_id intent SrCurrentOnly (srw_identity w)))
  || (srw_retained_operation_id w
        == Some (sdi_command_operation_id intent SrAcceptCommit (srw_identity w)))
  || ((srw_identity w == sdi_primary intent)
      && (srw_retained_operation_id w
            == Some ("availability:" +:+
                     cd_configuration_id (sdi_current_configuration intent) +:+ ":" +:+
                     (if srw_write_status w == Granted then "grant-write" else "no-write-quorum")))).

(** Some recorded live commit carries other evidence. *)
Definition conflicting_live_commit (t : QuorumTracker) (c : SecondaryScaleDownCleanup) : bool :=
  existsb (fun kv => (sdc_evidence (snd kv) != sdc_evidence c)
                     || (sdc_current_only_write_quorum (snd kv) != sdc_current_only_write_quorum c))
    (map_to_list (qt_live_commits t)).

Definition observe_secondary_removal_progress (w : SecondaryRemovalWitness)
    (committed : SecondaryScaleDownCleanup) : tracker unit :=
  m_lift (map_err runtime_error_of_validation
            (validate_secondary_scale_down_cleanup committed)) ;!
  let! a := get_authority in
  let! t := m_get in
  let p := sre_preparation (sdc_evidence committed) in
  let intent := srp_intent p in
  if is_some (mr_previous_configuration a)
     || (mr_secondary_removal a != Some (sdc_evidence committed))
     || (mr_current_configuration a != sdi_current_configuration intent)
     || (srw_identity w == mr_local_identity a)
     || (qt_sessions t !! srw_identity w != Some (srw_process_session_id w))
     || (srw_resource_uid w != sdi_resource_uid intent)
     || (srw_epoch w != cd_epoch (sdi_current_configuration intent))
     || is_some (srw_previous_configuration_id w)
     || (srw_current_configuration_id w != cd_configuration_id (sdi_current_configuration intent))
     || negb (has_member_with_role (sdi_current_configuration intent) (srw_identity w) (srw_role w))
     || (srw_report_sequence w == 0)
     || (srw_verified_replication_lsn w <? srp_boundary_lsn p)
     || is_some (srw_pending_operation_id w)
     || ((srw_write_status w == Granted) && (srw_identity w != sdi_primary intent))
     || negb (retained_after_commit intent w)
     || conflicting_live_commit t committed
  then mismatch "invalid committed-removal live progress"
  else if (qt_witnesses t !! srw_identity w == Some w)
          && is_some (qt_live_commits t !! srw_identity w)
  then m_ret tt
  else if verified_since t w
          || existsb (superseded_by w) (sdc_current_only_write_quorum committed)
  then mismatch "stale committed-removal live progress"
  else
    m_modify (record_witness w) ;!
    m_modify (fun t =>
      t <| qt_live_commits := <[srw_identity w := committed]> (qt_live_commits t) |>).

Definition validate_secondary_removal_commit (committed : SecondaryScaleDownCleanup) : tracker unit :=
  let! t := m_get in
  if conflicting_live_commit t committed
  then mismatch "commit differs from live progress proof"
  else m_ret tt.

(** A recorded witness that makes a frozen certificate's witness redundant. *)
Definition fresher_witness (current w : SecondaryRemovalWitness) : bool :=
  (srw_process_session_id current == srw_process_session_id w)
  && (srw_resource_uid current == srw_resource_uid w)
  && (srw_role current == srw_role w)
  && (srw_epoch current == srw_epoch w)
  && (srw_current_configuration_id current == srw_current_configuration_id w)
  && (srw_previous_configuration_id current == srw_previous_configuration_id w)
  && (srw_report_sequence w <=? srw_report_sequence current)
  && (srw_verified_replication_lsn w <=? srw_verified_replication_lsn current).

Definition observe_committed_secondary_removal (w : SecondaryRemovalWitness) : tracker unit :=
  let! t := m_get in
  if qt_sessions t !! srw_identity w != Some (srw_process_session_id w) then m_ret tt
  else if is_some_and (fun current => fresher_witness current w) (qt_witnesses t !! srw_identity w)
  then m_ret tt
  else observe_secondary_removal w.

Definition restore_committed_secondary_removal (w : SecondaryRemovalWitness) : tracker unit :=
  let! t := m_get in
  (if is_none (qt_sessions t !! srw_identity w)
   then register_peer_session (srw_identity w) (srw_process_session_id w)
   else m_ret tt) ;!
  observe_committed_secondary_removal w.

End removal_progress.

Definition register_write (lsn : Lsn) : tracker Channel :=
  let! _ := get_authority in
  m_modify (raise_highest lsn) ;!
  (fun t => let '(t, c) := new_channel t in
            (t <| qt_pending := <[lsn := senders t lsn ++ [c]]> (qt_pending t) |>, Ok c)).

Definition record_local_progress (lsn : Lsn) : tracker unit :=
  let! a := get_authority in
  m_modify (raise_progress (mr_local_identity a) lsn) ;!
  m_modify (raise_highest lsn).

Definition record_prepared_build_handoff_progress (i : ReplicaIdentity) (lsn : Lsn)
    (t : QuorumTracker) : QuorumTracker :=
  raise_highest lsn (raise_progress i lsn t).

Definition acknowledge (k : ReplicationAck) : tracker unit :=
  let! a := get_authority in
  m_lift (mr_validate_acknowledgement a k) ;!
  m_modify (raise_progress (ack_receiver k) (ack_applied_lsn k)).

Definition acknowledge_in_session (k : ReplicationAck) (session : ProcessSessionId) : tracker unit :=
  let! t := m_get in
  if qt_sessions t !! ack_receiver k != Some session
  then mismatch "acknowledgement belongs to an obsolete peer session"
  else acknowledge k.

Definition current_configuration_quorum_progress (t : QuorumTracker) : Lsn :=
  match qt_authority t with
  | Some a => quorum_progress (mr_current_configuration a) (qt_progress t)
  | None => 0
  end.

Definition fail_pending (t : QuorumTracker) : QuorumTracker :=
  fail_all (Err (WriteClosed ReconfigurationPending)) t.

Definition verified_at_least (t : QuorumTracker) (boundary : Lsn) (i : ReplicaIdentity) : bool :=
  is_some_and (fun v => boundary <=? snd v) (qt_verified t !! i).

Definition catch_up_complete {E} (t : QuorumTracker) : res E bool :=
  match qt_authority t ≫= (fun a => (fun e => (a, e)) <$> mr_secondary_removal a) with
  | Some (a, e) =>
      let boundary := srp_boundary_lsn (sre_preparation e) in
      let? primary := mr_primary_identity a in
      Ok (verified_at_least t boundary primary
          && (cd_write_quorum (mr_current_configuration a) <=?
              Z.of_nat (length (List.filter (fun m => verified_at_least t boundary (cm_identity m))
                                  (cd_members (mr_current_configuration a))))))
  | None =>
      match qt_catch_up_boundary t with
      | None => Ok true
      | Some boundary =>
          let progress := current_configuration_quorum_progress t in
          Ok ((boundary <=? progress)
              && forallb (fun i => is_some_and (fun p => progress <=? p) (qt_progress t !! i))
                   (elements (qt_must_catch_up t)))
      end
  end.

Definition all_caught_up (t : QuorumTracker) (lsn : Lsn) : bool :=
  is_some_and (fun a => forallb (fun m => lsn <=? progress_of (qt_progress t) m)
                          (cd_members (mr_current_configuration a)))
    (qt_authority t).

Definition ready_commit_lsn (t : QuorumTracker) : option Lsn :=
  a ← qt_authority t;
  max_lsn (List.filter (client_commit_ready a (qt_progress t)) (keys (qt_pending t))).

Definition finalize_commit (committed : Lsn) : tracker unit :=
  let! t := m_get in
  let! ready := m_lift (ok_or (ready_commit_lsn t)
                  (Application (Text "no quorum-ready write can be finalized"))) in
  if ready <? committed
  then m_err (Application (Text "application commit exceeds quorum-ready progress"))
  else
    m_modify (complete_up_to committed) ;!
    m_modify (fun t => t <| qt_committed_lsn := Z.max (qt_committed_lsn t) committed |>).

Definition restore_committed_lsn (committed : Lsn) (t : QuorumTracker) : QuorumTracker :=
  let t := raise_highest committed (complete_up_to committed t) in
  t <| qt_committed_lsn := Z.max (qt_committed_lsn t) committed |>.

Definition reset_progress_after_data_loss (local : ReplicaIdentity) (current committed : Lsn)
    (t : QuorumTracker) : QuorumTracker :=
  (fail_pending t)
    <| qt_progress := {[local := current]} |>
    <| qt_highest_lsn := current |>
    <| qt_committed_lsn := committed |>
    <| qt_catch_up_boundary := None |>
    <| qt_must_catch_up := ∅ |>
    <| qt_sessions := ∅ |>
    <| qt_verified := ∅ |>
    <| qt_witnesses := ∅ |>.

(** ** Quorum arithmetic *)

(** The members whose recorded progress has reached [lsn]. *)
Definition holders (c : ConfigurationDescriptor) (progress : gmap ReplicaIdentity Lsn) (lsn : Lsn)
    : gset ReplicaIdentity :=
  list_to_set (map cm_identity
    (List.filter (fun m => lsn <=? progress_of progress m) (cd_members c))).

Lemma length_filterb_map {A B} (g : A -> B) (f : B -> bool) l :
  length (List.filter f (map g l)) = length (List.filter (fun x => f (g x)) l).
Proof. induction l as [|x l IH]; simpl; [done|]. destruct (f (g x)); simpl; auto. Qed.

Lemma length_filterb_perm {A} (f : A -> bool) l l' :
  l ≡ₚ l' -> length (List.filter f l) = length (List.filter f l').
Proof.
  induction 1 as [|x l l' _ IH|x y l|l l' l'' _ IH1 _ IH2]; simpl; [done| | |congruence].
  - destruct (f x); simpl; auto.
  - by destruct (f x), (f y).
Qed.

Lemma filterb_all_false {A} (f : A -> bool) l :
  (forall x, x ∈ l -> f x = false) -> List.filter f l = [].
Proof.
  induction l as [|x l IH]; simpl; [done|]. intros Hall.
  rewrite Hall by set_solver. apply IH. set_solver.
Qed.

(** In a descending list the [k]-th value reaches [lsn] exactly when more than
    [k] values do. *)
Lemma descending_lookup vs lsn k :
  StronglySorted Z.ge vs -> 0 < lsn ->
  lsn <= default 0 (vs !! k) <-> (k < length (List.filter (fun v => (lsn <=? v)%Z) vs))%nat.
Proof.
  intros Hs Hpos. revert k. induction Hs as [|v vs Hs IH Hall]; intros k; simpl; [lia|].
  destruct (lsn <=? v) eqn:E; guards.
  - destruct k as [|k]; simpl; [lia|]. rewrite IH. lia.
  - rewrite filterb_all_false.
    2: { intros x Hx. rewrite Forall_forall in Hall. specialize (Hall x Hx). apply Z.leb_gt. lia. }
    simpl. destruct k as [|k]; simpl; [lia|]. rewrite IH, filterb_all_false; [simpl; lia|].
    intros x Hx. rewrite Forall_forall in Hall. specialize (Hall x Hx). apply Z.leb_gt. lia.
Qed.

Lemma has_quorum_iff_progress c progress lsn :
  1 <= cd_write_quorum c -> 0 < lsn ->
  has_quorum c progress lsn = true <-> lsn <= quorum_progress c progress.
Proof.
  intros Hwq Hpos. unfold has_quorum, quorum_progress.
  rewrite descending_lookup; [|apply (StronglySorted_merge_sort _); apply _|done].
  rewrite Z.leb_le, (length_filterb_perm _ _ _ (merge_sort_Permutation _ _)), length_filterb_map.
  unfold saturating_sub. lia.
Qed.

Lemma has_quorum_antitone c progress l l' :
  l' <= l -> has_quorum c progress l = true -> has_quorum c progress l' = true.
Proof.
  intros Hle. unfold has_quorum. rewrite !Z.leb_le. intros Hq. etrans; [exact Hq|].
  apply Nat2Z.inj_le. clear Hq. induction (cd_members c) as [|m ms IH]; simpl; [done|].
  destruct (l <=? _) eqn:E, (l' <=? _) eqn:E'; guards; simpl; lia.
Qed.

Lemma commit_ready_antitone a progress l l' :
  l' <= l -> client_commit_ready a progress l = true -> client_commit_ready a progress l' = true.
Proof.
  intros Hle. unfold client_commit_ready. rewrite !andb_true_iff, !is_none_or_true.
  intros [Hc Hp]. split; [by eapply has_quorum_antitone|].
  intros previous Heq. eapply has_quorum_antitone; eauto.
Qed.

Lemma elem_of_holders c progress lsn i :
  i ∈ holders c progress lsn <-> i ∈ exact_identities c /\ lsn <= get_or_zero progress i.
Proof.
  unfold holders. rewrite elem_of_list_to_set, list_elem_of_fmap, elem_of_exact_identities.
  setoid_rewrite elem_of_filterb. setoid_rewrite Z.leb_le. unfold progress_of. naive_solver.
Qed.

(** Members are counted, and their identities are distinct: the holders of a
    quorum-ready LSN form a write quorum. *)
Lemma has_quorum_write_quorum `{Sha256} c policy progress lsn :
  valid_configuration c policy -> has_quorum c progress lsn = true ->
  write_quorum_of c (holders c progress lsn).
Proof.
  intros Hv Hq. split.
  - intros i Hi. by apply elem_of_holders in Hi as [? _].
  - unfold has_quorum in Hq. guards. unfold holders. rewrite size_list_to_set, length_map; [done|].
    by apply NoDup_map_filterb, (valid_identities_NoDup _ _ Hv).
Qed.

(** ** Completions *)

Definition pending_channels (pending : gmap Z (list Channel)) : list Channel :=
  concat (map_to_list pending).*2.

(** Every channel ever handed out: still waiting, or answered. *)
Definition all_channels (t : QuorumTracker) : list Channel :=
  pending_channels (qt_pending t) ++ (sent (qt_channels t)).*1.

Lemma keys_perm {V} (m : gmap Z V) : keys m ≡ₚ (map_to_list m).*1.
Proof.
  apply NoDup_Permutation; [apply NoDup_keys|apply NoDup_fst_map_to_list|].
  intros k. rewrite elem_of_keys, list_elem_of_fmap. split.
  - intros [x Hx]. exists (k, x). split; [done|]. by apply elem_of_map_to_list.
  - intros ([k' x] & -> & Hx). apply elem_of_map_to_list in Hx. by exists x.
Qed.

Lemma concat_perm {A} (l l' : list (list A)) : l ≡ₚ l' -> concat l ≡ₚ concat l'.
Proof.
  induction 1 as [|x l l' _ IH|x y l|l l' l'' _ IH1 _ IH2]; simpl; [done|by rewrite IH| |by etrans].
  rewrite !app_assoc. apply Permutation_app_tail, Permutation_app_comm.
Qed.

Lemma senders_of_keys t :
  concat (map (senders t) (keys (qt_pending t))) ≡ₚ pending_channels (qt_pending t).
Proof.
  unfold pending_channels. rewrite (concat_perm _ (map (senders t) (map_to_list (qt_pending t)).*1)).
  2: { by rewrite keys_perm. }
  apply reflexive_eq. f_equal. rewrite map_map. apply map_ext_in. intros [k cs] Hin%list_elem_of_In. simpl.
  apply elem_of_map_to_list in Hin. unfold senders. by rewrite Hin.
Qed.

Lemma pending_channels_delete pending lsn :
  pending_channels pending
  ≡ₚ default [] (pending !! lsn) ++ pending_channels (delete lsn pending).
Proof.
  destruct (pending !! lsn) as [cs|] eqn:E; simpl.
  - unfold pending_channels. by rewrite <-(map_to_list_delete pending lsn cs E).
  - by rewrite delete_id.
Qed.

Lemma pending_channels_insert pending lsn cs :
  pending_channels (<[lsn := cs]> pending) ≡ₚ cs ++ pending_channels (delete lsn pending).
Proof.
  rewrite (pending_channels_delete _ lsn), lookup_insert_eq, delete_insert_eq. done.
Qed.

Lemma settle_all lsns t :
  NoDup lsns ->
  let t' := fold_left settle lsns t in
  t' = t <| qt_pending := qt_pending t' |> <| qt_channels := qt_channels t' |> /\
  next_channel (qt_channels t') = next_channel (qt_channels t) /\
  sent (qt_channels t') = sent (qt_channels t) ++
    concat (map (fun lsn => map (fun c => (c, Ok lsn)) (senders t lsn)) lsns) /\
  (forall l, qt_pending t' !! l = if decide (l ∈ lsns) then None else qt_pending t !! l).
Proof.
  revert t. induction lsns as [|lsn lsns IH]; intros t Hnd; simpl.
  { split_and!; [by destruct t|done|by rewrite app_nil_r|done]. }
  apply NoDup_cons in Hnd as [Hlsn Hnd]. destruct (IH (settle t lsn) Hnd) as (Heq & Hn & Hs & Hp).
  split_and!.
  - rewrite Heq at 1. done.
  - by rewrite Hn.
  - rewrite Hs. simpl. rewrite <-app_assoc. do 3 f_equal.
    apply map_ext_in. intros l Hl%list_elem_of_In. f_equal. unfold senders. simpl.
    rewrite lookup_delete_ne; [done|]. by intros ->.
  - intros l. rewrite Hp. simpl. destruct (decide (l = lsn)) as [->|Hne].
    + rewrite lookup_delete_eq. case_decide; [|rewrite decide_True by set_solver]; 
        rewrite ?decide_True by set_solver; done.
    + rewrite lookup_delete_ne by done. case_decide.
      * by rewrite decide_True by set_solver.
      * by rewrite decide_False by set_solver.
Qed.

Lemma NoDup_take_while {A} (f : A -> bool) l : NoDup l -> NoDup (take_while f l).
Proof.
  induction 1 as [|x l Hx Hnd IH]; simpl; [constructor|]. destruct (f x); [|constructor].
  constructor; [|done]. contradict Hx. revert Hx. clear. induction l as [|y l IH]; simpl; [done|].
  destruct (f y); [|set_solver]. rewrite !elem_of_cons. naive_solver.
Qed.

(** [complete_up_to] answers exactly the pending writes up to the bound. *)
Lemma complete_up_to_spec bound t :
  let t' := complete_up_to bound t in
  t' = t <| qt_pending := qt_pending t' |> <| qt_channels := qt_channels t' |> /\
  next_channel (qt_channels t') = next_channel (qt_channels t) /\
  (exists outcomes, sent (qt_channels t') = sent (qt_channels t) ++ outcomes /\
     forall c r, (c, r) ∈ outcomes <-> exists l, r = Ok l /\ l <= bound /\ c ∈ senders t l) /\
  (forall l, qt_pending t' !! l = if l <=? bound then None else qt_pending t !! l).
Proof.
  unfold complete_up_to. set (lsns := take_while _ _).
  assert (Hin : forall l, l ∈ lsns <-> is_Some (qt_pending t !! l) /\ l <= bound).
  { intros l. unfold lsns. rewrite elem_of_take_while_sorted by apply keys_sorted.
    by rewrite elem_of_keys. }
  destruct (settle_all lsns t) as (Heq & Hn & Hs & Hp); [apply NoDup_take_while, NoDup_keys|].
  split_and!; [exact Heq|done| |].
  - eexists. split; [exact Hs|]. intros c r. rewrite list_elem_of_In, in_concat.
    setoid_rewrite <-list_elem_of_In. setoid_rewrite list_elem_of_fmap. split.
    + intros (? & (l & -> & Hl) & Hc). apply list_elem_of_fmap in Hc as (c' & [= -> ->] & Hc).
      apply Hin in Hl as [_ Hl]. eauto.
    + intros (l & -> & Hl & Hc). exists (map (fun c => (c, Ok l)) (senders t l)).
      split; [|apply list_elem_of_fmap; by eauto].
      exists l. split; [done|]. apply Hin. split; [|done].
      unfold senders in Hc. destruct (qt_pending t !! l); [eauto|by apply elem_of_nil in Hc].
  - intros l. rewrite Hp. destruct (l <=? bound) eqn:E; guards.
    + case_decide as Hl; [done|]. rewrite Hin in Hl.
      destruct (qt_pending t !! l) eqn:El; [|done]. destruct Hl. eauto.
    + rewrite decide_False; [done|]. rewrite Hin. lia.
Qed.
