(* ===== verification/QuorumSafety.v ===== *)
(** * Safety of the quorum tracker

    The operations of [replicator/quorum.rs] as the steps of a state machine,
    the invariant of its reachable states, and what follows for clients: a write
    is answered at most once, a success means that the write quorums of every
    admitted configuration hold the write, and a superseded peer session never
    earns quorum credit again. *)

From S2P Require Import Prelude Digest Types Intents Validation Quorums ScaleDown.
From S2P Require Import ManagedConfiguration Quorum.
From stdpp Require Import base gmap strings list sorting relations.
From Stdlib Require Import ZArith Lia.
Local Open Scope Z_scope.

(** ** The invariant *)

(** Channels are numbered in order and never shared. *)
Definition channels_ok (t : QuorumTracker) : Prop :=
  NoDup (all_channels t) /\ Forall (fun c => c < next_channel (qt_channels t))%nat (all_channels t).

Definition lsns_ok (t : QuorumTracker) : Prop :=
  qt_committed_lsn t <= qt_highest_lsn t /\
  forall lsn, is_Some (qt_pending t !! lsn) -> lsn <= qt_highest_lsn t.

(** The registered session of a peer has not been superseded. *)
Definition sessions_ok (t : QuorumTracker) : Prop :=
  forall i session, qt_sessions t !! i = Some session -> (i, session) ∉ qt_obsolete_sessions t.

Record tracker_ok (t : QuorumTracker) : Prop := {
  ok_channels : channels_ok t;
  ok_lsns : lsns_ok t;
  ok_sessions : sessions_ok t;
}.

(** What no operation takes back: the answers given, the sessions superseded. *)
Record grows (t t' : QuorumTracker) : Prop := {
  grows_sent : sent (qt_channels t) `prefix_of` sent (qt_channels t');
  grows_obsolete : qt_obsolete_sessions t ⊆ qt_obsolete_sessions t';
}.

#[export] Instance grows_preorder : PreOrder grows.
Proof.
  split; [by split|]. intros t1 t2 t3 [Hs Ho] [Hs' Ho']. split; [by etrans|set_solver].
Qed.

(** Recorded LSNs only grow; data loss is the exception. *)
Record advances (t t' : QuorumTracker) : Prop := {
  advances_committed : qt_committed_lsn t <= qt_committed_lsn t';
  advances_highest : qt_highest_lsn t <= qt_highest_lsn t';
}.

#[export] Instance advances_preorder : PreOrder advances.
Proof. split; [intros t; split; lia|]. intros t1 t2 t3 [] []. split; lia. Qed.

(** ** The steps *)

Section steps.
Context `{Sha256}.

Inductive tracker_step (t : QuorumTracker) : QuorumTracker -> Prop :=
| StepConfigure a progress : tracker_step t (fst (configure_prevalidated a progress t))
| StepSession i session : tracker_step t (fst (register_peer_session i session t))
| StepVerifiedLocal lsn : tracker_step t (record_verified_local_progress lsn t)
| StepObserve w : tracker_step t (fst (observe_secondary_removal w t))
| StepObserveProgress w c : tracker_step t (fst (observe_secondary_removal_progress w c t))
| StepObserveCommitted w : tracker_step t (fst (observe_committed_secondary_removal w t))
| StepRestoreCommitted w : tracker_step t (fst (restore_committed_secondary_removal w t))
| StepRegisterWrite lsn : tracker_step t (fst (register_write lsn t))
| StepLocalProgress lsn : tracker_step t (fst (record_local_progress lsn t))
| StepBuildProgress i lsn : tracker_step t (record_prepared_build_handoff_progress i lsn t)
| StepAcknowledge k : tracker_step t (fst (acknowledge k t))
| StepAcknowledgeSession k session : tracker_step t (fst (acknowledge_in_session k session t))
| StepFailPending : tracker_step t (fail_pending t)
| StepFinalize lsn : tracker_step t (fst (finalize_commit lsn t))
| StepRestore lsn : tracker_step t (restore_committed_lsn lsn t)
(** [control_on_data_loss] resets both LSNs to the provider's progress *)
| StepReset local lsn : tracker_step t (reset_progress_after_data_loss local lsn lsn t).

Definition reachable (t : QuorumTracker) : Prop := rtc tracker_step tracker_default t.

(** ** Preservation *)

(** The part of the state the invariant talks about. *)
Record same_core (t t' : QuorumTracker) : Prop := {
  sc_pending : qt_pending t' = qt_pending t;
  sc_channels : qt_channels t' = qt_channels t;
  sc_committed : qt_committed_lsn t' = qt_committed_lsn t;
  sc_highest : qt_highest_lsn t <= qt_highest_lsn t';
  sc_sessions : qt_sessions t' ⊆ qt_sessions t;
  sc_obsolete : qt_obsolete_sessions t' = qt_obsolete_sessions t;
}.

#[export] Instance same_core_preorder : PreOrder same_core.
Proof.
  split; [by split|]. intros t1 t2 t3 [] []. split; try congruence; [lia|by etrans].
Qed.

Lemma same_core_ok t t' : same_core t t' -> tracker_ok t -> tracker_ok t'.
Proof.
  intros [Hp Hc Hcm Hh Hs Ho] [Hch [Hl1 Hl2] Hse]. split.
  - unfold channels_ok, all_channels in *. by rewrite Hp, Hc.
  - split; [lia|]. intros lsn. rewrite Hp. intros Hlsn. specialize (Hl2 lsn Hlsn). lia.
  - intros i session Hi. rewrite Ho. eapply Hse, lookup_weaken; eauto.
Qed.

Lemma same_core_grows t t' : same_core t t' -> grows t t'.
Proof. intros [_ Hc _ _ _ Ho]. split; [by rewrite Hc|by rewrite Ho]. Qed.

(** A step is sound when it keeps the invariant, takes nothing back and
    advances; it is safe when it moreover admits no new write. *)
Definition sound (t t' : QuorumTracker) : Prop :=
  keeps tracker_ok t t' /\ grows t t' /\ advances t t'.

Definition safe (t t' : QuorumTracker) : Prop :=
  sound t t' /\ dom (qt_pending t') ⊆ dom (qt_pending t).

#[export] Instance sound_preorder : PreOrder sound.
Proof.
  split; [intros t; split_and!; reflexivity|].
  intros t1 t2 t3 (? & ? & ?) (? & ? & ?). split_and!; etrans; eauto.
Qed.

#[export] Instance safe_preorder : PreOrder safe.
Proof.
  split; [intros t; split; reflexivity|].
  intros t1 t2 t3 [? ?] [? ?]. split; etrans; eauto.
Qed.

Lemma safe_sound t t' : safe t t' -> sound t t'.
Proof. by intros []. Qed.

Lemma same_core_safe t t' : same_core t t' -> safe t t'.
Proof.
  intros Hc. split; [split_and!|]; [intros ?; by eapply same_core_ok|by apply same_core_grows| |].
  - destruct Hc. split; lia.
  - by rewrite (sc_pending _ _ Hc).
Qed.

Lemma raise_progress_core i lsn t : same_core t (raise_progress i lsn t).
Proof. by split. Qed.
Lemma raise_highest_core lsn t : same_core t (raise_highest lsn t).
Proof. split; try done. simpl. lia. Qed.
Lemma record_witness_core w t : same_core t (record_witness w t).
Proof. by split. Qed.
Lemma drop_credit_core t : same_core t (drop_credit t).
Proof. by split. Qed.
#[local] Hint Resolve raise_progress_core raise_highest_core record_witness_core
  drop_credit_core same_core_safe : evolves.

(** Sending answers moves channels from the pending side to the sent side. *)
Lemma send_safe t t' answers :
  qt_channels t' = (qt_channels t) <| sent := sent (qt_channels t) ++ answers |> ->
  pending_channels (qt_pending t) ≡ₚ answers.*1 ++ pending_channels (qt_pending t') ->
  (forall lsn, is_Some (qt_pending t' !! lsn) -> is_Some (qt_pending t !! lsn)) ->
  qt_committed_lsn t' = qt_committed_lsn t -> qt_highest_lsn t' = qt_highest_lsn t ->
  qt_sessions t' = qt_sessions t -> qt_obsolete_sessions t' = qt_obsolete_sessions t ->
  safe t t'.
Proof.
  intros Hc Hp Hsub Hcm Hh Hs Ho.
  split; [split_and!; [|split; [rewrite Hc; by eexists|by rewrite Ho]|split; lia]|].
  2: { intros l. rewrite !elem_of_dom. auto. }
  intros [[Hnd Hlt] [Hl1 Hl2] Hse].
  assert (Hperm : all_channels t' ≡ₚ all_channels t).
  { unfold all_channels. rewrite Hc, Hp. simpl. rewrite fmap_app.
    rewrite (Permutation_app_comm (sent _).*1), app_assoc.
    by rewrite (Permutation_app_comm (answers.*1)). }
  split.
  - unfold channels_ok. by rewrite Hperm, Hc.
  - split; [by rewrite Hcm, Hh|]. rewrite Hh. auto.
  - intros i session. rewrite Hs, Ho. auto.
Qed.

Lemma fail_all_safe outcome t : safe t (fail_all outcome t).
Proof.
  apply (send_safe _ _ (map (fun c => (c, outcome))
           (concat (map (senders t) (keys (qt_pending t)))))); try done; simpl.
  - rewrite <-senders_of_keys, app_nil_r. apply reflexive_eq.
    rewrite <-list_fmap_compose. symmetry. apply list_fmap_id.
  - intros lsn. rewrite lookup_empty. by intros [].
Qed.

Lemma settle_safe t lsn : safe t (settle t lsn).
Proof.
  apply (send_safe _ _ (map (fun c => (c, Ok lsn)) (senders t lsn))); try done; simpl.
  - rewrite (pending_channels_delete _ lsn). apply Permutation_app_tail, reflexive_eq.
    rewrite <-list_fmap_compose. symmetry. apply list_fmap_id.
  - intros l [cs Hl]. apply lookup_delete_Some in Hl as [_ Hl]. eauto.
Qed.

Lemma complete_up_to_safe bound t : safe t (complete_up_to bound t).
Proof.
  unfold complete_up_to. generalize (take_while (fun lsn => lsn <=? bound) (keys (qt_pending t))).
  intros lsns. revert t. induction lsns as [|lsn lsns IH]; intros t; simpl; [reflexivity|].
  etrans; [apply settle_safe|apply IH].
Qed.

#[local] Hint Resolve fail_all_safe complete_up_to_safe : evolves.

Ltac core := intros ?; apply same_core_safe; split; simpl; try done.

Lemma get_authority_safe : evolves safe get_authority.
Proof. unfold get_authority. auto with evolves typeclass_instances. Qed.
#[local] Hint Resolve get_authority_safe : evolves.

Lemma configure_safe a progress : evolves safe (configure_prevalidated a progress).
Proof.
  unfold configure_prevalidated. evolve; apply evolves_modify; core. apply map_filter_subseteq.
Qed.

Lemma register_write_sound lsn : evolves sound (register_write lsn).
Proof.
  intros t. unfold register_write, get_authority, m_bind, m_get, m_lift, m_modify. simpl.
  destruct (qt_authority t); simpl; [|reflexivity].
  split_and!; [|by split|split; simpl; lia]. intros [[Hnd Hlt] [Hl1 Hl2] Hse].
  set (c := next_channel (qt_channels t)) in *.
  assert (Hperm : pending_channels (<[lsn := senders t lsn ++ [c]]> (qt_pending t))
                  ≡ₚ c :: pending_channels (qt_pending t)).
  { rewrite pending_channels_insert, (pending_channels_delete (qt_pending t) lsn).
    unfold senders. rewrite <-app_assoc. simpl. by rewrite <-Permutation_middle. }
  split.
  - unfold channels_ok, all_channels in *. simpl. fold c. rewrite Hperm. simpl. split.
    + constructor; [|done]. intros Hin. rewrite Forall_forall in Hlt. specialize (Hlt c Hin). lia.
    + constructor; [lia|]. eapply Forall_impl; [exact Hlt|]. simpl. lia.
  - split; simpl; [lia|]. intros l Hl. destruct (decide (l = lsn)) as [->|Hne]; [lia|].
    rewrite lookup_insert_ne in Hl by done. specialize (Hl2 l Hl). lia.
  - exact Hse.
Qed.

Lemma register_peer_session_safe i session : evolves safe (register_peer_session i session).
Proof.
  intros t. unfold register_peer_session, get_authority, m_bind, m_get, m_lift. simpl.
  destruct (qt_authority t) as [a|]; simpl; [|reflexivity].
  destruct (_ || _) eqn:Hguard; [reflexivity|].
  destruct (qt_sessions t !! i != Some session) eqn:Hnew; [|reflexivity].
  guards. unfold m_modify. simpl.
  assert (Hhist : forall j s, (j, s) ∈ historical_sessions a i session -> j = i /\ s <> session).
  { intros j s. unfold historical_sessions. destruct (mr_secondary_removal a); [|set_solver].
    rewrite elem_of_list_to_set, list_elem_of_fmap. intros (w & [= -> ->] & Hw).
    apply elem_of_filterb in Hw as [_ Hw]. guards. done. }
  split; [split_and!; [|split|]|]; simpl.
  - intros [Hch Hl Hse]. split; simpl.
    + by destruct (qt_sessions t !! i).
    + by destruct (qt_sessions t !! i).
    + intros j s. destruct (decide (j = i)) as [->|Hji].
      * destruct (qt_sessions t !! i) as [old|] eqn:Hold; simpl; rewrite lookup_insert_eq;
          intros [= <-] Hin; revert Hin; rewrite ?elem_of_union, ?elem_of_singleton; naive_solver.
      * destruct (qt_sessions t !! i) as [old|] eqn:Hold; simpl; rewrite lookup_insert_ne by done;
          intros Hj; specialize (Hse j s Hj); rewrite ?elem_of_union, ?elem_of_singleton; naive_solver.
  - by destruct (qt_sessions t !! i).
  - destruct (qt_sessions t !! i); simpl; set_solver.
  - destruct (qt_sessions t !! i); split; simpl; lia.
  - by destruct (qt_sessions t !! i).
Qed.
#[local] Hint Resolve register_peer_session_safe : evolves.

Lemma observe_secondary_removal_safe w : evolves safe (observe_secondary_removal w).
Proof. unfold observe_secondary_removal, mismatch. evolve. Qed.
#[local] Hint Resolve observe_secondary_removal_safe : evolves.

Lemma observe_progress_safe w c : evolves safe (observe_secondary_removal_progress w c).
Proof. unfold observe_secondary_removal_progress, mismatch. evolve. apply evolves_modify. core. Qed.

Lemma observe_committed_safe w : evolves safe (observe_committed_secondary_removal w).
Proof. unfold observe_committed_secondary_removal. evolve. Qed.
#[local] Hint Resolve observe_committed_safe : evolves.

Lemma restore_committed_removal_safe w : evolves safe (restore_committed_secondary_removal w).
Proof. unfold restore_committed_secondary_removal. evolve. Qed.

Lemma record_local_progress_safe lsn : evolves safe (record_local_progress lsn).
Proof. unfold record_local_progress. evolve. Qed.

Lemma acknowledge_safe k : evolves safe (acknowledge k).
Proof. unfold acknowledge. evolve. Qed.
#[local] Hint Resolve acknowledge_safe : evolves.

Lemma acknowledge_in_session_safe k session : evolves safe (acknowledge_in_session k session).
Proof. unfold acknowledge_in_session, mismatch. evolve. Qed.

Lemma max_lsn_elem lsns lsn :
  max_lsn lsns = Some lsn -> lsn ∈ lsns /\ forall l, l ∈ lsns -> l <= lsn.
Proof.
  destruct lsns as [|l0 lsns]; [done|]. simpl. intros [= <-].
  revert l0. induction lsns as [|l1 lsns IH]; intros l0; simpl; [set_solver by lia|].
  destruct (IH (Z.max l0 l1)) as [Hin Hmax]. split.
  - apply elem_of_cons in Hin as [Heq|Hin]; [|set_solver]. rewrite Heq. 
    destruct (Z.max_spec l0 l1) as [[_ ->]|[_ ->]]; set_solver.
  - intros l Hl. pose proof (Hmax (Z.max l0 l1) ltac:(set_solver)) as Hm.
    rewrite !elem_of_cons in Hl. destruct Hl as [->|[->|Hl]]; [lia..|]. apply Hmax. set_solver.
Qed.

(** The largest quorum-ready write is pending, and so is what it bounds. *)
Lemma ready_commit_lsn_spec t ready :
  ready_commit_lsn t = Some ready ->
  exists a, qt_authority t = Some a /\ is_Some (qt_pending t !! ready) /\
    client_commit_ready a (qt_progress t) ready = true.
Proof.
  unfold ready_commit_lsn. destruct (qt_authority t) as [a|]; [|done]. simpl.
  intros [Hin _]%max_lsn_elem. apply elem_of_filterb in Hin as [Hin ?].
  rewrite elem_of_keys in Hin. eauto.
Qed.

(** Raising the committed LSN up to the highest LSN. *)
Lemma raise_committed_safe t lsn :
  (lsns_ok t -> lsn <= qt_highest_lsn t) ->
  safe t (t <| qt_committed_lsn := Z.max (qt_committed_lsn t) lsn |>).
Proof.
  intros Hle. split; [split_and!; [|by split|split; simpl; lia]|done]. intros [Hc Hl Hs]. specialize (Hle Hl) as Hle'.
  split; [exact Hc| |exact Hs]. destruct Hl as [Hl1 Hl2]. split; simpl; [lia|exact Hl2].
Qed.

Lemma complete_up_to_lsns bound t :
  qt_highest_lsn (complete_up_to bound t) = qt_highest_lsn t /\
  qt_committed_lsn (complete_up_to bound t) = qt_committed_lsn t.
Proof. destruct (complete_up_to_spec bound t) as (-> & _). done. Qed.

Lemma finalize_commit_cases committed t :
  (exists ready, ready_commit_lsn t = Some ready /\ committed <= ready /\
     finalize_commit committed t =
       ((complete_up_to committed t)
          <| qt_committed_lsn := Z.max (qt_committed_lsn t) committed |>, Ok tt)) \/
  (exists e, finalize_commit committed t = (t, Err e)).
Proof.
  unfold finalize_commit, m_bind, m_get, m_lift. simpl.
  destruct (ready_commit_lsn t) as [ready|]; simpl; [|by right; eexists].
  destruct (ready <? committed) eqn:E; [by right; eexists|]. guards. left. exists ready.
  split_and!; [done..|]. unfold m_modify. by rewrite (proj2 (complete_up_to_lsns _ _)).
Qed.

Lemma finalize_commit_safe committed : evolves safe (finalize_commit committed).
Proof.
  intros t. destruct (finalize_commit_cases committed t) as [(ready & Hr & Hle & ->)|[e ->]];
    [|reflexivity]. simpl.
  destruct (complete_up_to_lsns committed t) as [Hh Hc]. rewrite <-Hc.
  pose proof (complete_up_to_safe committed t) as Hsafe.
  assert (Hraise : tracker_ok t -> safe (complete_up_to committed t) (complete_up_to committed t)
    <| qt_committed_lsn := Z.max (qt_committed_lsn (complete_up_to committed t)) committed |>).
  { intros [_ [_ Hl] _]. apply raise_committed_safe. intros _. rewrite Hh.
    apply ready_commit_lsn_spec in Hr as (a & _ & Hp & _). specialize (Hl ready Hp). lia. }
  destruct Hsafe as ((Hkeep & [] & []) & Hsub).
  split; [split_and!; [|by split|split; simpl; lia]|done].
  intros Hok. by apply (Hraise Hok), Hkeep.
Qed.

Lemma restore_committed_lsn_safe committed t : safe t (restore_committed_lsn committed t).
Proof.
  unfold restore_committed_lsn. etrans; [apply (complete_up_to_safe committed)|].
  etrans; [apply same_core_safe, (raise_highest_core committed)|].
  apply raise_committed_safe. intros _. simpl. lia.
Qed.

Lemma reset_keeps local lsn t :
  keeps tracker_ok t (reset_progress_after_data_loss local lsn lsn t) /\
  grows t (reset_progress_after_data_loss local lsn lsn t).
Proof.
  unfold reset_progress_after_data_loss. destruct (fail_all_safe
    (Err (WriteClosed ReconfigurationPending)) t) as ((Hkeep & [Hsent Hobs] & _) & _).
  split; [|by split]. intros Hok. apply Hkeep in Hok as [Hc _ _]. split.
  - exact Hc.
  - split; simpl; [lia|]. intros l. rewrite lookup_empty. by intros [].
  - intros i s. simpl. by rewrite lookup_empty.
Qed.

Lemma record_verified_local_progress_safe lsn t : safe t (record_verified_local_progress lsn t).
Proof.
  unfold record_verified_local_progress. destruct (qt_authority t); [|reflexivity].
  apply same_core_safe. by split.
Qed.

Lemma record_build_progress_safe i lsn t :
  safe t (record_prepared_build_handoff_progress i lsn t).
Proof.
  etrans; [apply same_core_safe, raise_progress_core|apply same_core_safe, raise_highest_core].
Qed.

Lemma tracker_step_safe t t' :
  tracker_step t t' ->
  sound t t' \/ exists local lsn, t' = reset_progress_after_data_loss local lsn lsn t.
Proof.
  destruct 1; [left..|right];
    [ apply safe_sound, configure_safe | apply safe_sound, register_peer_session_safe
    | apply safe_sound, record_verified_local_progress_safe
    | apply safe_sound, observe_secondary_removal_safe
    | apply safe_sound, observe_progress_safe | apply safe_sound, observe_committed_safe
    | apply safe_sound, restore_committed_removal_safe | apply register_write_sound
    | apply safe_sound, record_local_progress_safe | apply safe_sound, record_build_progress_safe
    | apply safe_sound, acknowledge_safe | apply safe_sound, acknowledge_in_session_safe
    | apply safe_sound, fail_all_safe | apply safe_sound, finalize_commit_safe
    | apply safe_sound, restore_committed_lsn_safe | eauto ].
Qed.

Lemma tracker_default_ok : tracker_ok tracker_default.
Proof.
  split.
  - split; constructor.
  - split; [done|]. intros lsn. simpl. rewrite lookup_empty. by intros [].
  - intros i s. simpl. by rewrite lookup_empty.
Qed.

Lemma steps_safe t t' : rtc tracker_step t t' -> keeps tracker_ok t t' /\ grows t t'.
Proof.
  induction 1 as [|t1 t2 t3 Hstep _ IH]; [split; reflexivity|].
  assert (keeps tracker_ok t1 t2 /\ grows t1 t2) as [].
  { apply tracker_step_safe in Hstep as [(? & ? & _)|(local & lsn & ->)]; [done|apply reset_keeps]. }
  destruct IH. split; etrans; eauto.
Qed.

Lemma reachable_ok t : reachable t -> tracker_ok t.
Proof. intros Hr. eapply steps_safe; [exact Hr|apply tracker_default_ok]. Qed.

(** ** What an installed authority means for the data steps *)

(** A configuration that passed validation, with or without a policy. *)
Definition validated (c : ConfigurationDescriptor) : Prop :=
  exists policy, valid_configuration c policy /\
    forall p, policy = Some p -> validate_policy p = Ok tt.

(** The configurations whose quorums a write needs. *)
Definition commits_in (a : ManagedReplicaConfiguration) (c : ConfigurationDescriptor) : Prop :=
  c = mr_current_configuration a \/ mr_previous_configuration a = Some c.

Lemma client_commit_ready_iff a progress lsn :
  client_commit_ready a progress lsn = true <->
  forall c, commits_in a c -> has_quorum c progress lsn = true.
Proof.
  unfold client_commit_ready, commits_in. rewrite andb_true_iff, is_none_or_true. naive_solver.
Qed.

(** A replica of every read quorum holds a quorum-ready write. *)
Lemma commit_ready_read_quorum a progress lsn c R :
  client_commit_ready a progress lsn = true -> 0 < lsn ->
  commits_in a c -> validated c -> read_quorum_of c R ->
  exists i p, i ∈ R /\ progress !! i = Some p /\ lsn <= p.
Proof.
  intros Hready Hpos Hc (policy & Hv & Hpol) HR.
  rewrite client_commit_ready_iff in Hready. specialize (Hready c Hc).
  pose proof (has_quorum_write_quorum _ _ _ _ Hv Hready) as HW.
  destruct (read_write_quorums_intersect c R _ (valid_configuration_majority _ _ Hv Hpol) HR HW)
    as (i & HiR & HiW).
  apply elem_of_holders in HiW as [_ Hle]. unfold get_or_zero in Hle.
  exists i. destruct (progress !! i) as [p|]; simpl in Hle; [eauto|lia].
Qed.

(** What [configure_prevalidated] installs and the data steps leave alone. *)
Record same_install (t t' : QuorumTracker) : Prop := {
  si_authority : qt_authority t' = qt_authority t;
  si_must_catch_up : qt_must_catch_up t' = qt_must_catch_up t;
  si_boundary : qt_catch_up_boundary t' = qt_catch_up_boundary t;
}.
#[export] Instance same_install_preorder : PreOrder same_install.
Proof. split; [by split|]. intros t1 t2 t3 [] []. split; congruence. Qed.

(** Progress, acknowledgements and writes, under one authority. *)
Inductive data_step (t : QuorumTracker) : QuorumTracker -> Prop :=
| DataSession i session : data_step t (fst (register_peer_session i session t))
| DataLocalProgress lsn : data_step t (fst (record_local_progress lsn t))
| DataBuildProgress i lsn : data_step t (record_prepared_build_handoff_progress i lsn t)
| DataRegisterWrite lsn : data_step t (fst (register_write lsn t))
| DataAcknowledge k : data_step t (fst (acknowledge k t))
| DataAcknowledgeSession k session : data_step t (fst (acknowledge_in_session k session t))
| DataFailPending : data_step t (fail_pending t)
| DataFinalize lsn : data_step t (fst (finalize_commit lsn t))
| DataRestore lsn : data_step t (restore_committed_lsn lsn t).

Lemma complete_up_to_install bound t : same_install t (complete_up_to bound t).
Proof. destruct (complete_up_to_spec bound t) as (-> & _). by split. Qed.

Lemma get_authority_install : evolves same_install get_authority.
Proof. unfold get_authority. evolve. Qed.
#[local] Hint Resolve get_authority_install complete_up_to_install : evolves.

Ltac install := apply evolves_modify; intros ?; by split.

Lemma acknowledge_install k : evolves same_install (acknowledge k).
Proof. unfold acknowledge. evolve. install. Qed.
#[local] Hint Resolve acknowledge_install : evolves.

Lemma register_peer_session_install i session :
  evolves same_install (register_peer_session i session).
Proof.
  unfold register_peer_session, mismatch. evolve; [install| |install].
  apply evolves_modify. intros t. by destruct (qt_sessions t !! i).
Qed.

Lemma data_step_install t t' : data_step t t' -> same_install t t'.
Proof.
  destruct 1.
  - apply register_peer_session_install.
  - revert t. change (evolves same_install (record_local_progress lsn)).
    unfold record_local_progress. evolve; install.
  - by split.
  - unfold register_write, get_authority, m_bind, m_get, m_lift. simpl.
    destruct (qt_authority t) eqn:?; by split.
  - apply acknowledge_install.
  - revert t. change (evolves same_install (acknowledge_in_session k session)).
    unfold acknowledge_in_session, mismatch. evolve.
  - by split.
  - destruct (finalize_commit_cases lsn t) as [(ready & _ & _ & ->)|[e ->]]; [|reflexivity].
    etrans; [apply (complete_up_to_install lsn)|by split].
  - etrans; [apply (complete_up_to_install lsn)|by split].
Qed.

Lemma data_steps_install t t' : rtc data_step t t' -> same_install t t'.
Proof.
  induction 1; [reflexivity|]. etrans; [by apply data_step_install|done].
Qed.

Lemma derive_must_catch_up_ok {E} a policy :
  valid_configuration (mr_current_configuration a) policy ->
  exists required, derive_must_catch_up (E := E) a = Ok required /\
    forall previous m, mr_previous_configuration a = Some previous ->
      find_primary (mr_current_configuration a) = Some m ->
      has_member_with_role previous (cm_identity m) Primary = false ->
      cm_identity m ∈ required.
Proof.
  intros Hv. destruct (find_primary_some _ _ Hv) as (m & Hm & _).
  unfold derive_must_catch_up. destruct (mr_previous_configuration a) as [previous|];
    [|by eexists; split; [|intros ? ? [=]]].
  rewrite Hm. simpl. destruct (has_member_with_role previous _ _) eqn:Hrole.
  - eexists. split; [done|]. intros ? ? [= <-] [= <-] ?. congruence.
  - eexists. split; [done|]. intros ? ? [= <-] [= <-] _. set_solver.
Qed.

(** Installing another authority. *)
Lemma configure_installs a p t policy :
  valid_configuration (mr_current_configuration a) policy -> qt_authority t <> Some a ->
  exists t', configure_prevalidated a p t = (t', Ok tt) /\
    qt_authority t' = Some a /\ derive_must_catch_up (E := RuntimeError) a = Ok (qt_must_catch_up t') /\
    qt_catch_up_boundary t' = catch_up_boundary_of a (Z.max (qt_highest_lsn t) p).
Proof.
  intros Hv Hne. destruct (derive_must_catch_up_ok (E := RuntimeError) a policy Hv) as (required & Hreq & _).
  unfold configure_prevalidated, m_bind, m_get, m_lift, m_ret, m_modify. simpl.
  rewrite (bool_decide_false (qt_authority t = Some a)) by done. simpl. rewrite Hreq.
  destruct (qt_authority t) as [old|]; simpl;
    [destruct (is_some (mr_scale_up a) && _); simpl|]; by eexists.
Qed.

(** Replacing the authority fails every pending write and drops all credit but
    the local progress. *)
Lemma configure_replaces a p t policy old :
  valid_configuration (mr_current_configuration a) policy ->
  qt_authority t = Some old -> old <> a ->
  is_some (mr_scale_up a) && mr_is_current_only_completion_of a old = false ->
  exists t', configure_prevalidated a p t = (t', Ok tt) /\
    qt_pending t' = ∅ /\ qt_progress t' = {[mr_local_identity a := p]} /\
    qt_verified t' = ∅ /\ qt_witnesses t' = ∅ /\ qt_live_commits t' = ∅ /\
    qt_committed_lsn t' = qt_committed_lsn t /\
    sent (qt_channels t') = sent (qt_channels t) ++
      map (fun c => (c, Err (AuthorityMismatch
                       (Text "authority changed before the write committed"))))
        (concat (map (senders t) (keys (qt_pending t)))).
Proof.
  intros Hv Hold Hne Hcomp.
  destruct (derive_must_catch_up_ok (E := RuntimeError) a policy Hv) as (required & Hreq & _).
  unfold configure_prevalidated, m_bind, m_get, m_lift, m_ret, m_modify. simpl.
  rewrite Hold. rewrite (bool_decide_false (Some old = Some a)) by congruence. simpl.
  rewrite Hcomp. simpl. rewrite Hreq. eexists. split_and!; simpl; try done.
Qed.

End steps.

(** ** Properties *)

Section properties.
Context `{Sha256}.

(** [C3] A write that [finalize_commit] reports as committed is durable: the
    call answers exactly the clients waiting for LSNs up to the committed one,
    and each such LSN is held by a replica of every read quorum of the current
    configuration and, during a reconfiguration, of the previous one. *)
Theorem finalized_writes_are_durable t t' a committed :
  finalize_commit committed t = (t', Ok tt) -> qt_authority t = Some a ->
  (forall c, commits_in a c -> validated c) ->
  exists answers,
    sent (qt_channels t') = sent (qt_channels t) ++ answers /\
    (forall ch r, (ch, r) ∈ answers <->
       exists lsn, r = Ok lsn /\ lsn <= committed /\ ch ∈ senders t lsn) /\
    (forall ch lsn c R, (ch, Ok lsn) ∈ answers -> 0 < lsn ->
       commits_in a c -> read_quorum_of c R ->
       exists i p, i ∈ R /\ qt_progress t !! i = Some p /\ lsn <= p).
Proof.
  intros Hfin Ha Hvalid.
  destruct (finalize_commit_cases committed t) as [(ready & Hr & Hle & Heq)|[e Heq]];
    rewrite Heq in Hfin; [|done]. injection Hfin as <-. simpl.
  destruct (complete_up_to_spec committed t) as (_ & _ & (answers & Hs & Hans) & _).
  apply ready_commit_lsn_spec in Hr as (a' & Ha' & _ & Hready).
  assert (a' = a) as -> by congruence.
  exists answers. split_and!; [done..|]. intros ch lsn c R Hin Hpos Hc HR.
  apply Hans in Hin as (l & [= <-] & Hl & _).
  eapply commit_ready_read_quorum; eauto. eapply commit_ready_antitone; [|done]. lia.
Qed.

(** [C29] [finalize_commit] succeeds exactly when some pending write at or
    beyond the committed LSN is held by a quorum of every committing
    configuration.  It then removes exactly the pending writes up to the committed
    LSN, sends each of their clients the LSN of its write and nobody anything else,
    and raises the committed LSN.  Otherwise it changes nothing. *)
Theorem finalize_commit_exact committed t :
  (snd (finalize_commit committed t) = Ok tt <->
   exists a lsn, qt_authority t = Some a /\ is_Some (qt_pending t !! lsn) /\ committed <= lsn /\
     forall c, commits_in a c -> has_quorum c (qt_progress t) lsn = true) /\
  (snd (finalize_commit committed t) = Ok tt ->
   let t' := fst (finalize_commit committed t) in
   (forall lsn, qt_pending t' !! lsn = if lsn <=? committed then None else qt_pending t !! lsn) /\
   qt_committed_lsn t' = Z.max (qt_committed_lsn t) committed /\
   exists answers, sent (qt_channels t') = sent (qt_channels t) ++ answers /\
     forall ch r, (ch, r) ∈ answers <-> exists lsn, r = Ok lsn /\ lsn <= committed /\ ch ∈ senders t lsn) /\
  (snd (finalize_commit committed t) <> Ok tt -> fst (finalize_commit committed t) = t).
Proof.
  setoid_rewrite <- client_commit_ready_iff.
  destruct (finalize_commit_cases committed t) as [(ready & Hr & Hle & ->)|[e Heq]].
  - destruct (complete_up_to_spec committed t) as (_ & _ & Hanswers & Hpending).
    simpl. split_and!; [|by intros _|done].
    split; [intros _|done]. apply ready_commit_lsn_spec in Hr as (a & Ha & Hp & Hready). eauto 10.
  - rewrite Heq. simpl. split_and!; [|done..]. split; [done|].
    intros (a & lsn & Ha & Hp & Hle & Hready). exfalso.
    unfold finalize_commit, m_bind, m_get, m_lift in Heq. simpl in Heq.
    destruct (ready_commit_lsn t) as [ready|] eqn:Hr; simpl in Heq.
    + destruct (ready <? committed) eqn:E; [|done]. guards.
      unfold ready_commit_lsn in Hr. rewrite Ha in Hr. simpl in Hr.
      apply max_lsn_elem in Hr as [_ Hmax]. specialize (Hmax lsn).
      rewrite elem_of_filterb, elem_of_keys in Hmax. specialize (Hmax (conj Hp Hready)). lia.
    + unfold ready_commit_lsn in Hr. rewrite Ha in Hr. simpl in Hr.
      assert (Hin : lsn ∈ List.filter (client_commit_ready a (qt_progress t)) (keys (qt_pending t)))
        by (by rewrite elem_of_filterb, elem_of_keys).
      by destruct (List.filter _ _); [apply elem_of_nil in Hin|].
Qed.

(** In every reachable state a client channel is answered at most once
    and not while it is still waiting, no pending or committed LSN exceeds the
    highest recorded one, and no registered peer session is a superseded one. *)
Theorem reachable_tracker_ok t :
  reachable t ->
  NoDup (sent (qt_channels t)).*1 /\
  (forall lsn ch, ch ∈ senders t lsn -> ch ∉ (sent (qt_channels t)).*1) /\
  qt_committed_lsn t <= qt_highest_lsn t /\
  (forall lsn, is_Some (qt_pending t !! lsn) -> lsn <= qt_highest_lsn t) /\
  (forall i s, qt_sessions t !! i = Some s -> (i, s) ∉ qt_obsolete_sessions t).
Proof.
  intros Hr. apply reachable_ok in Hr as [[Hnd _] [Hl1 Hl2] Hs].
  unfold all_channels in Hnd. apply NoDup_app in Hnd as (_ & Hdisj & Hnd).
  split_and!; try done. intros lsn ch Hch. apply Hdisj.
  rewrite (pending_channels_delete _ lsn), elem_of_app. by left.
Qed.

(** Answers are final and LSNs move forward: whatever steps follow, the
    answers already sent stay, and the committed and highest LSNs do not
    decrease except in the step that resets them after data loss. *)
Theorem tracker_is_monotone t t' :
  tracker_step t t' ->
  sent (qt_channels t) `prefix_of` sent (qt_channels t') /\
  (qt_committed_lsn t <= qt_committed_lsn t' /\ qt_highest_lsn t <= qt_highest_lsn t' \/
   exists local lsn, t' = reset_progress_after_data_loss local lsn lsn t).
Proof.
  intros Hstep. apply tracker_step_safe in Hstep as [(_ & [] & [])|(local & lsn & ->)].
  - split; [done|by left].
  - split; [|eauto]. apply (reset_keeps local lsn t).
Qed.

(** A superseded peer session earns no credit again: once recorded as
    obsolete it can neither acknowledge replication nor be registered, after
    any further steps of the tracker. *)
Theorem superseded_session_is_fenced t t' i session k :
  reachable t -> (i, session) ∈ qt_obsolete_sessions t -> rtc tracker_step t t' ->
  ack_receiver k = i ->
  (exists e, acknowledge_in_session k session t' = (t', Err e)) /\
  (exists e, register_peer_session i session t' = (t', Err e)).
Proof.
  intros Hr Hobs Hsteps <-. pose proof (steps_safe _ _ Hsteps) as [Hkeep [_ Hsub]].
  assert (Hok : tracker_ok t') by (by apply Hkeep, reachable_ok).
  assert (Hobs' : (ack_receiver k, session) ∈ qt_obsolete_sessions t') by set_solver.
  split.
  - unfold acknowledge_in_session, m_bind, m_get. simpl. rewrite bool_decide_false; [by eexists|].
    intros Hs. by apply (ok_sessions _ Hok) in Hs.
  - unfold register_peer_session, get_authority, m_bind, m_get, m_lift. simpl.
    destruct (qt_authority t'); simpl; [|by eexists].
    rewrite (bool_decide_true (_ ∈ _)), orb_true_r by done. by eexists.
Qed.

(** Installing another authority never panics on a validated
    configuration, answers every pending write with an authority mismatch and
    keeps no progress but the local one, unless it is the current-only
    completion of a scale-up. *)
Theorem replaced_authority_fails_pending a p t old :
  validated (mr_current_configuration a) -> qt_authority t = Some old -> old <> a ->
  is_some (mr_scale_up a) && mr_is_current_only_completion_of a old = false ->
  exists t' answers, configure_prevalidated a p t = (t', Ok tt) /\
    qt_authority t' = Some a /\ qt_pending t' = ∅ /\
    qt_progress t' = {[mr_local_identity a := p]} /\
    qt_committed_lsn t' = qt_committed_lsn t /\
    sent (qt_channels t') = sent (qt_channels t) ++ answers /\
    (forall ch, ch ∈ answers.*1 <-> exists lsn, ch ∈ senders t lsn) /\
    (forall ch r, (ch, r) ∈ answers -> is_ok r = false).
Proof.
  intros (policy & Hv & _) Hold Hne Hcomp.
  destruct (configure_replaces a p t policy old) as (t' & Hc & Hp & Hpr & _ & _ & _ & Hcm & Hs);
    [done..|].
  destruct (configure_installs a p t policy) as (t2 & Hc2 & Ha & _); [done|congruence|].
  rewrite Hc in Hc2. injection Hc2 as <-.
  eexists _, _. split_and!; [exact Hc|done..|exact Hs| |].
  - intros ch. rewrite <-list_fmap_compose, list_fmap_id, list_elem_of_In, in_concat.
    setoid_rewrite <-list_elem_of_In. setoid_rewrite list_elem_of_fmap. split.
    + intros (? & (lsn & -> & _) & Hch). eauto.
    + intros (lsn & Hch). exists (senders t lsn). split; [|done]. exists lsn. split; [done|].
      rewrite elem_of_keys. unfold senders in Hch.
      destruct (qt_pending t !! lsn); [eauto|by apply elem_of_nil in Hch].
  - intros ch r (c & [= _ ->] & _)%list_elem_of_fmap. done.
Qed.

(** [C30] Catch-up under a changed primary.  When an authority is installed whose primary was not
    primary before, a boundary is frozen: the catch-up boundary of a scale-up, the LSN of a
    switchover's handoff, or else the highest LSN that the tracker knows of.  Once catch-up is
    complete, whatever data arrived since, the primary and a write quorum of the new
    configuration hold everything up to that boundary, and the primary also holds everything
    that a write quorum of the new configuration holds by then. *)
Theorem caught_up_primary_covers_quorum a p t t0 t' previous primary :
  validated (mr_current_configuration a) -> qt_authority t <> Some a ->
  mr_previous_configuration a = Some previous -> mr_secondary_removal a = None ->
  find_primary (mr_current_configuration a) = Some primary ->
  has_member_with_role previous (cm_identity primary) Primary = false ->
  configure_prevalidated a p t = (t0, Ok tt) -> rtc data_step t0 t' ->
  catch_up_complete (E := RuntimeError) t' = Ok true ->
  let boundary := match mr_scale_up a, mr_switchover_handoff a with
                  | Some e, _ => sui_catch_up_boundary_lsn (evidence_intent e)
                  | None, Some handoff => sh_handoff_lsn handoff
                  | None, None => Z.max (qt_highest_lsn t) p
                  end in
  exists reached, qt_progress t' !! cm_identity primary = Some reached /\ boundary <= reached /\
    (0 < boundary -> has_quorum (mr_current_configuration a) (qt_progress t') boundary = true) /\
    (forall lsn, 0 < lsn -> has_quorum (mr_current_configuration a) (qt_progress t') lsn = true ->
       lsn <= reached).
Proof.
  intros (policy & Hv & Hpol) Hne Hprev Hrem Hprim Hrole Hconf Hsteps Hdone boundary.
  destruct (configure_installs a p t policy Hv Hne) as (t1 & Hc & Ha & Hmust & Hb).
  rewrite Hconf in Hc. injection Hc as <-.
  destruct (data_steps_install _ _ Hsteps) as [Ha' Hm' Hb'].
  destruct (derive_must_catch_up_ok (E := RuntimeError) a policy Hv) as (required & Hreq & Hin).
  assert (cm_identity primary ∈ qt_must_catch_up t') as Hmem.
  { rewrite Hm'. rewrite Hmust in Hreq. injection Hreq as <-. eauto. }
  assert (qt_catch_up_boundary t' = Some boundary) as Hbound.
  { rewrite Hb', Hb. unfold catch_up_boundary_of, boundary. rewrite Hrem, Hprev.
    by destruct (mr_scale_up a), (mr_switchover_handoff a). }
  unfold catch_up_complete, current_configuration_quorum_progress in Hdone.
  rewrite Ha', Ha in Hdone. simpl in Hdone. rewrite Hrem in Hdone. simpl in Hdone.
  rewrite Hbound in Hdone. injection Hdone as Hdone. guards.
  rename select (forallb _ _ = true) into Hall. rewrite forallb_true in Hall.
  specialize (Hall (cm_identity primary)). rewrite elem_of_elements in Hall.
  apply Hall, is_some_and_true in Hmem as (reached & Hreach & Hle). guards.
  assert (forall lsn, 0 < lsn ->
            has_quorum (mr_current_configuration a) (qt_progress t') lsn = true <->
            lsn <= quorum_progress (mr_current_configuration a) (qt_progress t')) as Hq.
  { intros lsn Hlsn. apply has_quorum_iff_progress; [|done].
    rewrite (mc_quorum _ (valid_configuration_majority _ _ Hv Hpol)). unfold member_count.
    pose proof (Z.div_pos (Z.of_nat (length (cd_members (mr_current_configuration a)))) 2). lia. }
  exists reached. split_and!; [done|lia|intros Hpos; by apply Hq|]. intros lsn Hpos Hlsn%Hq; [lia|done].
Qed.

(** The sorted quorum progress and the member count agree: a positive LSN
    is held by a write quorum exactly when the quorum progress has reached it. *)
Theorem quorum_progress_correct c progress lsn :
  validated c -> 0 < lsn ->
  has_quorum c progress lsn = true <-> lsn <= quorum_progress c progress.
Proof.
  intros (policy & Hv & Hpol) Hpos. apply has_quorum_iff_progress; [|done].
  rewrite (mc_quorum _ (valid_configuration_majority _ _ Hv Hpol)). unfold member_count.
  pose proof (Z.div_pos (Z.of_nat (length (cd_members c))) 2). lia.
Qed.

End properties.

(** ** A sample run: a write under the replacement of the third replica *)

#[local] Existing Instance padding_sha256.

Lemma validated_intro c p :
  countable_members c -> validate_policy p = Ok tt -> validate_configuration c (Some p) = Ok tt ->
  validated c.
Proof.
  intros Hc Hp Hv. exists (Some p). split; [by apply valid_configuration_sound|congruence].
Qed.

Module Run.

Definition authority (previous : option ConfigurationDescriptor)
    (current : ConfigurationDescriptor) : ManagedReplicaConfiguration :=
  {| mr_local_identity := Sample.identity 1 "a"; mr_previous_configuration := previous;
     mr_current_configuration := current; mr_switchover_handoff := None;
     mr_secondary_removal := None; mr_scale_up := None; mr_build_kind := BuildProvisioning |}.

Definition joint : ManagedReplicaConfiguration := authority (Some Sample.previous) Sample.current.
Definition alone : ManagedReplicaConfiguration := authority None Sample.current.

Definition ack (lsn : Z) : ReplicationAck :=
  {| ack_sender := Sample.identity 1 "a"; ack_receiver := Sample.identity 2 "b";
     ack_epoch := cd_epoch Sample.current;
     ack_previous_configuration_id := Some (cd_configuration_id Sample.previous);
     ack_current_configuration_id := cd_configuration_id Sample.current;
     ack_received_lsn := lsn; ack_applied_lsn := lsn; ack_committed_lsn := 0 |}.

(** One replica registered its session twice; then a write is acknowledged. *)
Definition opened := fst (configure_prevalidated joint 0 tracker_default).
Definition first_session := fst (register_peer_session (Sample.identity 2 "b") "s1" opened).
Definition second_session := fst (register_peer_session (Sample.identity 2 "b") "s2" first_session).
Definition written := fst (record_local_progress 1 (fst (register_write 1 second_session))).
Definition acknowledged := fst (acknowledge_in_session (ack 1) "s2" written).
Definition finalized := fst (finalize_commit 1 acknowledged).

Lemma opened_reachable : reachable opened.
Proof. apply rtc_once. apply (StepConfigure tracker_default joint 0). Qed.

Lemma second_session_reachable : reachable second_session.
Proof.
  eapply rtc_r; [eapply rtc_r; [apply opened_reachable|]|].
  - apply (StepSession opened (Sample.identity 2 "b") "s1").
  - apply (StepSession first_session (Sample.identity 2 "b") "s2").
Qed.

Lemma joint_validated c : commits_in joint c -> validated c.
Proof.
  intros [->|[= <-]]; apply (validated_intro _ (Sample.policy 3)); vm_compute; reflexivity.
Qed.

(** A switchover to the second replica, seen from that replica. *)
Definition switchover : ManagedReplicaConfiguration :=
  {| mr_local_identity := Sample.identity 2 "b"; mr_previous_configuration := Some Sample.previous;
     mr_current_configuration := switched; mr_switchover_handoff := None;
     mr_secondary_removal := None; mr_scale_up := None; mr_build_kind := BuildProvisioning |}.

Definition switch_ack : ReplicationAck :=
  {| ack_sender := Sample.identity 2 "b"; ack_receiver := Sample.identity 1 "a";
     ack_epoch := cd_epoch switched;
     ack_previous_configuration_id := Some (cd_configuration_id Sample.previous);
     ack_current_configuration_id := cd_configuration_id switched;
     ack_received_lsn := 1; ack_applied_lsn := 1; ack_committed_lsn := 0 |}.

Definition elected := fst (configure_prevalidated switchover 1 tracker_default).
Definition caught_up := fst (acknowledge switch_ack elected).

Lemma switched_validated : validated switched.
Proof. apply (validated_intro _ (Sample.policy 3)); vm_compute; reflexivity. Qed.

Lemma current_validated : validated Sample.current.
Proof. apply joint_validated. by left. Qed.

End Run.

Lemma finalized_writes_are_durable_witness :
  exists answers, sent (qt_channels Run.finalized) = [] ++ answers /\ (0%nat, Ok 1) ∈ answers.
Proof.
  destruct (finalized_writes_are_durable Run.acknowledged Run.finalized Run.joint 1)
    as (answers & Hs & Hin & _).
  - vm_compute. reflexivity.
  - vm_compute. reflexivity.
  - apply Run.joint_validated.
  - exists answers. split; [exact Hs|]. apply Hin. exists 1. split_and!; [done..|].
    vm_compute. constructor.
Defined.

Lemma finalize_commit_exact_witness :
  qt_pending (fst (finalize_commit 1 Run.acknowledged)) !! 1 = None.
Proof.
  destruct (finalize_commit_exact 1 Run.acknowledged) as (_ & Hp & _).
  destruct Hp as [Hp _]; [vm_compute; reflexivity|]. apply (Hp 1).
Defined.

Lemma reachable_tracker_ok_witness :
  qt_committed_lsn Run.second_session <= qt_highest_lsn Run.second_session.
Proof.
  destruct (reachable_tracker_ok Run.second_session Run.second_session_reachable)
    as (_ & _ & Hle & _).
  exact Hle.
Defined.

Lemma tracker_is_monotone_witness :
  sent (qt_channels Run.acknowledged) `prefix_of` sent (qt_channels Run.finalized).
Proof.
  apply (tracker_is_monotone Run.acknowledged Run.finalized).
  apply (StepFinalize Run.acknowledged 1).
Defined.

Lemma superseded_session_is_fenced_witness :
  exists e, acknowledge_in_session (Run.ack 1) "s1" Run.second_session = (Run.second_session, Err e).
Proof.
  apply (superseded_session_is_fenced Run.second_session Run.second_session
           (Sample.identity 2 "b") "s1" (Run.ack 1)).
  - apply Run.second_session_reachable.
  - apply (bool_decide_unpack _). by vm_compute.
  - reflexivity.
  - reflexivity.
Defined.

Lemma replaced_authority_fails_pending_witness :
  exists t' answers, configure_prevalidated Run.alone 1 Run.written = (t', Ok tt) /\
    0%nat ∈ answers.*1 /\ sent (qt_channels t') = sent (qt_channels Run.written) ++ answers.
Proof.
  destruct (replaced_authority_fails_pending Run.alone 1 Run.written Run.joint)
    as (t' & answers & Hc & _ & _ & _ & _ & Hs & Hall & _).
  - exact Run.current_validated.
  - vm_compute. reflexivity.
  - discriminate.
  - vm_compute. reflexivity.
  - exists t', answers. split_and!; [exact Hc| |exact Hs]. apply Hall. exists 1.
    vm_compute. constructor.
Defined.

Lemma quorum_progress_correct_witness :
  1 <= quorum_progress Sample.current (qt_progress Run.acknowledged).
Proof.
  apply (quorum_progress_correct Sample.current (qt_progress Run.acknowledged) 1).
  - exact Run.current_validated.
  - reflexivity.
  - vm_compute. reflexivity.
Defined.

Lemma caught_up_primary_covers_quorum_witness :
  exists reached, qt_progress Run.caught_up !! Sample.identity 2 "b" = Some reached /\ 1 <= reached.
Proof.
  destruct (caught_up_primary_covers_quorum Run.switchover 1 tracker_default Run.elected Run.caught_up
           Sample.previous (Sample.member 2 "b" Primary)) as (reached & Hreached & _ & _ & Hall).
  - exact Run.switched_validated.
  - discriminate.
  - reflexivity.
  - reflexivity.
  - vm_compute. reflexivity.
  - vm_compute. reflexivity.
  - vm_compute. reflexivity.
  - apply rtc_once. apply (DataAcknowledge Run.elected Run.switch_ack).
  - vm_compute. reflexivity.
  - exists reached. split; [exact Hreached|]. apply Hall; [reflexivity|vm_compute; reflexivity].
Defined.
