(* ===== verification/Log.v ===== *)
(** * The replication log ([replicator/log.rs], [replicator/queue.rs])

    The retained operations, the reservation of the next client write and the
    fencing of writes by role, epoch and authority.  The log owns the quorum
    tracker; its methods run the tracker's methods on that field.  LSN
    arithmetic is that of [i64] in release builds. *)

From S2P Require Import Prelude Digest Types Intents Validation Quorums ScaleDown.
From S2P Require Import ManagedConfiguration Quorum QuorumSafety.
From stdpp Require Import base gmap strings list sorting relations.
From Stdlib Require Import ZArith Lia Strings.Byte.
Local Open Scope Z_scope.

(** ** The queue of retained operations *)

Module Queue.

Record ReplicationQueue := { operations : gmap Z Bytes }.

Definition queue_default : ReplicationQueue := {| operations := ∅ |}.

Definition push (o : Operation) (q : ReplicationQueue) : ReplicationQueue :=
  {| operations := <[op_lsn o := op_data o]> (operations q) |}.

(** [range(from_lsn..)], in increasing order of LSN *)
Definition operations_from (q : ReplicationQueue) (from : Lsn) : list Operation :=
  map (fun lsn => {| op_lsn := lsn; op_committed_lsn := 0; op_data := default [] (operations q !! lsn) |})
    (List.filter (fun lsn => from <=? lsn) (keys (operations q))).

Definition first_lsn (q : ReplicationQueue) : option Lsn := head (keys (operations q)).

(** [split_off(&(committed_lsn + 1))] *)
Definition truncate_committed (committed : Lsn) (q : ReplicationQueue) : ReplicationQueue :=
  {| operations := filter (fun '(lsn, _) => i64_wrap (committed + 1) <= lsn) (operations q) |}.

Definition clear (q : ReplicationQueue) : ReplicationQueue := queue_default.

End Queue.
Import Queue.

(** ** The log *)

Record PendingLocalWrite := {
  plw_operation_id : OperationId;
  plw_lsn : Lsn;
  plw_data : Bytes;
}.
#[export] Instance PendingLocalWrite_eq_dec : EqDecision PendingLocalWrite.
Proof. solve_decision. Defined.

Record PreparedWrite := {
  pw_lsn : Lsn;
  pw_items : list ReplicationItem;
  pw_completion : Channel;
}.

Record ReplicationLog := {
  rl_local_identity : ReplicaIdentity;
  rl_authority : option ManagedReplicaConfiguration;
  rl_open : bool;
  rl_role : ReplicaRole;
  rl_epoch : Epoch;
  rl_next_lsn : Lsn;
  rl_pending_local_write : option PendingLocalWrite;
  rl_queue : ReplicationQueue;
  rl_quorum : QuorumTracker;
}.
#[export] Instance ReplicationLog_fields : Fields ReplicationLog := fun l =>
  Build_ReplicationLog (rl_local_identity l) (rl_authority l) (rl_open l) (rl_role l) (rl_epoch l)
    (rl_next_lsn l) (rl_pending_local_write l) (rl_queue l) (rl_quorum l).

Abbreviation log := (M ReplicationLog RuntimeError).

Definition log_mismatch {A} (message : string) : log A := m_err (AuthorityMismatch (Text message)).

(** Run a method of the tracker. *)
Definition quorum {A} (m : tracker A) : log A :=
  m_zoom rl_quorum (fun t l => l <| rl_quorum := t |>) m.

Definition modify_quorum (f : QuorumTracker -> QuorumTracker) : log unit :=
  m_modify (fun l => l <| rl_quorum := f (rl_quorum l) |>).

Definition modify_queue (f : ReplicationQueue -> ReplicationQueue) : log unit :=
  m_modify (fun l => l <| rl_queue := f (rl_queue l) |>).

Definition raise_next_lsn (lsn : Lsn) : log unit :=
  m_modify (fun l => l <| rl_next_lsn := Z.max (rl_next_lsn l) lsn |>).

(** [ReplicationLog::new] *)
Definition new_log (local : ReplicaIdentity) : ReplicationLog :=
  {| rl_local_identity := local; rl_authority := None; rl_open := false; rl_role := RoleNone;
     rl_epoch := epoch_default; rl_next_lsn := 0; rl_pending_local_write := None;
     rl_queue := queue_default; rl_quorum := tracker_default |}.

Definition log_configure_prevalidated (a : ManagedReplicaConfiguration) (local_progress : Lsn)
    : log unit :=
  m_modify (fun l => if rl_authority l != Some a then l <| rl_pending_local_write := None |> else l) ;!
  raise_next_lsn local_progress ;!
  quorum (configure_prevalidated a local_progress) ;!
  m_modify (fun l => l <| rl_authority := Some a |>).

Definition same_write (p : PendingLocalWrite) (w : ClientWrite) : bool :=
  (plw_operation_id p == cw_operation_id w) && (plw_data p == cw_data w).

Definition reserve_write (w : ClientWrite) : log Lsn :=
  let! l := m_get in
  let! a := m_lift (ok_or (rl_authority l) AuthorityNotAdmitted) in
  if negb (rl_open l) then m_err NotOpen
  else if rl_epoch l != cd_epoch (mr_current_configuration a)
  then log_mismatch "write authority predates the replicator epoch"
  else if rl_role l != Primary then m_err RtNotPrimary
  else
  let! primary := m_lift (mr_primary_identity a) in
  if primary != rl_local_identity l then m_err RtNotPrimary
  else match rl_pending_local_write l with
  | Some p =>
      if same_write p w then m_ret (plw_lsn p)
      else m_err (LocalWritePending (plw_operation_id p))
  | None =>
      let lsn := i64_wrap (rl_next_lsn l + 1) in
      m_modify (fun l => l <| rl_pending_local_write :=
        Some {| plw_operation_id := cw_operation_id w; plw_lsn := lsn; plw_data := cw_data w |} |>) ;!
      m_ret lsn
  end.

Definition restore_write_reservation (w : ClientWrite) (lsn : Lsn) : log unit :=
  let! l := m_get in
  match rl_pending_local_write l with
  | Some p =>
      if same_write p w && (plw_lsn p == lsn) then m_ret tt
      else m_err (LocalWritePending (plw_operation_id p))
  | None =>
      m_modify (fun l => l <| rl_pending_local_write :=
        Some {| plw_operation_id := cw_operation_id w; plw_lsn := lsn; plw_data := cw_data w |} |>) ;!
      raise_next_lsn (i64_wrap (lsn - 1))
  end.

(** The replicas other than the local one that a write goes to, in the order
    of their identities. *)
Definition replication_targets (local : ReplicaIdentity) (a : ManagedReplicaConfiguration)
    : list ReplicaIdentity :=
  merge_sort (fun i j => identity_compare i j <> Gt)
    (elements (list_to_set (List.filter (fun i => i != local)
       (map cm_identity (cd_members (mr_current_configuration a)
          ++ default [] (cd_members <$> mr_previous_configuration a)))) : gset ReplicaIdentity)).

Definition replication_items (l : ReplicationLog) (o : Operation) : result (list ReplicationItem) :=
  let? a := ok_or (rl_authority l) AuthorityNotAdmitted in
  Ok (map (fun receiver =>
        {| item_sender := rl_local_identity l; item_receiver := receiver;
           item_epoch := cd_epoch (mr_current_configuration a);
           item_previous_configuration_id := cd_configuration_id <$> mr_previous_configuration a;
           item_current_configuration_id := cd_configuration_id (mr_current_configuration a);
           item_lsn := op_lsn o; item_committed_lsn := qt_committed_lsn (rl_quorum l);
           item_data := op_data o |})
        (replication_targets (rl_local_identity l) a)).

(** A fresh channel on which the answer has already been sent. *)
Definition answered_channel (lsn : Lsn) : tracker Channel := fun t =>
  let '(t, c) := new_channel t in (send_all [(c, Ok lsn)] t, Ok c).

Definition other_operation (p : PendingLocalWrite) (o : Operation) : bool :=
  (plw_lsn p != op_lsn o) || (plw_data p != op_data o).

Definition ensure_local_write_registered (o : Operation) : log PreparedWrite :=
  let! l := m_get in
  if negb (rl_open l) || (rl_role l != Primary) then m_err RtNotPrimary
  else if ((fun a => cd_epoch (mr_current_configuration a)) <$> rl_authority l) != Some (rl_epoch l)
  then log_mismatch "write registration belongs to a fenced epoch"
  else if is_some_and (fun p => other_operation p o) (rl_pending_local_write l)
  then m_err (Application (Text "local write differs from its reserved operation"))
  else
  modify_queue (push o) ;!
  quorum (record_local_progress (op_lsn o)) ;!
  let! l := m_get in
  let! completion :=
    quorum (if op_lsn o <=? qt_committed_lsn (rl_quorum l)
            then answered_channel (op_lsn o)
            else register_write (op_lsn o)) in
  let! l := m_get in
  let! items := m_lift (replication_items l o) in
  modify_queue (truncate_committed (qt_committed_lsn (rl_quorum l))) ;!
  raise_next_lsn (op_lsn o) ;!
  m_modify (fun l => l <| rl_pending_local_write := None |>) ;!
  m_ret {| pw_lsn := op_lsn o; pw_items := items; pw_completion := completion |}.

Definition log_acknowledge (k : ReplicationAck) : log unit :=
  let! l := m_get in
  if ack_epoch k != rl_epoch l
  then log_mismatch "acknowledgement predates the replicator epoch"
  else quorum (acknowledge k).

Definition log_acknowledge_in_session (k : ReplicationAck) (session : ProcessSessionId) : log unit :=
  let! l := m_get in
  if ack_epoch k != rl_epoch l
  then log_mismatch "acknowledgement predates replicator epoch"
  else quorum (acknowledge_in_session k session).

Definition log_record_local_progress (lsn : Lsn) : log unit :=
  raise_next_lsn lsn ;! quorum (record_local_progress lsn).

Definition log_finalize_commit (committed : Lsn) : log unit :=
  quorum (finalize_commit committed) ;! modify_queue (truncate_committed committed).

Definition restore_committed_write (o : Operation) : log unit :=
  let! l := m_get in
  if is_some_and (fun p => other_operation p o) (rl_pending_local_write l)
  then m_err (Application (Text "committed write conflicts with the active reservation"))
  else
  m_modify (fun l => l <| rl_pending_local_write := None |>) ;!
  raise_next_lsn (op_lsn o) ;!
  quorum (record_local_progress (op_lsn o)) ;!
  modify_quorum (restore_committed_lsn (op_lsn o)) ;!
  modify_queue (truncate_committed (op_lsn o)).

Definition fence_client_writes : log unit := modify_quorum fail_pending.

Definition open_log : log unit :=
  let! l := m_get in
  if rl_open l then m_err (Application (Text "replicator already open"))
  else m_modify (fun l => l <| rl_open := true |>).

Definition update_epoch (epoch : Epoch) : log unit :=
  let! l := m_get in
  if epoch_ltb epoch (rl_epoch l) then log_mismatch "replicator epoch cannot regress"
  else
  (if epoch != rl_epoch l then fence_client_writes else m_ret tt) ;!
  m_modify (fun l => l <| rl_epoch := epoch |>).

Definition change_role (epoch : Epoch) (role : ReplicaRole) : log unit :=
  let! l := m_get in
  if negb (rl_open l) then m_err NotOpen
  else
  update_epoch epoch ;!
  m_modify (fun l => l <| rl_role := role |>) ;!
  if role != Primary then fence_client_writes else m_ret tt.

Definition admit_prepared_authority (a : ManagedReplicaConfiguration) (local_progress : Lsn)
    (preserve_write_access : bool) : log unit :=
  let! l := m_get in
  (if preserve_write_access
   then m_modify (fun l => l <| rl_epoch := cd_epoch (mr_current_configuration a) |>)
   else if cd_epoch (mr_current_configuration a) != rl_epoch l
   then fence_client_writes ;!
        m_modify (fun l => l <| rl_epoch := cd_epoch (mr_current_configuration a) |>)
   else m_ret tt) ;!
  log_configure_prevalidated a local_progress.

Definition current_progress (l : ReplicationLog) : Lsn := qt_highest_lsn (rl_quorum l).

Definition catch_up_capability (l : ReplicationLog) (progress : Lsn) : Lsn :=
  match first_lsn (rl_queue l) with
  | Some lsn => lsn
  | None => Z.max progress (current_progress l)
  end.

Definition abort_log (l : ReplicationLog) : ReplicationLog :=
  l <| rl_quorum := fail_pending (rl_quorum l) |> <| rl_queue := clear (rl_queue l) |>
    <| rl_open := false |> <| rl_role := RoleNone |>.

Definition close_log : log unit := m_modify abort_log.

Definition log_reset_progress_after_data_loss (current committed : Lsn) (l : ReplicationLog)
    : ReplicationLog :=
  l <| rl_pending_local_write := None |> <| rl_next_lsn := current |>
    <| rl_queue := clear (rl_queue l) |>
    <| rl_quorum := reset_progress_after_data_loss (rl_local_identity l) current committed
                      (rl_quorum l) |>.

Definition restore_committed_prefix (committed : Lsn) : log unit :=
  modify_quorum (restore_committed_lsn committed).

Definition retained_operations_from (l : ReplicationLog) (from : Lsn) : list Operation :=
  operations_from (rl_queue l) from.

(** ** The log as a state machine *)

Section log_steps.
Context `{Sha256}.

Inductive log_step (l : ReplicationLog) : ReplicationLog -> Prop :=
| LogAdmit a p preserve : log_step l (fst (admit_prepared_authority a p preserve l))
| LogReserve w : log_step l (fst (reserve_write w l))
| LogRestoreReservation w lsn : log_step l (fst (restore_write_reservation w lsn l))
| LogRegister o : log_step l (fst (ensure_local_write_registered o l))
| LogAcknowledge k : log_step l (fst (log_acknowledge k l))
| LogAcknowledgeSession k s : log_step l (fst (log_acknowledge_in_session k s l))
| LogLocalProgress lsn : log_step l (fst (log_record_local_progress lsn l))
| LogFinalize lsn : log_step l (fst (log_finalize_commit lsn l))
| LogRestoreWrite o : log_step l (fst (restore_committed_write o l))
| LogRestorePrefix lsn : log_step l (fst (restore_committed_prefix lsn l))
| LogFence : log_step l (fst (fence_client_writes l))
| LogOpen : log_step l (fst (open_log l))
| LogUpdateEpoch e : log_step l (fst (update_epoch e l))
| LogChangeRole e r : log_step l (fst (change_role e r l))
| LogClose : log_step l (fst (close_log l))
| LogAbort : log_step l (abort_log l)
| LogBuildProgress i lsn :
    log_step l (fst (modify_quorum (record_prepared_build_handoff_progress i lsn) l))
| LogSession i s : log_step l (fst (quorum (register_peer_session i s) l))
| LogVerified lsn : log_step l (fst (modify_quorum (record_verified_local_progress lsn) l))
| LogObserve w : log_step l (fst (quorum (observe_secondary_removal w) l))
| LogObserveProgress w c : log_step l (fst (quorum (observe_secondary_removal_progress w c) l))
| LogObserveCommitted w : log_step l (fst (quorum (observe_committed_secondary_removal w) l))
| LogRestoreCommitted w : log_step l (fst (quorum (restore_committed_secondary_removal w) l))
(** [control_on_data_loss] passes the provider's progress twice *)
| LogReset lsn : log_step l (log_reset_progress_after_data_loss lsn lsn l).

Definition log_reachable (local : ReplicaIdentity) (l : ReplicationLog) : Prop :=
  rtc log_step (new_log local) l.

(** The tracker is in a reachable state, runs under the authority of the log,
    and waits only for LSNs that have been assigned. *)
Record log_ok (l : ReplicationLog) : Prop := {
  lo_tracker : tracker_ok (rl_quorum l);
  lo_authority : qt_authority (rl_quorum l) = rl_authority l;
  lo_assigned : forall lsn, is_Some (qt_pending (rl_quorum l) !! lsn) -> lsn <= rl_next_lsn l;
}.

(** The tracker changes by steps that admit no write and keep the authority. *)
Definition routine (t t' : QuorumTracker) : Prop :=
  safe t t' /\ qt_authority t' = qt_authority t.
#[export] Instance routine_preorder : PreOrder routine.
Proof.
  split; [intros t; split; reflexivity|]. intros t1 t2 t3 [] []. split; [by etrans|congruence].
Qed.

(** A change of the log that the invariant allows. *)
Record benign (l l' : ReplicationLog) : Prop := {
  be_tracker : routine (rl_quorum l) (rl_quorum l');
  be_authority : rl_authority l' = rl_authority l;
  be_next : rl_next_lsn l <= rl_next_lsn l';
}.
#[export] Instance benign_preorder : PreOrder benign.
Proof.
  split; [intros l; split; done || lia|]. intros l1 l2 l3 [] []. split; [by etrans|congruence|lia].
Qed.

Lemma benign_ok l l' : benign l l' -> keeps log_ok l l'.
Proof.
  intros [[[(Hk & _) Hsub] Ha] Hauth Hnext] [Ht Hla Has]. split; [by apply Hk|congruence|].
  intros lsn Hl. apply elem_of_dom, Hsub, elem_of_dom, Has in Hl. lia.
Qed.

Lemma quorum_benign {A} (m : tracker A) : evolves routine m -> evolves benign (quorum m).
Proof.
  intros Hm l. unfold quorum, m_zoom. specialize (Hm (rl_quorum l)).
  destruct (m (rl_quorum l)); simpl in *. split; simpl; [done|done|lia].
Qed.

Lemma modify_quorum_benign f : (forall t, routine t (f t)) -> evolves benign (modify_quorum f).
Proof. intros Hf l. split; simpl; [apply Hf|done|lia]. Qed.

Lemma modify_queue_benign f : evolves benign (modify_queue f).
Proof. intros l. split; simpl; [reflexivity|done|lia]. Qed.

Lemma raise_next_lsn_benign lsn : evolves benign (raise_next_lsn lsn).
Proof. intros l. split; simpl; [reflexivity|done|lia]. Qed.

(** [safe] and [same_install] together give [routine]. *)
Lemma routine_intro {A} (m : tracker A) : evolves safe m -> evolves same_install m -> evolves routine m.
Proof. intros Hs Hi t. split; [apply Hs|apply Hi]. Qed.

Ltac installs := apply evolves_modify; intros ?; by split.

#[local] Hint Resolve get_authority_install register_peer_session_install acknowledge_install
  : evolves.

Lemma observe_secondary_removal_routine w : evolves routine (observe_secondary_removal w).
Proof.
  apply routine_intro; [apply observe_secondary_removal_safe|].
  unfold observe_secondary_removal, mismatch. evolve. installs.
Qed.

Lemma register_peer_session_routine i s : evolves routine (register_peer_session i s).
Proof. apply routine_intro; [apply register_peer_session_safe|apply register_peer_session_install]. Qed.
#[local] Hint Resolve observe_secondary_removal_routine register_peer_session_routine : evolves.

Lemma observe_progress_routine w c : evolves routine (observe_secondary_removal_progress w c).
Proof.
  apply routine_intro; [apply observe_progress_safe|].
  unfold observe_secondary_removal_progress, mismatch. evolve; installs.
Qed.

Lemma observe_committed_routine w : evolves routine (observe_committed_secondary_removal w).
Proof. unfold observe_committed_secondary_removal. evolve. Qed.
#[local] Hint Resolve observe_committed_routine : evolves.

Lemma restore_committed_routine w : evolves routine (restore_committed_secondary_removal w).
Proof. unfold restore_committed_secondary_removal. evolve. Qed.

(** The data steps of the tracker that admit no write. *)
Lemma data_step_routine t t' : data_step t t' -> safe t t' -> routine t t'.
Proof. intros Hd Hs. split; [done|]. by apply data_step_install. Qed.

Lemma record_local_progress_routine lsn : evolves routine (record_local_progress lsn).
Proof. intros t. apply data_step_routine; [constructor|apply record_local_progress_safe]. Qed.
Lemma acknowledge_routine k : evolves routine (acknowledge k).
Proof. intros t. apply data_step_routine; [constructor|apply acknowledge_safe]. Qed.
Lemma acknowledge_in_session_routine k s : evolves routine (acknowledge_in_session k s).
Proof. intros t. apply data_step_routine; [constructor|apply acknowledge_in_session_safe]. Qed.
Lemma finalize_commit_routine lsn : evolves routine (finalize_commit lsn).
Proof. intros t. apply data_step_routine; [constructor|apply finalize_commit_safe]. Qed.
Lemma fail_pending_routine t : routine t (fail_pending t).
Proof. apply data_step_routine; [constructor|apply fail_all_safe]. Qed.
Lemma restore_committed_lsn_routine lsn t : routine t (restore_committed_lsn lsn t).
Proof. apply data_step_routine; [constructor|apply restore_committed_lsn_safe]. Qed.
Lemma build_progress_routine i lsn t : routine t (record_prepared_build_handoff_progress i lsn t).
Proof. apply data_step_routine; [constructor|apply record_build_progress_safe]. Qed.
Lemma verified_local_routine lsn t : routine t (record_verified_local_progress lsn t).
Proof.
  split; [apply record_verified_local_progress_safe|].
  unfold record_verified_local_progress. destruct (qt_authority t) eqn:Ha; simpl; congruence.
Qed.

End log_steps.
#[export] Hint Resolve quorum_benign modify_queue_benign raise_next_lsn_benign
  modify_quorum_benign : evolves.
#[export] Hint Resolve observe_secondary_removal_routine register_peer_session_routine
  observe_progress_routine observe_committed_routine restore_committed_routine
  record_local_progress_routine acknowledge_routine acknowledge_in_session_routine
  finalize_commit_routine fail_pending_routine restore_committed_lsn_routine
  build_progress_routine verified_local_routine : evolves.

Section log_invariant.
Context `{Sha256}.

(** Changes of the fields the invariant does not mention. *)
Ltac benign_modify := apply evolves_modify; intros ?; split; simpl; [reflexivity|done|lia].

Lemma fence_client_writes_benign : evolves benign fence_client_writes.
Proof. unfold fence_client_writes. auto with evolves. Qed.
Hint Resolve fence_client_writes_benign : evolves.

Lemma update_epoch_benign e : evolves benign (update_epoch e).
Proof. unfold update_epoch, log_mismatch. evolve. benign_modify. Qed.
Hint Resolve update_epoch_benign : evolves.

Lemma change_role_benign e r : evolves benign (change_role e r).
Proof. unfold change_role. evolve. benign_modify. Qed.

Lemma reserve_write_benign w : evolves benign (reserve_write w).
Proof.
  unfold reserve_write, log_mismatch. evolve.
  destruct (rl_pending_local_write _); evolve. benign_modify.
Qed.

Lemma restore_reservation_benign w lsn : evolves benign (restore_write_reservation w lsn).
Proof.
  unfold restore_write_reservation. evolve.
  destruct (rl_pending_local_write _); evolve. benign_modify.
Qed.

Lemma restore_committed_write_benign o : evolves benign (restore_committed_write o).
Proof. unfold restore_committed_write. evolve. benign_modify. Qed.

Lemma abort_benign l : benign l (abort_log l).
Proof. split; simpl; [apply fail_pending_routine|done|lia]. Qed.

(** The tracker after the local progress of an operation has been recorded. *)
Definition with_local_progress (a : ManagedReplicaConfiguration) (lsn : Lsn) (t : QuorumTracker)
    : QuorumTracker :=
  raise_highest lsn (raise_progress (mr_local_identity a) lsn t).

(** The completion channel of an operation, registered or already answered. *)
Definition completion_channel (t : QuorumTracker) (lsn : Lsn) : QuorumTracker * result Channel :=
  (if lsn <=? qt_committed_lsn t then answered_channel lsn else register_write lsn) t.

(** What a registration requires of the log. *)
Definition may_register (l : ReplicationLog) (a : ManagedReplicaConfiguration) (o : Operation)
    : Prop :=
  rl_authority l = Some a /\ rl_open l = true /\ rl_role l = Primary /\
  rl_epoch l = cd_epoch (mr_current_configuration a) /\
  (forall p, rl_pending_local_write l = Some p -> plw_lsn p = op_lsn o /\ plw_data p = op_data o).

(** A registration either refuses and changes nothing or does all of its work. *)
Lemma ensure_cases o l :
  log_ok l ->
  (exists e, ensure_local_write_registered o l = (l, Err e)) \/
  exists a t' items, may_register l a o /\
    completion_channel (with_local_progress a (op_lsn o) (rl_quorum l)) (op_lsn o)
      = (t', Ok (next_channel (qt_channels (rl_quorum l)))) /\
    replication_items (l <| rl_quorum := t' |>) o = Ok items /\
    ensure_local_write_registered o l =
      (l <| rl_queue := truncate_committed (qt_committed_lsn t') (push o (rl_queue l)) |>
         <| rl_quorum := t' |> <| rl_next_lsn := Z.max (rl_next_lsn l) (op_lsn o) |>
         <| rl_pending_local_write := None |>,
       Ok {| pw_lsn := op_lsn o; pw_items := items;
             pw_completion := next_channel (qt_channels (rl_quorum l)) |}).
Proof.
  intros [_ Hauth _]. unfold ensure_local_write_registered.
  unfold m_bind at 1, m_get at 1. cbn [fst snd].
  destruct (_ || _) eqn:E1; [left; by eexists|].
  destruct (_ != Some (rl_epoch l)) eqn:E2; [left; by eexists|].
  destruct (is_some_and _ _) eqn:E3; [left; by eexists|]. right.
  guards. rename select (rl_open l = true) into Hopen. rename select (rl_role l = Primary) into Hrole.
  destruct (rl_authority l) as [a|] eqn:Ha; [|done]. simpl in E2.
  match goal with H : Some _ = Some _ |- _ => injection H as Hepoch end.
  rewrite is_some_and_false in E3.
  set (t1 := with_local_progress a (op_lsn o) (rl_quorum l)).
  assert (Hcc : exists t', completion_channel t1 (op_lsn o)
                           = (t', Ok (next_channel (qt_channels (rl_quorum l))))).
  { unfold completion_channel, answered_channel, register_write, get_authority, m_bind, m_get,
      m_lift, m_modify. destruct (_ <=? _); simpl; [by eexists|].
    change (qt_authority t1) with (qt_authority (rl_quorum l)). rewrite Hauth. simpl. by eexists. }
  destruct Hcc as [t' Hcc].
  assert (Hitems : exists items, replication_items (l <| rl_quorum := t' |>) o = Ok items).
  { unfold replication_items. simpl. rewrite Ha. simpl. by eexists. }
  destruct Hitems as [items Hitems].
  exists a, t', items. split_and!; try done.
  { split_and!; try done. intros p Hp. specialize (E3 p Hp). unfold other_operation in E3.
    guards. done. }
  assert (Hrec : record_local_progress (op_lsn o) (rl_quorum l) = (t1, Ok tt)).
  { unfold record_local_progress, get_authority, m_bind, m_get, m_lift, m_modify. simpl.
    by rewrite Hauth. }
  m_run ltac:(reflexivity). rewrite (proj2 (is_some_and_false _ _) E3), Hopen, Hrole, Ha.
  simpl. rewrite (bool_decide_true (Some _ = Some _)) by congruence. simpl.
  m_run ltac:(reflexivity). m_run ltac:(apply m_zoom_eq; exact Hrec).
  m_run ltac:(reflexivity). m_run ltac:(apply m_zoom_eq; exact Hcc).
  m_run ltac:(reflexivity). m_run ltac:(unfold m_lift; f_equal; exact Hitems). done.
Qed.

Lemma with_local_progress_safe a lsn t : safe t (with_local_progress a lsn t).
Proof.
  etrans; [apply same_core_safe, raise_progress_core|apply same_core_safe, raise_highest_core].
Qed.

(** A channel that is answered at once is fresh, and waits for nothing. *)
Lemma answered_channel_routine lsn : evolves routine (answered_channel lsn).
Proof.
  intros t. unfold answered_channel. split; [split; [|done]|done]. simpl.
  split_and!; [|split; [by eexists|done]|split; simpl; lia].
  intros [[Hnd Hlt] Hl Hs]. split; [|exact Hl|exact Hs].
  unfold channels_ok, all_channels in *. simpl. rewrite fmap_app, app_assoc. simpl. split.
  - rewrite Permutation_app_comm. simpl. constructor; [|done].
    intros Hin. rewrite Forall_forall in Hlt. specialize (Hlt _ Hin). lia.
  - apply Forall_app. split; [|repeat constructor].
    eapply Forall_impl; [exact Hlt|]. simpl. lia.
Qed.

(** The channel handed out: fresh, and pending only for the new LSN. *)
Lemma completion_channel_sound t lsn t' c :
  completion_channel t lsn = (t', Ok c) ->
  sound t t' /\ qt_authority t' = qt_authority t /\
  dom (qt_pending t') ⊆ {[lsn]} ∪ dom (qt_pending t) /\
  qt_committed_lsn t' = qt_committed_lsn t.
Proof.
  unfold completion_channel. destruct (lsn <=? qt_committed_lsn t) eqn:E.
  - pose proof (answered_channel_routine lsn t) as [[Hs _] _].
    unfold answered_channel in *. simpl in *. intros [= <- <-]. split_and!; simpl; [done|done|set_solver|done].
  - intros Heq. pose proof (register_write_sound lsn t) as Hs. rewrite Heq in Hs.
    split; [exact Hs|]. revert Heq.
    unfold register_write, get_authority, m_bind, m_get, m_lift, m_modify. simpl.
    destruct (qt_authority t) eqn:Ha; simpl; [|done]. intros [= <- _]. simpl.
    split_and!; [done| |done]. rewrite dom_insert_L. set_solver.
Qed.

Lemma ensure_keeps o : evolves (keeps log_ok) (ensure_local_write_registered o).
Proof.
  intros l Hok. destruct (ensure_cases o l Hok) as [[e ->]|(a & t' & items & Hmay & Hcc & _ & ->)];
    [done|]. simpl. apply completion_channel_sound in Hcc as ((Hk & _) & Ha & Hdom & _).
  destruct Hok as [Ht Hla Has]. split; simpl.
  - by apply Hk, (with_local_progress_safe a (op_lsn o) (rl_quorum l)).
  - by rewrite Ha.
  - intros lsn Hl. apply elem_of_dom, Hdom in Hl. simpl in Hl.
    apply elem_of_union in Hl as [->%elem_of_singleton|Hl]; [lia|].
    apply elem_of_dom, Has in Hl. lia.
Qed.

Lemma configure_authority a p t :
  let '(t', r) := configure_prevalidated a p t in
  (r = Ok tt /\ qt_authority t' = Some a) \/
  (r <> Ok tt /\ qt_authority t' = qt_authority t).
Proof.
  unfold configure_prevalidated, m_bind, m_get, m_lift, m_ret, m_modify. simpl.
  destruct (is_some (qt_authority t) && _); simpl;
    [destruct (is_some_and _ (qt_authority t)); simpl|];
    (destruct (bool_decide (qt_authority t = Some a)); simpl;
     [by left|destruct (derive_must_catch_up a); simpl; [by left|by right..]]).
Qed.

Lemma configure_keeps a p : evolves (keeps log_ok) (log_configure_prevalidated a p).
Proof.
  intros l [Ht Hla Has]. pose proof (configure_authority a p (rl_quorum l)) as Hauth.
  destruct (configure_safe a p (rl_quorum l)) as [(Hk & _) Hsub].
  destruct (configure_prevalidated a p (rl_quorum l)) as [t' r] eqn:Hconf. simpl in *.
  unfold log_configure_prevalidated. unfold m_bind at 1, m_modify at 1. simpl.
  set (l1 := if rl_authority l != Some a then _ else l).
  assert (rl_quorum l1 = rl_quorum l /\ rl_next_lsn l1 = rl_next_lsn l /\
          rl_authority l1 = rl_authority l) as (Hq & Hn & Ha)
    by (unfold l1; by destruct (rl_authority l != Some a)).
  unfold raise_next_lsn, quorum, m_zoom, m_bind, m_modify. simpl. rewrite Hq, Hconf, Hn.
  assert (Hnext : forall lsn, is_Some (qt_pending t' !! lsn) -> lsn <= rl_next_lsn l `max` p).
  { intros lsn Hl. apply elem_of_dom, Hsub, elem_of_dom, Has in Hl. lia. }
  destruct Hauth as [[-> Hauth]|[Hr Hauth]]; [by split; [apply Hk|..]|].
  destruct r as [[]| |]; [done|..]; (split; simpl; [by apply Hk|congruence|done]).
Qed.

Lemma benign_keeps {A} (m : log A) : evolves benign m -> evolves (keeps log_ok) m.
Proof. intros Hm l. apply benign_ok, Hm. Qed.

Lemma admit_keeps a p preserve : evolves (keeps log_ok) (admit_prepared_authority a p preserve).
Proof.
  unfold admit_prepared_authority. evolve;
    first [apply configure_keeps | apply benign_keeps, fence_client_writes_benign
          | apply benign_keeps; benign_modify].
Qed.

Lemma reset_log_keeps lsn l : keeps log_ok l (log_reset_progress_after_data_loss lsn lsn l).
Proof.
  intros [Ht Hla Has]. split; simpl.
  - by apply reset_keeps.
  - done.
  - intros l'. rewrite lookup_empty. by intros [].
Qed.

Lemma log_acknowledge_benign k : evolves benign (log_acknowledge k).
Proof. unfold log_acknowledge, log_mismatch. evolve. Qed.
Lemma log_acknowledge_in_session_benign k s : evolves benign (log_acknowledge_in_session k s).
Proof. unfold log_acknowledge_in_session, log_mismatch. evolve. Qed.
Lemma log_record_local_progress_benign lsn : evolves benign (log_record_local_progress lsn).
Proof. unfold log_record_local_progress. evolve. Qed.
Lemma log_finalize_commit_benign lsn : evolves benign (log_finalize_commit lsn).
Proof. unfold log_finalize_commit. evolve. Qed.
Lemma restore_committed_prefix_benign lsn : evolves benign (restore_committed_prefix lsn).
Proof. unfold restore_committed_prefix. auto with evolves. Qed.
Lemma open_log_benign : evolves benign open_log.
Proof. unfold open_log. evolve. benign_modify. Qed.

Lemma log_step_keeps l l' : log_step l l' -> keeps log_ok l l'.
Proof.
  destruct 1;
    [ apply admit_keeps | apply benign_ok, reserve_write_benign
    | apply benign_ok, restore_reservation_benign | apply ensure_keeps
    | apply benign_ok, log_acknowledge_benign | apply benign_ok, log_acknowledge_in_session_benign
    | apply benign_ok, log_record_local_progress_benign | apply benign_ok, log_finalize_commit_benign
    | apply benign_ok, restore_committed_write_benign | apply benign_ok, restore_committed_prefix_benign
    | apply benign_ok, fence_client_writes_benign | apply benign_ok, open_log_benign
    | apply benign_ok, update_epoch_benign | apply benign_ok, change_role_benign
    | apply benign_ok, abort_benign | apply benign_ok, abort_benign
    | apply benign_ok, modify_quorum_benign, build_progress_routine
    | apply benign_ok, quorum_benign, register_peer_session_routine
    | apply benign_ok, modify_quorum_benign, verified_local_routine
    | apply benign_ok, quorum_benign, observe_secondary_removal_routine
    | apply benign_ok, quorum_benign, observe_progress_routine
    | apply benign_ok, quorum_benign, observe_committed_routine
    | apply benign_ok, quorum_benign, restore_committed_routine
    | apply reset_log_keeps ].
Qed.

Lemma log_reachable_ok local l : log_reachable local l -> log_ok l.
Proof.
  unfold log_reachable. intros Hr.
  assert (log_ok (new_log local)) as Hnew.
  { split; [apply tracker_default_ok|done|]. intros lsn. simpl. rewrite lookup_empty. by intros []. }
  induction Hr as [|l1 l2 l3 Hstep _ IH]; [done|]. by apply IH, (log_step_keeps l1).
Qed.

(** ** Queue and envelope facts *)

Lemma elem_of_operations_from q from o :
  o ∈ operations_from q from <->
  operations q !! op_lsn o = Some (op_data o) /\ from <= op_lsn o /\ op_committed_lsn o = 0.
Proof.
  unfold operations_from. rewrite list_elem_of_fmap. setoid_rewrite elem_of_filterb.
  setoid_rewrite elem_of_keys. setoid_rewrite Z.leb_le. split.
  - intros (lsn & -> & [d Hd] & Hle). simpl. by rewrite Hd.
  - intros (Hd & Hle & Hc). exists (op_lsn o). split_and!; [|by eexists|done].
    rewrite Hd. destruct o; simpl in *. by subst.
Qed.

Lemma truncate_lookup committed q lsn :
  i64_range (committed + 1) ->
  operations (truncate_committed committed q) !! lsn
  = if committed <? lsn then operations q !! lsn else None.
Proof.
  intros Hr. unfold truncate_committed. simpl. rewrite i64_wrap_id by done.
  destruct (operations q !! lsn) as [d|] eqn:E; destruct (committed <? lsn) eqn:El; guards;
    rewrite ?map_lookup_filter, ?E; simpl; try done;
    case_guard; simpl; try done; lia.
Qed.

Lemma elem_of_replication_targets local a i :
  i ∈ replication_targets local a <-> mr_contains_member a i = true /\ i <> local.
Proof.
  unfold replication_targets. rewrite merge_sort_Permutation, elem_of_elements, elem_of_list_to_set,
    elem_of_filterb, negb_true_iff, bool_decide_eq_false, mr_contains_member_iff, map_app, elem_of_app.
  unfold exact_identities. setoid_rewrite elem_of_list_to_set.
  destruct (mr_previous_configuration a) as [previous|]; simpl; [naive_solver|].
  split; [|naive_solver]. intros [[?|Hn] ?]; [naive_solver|by apply elem_of_nil in Hn].
Qed.

End log_invariant.

Section log_properties.
Context `{Sha256}.

Lemma reserve_cases w l l' lsn :
  reserve_write w l = (l', Ok lsn) ->
  exists a m, rl_authority l = Some a /\ rl_open l = true /\ rl_role l = Primary /\
    rl_epoch l = cd_epoch (mr_current_configuration a) /\
    find_primary (mr_current_configuration a) = Some m /\ cm_identity m = rl_local_identity l /\
    ((rl_pending_local_write l = None /\ lsn = i64_wrap (rl_next_lsn l + 1) /\
      l' = l <| rl_pending_local_write := Some
             {| plw_operation_id := cw_operation_id w; plw_lsn := lsn; plw_data := cw_data w |} |>) \/
     (l' = l /\ exists p, rl_pending_local_write l = Some p /\ same_write p w = true /\
        plw_lsn p = lsn)).
Proof.
  unfold reserve_write, log_mismatch, m_bind, m_get, m_lift, m_err, m_ret, m_modify,
    mr_primary_identity. simpl.
  destruct (rl_authority l) as [a|] eqn:Ha; simpl; [|done].
  destruct (negb (rl_open l)) eqn:Ho; [done|]. destruct (rl_epoch l != _) eqn:He; [done|].
  destruct (rl_role l != Primary) eqn:Hr; [done|].
  destruct (find_primary _) as [m|] eqn:Hm; simpl; [|done].
  destruct (cm_identity m != _) eqn:Hi; [done|]. guards.
  destruct (rl_pending_local_write l) as [p|]; [destruct (same_write p w) eqn:Hs|]; intros [= <- <-];
    exists a, m; split_and!; try done; [right; split; [done|eauto]|left; by rewrite Ha].
Qed.

Lemma reserve_pending w l a m p :
  rl_authority l = Some a -> rl_open l = true -> rl_role l = Primary ->
  rl_epoch l = cd_epoch (mr_current_configuration a) ->
  find_primary (mr_current_configuration a) = Some m -> cm_identity m = rl_local_identity l ->
  rl_pending_local_write l = Some p ->
  reserve_write w l = (l, if same_write p w then Ok (plw_lsn p)
                          else Err (LocalWritePending (plw_operation_id p))).
Proof.
  intros Ha Ho Hr He Hm Hi Hp. unfold reserve_write, m_bind, m_get, m_lift, mr_primary_identity. simpl.
  rewrite Ha. simpl. rewrite Ho, Hr, He, Hm. simpl. rewrite Hi, Hp, !bool_decide_true by done. simpl.
  by destruct (same_write p w).
Qed.

(** [C17] Reserving a client write needs the open primary of the current epoch.
    A fresh reservation takes the next LSN, which no registered write waits
    for; retrying the same write returns the same LSN, and any other write is
    refused until the reservation is resolved. *)
Theorem reserve_write_correct local w l l' lsn :
  log_reachable local l -> i64_range (rl_next_lsn l + 1) ->
  reserve_write w l = (l', Ok lsn) ->
  rl_open l = true /\ rl_role l = Primary /\
  (rl_pending_local_write l = None ->
   lsn = rl_next_lsn l + 1 /\ qt_pending (rl_quorum l) !! lsn = None) /\
  reserve_write w l' = (l', Ok lsn) /\
  (forall w', w' <> w -> exists operation,
     reserve_write w' l' = (l', Err (LocalWritePending operation))).
Proof.
  intros Hreach Hrange Hres. apply log_reachable_ok in Hreach as [_ _ Has].
  apply reserve_cases in Hres as (a & m & Ha & Ho & Hr & He & Hm & Hi & Hcase).
  assert (exists p, rl_pending_local_write l' = Some p /\ plw_lsn p = lsn /\
            same_write p w = true /\ rl_authority l' = rl_authority l /\ rl_open l' = rl_open l /\
            rl_role l' = rl_role l /\ rl_epoch l' = rl_epoch l /\
            rl_local_identity l' = rl_local_identity l) as (p & Hp & Hl & Hs & E1 & E2 & E3 & E4 & E5).
  { destruct Hcase as [(_ & _ & ->)|(-> & p & Hp & Hs & Hl)]; [|by exists p].
    eexists. split_and!; [reflexivity|..]; try done.
    unfold same_write. simpl. by rewrite !bool_decide_true by done. }
  assert (Hagain : forall w', reserve_write w' l' = (l', if same_write p w' then Ok (plw_lsn p)
                     else Err (LocalWritePending (plw_operation_id p))))
    by (intros w'; apply (reserve_pending w' l' a m p); congruence).
  split_and!; try done.
  - intros Hnone. destruct Hcase as [(_ & -> & _)|(_ & q & Hq & _)]; [|congruence].
    rewrite i64_wrap_id by done. split; [done|].
    destruct (qt_pending (rl_quorum l) !! _) eqn:E; [|done].
    specialize (Has (rl_next_lsn l + 1) ltac:(by rewrite E)). lia.
  - by rewrite Hagain, Hs, Hl.
  - intros w' Hne. exists (plw_operation_id p). rewrite Hagain.
    destruct (same_write p w') eqn:Hs'; [|done]. exfalso. apply Hne.
    unfold same_write in Hs, Hs'. guards. destruct w, w'; simpl in *. congruence.
Qed.

(** Registering a local write addresses one envelope to every other
    member of the admitted configurations, each accepted by the fence of that
    authority; the reservation is cleared, the LSN is assigned, and the
    completion channel either waits for exactly this LSN or, when the LSN is
    already committed, has been answered with it. *)
Theorem register_write_correct local o l l' pw a m :
  log_reachable local l -> ensure_local_write_registered o l = (l', Ok pw) ->
  rl_authority l = Some a ->
  find_primary (mr_current_configuration a) = Some m -> cm_identity m = rl_local_identity l ->
  NoDup (map item_receiver (pw_items pw)) /\
  (forall i, i ∈ map item_receiver (pw_items pw) <->
     mr_contains_member a i = true /\ i <> rl_local_identity l) /\
  (forall item, item ∈ pw_items pw ->
     mr_validate_envelope a item = Ok tt /\ item_lsn item = op_lsn o /\ item_data item = op_data o) /\
  rl_pending_local_write l' = None /\ op_lsn o <= rl_next_lsn l' /\
  (if op_lsn o <=? qt_committed_lsn (rl_quorum l)
   then (pw_completion pw, Ok (op_lsn o)) ∈ sent (qt_channels (rl_quorum l'))
   else pw_completion pw ∈ senders (rl_quorum l') (op_lsn o)).
Proof.
  intros Hreach Hens Ha Hm Hi. apply log_reachable_ok in Hreach as Hok.
  destruct (ensure_cases o l Hok) as [[e Heq]|(a' & t' & items & (Ha' & _) & Hcc & Hit & Heq)];
    rewrite Heq in Hens; [done|]. injection Hens as <- <-. simpl.
  assert (a' = a) as -> by congruence.
  unfold replication_items in Hit. simpl in Hit. rewrite Ha in Hit. simpl in Hit.
  injection Hit as <-. rewrite map_map. simpl. rewrite map_id.
  split_and!; [|apply elem_of_replication_targets| |done|lia|].
  - unfold replication_targets. rewrite merge_sort_Permutation. apply NoDup_elements.
  - intros item (i & -> & Hin)%list_elem_of_fmap. split_and!; [|done..].
    apply mr_validate_fence_ok. simpl. split_and!; [eauto| |done].
    by apply (elem_of_replication_targets (rl_local_identity l) a i).
  - unfold completion_channel, with_local_progress in Hcc. simpl in Hcc.
    destruct (op_lsn o <=? qt_committed_lsn (rl_quorum l)).
    + injection Hcc as <-. simpl. apply elem_of_app. right. by apply list_elem_of_singleton.
    + unfold register_write, get_authority, m_bind, m_get, m_lift, m_modify in Hcc. simpl in Hcc.
      destruct (qt_authority (rl_quorum l)); [|done]. injection Hcc as <-.
      unfold senders. simpl. rewrite lookup_insert_eq. simpl. apply elem_of_app. right.
      by apply list_elem_of_singleton.
Qed.

(** Failing the pending writes answers all of them, with a closed status. *)
Lemma fail_pending_spec t :
  qt_pending (fail_pending t) = ∅ /\ qt_committed_lsn (fail_pending t) = qt_committed_lsn t /\
  exists answers, sent (qt_channels (fail_pending t)) = sent (qt_channels t) ++ answers /\
    (forall ch r, (ch, r) ∈ answers -> r = Err (WriteClosed ReconfigurationPending)) /\
    (forall lsn ch, ch ∈ senders t lsn -> ch ∈ answers.*1).
Proof.
  split_and!; [done..|]. eexists. split_and!; [reflexivity| |].
  - intros ch r (c & [= _ ->] & _)%list_elem_of_fmap. done.
  - intros lsn ch Hch. rewrite <-list_fmap_compose, list_fmap_id, list_elem_of_In, in_concat.
    exists (senders t lsn). rewrite <-!list_elem_of_In, list_elem_of_fmap. split; [|done].
    exists lsn. split; [done|]. apply elem_of_keys. unfold senders in Hch.
    destruct (qt_pending t !! lsn); [eauto|by apply elem_of_nil in Hch].
Qed.

Lemma update_epoch_cases e l :
  (epoch_ltb e (rl_epoch l) = true /\ exists err, update_epoch e l = (l, Err err)) \/
  (epoch_ltb e (rl_epoch l) = false /\
   update_epoch e l = ((if e != rl_epoch l then l <| rl_quorum := fail_pending (rl_quorum l) |> else l)
                         <| rl_epoch := e |>, Ok tt)).
Proof.
  unfold update_epoch, m_bind, m_get. simpl. destruct (epoch_ltb _ _); [left; by eauto|right].
  split; [done|]. by destruct (e != rl_epoch l).
Qed.

(** The epoch never regresses through [update_epoch]: an older epoch is
    refused and changes nothing; a newer one answers every pending write as
    closed before it takes effect. *)
Theorem update_epoch_monotone e l :
  (epoch_ltb e (rl_epoch l) = true -> exists err, update_epoch e l = (l, Err err)) /\
  (epoch_ltb e (rl_epoch l) = false ->
   exists l', update_epoch e l = (l', Ok tt) /\ rl_epoch l' = e /\
     (e <> rl_epoch l ->
      qt_pending (rl_quorum l') = ∅ /\
      exists answers, sent (qt_channels (rl_quorum l')) = sent (qt_channels (rl_quorum l)) ++ answers /\
        (forall ch r, (ch, r) ∈ answers -> r = Err (WriteClosed ReconfigurationPending)) /\
        (forall lsn ch, ch ∈ senders (rl_quorum l) lsn -> ch ∈ answers.*1))).
Proof.
  destruct (update_epoch_cases e l) as [[He (err & ->)]|[He ->]]; rewrite He.
  - split; [eauto|done].
  - split; [done|]. intros _. eexists. split_and!; [done..|]. intros Hne.
    rewrite (bool_decide_false (e = rl_epoch l)) by done. simpl.
    destruct (fail_pending_spec (rl_quorum l)) as (Hp & _ & Ha). split; [exact Hp|exact Ha].
Qed.

(** Leaving the primary role, closing and aborting fence client writes:
    afterwards no write is pending, and reserving or registering a write is
    refused. *)
Theorem fenced_log_accepts_no_writes l l' :
  (exists e role, change_role e role l = (l', Ok tt) /\ role <> Primary) \/ l' = abort_log l ->
  qt_pending (rl_quorum l') = ∅ /\
  (forall w, exists e, reserve_write w l' = (l', Err e)) /\
  (forall o, exists e, ensure_local_write_registered o l' = (l', Err e)).
Proof.
  intros Hfence.
  assert (qt_pending (rl_quorum l') = ∅ /\ (rl_open l' = false \/ rl_role l' <> Primary)) as [Hp Hrole].
  { destruct Hfence as [(e & role & Hch & Hne)| ->]; [|split; [done|by left]].
    unfold change_role in Hch. unfold m_bind at 1, m_get in Hch. simpl in Hch.
    destruct (negb (rl_open l)); [done|]. unfold m_bind at 1 in Hch.
    destruct (update_epoch_cases e l) as [[_ (err & Hu)]|[_ Hu]]; rewrite Hu in Hch; [done|].
    rewrite (bool_decide_false (role = Primary)) in Hch by done.
    unfold m_bind, m_modify, fence_client_writes, modify_quorum in Hch. simpl in Hch.
    injection Hch as <-. simpl. split; [done|by right]. }
  split_and!; [done| |].
  - intros w. unfold reserve_write, log_mismatch, m_bind, m_get, m_lift. simpl.
    destruct (rl_authority l'); simpl; [|by eexists].
    destruct (rl_open l') eqn:Ho; simpl; [|by eexists].
    destruct (rl_epoch l' != _); [by eexists|].
    rewrite (bool_decide_false (rl_role l' = Primary)) by naive_solver. by eexists.
  - intros o. unfold ensure_local_write_registered, m_bind, m_get. simpl.
    assert (negb (rl_open l') || (rl_role l' != Primary) = true) as ->; [|by eexists].
    destruct Hrole as [-> | Hr]; [done|]. rewrite (bool_decide_false (rl_role l' = Primary)) by done.
    by rewrite orb_true_r.
Qed.

(** Retained operations: after truncation at a committed LSN, reading from
    an LSN yields exactly the operations pushed beyond both, in increasing
    order of LSN. *)
Theorem retained_operations_correct q committed from :
  i64_range (committed + 1) ->
  (forall o, o ∈ operations_from (truncate_committed committed q) from <->
     operations q !! op_lsn o = Some (op_data o) /\ committed < op_lsn o /\ from <= op_lsn o /\
     op_committed_lsn o = 0) /\
  StronglySorted Z.lt (map op_lsn (operations_from (truncate_committed committed q) from)).
Proof.
  intros Hr. split.
  - intros o. rewrite elem_of_operations_from, truncate_lookup by done.
    destruct (committed <? op_lsn o) eqn:E; guards; [naive_solver|].
    split; [by intros [? _]|lia].
  - unfold operations_from. rewrite map_map. simpl. rewrite map_id.
    apply StronglySorted_filterb. apply strict_sorted_keys.
Qed.

End log_properties.

(** ** A sample log: opened, admitted, promoted, and a write registered *)

#[local] Existing Instance padding_sha256.

Module LogRun.

Definition opened := fst (open_log (new_log (Sample.identity 1 "a"))).
Definition admitted := fst (admit_prepared_authority Run.joint 0 false opened).
Definition promoted := fst (change_role (mkEpoch 0 2) Primary admitted).

Definition write : ClientWrite := {| cw_operation_id := "op-1"; cw_data := [x01] |}.
Definition reserved := fst (reserve_write write promoted).
Definition operation : Operation := {| op_lsn := 1; op_committed_lsn := 0; op_data := [x01] |}.
Definition registered := fst (ensure_local_write_registered operation reserved).
Definition demoted := fst (change_role (mkEpoch 0 3) ActiveSecondary registered).

Lemma promoted_reachable : log_reachable (Sample.identity 1 "a") promoted.
Proof.
  eapply rtc_l; [apply LogOpen|]. eapply rtc_l; [apply (LogAdmit opened Run.joint 0 false)|].
  apply rtc_once. apply (LogChangeRole admitted (mkEpoch 0 2) Primary).
Qed.

Lemma reserved_reachable : log_reachable (Sample.identity 1 "a") reserved.
Proof. eapply rtc_r; [apply promoted_reachable|]. apply (LogReserve promoted write). Qed.

Definition prepared : PreparedWrite :=
  match snd (ensure_local_write_registered operation reserved) with
  | Ok pw => pw
  | _ => {| pw_lsn := 0; pw_items := []; pw_completion := 0%nat |}
  end.

End LogRun.

Lemma reserve_write_correct_witness :
  reserve_write LogRun.write LogRun.reserved = (LogRun.reserved, Ok 1).
Proof.
  apply (reserve_write_correct (Sample.identity 1 "a") LogRun.write LogRun.promoted
           LogRun.reserved 1).
  - apply LogRun.promoted_reachable.
  - split; by vm_compute.
  - vm_compute. reflexivity.
Defined.

Lemma register_write_correct_witness :
  NoDup (map item_receiver (pw_items LogRun.prepared)).
Proof.
  destruct (register_write_correct (Sample.identity 1 "a") LogRun.operation LogRun.reserved
              LogRun.registered LogRun.prepared Run.joint (Sample.member 1 "a" Primary))
    as (Hnodup & _).
  - apply LogRun.reserved_reachable.
  - vm_compute. reflexivity.
  - vm_compute. reflexivity.
  - vm_compute. reflexivity.
  - vm_compute. reflexivity.
  - exact Hnodup.
Defined.

Lemma update_epoch_monotone_witness :
  exists l', update_epoch (mkEpoch 0 3) LogRun.registered = (l', Ok tt) /\ rl_epoch l' = mkEpoch 0 3.
Proof.
  destruct (proj2 (update_epoch_monotone (mkEpoch 0 3) LogRun.registered)) as (l' & H1 & H2 & _).
  - vm_compute. reflexivity.
  - exists l'. split; [exact H1|exact H2].
Defined.

Lemma fenced_log_accepts_no_writes_witness : qt_pending (rl_quorum LogRun.demoted) = ∅.
Proof.
  apply (fenced_log_accepts_no_writes LogRun.registered LogRun.demoted).
  left. exists (mkEpoch 0 3), ActiveSecondary. split; [vm_compute; reflexivity|discriminate].
Defined.

Lemma retained_operations_correct_witness :
  LogRun.operation ∈ operations_from (truncate_committed 0 (rl_queue LogRun.registered)) 1.
Proof.
  apply (retained_operations_correct (rl_queue LogRun.registered) 0 1).
  - split; by vm_compute.
  - split_and!; by vm_compute.
Defined.
