(* ===== verification/LogAnswers.v ===== *)
(** * What the replication log answers to its clients

    Every method of the log keeps the log's invariant, and answers clients with
    success only up to the LSN its caller gives as committed: [orderly c].  The
    engine, which knows what the application has committed, chooses [c]. *)

From S2P Require Import Prelude Digest Types Intents Commands Validation Quorums ScaleDown ScaleUp.
From S2P Require Import ManagedConfiguration Quorum QuorumSafety Log.
From stdpp Require Import base gmap strings list sorting relations.
From Stdlib Require Import ZArith Lia.
Local Open Scope Z_scope.

(** While the committed LSN is at most [c], it stays so, and only writes up to
    [c] are answered with success. *)
Definition within (c : Lsn) (t t' : QuorumTracker) : Prop :=
  exists answers, sent (qt_channels t') = sent (qt_channels t) ++ answers /\
    (qt_committed_lsn t <= c -> qt_committed_lsn t' <= c /\
     forall ch lsn, (ch, Ok lsn) ∈ answers -> lsn <= c).

#[export] Instance within_preorder c : PreOrder (within c).
Proof.
  split.
  - intros t. exists []. rewrite app_nil_r. split; [done|]. intros Ht. split; [done|].
    by intros ch lsn ?%elem_of_nil.
  - intros t1 t2 t3 (xs & Hs1 & H1) (ys & Hs2 & H2). exists (xs ++ ys).
    rewrite Hs2, Hs1, app_assoc. split; [done|]. intros Ht.
    destruct (H1 Ht) as [Ht2 Hxs]. destruct (H2 Ht2) as [Ht3 Hys]. split; [done|].
    intros ch lsn [Hin|Hin]%elem_of_app; eauto.
Qed.

(** Changes of the tracker that answer nobody and commit nothing. *)
Definition silent (t t' : QuorumTracker) : Prop :=
  sent (qt_channels t') = sent (qt_channels t) /\ qt_committed_lsn t' = qt_committed_lsn t.

Lemma silent_within c t t' : silent t t' -> within c t t'.
Proof.
  intros [Hs Hc]. exists []. rewrite app_nil_r. split; [done|]. intros Ht. split; [lia|].
  by intros ch lsn ?%elem_of_nil.
Qed.

Lemma modify_silent c f : (forall t, silent t (f t)) -> evolves (E := RuntimeError) (within c) (m_modify f).
Proof. intros Hf t. apply silent_within, Hf. Qed.

Lemma fail_all_within c error t : within c t (fail_all (Err error) t).
Proof.
  eexists. split; [reflexivity|]. intros Ht. split; [done|].
  intros ch lsn (x & [=] & _)%list_elem_of_fmap.
Qed.

Lemma restore_committed_lsn_within c n t : n <= c -> within c t (restore_committed_lsn n t).
Proof.
  intros Hn. destruct (complete_up_to_spec n t) as (Heq & _ & (answers & Hs & Hans) & _).
  exists answers. split; [exact Hs|]. intros Ht. split.
  - unfold restore_committed_lsn. rewrite Heq. simpl. lia.
  - intros ch lsn (l & [= <-] & Hl & _)%Hans. lia.
Qed.

Section tracker.
Context `{Sha256} (c : Lsn).

Ltac silent := apply modify_silent; intros ?; by split.

Lemma get_authority_within : evolves (within c) get_authority.
Proof. unfold get_authority. evolve. Qed.
Lemma mismatch_within {A} message : evolves (within c) (mismatch (A := A) message).
Proof. unfold mismatch. evolve. Qed.
Hint Resolve get_authority_within mismatch_within : evolves.

Lemma record_local_progress_within lsn : evolves (within c) (record_local_progress lsn).
Proof. unfold record_local_progress. evolve; silent. Qed.

Lemma acknowledge_within k : evolves (within c) (acknowledge k).
Proof. unfold acknowledge. evolve; silent. Qed.
Hint Resolve acknowledge_within : evolves.

Lemma acknowledge_in_session_within k s : evolves (within c) (acknowledge_in_session k s).
Proof. unfold acknowledge_in_session. evolve. Qed.

Lemma register_peer_session_within i s : evolves (within c) (register_peer_session i s).
Proof.
  unfold register_peer_session. evolve; try silent.
  apply modify_silent. intros t. by destruct (qt_sessions t !! i).
Qed.
Hint Resolve register_peer_session_within : evolves.

Lemma observe_within w : evolves (within c) (observe_secondary_removal w).
Proof. unfold observe_secondary_removal. evolve; silent. Qed.
Hint Resolve observe_within : evolves.

Lemma observe_progress_within w k : evolves (within c) (observe_secondary_removal_progress w k).
Proof. unfold observe_secondary_removal_progress. evolve; silent. Qed.
Lemma observe_committed_within w : evolves (within c) (observe_committed_secondary_removal w).
Proof. unfold observe_committed_secondary_removal. evolve. Qed.
Hint Resolve observe_committed_within : evolves.
Lemma restore_removal_within w : evolves (within c) (restore_committed_secondary_removal w).
Proof. unfold restore_committed_secondary_removal. evolve. Qed.
Lemma validate_commit_within k : evolves (within c) (validate_secondary_removal_commit k).
Proof. unfold validate_secondary_removal_commit. evolve. Qed.

Lemma configure_within a p : evolves (within c) (configure_prevalidated a p).
Proof.
  unfold configure_prevalidated. evolve; try silent.
  apply evolves_modify. intros t. apply fail_all_within.
Qed.

Lemma finalize_commit_within n : n <= c -> evolves (within c) (finalize_commit n).
Proof.
  intros Hn. unfold finalize_commit. apply evolves_get_bind. intros t.
  unfold m_bind, m_lift. destruct (ok_or _ _); simpl; [|reflexivity..].
  destruct (_ <? n); [reflexivity|]. simpl.
  destruct (complete_up_to_spec n t) as (Heq & _ & (answers & Hs & Hans) & _).
  exists answers. split; [exact Hs|]. intros Ht. split.
  - rewrite Heq. simpl. lia.
  - intros ch lsn (l & [= <-] & Hl & _)%Hans. lia.
Qed.

Lemma register_write_within lsn : evolves (within c) (register_write lsn).
Proof. unfold register_write. evolve. Qed.

(** The channel of a write that is already committed answers at once. *)
Lemma answered_channel_within n t : n <= c -> within c t (fst (answered_channel n t)).
Proof.
  intros Hn. eexists. split; [reflexivity|]. intros Ht. split; [done|].
  intros ch lsn [= _ <-]%list_elem_of_singleton. done.
Qed.

End tracker.

(** ** The log *)

(** A change of the log: the invariant stays, and answers stay within [c]. *)
Definition orderly (c : Lsn) (l l' : ReplicationLog) : Prop :=
  log_ok l -> log_ok l' /\ within c (rl_quorum l) (rl_quorum l').
#[export] Instance orderly_preorder c : PreOrder (orderly c).
Proof.
  split; [by intros l Hl|]. intros l1 l2 l3 H12 H23 H1. destruct (H12 H1) as [H2 ?].
  destruct (H23 H2) as [H3 ?]. split; [done|by etrans].
Qed.

Section log.
Context `{Sha256} (c : Lsn).

Lemma quorum_within {A} (m : tracker A) l :
  evolves (within c) m -> within c (rl_quorum l) (rl_quorum (fst (quorum m l))).
Proof.
  intros Hm. specialize (Hm (rl_quorum l)). unfold quorum, m_zoom.
  by destruct (m (rl_quorum l)).
Qed.

Lemma validate_commit_routine k : evolves routine (validate_secondary_removal_commit k).
Proof. unfold validate_secondary_removal_commit, get_authority, mismatch. evolve. Qed.

Lemma quorum_orderly {A} (m : tracker A) :
  evolves routine m -> evolves (within c) m -> evolves (orderly c) (quorum m).
Proof.
  intros Hr Hm l Hl. split; [|by apply quorum_within]. by eapply benign_ok; [apply quorum_benign, Hr|].
Qed.

Lemma modify_quorum_orderly f :
  (forall t, routine t (f t)) -> (forall t, within c t (f t)) -> evolves (orderly c) (modify_quorum f).
Proof. intros Hr Hw l Hl. split; [|apply Hw]. by eapply benign_ok; [apply modify_quorum_benign, Hr|]. Qed.

(** Changes that leave the tracker alone and the assigned LSNs assigned. *)
Lemma modify_orderly f :
  (forall l, benign l (f l) /\ rl_quorum (f l) = rl_quorum l) ->
  evolves (E := RuntimeError) (orderly c) (m_modify f).
Proof. intros Hf l Hl. destruct (Hf l) as [Hb Hq]. split; [by eapply benign_ok|]. simpl. by rewrite Hq. Qed.
Ltac apart := apply modify_orderly; intros ?; split; [split; simpl; [reflexivity|done|lia]|done].

Lemma fence_client_writes_orderly : evolves (orderly c) fence_client_writes.
Proof.
  apply modify_quorum_orderly; [apply fail_pending_routine|]. intros t. apply fail_all_within.
Qed.
Hint Resolve fence_client_writes_orderly : evolves.

Lemma modify_queue_orderly f : evolves (orderly c) (modify_queue f).
Proof. apart. Qed.
Lemma raise_next_lsn_orderly lsn : evolves (orderly c) (raise_next_lsn lsn).
Proof. apart. Qed.
Lemma log_mismatch_orderly {A} message : evolves (orderly c) (log_mismatch (A := A) message).
Proof. unfold log_mismatch. evolve. Qed.
Hint Resolve modify_queue_orderly raise_next_lsn_orderly log_mismatch_orderly : evolves.

Lemma reserve_write_orderly w : evolves (orderly c) (reserve_write w).
Proof.
  unfold reserve_write. evolve. destruct (rl_pending_local_write _); evolve. apart.
Qed.

Lemma restore_reservation_orderly w lsn : evolves (orderly c) (restore_write_reservation w lsn).
Proof.
  unfold restore_write_reservation. evolve. destruct (rl_pending_local_write _); evolve. apart.
Qed.

Lemma record_local_orderly lsn : evolves (orderly c) (quorum (record_local_progress lsn)).
Proof. apply quorum_orderly; [auto with evolves|apply record_local_progress_within]. Qed.
Hint Resolve record_local_orderly : evolves.

Lemma log_acknowledge_orderly k : evolves (orderly c) (log_acknowledge k).
Proof.
  unfold log_acknowledge. evolve. apply quorum_orderly; [auto with evolves|apply acknowledge_within].
Qed.

Lemma log_acknowledge_in_session_orderly k s : evolves (orderly c) (log_acknowledge_in_session k s).
Proof.
  unfold log_acknowledge_in_session. evolve.
  apply quorum_orderly; [auto with evolves|apply acknowledge_in_session_within].
Qed.

Lemma log_record_local_progress_orderly lsn : evolves (orderly c) (log_record_local_progress lsn).
Proof. unfold log_record_local_progress. evolve. Qed.

Lemma log_finalize_commit_orderly n : n <= c -> evolves (orderly c) (log_finalize_commit n).
Proof.
  intros Hn. unfold log_finalize_commit. evolve.
  apply quorum_orderly; [auto with evolves|by apply finalize_commit_within].
Qed.

Lemma restore_committed_prefix_orderly n : n <= c -> evolves (orderly c) (restore_committed_prefix n).
Proof.
  intros Hn. apply modify_quorum_orderly; [auto with evolves|].
  intros t. by apply restore_committed_lsn_within.
Qed.

Lemma restore_committed_write_orderly o :
  op_lsn o <= c -> evolves (orderly c) (restore_committed_write o).
Proof.
  intros Hn. unfold restore_committed_write. evolve; [apart|].
  apply modify_quorum_orderly; [auto with evolves|]. intros t. by apply restore_committed_lsn_within.
Qed.

Lemma answered_orderly n : n <= c -> evolves (orderly c) (quorum (answered_channel n)).
Proof.
  intros Hn. apply quorum_orderly; [apply answered_channel_routine|].
  intros t. by apply answered_channel_within.
Qed.

Lemma completion_within n t :
  within c t (fst ((if n <=? qt_committed_lsn t then answered_channel n else register_write n) t)).
Proof.
  destruct (n <=? _) eqn:E; guards; [|apply register_write_within].
  eexists. split; [reflexivity|]. intros Ht. split; [done|].
  intros ch lsn [= _ <-]%list_elem_of_singleton. lia.
Qed.

(** A write is answered at once only when it is already committed. *)
Lemma ensure_orderly o : evolves (orderly c) (ensure_local_write_registered o).
Proof.
  intros l Hl. split; [by apply ensure_keeps|].
  destruct (ensure_cases o l Hl) as [[e ->]|(a & t' & items & _ & Hcc & _ & ->)]; [done|]. simpl.
  pose proof (completion_within (op_lsn o) (with_local_progress a (op_lsn o) (rl_quorum l))) as Ht'.
  unfold completion_channel in Hcc. rewrite Hcc in Ht'. exact Ht'.
Qed.

Lemma open_log_orderly : evolves (orderly c) open_log.
Proof. unfold open_log. evolve. apart. Qed.

Lemma update_epoch_orderly epoch : evolves (orderly c) (update_epoch epoch).
Proof. unfold update_epoch. evolve. apart. Qed.
Hint Resolve update_epoch_orderly : evolves.

Lemma change_role_orderly epoch role : evolves (orderly c) (change_role epoch role).
Proof. unfold change_role. evolve. apart. Qed.

Lemma abort_orderly l : orderly c l (abort_log l).
Proof. intros Hl. split; [by apply (benign_ok _ _ (abort_benign l))|apply fail_all_within]. Qed.

Lemma close_log_orderly : evolves (orderly c) close_log.
Proof. intros l. apply abort_orderly. Qed.

Lemma log_configure_orderly a p : evolves (orderly c) (log_configure_prevalidated a p).
Proof.
  intros l Hl. split; [by apply configure_keeps|].
  unfold log_configure_prevalidated, quorum, m_zoom, raise_next_lsn, m_bind, m_modify. simpl.
  set (l1 := if rl_authority l != Some a then _ else l). assert (rl_quorum l1 = rl_quorum l) as ->
    by (unfold l1; by destruct (_ != _)).
  pose proof (configure_within c a p (rl_quorum l)) as Hw.
  by destruct (configure_prevalidated a p (rl_quorum l)) as [t' []].
Qed.
Hint Resolve log_configure_orderly : evolves.

Lemma admit_orderly a p preserve : evolves (orderly c) (admit_prepared_authority a p preserve).
Proof. unfold admit_prepared_authority. evolve; apart. Qed.

Lemma reset_orderly n l : n <= c -> orderly c l (log_reset_progress_after_data_loss n n l).
Proof.
  intros Hn Hl. split; [by apply reset_log_keeps|]. simpl.
  destruct (fail_all_within c (WriteClosed ReconfigurationPending) (rl_quorum l)) as (answers & Hs & Ha).
  exists answers. split; [exact Hs|]. simpl. intros Ht. split; [done|by apply Ha].
Qed.

Lemma modify_quorum_silent f :
  (forall t, routine t (f t)) -> (forall t, silent t (f t)) -> evolves (orderly c) (modify_quorum f).
Proof. intros Hr Hs. apply modify_quorum_orderly; [done|]. intros t. by apply silent_within. Qed.

Lemma verified_local_orderly lsn :
  evolves (orderly c) (modify_quorum (record_verified_local_progress lsn)).
Proof.
  apply modify_quorum_silent; [auto with evolves|]. intros t.
  unfold record_verified_local_progress. by destruct (qt_authority t).
Qed.

Lemma build_handoff_orderly i lsn :
  evolves (orderly c) (modify_quorum (record_prepared_build_handoff_progress i lsn)).
Proof. apply modify_quorum_silent; [auto with evolves|done]. Qed.

End log.
#[export] Hint Resolve fence_client_writes_orderly reserve_write_orderly restore_reservation_orderly
  log_acknowledge_orderly log_acknowledge_in_session_orderly log_record_local_progress_orderly
  ensure_orderly open_log_orderly update_epoch_orderly change_role_orderly close_log_orderly
  admit_orderly verified_local_orderly build_handoff_orderly
  log_finalize_commit_orderly restore_committed_prefix_orderly restore_committed_write_orderly
  answered_orderly quorum_orderly : evolves.
#[export] Hint Resolve register_peer_session_within observe_within observe_progress_within
  observe_committed_within restore_removal_within validate_commit_within
  validate_commit_routine : evolves.
