(* ===== verification/Authority.v ===== *)
(** * The durable authority of a replica ([authority.rs])

    The authority that a replica admits before it acts on it: which
    configurations may stand next to each other, which evidence they need, and
    what the replication engine is given of it ([host/hosting.rs],
    [managed_configuration]).  Also the authority of a replica build and of a
    retired replica, and the checks that hand a completed build to the
    configuration that admits its target ([runtime.rs]). *)

From S2P Require Import Prelude Digest Types Intents Commands Validation Quorums ScaleDown ScaleUp.
From S2P Require Import ManagedConfiguration Quorum QuorumSafety.
From stdpp Require Import base gmap strings list.
From Stdlib Require Import ZArith Lia.
Local Open Scope Z_scope.

Record AdmittedAuthority := {
  aa_local_identity : ReplicaIdentity;
  aa_transition_kind : option TransitionKind;
  aa_previous_configuration : option ConfigurationDescriptor;
  aa_current_configuration : ConfigurationDescriptor;
  aa_switchover_handoff : option SwitchoverHandoff;
  aa_secondary_removal : option SecondaryRemovalEvidence;
  aa_scale_up : option ScaleUpConfigurationEvidence;
}.
#[export] Instance AdmittedAuthority_eq_dec : EqDecision AdmittedAuthority.
Proof. solve_decision. Defined.

Record RetiredAuthority := {
  ra_committed : SecondaryScaleDownCleanup;
  ra_report : ReplicaRetirementReport;
}.

(** Progress of a replica build, durable or in the runtime. *)
Record DurableBuildProgress := {
  bp_authority : BuildAuthority;
  bp_last_sequence : Z;
  bp_durable_lsn : Lsn;
  bp_completed : bool;
  bp_catch_up_boundary_lsn : option Lsn;
}.

Definition contract_mismatch (message : string) : ContractError :=
  ContractMismatch (Text message).

(** [.map_err(|error| ContractError::AuthorityMismatch(error.to_string()))] *)
Definition checked (v : validation) : contract unit :=
  map_err (fun e => ContractMismatch (Rendered e)) v.

Definition aa_contains_member (a : AdmittedAuthority) (i : ReplicaIdentity) : bool :=
  has_member (aa_current_configuration a) i
  || is_some_and (fun previous => has_member previous i) (aa_previous_configuration a).

Definition aa_fence (a : AdmittedAuthority) : AuthorityFence :=
  {| fence_epoch := cd_epoch (aa_current_configuration a);
     fence_previous_configuration_id := cd_configuration_id <$> aa_previous_configuration a;
     fence_current_configuration_id := cd_configuration_id (aa_current_configuration a) |}.

Definition aa_primary_identity {E} (a : AdmittedAuthority) : res E ReplicaIdentity :=
  let? primary := expect (find_primary (aa_current_configuration a)) in
  Ok (cm_identity primary).

Definition aa_local_role {E} (a : AdmittedAuthority) : res E ReplicaRole :=
  let? member := expect
    (or_else (find_member (aa_local_identity a) (aa_current_configuration a))
       (aa_previous_configuration a ≫= find_member (aa_local_identity a))) in
  Ok (cm_role member).

Definition aa_validate_envelope (a : AdmittedAuthority) (e : ReplicationItem) : contract unit :=
  let? primary := aa_primary_identity a in
  reject (item_sender e != primary)
    (contract_mismatch "replication sender is not the exact admitted primary") ;?
  reject (negb (aa_contains_member a (item_receiver e)))
    (contract_mismatch "replication receiver is outside admitted authority") ;?
  reject ((item_epoch e != cd_epoch (aa_current_configuration a))
          || (item_current_configuration_id e
                != cd_configuration_id (aa_current_configuration a))
          || (item_previous_configuration_id e
                != (cd_configuration_id <$> aa_previous_configuration a)))
    (contract_mismatch "replication epoch or configuration fence is stale").

(** What the handoff certificate of a switchover has to do with the
    configuration that the switchover leaves. *)
Definition previous_relationship_valid (a : AdmittedAuthority) (h : SwitchoverHandoff) : bool :=
  is_none_or (fun previous =>
    if has_member_with_role previous (sh_source h) Primary then
      (cd_configuration_id previous == sh_starting_configuration_id h)
      && (cd_epoch previous == sh_starting_epoch h)
      && (cd_primary_id (aa_current_configuration a) == replica_id (sh_target h))
    else
      has_member_with_role previous (sh_target h) Primary
      && (cd_primary_id (aa_current_configuration a) == replica_id (sh_source h))
      && (data_loss_number (cd_epoch previous) == data_loss_number (sh_starting_epoch h))
      && (configuration_number (sh_starting_epoch h)
            <? configuration_number (cd_epoch previous)))
    (aa_previous_configuration a).

(** The authority with the handoff of a switchover. *)
Definition handoff_contradicts (a : AdmittedAuthority) (h : SwitchoverHandoff) : bool :=
  let current := aa_current_configuration a in
  ((aa_transition_kind a != Some PlannedSwitchover) && is_some (aa_previous_configuration a))
  || (sh_preparation_generation h == 0)
  || negb (previous_relationship_valid a h)
  || (data_loss_number (sh_starting_epoch h) != data_loss_number (cd_epoch current))
  || (configuration_number (cd_epoch current) <=? configuration_number (sh_starting_epoch h))
  || (sh_source h == sh_target h)
  || negb (has_member current (sh_source h))
  || negb (has_member current (sh_target h))
  || ((cd_primary_id current != replica_id (sh_source h))
      && (cd_primary_id current != replica_id (sh_target h))).

Section authority.
Context `{Sha256}.

Definition validate_build_envelope (b : BuildAuthority) (e : CopyItem) : contract unit :=
  checked (validate_build_authority b) ;?
  reject ((ci_build_id e != ba_build_id b)
          || (ci_sender e != ba_source b)
          || (ci_receiver e != ba_target b)
          || (ci_epoch e != cd_epoch (ba_current_configuration b))
          || (ci_current_configuration_id e != cd_configuration_id (ba_current_configuration b))
          || (ci_replication_boundary_lsn e != ba_replication_boundary_lsn b))
    (contract_mismatch "copy item does not match durable build authority") ;?
  reject ((ci_final_item e != is_some (ci_catch_up_boundary_lsn e))
          || (ci_final_item e && (ci_committed_lsn e != ba_replication_boundary_lsn b))
          || is_some_and (fun boundary => boundary <? ba_replication_boundary_lsn b)
               (ci_catch_up_boundary_lsn e))
    (contract_mismatch "copy item has invalid post-enumeration catch-up authority").

Definition aa_is_current_only_completion_of (a existing : AdmittedAuthority) : bool :=
  (aa_local_identity a == aa_local_identity existing)
  && (aa_current_configuration a == aa_current_configuration existing)
  && is_some (aa_previous_configuration existing)
  && is_none (aa_previous_configuration a)
  && is_none (aa_transition_kind a)
  && (aa_switchover_handoff a == aa_switchover_handoff existing)
  && (aa_scale_up a == aa_scale_up existing)
  && match aa_secondary_removal a, aa_secondary_removal existing with
     | Some next, Some old =>
         (sre_preparation next == sre_preparation old)
         && (sre_previous_read_quorum next == sre_previous_read_quorum old)
         && ((sre_reduced_write_quorum old == [])
             || (sre_reduced_write_quorum next == sre_reduced_write_quorum old))
         && is_ok (validate_secondary_removal_evidence next true)
     | None, None => true
     | _, _ => false
     end.

(** The authority of a secondary scale-down. *)
Definition validate_removal_authority (a : AdmittedAuthority) (e : SecondaryRemovalEvidence)
    : contract unit :=
  let intent := srp_intent (sre_preparation e) in
  checked (validate_secondary_removal_evidence e (is_none (aa_previous_configuration a))) ;?
  reject ((aa_current_configuration a != sdi_current_configuration intent)
          || (aa_previous_configuration a
                != ((fun _ => sdi_previous_configuration intent) <$> aa_previous_configuration a))
          || (aa_transition_kind a
                != ((fun _ => SecondaryScaleDown) <$> aa_previous_configuration a))
          || is_some (aa_switchover_handoff a)
          || is_some (aa_scale_up a)
          || negb (has_member (sdi_current_configuration intent) (aa_local_identity a)))
    (contract_mismatch "reduction differs from exact prepared authority").

(** The authority of a scale-up, ordinary or recovered from a failover. *)
Definition validate_scale_up_authority (a : AdmittedAuthority)
    (evidence : ScaleUpConfigurationEvidence) : contract unit :=
  let intent := evidence_intent evidence in
  checked (validate_scale_up intent) ;?
  reject (is_some (aa_secondary_removal a) || is_some (aa_switchover_handoff a))
    (contract_mismatch "scale-up authority cannot carry removal or switchover evidence") ;?
  match evidence with
  | Admission _ =>
      reject ((aa_current_configuration a != sui_current_configuration intent)
              || (aa_previous_configuration a
                    != ((fun _ => sui_previous_configuration intent)
                          <$> aa_previous_configuration a))
              || (aa_transition_kind a != ((fun _ => ScaleUp) <$> aa_previous_configuration a)))
        (contract_mismatch "admitted authority differs from exact scale-up intent")
  | FailoverEvidence e =>
      checked (validate_scale_up_failover_evidence e) ;?
      checked (validate_scale_up_failover_transition e (aa_current_configuration a)
                 (sui_current_policy intent)) ;?
      reject ((aa_previous_configuration a
                 != ((fun _ => sui_previous_configuration intent)
                       <$> aa_previous_configuration a))
              || (aa_transition_kind a != ((fun _ => Failover) <$> aa_previous_configuration a)))
        (contract_mismatch "admitted failover differs from carried scale-up intent")
  end ;?
  reject (negb (has_member (aa_current_configuration a) (aa_local_identity a)))
    (contract_mismatch "local identity is outside admitted scale-up authority").

(** The authority of the transitions that keep the replica set size. *)
Definition validate_fixed_size_authority (a : AdmittedAuthority) : contract unit :=
  let current := aa_current_configuration a in
  checked (validate_configuration current None) ;?
  let? policy := ok_or (policy_fixed (as_u32 (Z.of_nat (length (cd_members current)))) 0)
                   (contract_mismatch "configuration must contain members") in
  match aa_previous_configuration a, aa_transition_kind a with
  | Some previous, Some ((Replacement | Failover | PlannedSwitchover) as kind) =>
      checked (validate_transition_relationship kind (Some previous) current policy)
  | None, (Some Bootstrap | None) => Ok tt
  | Some _, _ =>
      Err (contract_mismatch
        "Previous Configuration requires replacement, failover, or planned switchover authority")
  | None, Some _ =>
      Err (contract_mismatch "non-bootstrap transition requires a Previous Configuration")
  end ;?
  match aa_switchover_handoff a with
  | Some h =>
      reject (handoff_contradicts a h)
        (contract_mismatch "switchover handoff contradicts admitted authority")
  | None =>
      reject (aa_transition_kind a == Some PlannedSwitchover)
        (contract_mismatch "planned switchover authority requires its handoff certificate")
  end ;?
  reject (negb (aa_contains_member a (aa_local_identity a)))
    (contract_mismatch "local identity is outside admitted authority").

(** [AdmittedAuthority::validate] *)
Definition aa_validate (a : AdmittedAuthority) : contract unit :=
  match aa_secondary_removal a, aa_scale_up a with
  | Some e, _ => validate_removal_authority a e
  | None, Some evidence => validate_scale_up_authority a evidence
  | None, None => validate_fixed_size_authority a
  end.

(** [RetiredAuthority::validate] *)
Definition ra_validate (r : RetiredAuthority) (local : ReplicaIdentity) : contract unit :=
  checked (validate_secondary_scale_down_cleanup (ra_committed r) ;?
           validate_replica_retirement (ra_report r)) ;?
  reject ((rrr_intent (ra_report r) != srp_intent (sre_preparation (sdc_evidence (ra_committed r))))
          || (sdi_target (rrr_intent (ra_report r)) != local)
          || is_some_and (fun report => report != ra_report r) (sdc_retirement (ra_committed r)))
    (contract_mismatch "retirement target or evidence differs").

End authority.

(** ** What the replication engine gets *)

Definition managed_configuration (a : AdmittedAuthority) : ManagedReplicaConfiguration :=
  {| mr_local_identity := aa_local_identity a;
     mr_previous_configuration := aa_previous_configuration a;
     mr_current_configuration := aa_current_configuration a;
     mr_switchover_handoff := aa_switchover_handoff a;
     mr_secondary_removal := aa_secondary_removal a;
     mr_scale_up := aa_scale_up a;
     mr_build_kind := if aa_transition_kind a == Some Failover then BuildFailover
                      else BuildProvisioning |}.

(** Whether the build of a replica was made for the configuration. *)
Definition build_handoff_matches {E} (b : BuildAuthority) (a : ManagedReplicaConfiguration)
    : res E bool :=
  if negb (has_member (mr_current_configuration a) (ba_target b)) then Ok false else
  let? primary := mr_primary_identity a in
  if primary != ba_source b then Ok false else
  Ok match ba_kind b with
     | BuildBootstrap =>
         is_none (mr_previous_configuration a)
         && (cd_configuration_id (mr_current_configuration a)
               == cd_configuration_id (ba_current_configuration b))
     | BuildProvisioning =>
         (mr_build_kind a == BuildProvisioning)
         && (is_some_and (fun previous =>
               cd_configuration_id previous == cd_configuration_id (ba_current_configuration b))
               (mr_previous_configuration a)
             || (is_none (mr_previous_configuration a)
                 && is_some_and (fun evidence =>
                      (sui_previous_configuration (evidence_intent evidence)
                         == ba_current_configuration b)
                      && (sui_current_configuration (evidence_intent evidence)
                            == mr_current_configuration a))
                      (mr_scale_up a)))
         && is_none_or (fun evidence =>
              let intent := evidence_intent evidence in
              (sui_build_id intent == ba_build_id b)
              && (sui_primary intent == ba_source b)
              && (sui_target intent == ba_target b)
              && (sui_snapshot_boundary_lsn intent == ba_replication_boundary_lsn b)
              && (sui_previous_configuration intent == ba_current_configuration b))
              (mr_scale_up a)
     | BuildFailover =>
         (mr_build_kind a == BuildFailover)
         && is_some (mr_previous_configuration a)
         && (cd_configuration_id (mr_current_configuration a)
               == cd_configuration_id (ba_current_configuration b))
     end.

Definition completed_build_handoff_lsn {E} (p : DurableBuildProgress)
    (a : ManagedReplicaConfiguration) : res E (option Lsn) :=
  if negb (bp_completed p) then Ok None else
  let? matches := build_handoff_matches (bp_authority p) a in
  if negb matches then Ok None else
  let required :=
    match mr_scale_up a with
    | Some evidence => sui_catch_up_boundary_lsn (evidence_intent evidence)
    | None => default (ba_replication_boundary_lsn (bp_authority p)) (bp_catch_up_boundary_lsn p)
    end in
  let boundary_matches :=
    if is_some (mr_scale_up a) then bp_catch_up_boundary_lsn p == Some required
    else is_none_or (fun boundary => boundary == required) (bp_catch_up_boundary_lsn p) in
  Ok (then_some (boundary_matches && (required <=? bp_durable_lsn p)) (bp_durable_lsn p)).

Definition preserves_same_primary_scale_up_access {E} (existing next : ManagedReplicaConfiguration)
    : res E bool :=
  match mr_scale_up next with
  | Some (Admission _) =>
      let? old_primary := mr_primary_identity existing in
      let? new_primary := mr_primary_identity next in
      Ok ((old_primary == new_primary)
          && (mr_local_identity next == new_primary)
          && (mr_local_identity existing == mr_local_identity next))
  | _ => Ok false
  end.

(** ** What an admitted authority guarantees *)

(** Every configuration that the authority or its evidence names is countable. *)
Record countable_authority (a : AdmittedAuthority) : Prop := {
  ca_current : countable_members (aa_current_configuration a);
  ca_previous : forall c, aa_previous_configuration a = Some c -> countable_members c;
  ca_removal : forall e, aa_secondary_removal a = Some e ->
                 countable_intent (srp_intent (sre_preparation e));
  ca_scale_up : forall e, aa_scale_up a = Some e -> countable_scale_up (evidence_intent e);
  ca_failover : forall e, aa_scale_up a = Some (FailoverEvidence e) -> countable_evidence e;
}.

(** The two configurations of a transition. *)
Definition epoch_advances (previous current : ConfigurationDescriptor) : Prop :=
  data_loss_number (cd_epoch current) = data_loss_number (cd_epoch previous) /\
  configuration_number (cd_epoch previous) < configuration_number (cd_epoch current).

Record admitted `{Sha256} (a : AdmittedAuthority) : Prop := {
  ad_current : validated (aa_current_configuration a);
  ad_previous : forall previous, aa_previous_configuration a = Some previous ->
                  validated previous /\ epoch_advances previous (aa_current_configuration a);
  ad_local : aa_contains_member a (aa_local_identity a) = true;
}.

Section admitted.
Context `{Sha256}.

Lemma validated_with_policy c p :
  valid_configuration c (Some p) -> validate_policy p = Ok tt -> validated c.
Proof. intros Hv Hp. exists (Some p). split; [done|]. by intros q [= <-]. Qed.

Lemma contains_current_member a i :
  has_member (aa_current_configuration a) i = true -> aa_contains_member a i = true.
Proof. unfold aa_contains_member. by intros ->. Qed.

(** A previous configuration that is the expected one, if there is one. *)
Lemma expected_previous (o : option ConfigurationDescriptor) c previous :
  o = ((fun _ => c) <$> o) -> o = Some previous -> previous = c.
Proof. intros Ho ->. simpl in Ho. congruence. Qed.

Lemma removal_authority_admitted a e :
  countable_authority a -> aa_secondary_removal a = Some e ->
  validate_removal_authority a e = Ok tt -> admitted a.
Proof.
  intros Hc He Hok. unfold validate_removal_authority, checked in Hok. guards.
  rename select (validate_secondary_removal_evidence _ _ = _) into Hev.
  apply evidence_ok in Hev as (Hi & _); [|by eapply ca_removal].
  rename select (aa_current_configuration a = _) into Hcur.
  split; rewrite ?Hcur.
  - eapply validated_with_policy; apply Hi.
  - intros previous Hp. eapply expected_previous in Hp as ->; [|done].
    split; [eapply validated_with_policy; apply Hi|]. split; apply Hi.
  - apply contains_current_member. by rewrite Hcur.
Qed.

Lemma failover_transition_ok e c policy :
  countable_members c -> validate_scale_up_failover_transition e c policy = Ok tt ->
  validate_policy policy = Ok tt /\ valid_configuration c (Some policy) /\
  data_loss_number (cd_epoch c)
  = data_loss_number (cd_epoch (sui_current_configuration (sufe_intent e))) /\
  configuration_number (cd_epoch (sui_current_configuration (sufe_intent e)))
  < configuration_number (cd_epoch c).
Proof.
  unfold validate_scale_up_failover_transition. intros Hc Hok. guards.
  rename select (validate_failover_configuration _ _ _ = _) into Hf.
  apply failover_configuration_ok in Hf as (? & ? & _ & _ & ? & ?); done.
Qed.

Lemma scale_up_authority_admitted a evidence :
  countable_authority a -> aa_scale_up a = Some evidence ->
  validate_scale_up_authority a evidence = Ok tt -> admitted a.
Proof.
  intros Hc He Hok. unfold validate_scale_up_authority, checked in Hok. guards.
  rename select (validate_scale_up _ = _) into Hi.
  apply validate_scale_up_ok in Hi; [|by eapply ca_scale_up].
  assert (Hlocal : aa_contains_member a (aa_local_identity a) = true)
    by by apply contains_current_member.
  destruct evidence as [i|e]; guards; simpl in *.
  - rename select (aa_current_configuration a = _) into Hcur. split; rewrite ?Hcur; try done.
    + eapply validated_with_policy; apply Hi.
    + intros previous Hp. eapply expected_previous in Hp as ->; [|done].
      split; [eapply validated_with_policy; apply Hi|]. split; [apply Hi|].
      rewrite (su_number _ Hi). lia.
  - rename select (validate_scale_up_failover_transition _ _ _ = _) into Ht.
    apply failover_transition_ok in Ht as (Hpol & Hv & Hdl & Hn); [|apply Hc].
    split; [by eapply validated_with_policy| |done].
    intros previous Hp. eapply expected_previous in Hp as ->; [|done].
    split; [eapply validated_with_policy; apply Hi|].
    pose proof (su_number _ Hi). pose proof (su_data_loss _ Hi). split; [congruence|lia].
Qed.

Lemma fixed_size_authority_admitted a :
  countable_authority a -> validate_fixed_size_authority a = Ok tt -> admitted a.
Proof.
  intros Hc Hok. unfold validate_fixed_size_authority, checked in Hok. guards.
  rename select (validate_configuration _ _ = _) into Hv.
  apply valid_configuration_sound in Hv; [|apply Hc].
  split; [by exists None| |done].
  intros previous Hp. rewrite Hp in *. pose proof (ca_previous _ Hc _ Hp) as Hcp.
  destruct (aa_transition_kind a) as [[]|]; guards; try done;
    (rename select (validate_transition_relationship _ _ _ _ = _) into Ht;
     apply valid_transition_sound in Ht; [|done|apply Hc];
     split; [eapply validated_with_policy; apply Ht|split; apply Ht]).
Qed.

Lemma validated_authority_admitted a :
  countable_authority a -> aa_validate a = Ok tt -> admitted a.
Proof.
  unfold aa_validate. intros Hc Hok. destruct (aa_secondary_removal a) as [e|] eqn:He.
  - by eapply removal_authority_admitted.
  - destruct (aa_scale_up a) as [evidence|] eqn:Hs.
    + by eapply scale_up_authority_admitted.
    + by apply fixed_size_authority_admitted.
Qed.

Lemma find_member_some c i : has_member c i = true -> exists m, find_member i c = Some m.
Proof.
  unfold has_member, find_member. rewrite existsb_true. intros (m & Hm & Heq).
  destruct (List.find _ _) eqn:E; [eauto|]. rewrite find_none_iff in E.
  specialize (E m Hm). simpl in *. congruence.
Qed.

Lemma admitted_local_role a :
  admitted a -> exists role, mr_local_role (E := RuntimeError) (managed_configuration a) = Ok role.
Proof.
  intros Ha. pose proof (ad_local _ Ha) as Hl. unfold aa_contains_member in Hl.
  unfold mr_local_role. simpl.
  destruct (find_member (aa_local_identity a) (aa_current_configuration a)) as [m|] eqn:Hm;
    [simpl; eauto|].
  apply orb_true_iff in Hl as [Hl|Hl].
  - apply find_member_some in Hl as [m Hl]. congruence.
  - apply is_some_and_true in Hl as (previous & Hp & Hl). apply find_member_some in Hl as [m Hl].
    rewrite Hp. simpl. rewrite Hl. simpl. eauto.
Qed.

(** [C34] An authority that passes validation, whichever evidence it carries,
    gives the replication engine a configuration it can run safely: the engine's
    own check accepts it under the same fence; every configuration its commits
    need has a validated majority quorum; the epoch epoch_advances over the previous
    configuration within the same data-loss incarnation; and the primary and the
    local role are defined. *)
Theorem admitted_authority_safe a :
  countable_authority a -> aa_validate a = Ok tt ->
  mr_validate (managed_configuration a) = Ok tt /\
  mr_fence (managed_configuration a) = aa_fence a /\
  (forall c, commits_in (managed_configuration a) c -> validated c) /\
  (forall previous, aa_previous_configuration a = Some previous ->
     epoch_advances previous (aa_current_configuration a)) /\
  (exists primary, mr_primary_identity (E := RuntimeError) (managed_configuration a) = Ok primary /\
     has_member_with_role (aa_current_configuration a) primary Primary = true) /\
  (exists role, mr_local_role (E := RuntimeError) (managed_configuration a) = Ok role).
Proof.
  intros Hc Hok. apply validated_authority_admitted in Hok; [|done].
  split_and!; [|done| | | |by apply admitted_local_role].
  - unfold mr_validate. simpl. pass_guard; [apply negb_false_iff, (ad_local _ Hok)|].
    destruct (aa_previous_configuration a) as [previous|] eqn:Hp; [|done].
    destruct (ad_previous _ Hok previous Hp) as [_ [Hdl Hn]].
    apply reject_ok. unfold epoch_leb. by rewrite epoch_newer.
  - intros c [->|Hp]; [apply Hok|]. by apply (ad_previous _ Hok).
  - intros previous Hp. by apply (ad_previous _ Hok).
  - destruct (ad_current _ Hok) as (policy & Hv & _).
    destruct (find_primary_some _ _ Hv) as (m & Hf & Hm & Hr & _).
    exists (cm_identity m). unfold mr_primary_identity. simpl. rewrite Hf. split; [done|].
    unfold has_member_with_role. apply existsb_true. exists m. split; [done|].
    by rewrite !bool_decide_true.
Qed.

(** Validating an admitted authority never panics, whatever transition
    and evidence it carries. *)
Theorem authority_validation_never_panics a : countable_authority a -> aa_validate a <> Panic.
Proof.
  intros Hc. unfold aa_validate. destruct (aa_secondary_removal a) as [e|] eqn:He.
  - unfold validate_removal_authority, checked. no_panic.
    apply map_err_no_panic, removal_evidence_no_panic.
  - destruct (aa_scale_up a) as [evidence|] eqn:Hs.
    + unfold validate_scale_up_authority, validate_scale_up_failover_transition, checked.
      no_panic; subst; apply map_err_no_panic; no_panic;
        auto using validate_scale_up_no_panic, failover_evidence_no_panic,
          failover_configuration_no_panic.
    + unfold validate_fixed_size_authority, checked. no_panic; apply map_err_no_panic;
        eauto 6 using validate_configuration_no_panic, transition_no_panic, ca_current, ca_previous.
Qed.

(** The engine's projection of an authority accepts exactly the envelopes
    that the authority accepts, and recognizes every completion of a transition
    that the authority recognizes. *)
Theorem managed_projection_refines a existing e :
  (mr_validate_envelope (managed_configuration a) e = Ok tt <-> aa_validate_envelope a e = Ok tt) /\
  (aa_is_current_only_completion_of a existing = true ->
   mr_is_current_only_completion_of (managed_configuration a) (managed_configuration existing)
   = true).
Proof.
  split.
  - unfold mr_validate_envelope, mr_validate_fence, aa_validate_envelope, mr_primary_identity,
      aa_primary_identity, aa_contains_member, mr_contains_member. simpl.
    destruct (find_primary _); simpl; [|done].
    repeat match goal with |- context [reject ?b _] => destruct b; simpl; [done|] end. done.
  - unfold aa_is_current_only_completion_of, mr_is_current_only_completion_of. simpl. intros Hok.
    guards. destruct (aa_secondary_removal a), (aa_secondary_removal existing); try done;
      guards; repeat (apply andb_true_iff; split); try done; by apply bool_decide_eq_true.
Qed.

(** A completed build is credited to its target only by a configuration
    that admits the target under the primary that built it, and only when the
    build durably holds the boundary the configuration requires; for a scale-up
    that is the frozen catch-up boundary of its intent. *)
Theorem build_handoff_certified p a lsn :
  completed_build_handoff_lsn (E := RuntimeError) p a = Ok (Some lsn) ->
  ba_target (bp_authority p) ∈ exact_identities (mr_current_configuration a) /\
  mr_primary_identity (E := RuntimeError) a = Ok (ba_source (bp_authority p)) /\
  bp_completed p = true /\ lsn = bp_durable_lsn p /\
  match mr_scale_up a with
  | Some evidence =>
      bp_catch_up_boundary_lsn p = Some (sui_catch_up_boundary_lsn (evidence_intent evidence)) /\
      sui_catch_up_boundary_lsn (evidence_intent evidence) <= lsn
  | None => default (ba_replication_boundary_lsn (bp_authority p)) (bp_catch_up_boundary_lsn p) <= lsn
  end.
Proof.
  unfold completed_build_handoff_lsn, build_handoff_matches.
  destruct (bp_completed p); [simpl|done].
  destruct (has_member _ _) eqn:Hm; [simpl|done].
  destruct (mr_primary_identity a) as [primary| |]; [simpl|done..].
  case_bool_decide as Hs; [simpl|done]. subst. destruct (negb _); [done|].
  unfold then_some. destruct (_ && _) eqn:Hb; [|done]. intros [= <-]. guards.
  split_and!; [by apply has_member_elem|done..|].
  destruct (mr_scale_up a); simpl in *; guards; done.
Qed.

(** A replica that validates its own retirement is outside the reduced
    configuration, is not its primary, and its report attests that it is closed
    and fenced under an accepted removal certificate. *)
Theorem retired_replica_is_outside r local :
  countable_intent (srp_intent (sre_preparation (sdc_evidence (ra_committed r)))) ->
  ra_validate r local = Ok tt ->
  let i := rrr_intent (ra_report r) in
  removal_intent i /\ validate_secondary_scale_down_cleanup (ra_committed r) = Ok tt /\
  local = sdi_target i /\ local <> sdi_primary i /\
  (local ∉ exact_identities (sdi_current_configuration i)) /\
  rrr_role (ra_report r) = RoleNone /\ rrr_write_status (ra_report r) <> Granted /\
  rrr_application_closed (ra_report r) = true /\ rrr_peers_fenced (ra_report r) = true.
Proof.
  intros Hc Hok i. unfold ra_validate, checked, validate_replica_retirement in Hok. guards.
  rename select (rrr_intent (ra_report r) = _) into Hi. subst i. rewrite Hi in *.
  rename select (validate_secondary_scale_down _ = _) into Hv.
  destruct Hc as [Hcp Hcc]. apply validate_secondary_scale_down_ok in Hv; [|done..].
  assert (Hout : sdi_target (srp_intent (sre_preparation (sdc_evidence (ra_committed r))))
    ∉ exact_identities (sdi_current_configuration
        (srp_intent (sre_preparation (sdc_evidence (ra_committed r)))))).
  { intros (m & Hm & Heq)%elem_of_exact_identities.
    apply (rm_members _ _ _ (ri_removes _ Hv)) in Hm as [_ Hm]. done. }
  rename select (sdi_target _ = local) into Htarget. rewrite Htarget in Hout.
  split_and!; try done. intros ->. destruct (ri_primary _ Hv) as (m & Hm & _ & Heq).
  destruct Hout. apply elem_of_exact_identities. eauto.
Qed.

End admitted.

(** ** Sample authorities *)

#[local] Existing Instance padding_sha256.

Module Authorities.

(** The elected configuration of the recovered scale-up, at its primary. *)
Definition elected : AdmittedAuthority :=
  {| aa_local_identity := Sample.identity 3 "c"; aa_transition_kind := Some Failover;
     aa_previous_configuration := Some Sample.previous;
     aa_current_configuration := Expansion.elected; aa_switchover_handoff := None;
     aa_secondary_removal := None;
     aa_scale_up := Some (FailoverEvidence (Expansion.evidence Expansion.election)) |}.

(** The ordinary scale-up at its primary, and its completion. *)
Definition expanding (previous : option ConfigurationDescriptor) : AdmittedAuthority :=
  {| aa_local_identity := Sample.identity 1 "a";
     aa_transition_kind := (fun _ => ScaleUp) <$> previous;
     aa_previous_configuration := previous;
     aa_current_configuration := Expansion.expanded 2 1; aa_switchover_handoff := None;
     aa_secondary_removal := None; aa_scale_up := Some (Admission Expansion.intent) |}.

Definition build : DurableBuildProgress :=
  {| bp_authority :=
       {| ba_build_id := "build"; ba_kind := BuildProvisioning;
          ba_source := Sample.identity 1 "a"; ba_target := Sample.identity 4 "d";
          ba_current_configuration := Sample.previous; ba_replication_boundary_lsn := 1 |};
     bp_last_sequence := 4; bp_durable_lsn := 6; bp_completed := true;
     bp_catch_up_boundary_lsn := Some 2 |}.

Definition retired : RetiredAuthority :=
  {| ra_committed := Removal.certificate;
     ra_report :=
       {| rrr_operation_id := sdi_command_operation_id Removal.intent SrRetire Removal.target;
          rrr_intent := Removal.intent; rrr_process_session_id := "s3"; rrr_report_sequence := 1;
          rrr_epoch := mkEpoch 0 2; rrr_role := RoleNone; rrr_read_status := NotPrimary;
          rrr_write_status := NotPrimary; rrr_application_closed := true;
          rrr_peers_fenced := true |} |}.

Lemma elected_countable : countable_authority elected.
Proof.
  split; try done.
  - intros c [= <-]. done.
  - intros e [= <-]. split; vm_compute; reflexivity.
  - intros e [= <-]. split; [split|]; vm_compute; reflexivity.
Qed.

End Authorities.

Lemma admitted_authority_safe_witness :
  exists role, mr_local_role (E := RuntimeError) (managed_configuration Authorities.elected) = Ok role.
Proof.
  destruct (admitted_authority_safe Authorities.elected Authorities.elected_countable)
    as (_ & _ & _ & _ & _ & Hrole).
  - vm_compute. reflexivity.
  - exact Hrole.
Defined.

Lemma authority_validation_never_panics_witness : aa_validate Authorities.elected <> Panic.
Proof. apply (authority_validation_never_panics Authorities.elected Authorities.elected_countable). Defined.

Lemma managed_projection_refines_witness :
  mr_is_current_only_completion_of (managed_configuration (Authorities.expanding None))
    (managed_configuration (Authorities.expanding (Some Sample.previous))) = true.
Proof.
  destruct (managed_projection_refines (Authorities.expanding None)
              (Authorities.expanding (Some Sample.previous))
              (Build_ReplicationItem (Sample.identity 1 "a") (Sample.identity 4 "d") (mkEpoch 0 2)
                 None "" 1 0 [])) as [_ Hc].
  apply Hc. vm_compute. reflexivity.
Defined.

Lemma build_handoff_certified_witness :
  Sample.identity 4 "d" ∈ exact_identities (Expansion.expanded 2 1).
Proof.
  destruct (build_handoff_certified Authorities.build
              (managed_configuration (Authorities.expanding (Some Sample.previous))) 6)
    as [Hin _]; [vm_compute; reflexivity|exact Hin].
Defined.

Lemma retired_replica_is_outside_witness :
  Removal.target ∉ exact_identities (sdi_current_configuration Removal.intent).
Proof.
  destruct (retired_replica_is_outside Authorities.retired Removal.target)
    as (_ & _ & _ & _ & Hout & _); [split; vm_compute; reflexivity|vm_compute; reflexivity|].
  exact Hout.
Defined.
