(* ===== verification/AuthorityStore.v ===== *)
(** * The durable authority store ([host/sqlite_store.rs])

    The tables behind [ReplicaAuthorityStore], [ReplicationProgressStore],
    [LocalWriteJournal], [BuildAuthorityStore] and [BuildProgressStore].  A row
    is kept as a JSON text of the value; the model keeps the value, keyed by the
    table's key.  Every operation runs in one transaction: it yields the new
    tables, or an error and the tables as they were. *)

From S2P Require Import Prelude Digest Types Intents Commands Validation Quorums ScaleDown ScaleUp.
From S2P Require Import ManagedConfiguration Quorum QuorumSafety Authority.
From stdpp Require Import base gmap strings list sorting relations.
From Stdlib Require Import ZArith Lia.
Local Open Scope Z_scope.

(** ** Rows *)

#[export] Instance Epoch_countable : Countable Epoch.
Proof.
  apply (inj_countable' (fun e => (data_loss_number e, configuration_number e))
           (fun p => mkEpoch p.1 p.2)). by intros [].
Defined.
#[export] Instance AuthorityFence_countable : Countable AuthorityFence.
Proof.
  apply (inj_countable'
           (fun f => (fence_epoch f, fence_previous_configuration_id f,
                      fence_current_configuration_id f))
           (fun p => Build_AuthorityFence p.1.1 p.1.2 p.2)). by intros [].
Defined.

Record ReplicationProgress := { rp_fence : AuthorityFence; rp_verified_lsn : Lsn }.
#[export] Instance ReplicationProgress_eq_dec : EqDecision ReplicationProgress.
Proof. solve_decision. Defined.

Inductive LocalWritePhase := Reserved | Registered | Committed.
#[export] Instance LocalWritePhase_eq_dec : EqDecision LocalWritePhase.
Proof. solve_decision. Defined.

Definition phase_tag (p : LocalWritePhase) : Z :=
  match p with Reserved => 0 | Registered => 1 | Committed => 2 end.

Record DurableLocalWrite := {
  dlw_operation_id : OperationId;
  dlw_lsn : Lsn;
  dlw_committed_lsn : Lsn;
  dlw_data : Bytes;
  dlw_phase : LocalWritePhase;
}.
#[export] Instance DurableLocalWrite_fields : Fields DurableLocalWrite := fun w =>
  Build_DurableLocalWrite (dlw_operation_id w) (dlw_lsn w) (dlw_committed_lsn w) (dlw_data w)
    (dlw_phase w).
#[export] Instance DurableLocalWrite_eq_dec : EqDecision DurableLocalWrite.
Proof. solve_decision. Defined.

Record BuildSelection := { bs_authority : BuildAuthority; bs_generation : Z }.
#[export] Instance BuildSelection_eq_dec : EqDecision BuildSelection.
Proof. solve_decision. Defined.
#[export] Instance DurableBuildProgress_eq_dec : EqDecision DurableBuildProgress.
Proof. solve_decision. Defined.
#[export] Instance RetiredAuthority_eq_dec : EqDecision RetiredAuthority.
Proof. solve_decision. Defined.

(** The part of the agent state that these operations read and write. *)
Record AgentView := {
  av_local_identity : ReplicaIdentity;
  av_resource_uid : ResourceUid;
  av_retired_authority : option RetiredAuthority;
  av_retired_builds : gset string;
  av_abandoned_builds : gset string;
  av_build_progress : gmap string DurableBuildProgress;
}.
#[export] Instance AgentView_fields : Fields AgentView := fun v =>
  Build_AgentView (av_local_identity v) (av_resource_uid v) (av_retired_authority v)
    (av_retired_builds v) (av_abandoned_builds v) (av_build_progress v).

(** The tables.  The rows of [runtime_lifecycle] are one field per kind. *)
Record AuthorityStore := {
  as_state : AgentView;
  as_authority : option AdmittedAuthority;
  as_preparation : option SecondaryRemovalPreparation;
  as_commit : option SecondaryScaleDownCleanup;
  as_started : option RetiredAuthority;
  as_retired : option RetiredAuthority;
  as_selections : gmap Z BuildSelection;
  as_progress : gmap AuthorityFence ReplicationProgress;
  as_local_writes : gmap string DurableLocalWrite;
  as_builds : gmap string BuildAuthority;
  as_build_progress : gmap string DurableBuildProgress;
}.
#[export] Instance AuthorityStore_fields : Fields AuthorityStore := fun s =>
  Build_AuthorityStore (as_state s) (as_authority s) (as_preparation s) (as_commit s)
    (as_started s) (as_retired s) (as_selections s) (as_progress s) (as_local_writes s)
    (as_builds s) (as_build_progress s).

(** The store of a new agent. *)
Definition new_store (local : ReplicaIdentity) (resource : ResourceUid) : AuthorityStore :=
  {| as_state := {| av_local_identity := local; av_resource_uid := resource;
                    av_retired_authority := None; av_retired_builds := ∅;
                    av_abandoned_builds := ∅; av_build_progress := ∅ |};
     as_authority := None; as_preparation := None; as_commit := None; as_started := None;
     as_retired := None; as_selections := ∅; as_progress := ∅; as_local_writes := ∅;
     as_builds := ∅; as_build_progress := ∅ |}.

Definition store_local (s : AuthorityStore) : ReplicaIdentity := av_local_identity (as_state s).

(** A build that is retired or abandoned. *)
Definition dead_build (s : AuthorityStore) (id : OperationId) : bool :=
  bool_decide (id ∈ av_retired_builds (as_state s))
  || bool_decide (id ∈ av_abandoned_builds (as_state s)).

(** ** Replica authority *)

Section replica_authority.
Context `{Sha256}.

Definition admit_authority (a : AdmittedAuthority) (s : AuthorityStore) : contract AuthorityStore :=
  aa_validate a ;?
  reject (is_some (as_retired s) || is_some (as_started s)
          || is_some (av_retired_authority (as_state s))
          || (aa_local_identity a != store_local s))
    (contract_mismatch "retired or mismatched local authority") ;?
  match as_authority s with
  | Some existing =>
      if existing == a then Ok s else
      reject (epoch_ltb (cd_epoch (aa_current_configuration a))
                (cd_epoch (aa_current_configuration existing)))
        (contract_mismatch "replica authority epoch regressed") ;?
      reject ((cd_epoch (aa_current_configuration a)
                 == cd_epoch (aa_current_configuration existing))
              && (existing != a) && negb (aa_is_current_only_completion_of a existing))
        (contract_mismatch "replica authority changed without a newer epoch") ;?
      Ok (s <| as_authority := Some a |>)
  | None => Ok (s <| as_authority := Some a |>)
  end.

Definition record_secondary_removal (p : SecondaryRemovalPreparation) (s : AuthorityStore)
    : contract AuthorityStore :=
  checked (validate_secondary_removal_preparation p) ;?
  reject ((sdi_primary (srp_intent p) != store_local s)
          || (sdi_resource_uid (srp_intent p) != av_resource_uid (as_state s))
          || is_some (av_retired_authority (as_state s)))
    (contract_mismatch "preparation belongs to another primary") ;?
  match as_preparation s with
  | Some existing =>
      if existing == p then Ok s else
      reject ((srp_operation_id existing == srp_operation_id p)
              || epoch_ltb (cd_epoch (sdi_previous_configuration (srp_intent p)))
                   (cd_epoch (sdi_current_configuration (srp_intent existing))))
        (contract_mismatch "preparation regresses durable high-water authority") ;?
      Ok (s <| as_preparation := Some p |>)
  | None => Ok (s <| as_preparation := Some p |>)
  end.

(** Whether the retirement has already been recorded as terminal. *)
Definition validate_retirement (r : RetiredAuthority) (s : AuthorityStore) : contract bool :=
  ra_validate r (store_local s) ;?
  reject (sdi_resource_uid (rrr_intent (ra_report r)) != av_resource_uid (as_state s))
    (contract_mismatch "retirement resource differs") ;?
  reject (is_some_and (fun old => old != r) (as_retired s)
          || is_some_and (fun old => old != r) (as_started s)
          || is_some_and (fun old => old != r) (av_retired_authority (as_state s)))
    (contract_mismatch "conflicting durable retirement") ;?
  if is_some (as_retired s) then Ok true else
  reject (is_some_and (fun a =>
            (aa_local_identity a != store_local s)
            || (aa_current_configuration a
                  != sdi_previous_configuration (rrr_intent (ra_report r)))
            || is_some (aa_previous_configuration a)) (as_authority s))
    (contract_mismatch "retirement differs from installed authority") ;?
  Ok false.

Definition record_retirement_started (r : RetiredAuthority) (s : AuthorityStore)
    : contract AuthorityStore :=
  let? terminal := validate_retirement r s in
  Ok (if terminal then s else s <| as_started := Some r |>).

Definition record_secondary_removal_commit (c : SecondaryScaleDownCleanup) (s : AuthorityStore)
    : contract AuthorityStore :=
  checked (validate_secondary_scale_down_cleanup c) ;?
  reject (is_none_or (fun a =>
            is_some (aa_previous_configuration a)
            || (aa_secondary_removal a != Some (sdc_evidence c))) (as_authority s))
    (contract_mismatch "commit differs from admitted reduction") ;?
  reject (is_some_and (fun old =>
            (old != c)
            && epoch_leb
                 (cd_epoch (sdi_current_configuration
                    (srp_intent (sre_preparation (sdc_evidence c)))))
                 (cd_epoch (sdi_current_configuration
                    (srp_intent (sre_preparation (sdc_evidence old)))))) (as_commit s))
    (contract_mismatch "commit was mutated or regressed") ;?
  Ok (s <| as_commit := Some c |>).

Definition retire_authority (r : RetiredAuthority) (s : AuthorityStore)
    : contract AuthorityStore :=
  let? terminal := validate_retirement r s in
  Ok (if terminal then s
      else s <| as_retired := Some r |> <| as_authority := None |> <| as_started := None |>).

End replica_authority.

(** ** Replication progress *)

(** The best progress of any fence of a configuration, from the first row of a
    query ordered by decreasing LSN. *)
Definition load_configuration_progress (epoch : Epoch) (id : ConfigurationId) (s : AuthorityStore)
    : option Lsn :=
  max_lsn (map (fun row => rp_verified_lsn row.2)
             (List.filter (fun row => (fence_epoch row.1 == epoch)
                                      && (fence_current_configuration_id row.1 == id))
                (map_to_list (as_progress s)))).

Definition record_replication_progress (p : ReplicationProgress) (s : AuthorityStore)
    : contract AuthorityStore :=
  reject (is_some_and (fun existing => rp_verified_lsn p <? rp_verified_lsn existing)
            (as_progress s !! rp_fence p))
    (contract_mismatch "replication progress regressed") ;?
  Ok (s <| as_progress := <[rp_fence p := p]> (as_progress s) |>).

(** ** The journal of local writes *)

(** [ORDER BY lsn, operation_id] *)
Definition write_le (v w : DurableLocalWrite) : Prop :=
  dlw_lsn v < dlw_lsn w \/
  (dlw_lsn v = dlw_lsn w /\ String.le (dlw_operation_id v) (dlw_operation_id w)).
#[export] Instance write_le_dec : RelDecision write_le.
Proof. unfold RelDecision, write_le. apply _. Defined.
#[export] Instance write_le_trans : Transitive write_le.
Proof.
  intros u v w [Huv|[Huv Hs]] [Hvw|[Hvw Ht]]; unfold write_le; [left; lia..|].
  right. split; [lia|]. by etrans.
Qed.
#[export] Instance write_le_total : Total write_le.
Proof.
  intros v w. unfold write_le.
  destruct (total String.le (dlw_operation_id v) (dlw_operation_id w)),
    (Z.lt_trichotomy (dlw_lsn v) (dlw_lsn w)) as [|[|]]; auto with lia.
Qed.

(** The unresolved writes, in the order of their LSNs. *)
Definition load_local_writes (s : AuthorityStore) : list DurableLocalWrite :=
  merge_sort write_le
    (List.filter (fun w => dlw_phase w != Committed) (map snd (map_to_list (as_local_writes s)))).

Definition record_local_write (w : DurableLocalWrite) (s : AuthorityStore)
    : contract AuthorityStore :=
  match as_local_writes s !! dlw_operation_id w with
  | Some existing =>
      reject ((dlw_lsn existing != dlw_lsn w)
              || (dlw_committed_lsn existing != dlw_committed_lsn w)
              || (dlw_data existing != dlw_data w))
        (contract_mismatch "local write identity or payload changed") ;?
      reject (phase_tag (dlw_phase w) <? phase_tag (dlw_phase existing))
        (contract_mismatch "local write phase regressed")
  | None => Ok tt
  end ;?
  Ok (s <| as_local_writes := <[dlw_operation_id w := w]> (as_local_writes s) |>).

(** The completion of an admission, [complete_effect]:
    [INSERT INTO replica_authority ... ON CONFLICT DO UPDATE], whatever the row holds. *)
Definition install_authority (a : AdmittedAuthority) (s : AuthorityStore) : AuthorityStore :=
  s <| as_authority := Some a |>.

(** [DELETE FROM local_writes WHERE phase != committed OR lsn > committed_lsn] *)
Definition survives_data_loss (committed : Lsn) (w : DurableLocalWrite) : Prop :=
  dlw_phase w = Committed /\ dlw_lsn w <= committed.
#[export] Instance survives_data_loss_dec committed w : Decision (survives_data_loss committed w).
Proof. apply _. Defined.

Definition reset_local_writes_after_data_loss (committed : Lsn) (s : AuthorityStore)
    : AuthorityStore :=
  s <| as_local_writes :=
    filter (fun row => survives_data_loss committed row.2) (as_local_writes s) |>.

(** ** Builds *)

Section builds.
Context `{Sha256}.

Definition load_build (id : OperationId) (s : AuthorityStore) : option BuildAuthority :=
  if dead_build s id then None else as_builds s !! id.

Definition admit_build (b : BuildAuthority) (s : AuthorityStore) : contract AuthorityStore :=
  checked (validate_build_authority b) ;?
  reject (dead_build s (ba_build_id b))
    (contract_mismatch "retired build authority cannot be admitted again") ;?
  reject (is_some_and (fun existing => existing != b) (as_builds s !! ba_build_id b))
    (contract_mismatch "build ID was reused with different authority") ;?
  Ok (s <| as_builds :=
    match as_builds s !! ba_build_id b with
    | Some _ => as_builds s
    | None => <[ba_build_id b := b]> (as_builds s)
    end |>).

(** [previous.map_or(Some(1), |p| p.generation.checked_add(1))] on [u64] *)
Definition next_generation (previous : option BuildSelection) : option Z :=
  match previous with
  | None => Some 1
  | Some p => if bs_generation p <? 2 ^ 64 - 1 then Some (bs_generation p + 1) else None
  end.

Definition select_build (b : BuildAuthority) (s : AuthorityStore)
    : contract (AuthorityStore * BuildSelection) :=
  reject ((as_builds s !! ba_build_id b != Some b) || dead_build s (ba_build_id b))
    (contract_mismatch "custom build authority is not admitted") ;?
  let previous := as_selections s !! replica_id (ba_target b) in
  match opt_filter (fun p => bs_authority p == b) previous with
  | Some selected => Ok (s, selected)
  | None =>
      reject (is_some_and (fun p =>
                epoch_ltb (cd_epoch (ba_current_configuration b))
                  (cd_epoch (ba_current_configuration (bs_authority p)))) previous)
        (contract_mismatch "custom build epoch regressed") ;?
      let abandoned :=
        match previous with
        | Some p => {[ba_build_id (bs_authority p)]} ∪ av_abandoned_builds (as_state s)
        | None => av_abandoned_builds (as_state s)
        end in
      let? generation := ok_or (next_generation previous)
                           (contract_mismatch "build selection generation exhausted") in
      let selection := {| bs_authority := b; bs_generation := generation |} in
      Ok (s <| as_selections := <[replica_id (ba_target b) := selection]> (as_selections s) |>
            <| as_state := (as_state s) <| av_abandoned_builds := abandoned |> |>,
          selection)
  end.

Definition load_build_selection (target : ReplicaIdentity) (s : AuthorityStore)
    : option BuildSelection :=
  opt_filter (fun x => (ba_target (bs_authority x) == target)
                       && negb (dead_build s (ba_build_id (bs_authority x))))
    (as_selections s !! replica_id target).

Definition build_regressed (p existing : DurableBuildProgress) : bool :=
  (bp_last_sequence p <? bp_last_sequence existing)
  || (bp_durable_lsn p <? bp_durable_lsn existing)
  || (bp_completed existing && negb (bp_completed p))
  || (is_some (bp_catch_up_boundary_lsn existing)
      && (bp_catch_up_boundary_lsn p != bp_catch_up_boundary_lsn existing)).

(** [record_build_progress] and [record_selected_build_progress] *)
Definition record_build_progress (p : DurableBuildProgress) (selection : option BuildSelection)
    (s : AuthorityStore) : contract AuthorityStore :=
  let id := ba_build_id (bp_authority p) in
  reject (is_some_and (fun x =>
            (as_selections s !! replica_id (ba_target (bp_authority p)) != Some x)
            || (bs_authority x != bp_authority p)) selection)
    (contract_mismatch "custom build selection was superseded") ;?
  reject (dead_build s id)
    (contract_mismatch "retired or abandoned build cannot publish progress") ;?
  reject (as_builds s !! id != Some (bp_authority p))
    (contract_mismatch "build progress lacks matching durable authorization") ;?
  reject (is_some_and (build_regressed p) (as_build_progress s !! id))
    (contract_mismatch "build progress regressed") ;?
  Ok (s <| as_build_progress := <[id := p]> (as_build_progress s) |>
        <| as_state := (as_state s)
             <| av_build_progress := <[id := p]> (av_build_progress (as_state s)) |> |>).

End builds.

(** ** Histories of the store *)

Section steps.
Context `{Sha256}.

(** What a transaction does besides adding to the tables: data loss drops writes of the
    journal, and the completion of an admission writes the authority row without a check. *)
Inductive StoreEvent :=
| Recorded
| WritesReset (committed : Lsn)
| AuthorityInstalled (a : AdmittedAuthority).

(** The agent's row as its own transactions change it: an incarnation stays the same, and
    retired and abandoned builds stay so. *)
Definition row_follows (v v' : AgentView) : Prop :=
  av_local_identity v' = av_local_identity v /\ av_resource_uid v' = av_resource_uid v /\
  av_retired_builds v ⊆ av_retired_builds v' /\ av_abandoned_builds v ⊆ av_abandoned_builds v'.

(** The transactions of the store's traits that commit; a transaction that fails changes
    nothing. *)
Inductive runtime_step (s : AuthorityStore) : StoreEvent -> AuthorityStore -> Prop :=
| StoreAdmit a s' : admit_authority a s = Ok s' -> runtime_step s Recorded s'
| StorePreparation p s' : record_secondary_removal p s = Ok s' -> runtime_step s Recorded s'
| StoreRetirementStarted r s' : record_retirement_started r s = Ok s' -> runtime_step s Recorded s'
| StoreCommit c s' : record_secondary_removal_commit c s = Ok s' -> runtime_step s Recorded s'
| StoreRetire r s' : retire_authority r s = Ok s' -> runtime_step s Recorded s'
| StoreProgress p s' : record_replication_progress p s = Ok s' -> runtime_step s Recorded s'
| StoreWrite w s' : record_local_write w s = Ok s' -> runtime_step s Recorded s'
| StoreAdmitBuild b s' : admit_build b s = Ok s' -> runtime_step s Recorded s'
| StoreSelect b s' x : select_build b s = Ok (s', x) -> runtime_step s Recorded s'
| StoreBuildProgress p x s' :
    record_build_progress p x s = Ok s' -> runtime_step s Recorded s'
| StoreReset committed :
    runtime_step s (WritesReset committed) (reset_local_writes_after_data_loss committed s).

(** Every transaction on the tables, those of the agent's own commands included. *)
Inductive store_step (s : AuthorityStore) : StoreEvent -> AuthorityStore -> Prop :=
| StoreRuntime e s' : runtime_step s e s' -> store_step s e s'
| StoreRow v : row_follows (as_state s) v -> store_step s Recorded (s <| as_state := v |>)
| StoreInstall a : store_step s (AuthorityInstalled a) (install_authority a s).

(** Transactions in a row, with what they did. *)
Inductive store_history : list StoreEvent -> AuthorityStore -> AuthorityStore -> Prop :=
| HistoryNil s : store_history [] s s
| HistoryStep e es s1 s2 s3 :
    store_step s1 e s2 -> store_history es s2 s3 -> store_history (e :: es) s1 s3.

Definition store_reachable (local : ReplicaIdentity) (resource : ResourceUid)
    (es : list StoreEvent) (s : AuthorityStore) : Prop :=
  store_history es (new_store local resource) s.

(** ** What the store never forgets *)

(** A later row for the same write. *)
Definition write_advances (w w' : DurableLocalWrite) : Prop :=
  dlw_lsn w' = dlw_lsn w /\
  dlw_committed_lsn w' = dlw_committed_lsn w /\ dlw_data w' = dlw_data w /\
  phase_tag (dlw_phase w) <= phase_tag (dlw_phase w').

(** A later row for the same build. *)
Definition build_advances (p p' : DurableBuildProgress) : Prop :=
  bp_last_sequence p <= bp_last_sequence p' /\ bp_durable_lsn p <= bp_durable_lsn p' /\
  (bp_completed p = true -> bp_completed p' = true) /\
  (forall lsn, bp_catch_up_boundary_lsn p = Some lsn -> bp_catch_up_boundary_lsn p' = Some lsn).

(** No admission wrote the authority row, and [w] survives every loss of data. *)
Definition nothing_installed (es : list StoreEvent) : Prop :=
  forall a, AuthorityInstalled a ∉ es.
Definition outlives (es : list StoreEvent) (w : DurableLocalWrite) : Prop :=
  forall committed, WritesReset committed ∈ es -> survives_data_loss committed w.

(** The later store [s'] keeps what [s] recorded, [es] being what happened in between. *)
Record remembers (es : list StoreEvent) (s s' : AuthorityStore) : Prop := {
  rem_local : store_local s' = store_local s;
  rem_retired : forall r, as_retired s = Some r -> as_retired s' = Some r;
  rem_authority : nothing_installed es -> forall a, as_authority s = Some a ->
    is_Some (as_retired s') \/
    exists a', as_authority s' = Some a' /\
      epoch_leb (cd_epoch (aa_current_configuration a))
        (cd_epoch (aa_current_configuration a')) = true;
  rem_progress : forall f p, as_progress s !! f = Some p ->
    exists p', as_progress s' !! f = Some p' /\ rp_verified_lsn p <= rp_verified_lsn p';
  rem_writes : forall id w, as_local_writes s !! id = Some w -> outlives es w ->
    exists w', as_local_writes s' !! id = Some w' /\ write_advances w w';
  rem_builds : forall id b, as_builds s !! id = Some b -> as_builds s' !! id = Some b;
  rem_build_progress : forall id p, as_build_progress s !! id = Some p ->
    exists p', as_build_progress s' !! id = Some p' /\ build_advances p p';
  rem_dead : forall id, dead_build s id = true -> dead_build s' id = true;
  rem_selections : forall k x, as_selections s !! k = Some x ->
    exists x', as_selections s' !! k = Some x' /\ bs_generation x <= bs_generation x' /\
      (x' = x \/ bs_generation x < bs_generation x' /\
       dead_build s' (ba_build_id (bs_authority x)) = true);
}.

Lemma write_advances_trans w1 w2 w3 :
  write_advances w1 w2 -> write_advances w2 w3 -> write_advances w1 w3.
Proof. unfold write_advances. intros (?&?&?&?) (?&?&?&?). split_and!; (congruence || lia). Qed.

Lemma write_advances_refl w : write_advances w w.
Proof. repeat split; lia. Qed.

Lemma build_advances_trans p1 p2 p3 :
  build_advances p1 p2 -> build_advances p2 p3 -> build_advances p1 p3.
Proof. unfold build_advances. intros (?&?&?&?) (?&?&?&?). split_and!; (lia || naive_solver). Qed.

Lemma outlives_advances es w w' : outlives es w -> write_advances w w' -> outlives es w'.
Proof.
  intros Ho (Hl & _ & _ & Hp) c Hc. destruct (Ho c Hc) as [Hw Hle].
  split; [|lia]. rewrite Hw in Hp. by destruct (dlw_phase w').
Qed.

Lemma remembers_refl es s : remembers es s s.
Proof.
  split; eauto using epoch_leb_refl; try done.
  - intros f p Hp. exists p. split; [done|lia].
  - eauto using write_advances_refl.
  - intros id p Hp. exists p. repeat split; done.
  - intros k x Hx. exists x. split_and!; [done|lia|by left].
Qed.

Lemma remembers_app es es' s1 s2 s3 :
  remembers es s1 s2 -> remembers es' s2 s3 -> remembers (es ++ es') s1 s3.
Proof.
  intros [L1 R1 A1 P1 W1 B1 BP1 D1 S1] [L2 R2 A2 P2 W2 B2 BP2 D2 S2]. split; auto.
  - congruence.
  - intros Hn a Ha. destruct (A1 ltac:(intros b; specialize (Hn b); set_solver) a Ha)
      as [[r Hr]|(a' & Ha' & Hle)]; [left; eauto|].
    destruct (A2 ltac:(intros b; specialize (Hn b); set_solver) a' Ha')
      as [Hr|(a'' & Ha'' & Hle')]; [by left|]. right. eauto using epoch_leb_trans.
  - intros f p Hp. destruct (P1 f p Hp) as (p' & Hp' & Hle).
    destruct (P2 f p' Hp') as (p'' & Hp'' & Hle'). exists p''. split; [done|lia].
  - intros id w Hw Ho.
    destruct (W1 id w Hw) as (w' & Hw' & Hadv); [intros c Hc; apply Ho; set_solver|].
    assert (Ho' : outlives es' w')
      by (eapply outlives_advances; [intros c Hc; apply Ho; set_solver|done]).
    destruct (W2 id w' Hw' Ho') as (w'' & Hw'' & Hadv'). eauto using write_advances_trans.
  - intros id p Hp. destruct (BP1 id p Hp) as (p' & Hp' & Hadv).
    destruct (BP2 id p' Hp') as (p'' & Hp'' & Hadv'). eauto using build_advances_trans.
  - intros k x Hx. destruct (S1 k x Hx) as (x' & Hx' & Hle & Hor).
    destruct (S2 k x' Hx') as (x'' & Hx'' & Hle' & Hor'). exists x''.
    split_and!; [done|lia|]. destruct Hor as [->|[Hlt Hd]]; [done|].
    right. split; [lia|auto].
Qed.

#[export] Instance remembers_preorder : PreOrder (remembers []).
Proof. split; [intros s; apply remembers_refl|]. intros s1 s2 s3. apply (remembers_app [] []). Qed.

(** The tables an operation does not touch are as before. *)
Ltac untouched s :=
  match goal with |- remembers ?es _ _ => destruct (remembers_refl es s) end; unfold dead_build, store_local in *;
  split; simpl in *; unfold dead_build, store_local in *; simpl in *; auto.

Lemma admit_remembers a s s' : admit_authority a s = Ok s' -> remembers [] s s'.
Proof.
  unfold admit_authority. intros Hok. guards.
  destruct (as_authority s) as [existing|] eqn:Ha.
  - destruct (existing == a); [by guards|]. guards. untouched s. rewrite Ha. intros _ b [= <-]. right.
    eexists. split; [done|]. rename select (epoch_ltb _ _ = false) into He.
    unfold epoch_leb. by rewrite He.
  - guards. untouched s. by rewrite Ha.
Qed.

Lemma retire_remembers r s s' : retire_authority r s = Ok s' -> remembers [] s s'.
Proof.
  unfold retire_authority. intros Hok. guards. rename select (validate_retirement r s = _) into Hv.
  destruct x; [reflexivity|]. unfold validate_retirement in Hv. guards.
  destruct (as_retired s) eqn:Hr; [done|]. untouched s. intros r0 Hr0. congruence.
Qed.

Lemma progress_remembers p s s' : record_replication_progress p s = Ok s' -> remembers [] s s'.
Proof.
  unfold record_replication_progress. intros Hok. guards. untouched s.
  intros f q Hq. destruct (decide (f = rp_fence p)) as [->|Hne].
  - exists p. rewrite lookup_insert_eq. split; [done|].
    rename select (is_some_and _ _ = false) into Hn. rewrite Hq in Hn. simpl in Hn. by guards.
  - rewrite lookup_insert_ne by done. eauto.
Qed.

Lemma record_write_cases w s s' :
  record_local_write w s = Ok s' ->
  s' = s <| as_local_writes := <[dlw_operation_id w := w]> (as_local_writes s) |> /\
  forall v, as_local_writes s !! dlw_operation_id w = Some v -> write_advances v w.
Proof.
  unfold record_local_write. intros Hok. guards. split; [done|]. intros v Hv.
  rewrite Hv in *. by guards.
Qed.

Lemma write_remembers w s s' : record_local_write w s = Ok s' -> remembers [] s s'.
Proof.
  intros [-> Hw]%record_write_cases. untouched s.
  intros id v Hv. destruct (decide (id = dlw_operation_id w)) as [->|Hne].
  - exists w. rewrite lookup_insert_eq. auto.
  - rewrite lookup_insert_ne by done. eauto.
Qed.

Lemma admit_build_remembers b s s' : admit_build b s = Ok s' -> remembers [] s s'.
Proof.
  unfold admit_build. intros Hok. guards. untouched s. intros id c Hc.
  destruct (as_builds s !! ba_build_id b) eqn:Hb; [done|].
  rewrite lookup_insert_ne; [done|]. intros <-. congruence.
Qed.

(** A selection is either the current one again, or replaces it with a larger
    generation and abandons its build. *)
Lemma select_cases b s s' x :
  select_build b s = Ok (s', x) ->
  as_builds s !! ba_build_id b = Some b /\ dead_build s (ba_build_id b) = false /\
  bs_authority x = b /\
  let k := replica_id (ba_target b) in
  (s' = s /\ as_selections s !! k = Some x \/
   (forall p, as_selections s !! k = Some p ->
      bs_authority p <> b /\ bs_generation x = bs_generation p + 1) /\
   (as_selections s !! k = None -> bs_generation x = 1) /\
   s' = s <| as_selections := <[k := x]> (as_selections s) |>
          <| as_state := (as_state s) <| av_abandoned_builds :=
               match as_selections s !! k with
               | Some p => {[ba_build_id (bs_authority p)]} ∪ av_abandoned_builds (as_state s)
               | None => av_abandoned_builds (as_state s)
               end |> |>).
Proof.
  unfold select_build. intros Hok. ok_inv. guards. split_and!; [done..| |].
  all: destruct (as_selections s !! replica_id (ba_target b)) as [p|] eqn:Hp; simpl in *.
  all: try (destruct (bs_authority p == b) eqn:Hb); guards; simplify_eq; try done.
  - left. done.
  - right. split_and!; [|done..]. intros q [= <-]. split; [done|].
    case_match; by simplify_eq.
  - right. done.
Qed.

Lemma select_remembers b s s' x : select_build b s = Ok (s', x) -> remembers [] s s'.
Proof.
  intros (_ & Hlive & _ & [[-> _]|(Hsome & _ & ->)])%select_cases; [reflexivity|]. untouched s.
  - intros id Hd. destruct (as_selections s !! _); guards; [|done].
    apply orb_true_iff in Hd as [Hd|Hd]; apply bool_decide_eq_true in Hd;
      rewrite orb_true_iff, !bool_decide_eq_true; set_solver.
  - intros k y Hy. destruct (decide (k = replica_id (ba_target b))) as [->|Hne].
    + rewrite lookup_insert_eq. exists x. destruct (Hsome y Hy) as [_ Hg].
      split_and!; [done|lia|]. right. split; [lia|]. rewrite Hy.
      rewrite orb_true_iff, !bool_decide_eq_true. set_solver.
    + rewrite lookup_insert_ne by done. exists y. split_and!; [done|lia|by left].
Qed.

Lemma build_progress_remembers p x s s' : record_build_progress p x s = Ok s' -> remembers [] s s'.
Proof.
  unfold record_build_progress. intros Hok. guards. untouched s. intros id q Hq.
  destruct (decide (id = ba_build_id (bp_authority p))) as [->|Hne].
  - exists p. rewrite lookup_insert_eq. split; [done|].
    rename select (is_some_and (build_regressed p) _ = false) into Hr. rewrite Hq in Hr.
    simpl in Hr. unfold build_regressed in Hr. guards. unfold build_advances. split_and!; [done..| |].
    + intros Hc. rewrite Hc in *. simpl in *. by guards.
    + intros lsn Hlsn. rewrite Hlsn in *. simpl in *. by guards.
  - rewrite lookup_insert_ne by done. eauto.
Qed.

Lemma preparation_remembers p s s' : record_secondary_removal p s = Ok s' -> remembers [] s s'.
Proof.
  unfold record_secondary_removal. intros Hok. guards.
  destruct (as_preparation s) as [existing|]; [destruct (existing == p)|];
    guards; try reflexivity; untouched s.
Qed.

Lemma started_remembers r s s' : record_retirement_started r s = Ok s' -> remembers [] s s'.
Proof.
  unfold record_retirement_started. intros Hok. guards. destruct x; [reflexivity|untouched s].
Qed.

Lemma commit_remembers c s s' : record_secondary_removal_commit c s = Ok s' -> remembers [] s s'.
Proof. unfold record_secondary_removal_commit. intros Hok. guards. untouched s. Qed.

Create HintDb store.
Hint Resolve admit_remembers preparation_remembers started_remembers commit_remembers
  retire_remembers progress_remembers write_remembers admit_build_remembers select_remembers
  build_progress_remembers : store.

Lemma remembers_weaken e s s' : remembers [] s s' -> remembers [e] s s'.
Proof. intros Hr. apply (remembers_app [] [e] s s'); [done|apply remembers_refl]. Qed.

Lemma row_remembers v s : row_follows (as_state s) v -> remembers [] s (s <| as_state := v |>).
Proof.
  intros (Hl & _ & Hr & Ha). untouched s.
  - intros id. rewrite !orb_true_iff, !bool_decide_eq_true. set_solver.
  - intros k x Hx. exists x. split_and!; [done|lia|by left].
Qed.

Lemma reset_remembers c s : remembers [WritesReset c] s (reset_local_writes_after_data_loss c s).
Proof.
  untouched s. intros id w Hw Ho. exists w. split; [|by repeat split].
  apply map_lookup_filter_Some. split; [done|]. apply Ho. set_solver.
Qed.

Lemma install_remembers a s : remembers [AuthorityInstalled a] s (install_authority a s).
Proof.
  untouched s. intros Hn. destruct (Hn a). set_solver.
Qed.

Hint Resolve remembers_weaken row_remembers reset_remembers install_remembers : store.

Lemma step_remembers s e s' : store_step s e s' -> remembers [e] s s'.
Proof. destruct 1 as [e s' []| |]; eauto with store. Qed.

Lemma history_remembers es s s' : store_history es s s' -> remembers es s s'.
Proof.
  induction 1 as [s|e es s1 s2 s3 Hs _ IH]; [apply remembers_refl|].
  apply (remembers_app [e] es s1 s2); [by apply step_remembers|done].
Qed.

Lemma history_app es es' s1 s2 s3 :
  store_history es s1 s2 -> store_history es' s2 s3 -> store_history (es ++ es') s1 s3.
Proof. induction 1; [done|]. intros. simpl. econstructor; eauto. Qed.

(** ** What the tables hold *)

Record store_ok (s : AuthorityStore) : Prop := {
  ok_retired : forall r, as_retired s = Some r ->
    as_started s = None /\ ra_validate r (store_local s) = Ok tt;
  ok_started : forall r, as_started s = Some r -> ra_validate r (store_local s) = Ok tt;
  ok_preparation : forall p, as_preparation s = Some p ->
    validate_secondary_removal_preparation p = Ok tt /\ sdi_primary (srp_intent p) = store_local s;
  ok_commit : forall c, as_commit s = Some c -> validate_secondary_scale_down_cleanup c = Ok tt;
  ok_progress : forall f p, as_progress s !! f = Some p -> rp_fence p = f;
  ok_writes : forall id w, as_local_writes s !! id = Some w -> dlw_operation_id w = id;
  ok_builds : forall id b, as_builds s !! id = Some b ->
    ba_build_id b = id /\ validate_build_authority b = Ok tt;
  ok_build_progress : forall id p, as_build_progress s !! id = Some p ->
    as_builds s !! id = Some (bp_authority p);
  ok_selections : forall k x, as_selections s !! k = Some x ->
    replica_id (ba_target (bs_authority x)) = k /\ 1 <= bs_generation x /\
    as_builds s !! ba_build_id (bs_authority x) = Some (bs_authority x);
}.

(** The authority row, while only [admit_authority] writes it. *)
Record authority_ok (s : AuthorityStore) : Prop := {
  ok_authority : forall a, as_authority s = Some a ->
    aa_validate a = Ok tt /\ aa_local_identity a = store_local s;
  ok_not_retired : is_Some (as_retired s) -> as_authority s = None;
  ok_retiring : forall r a, as_started s = Some r -> as_authority s = Some a ->
    aa_current_configuration a = sdi_previous_configuration (rrr_intent (ra_report r)) /\
    aa_previous_configuration a = None;
}.

(** The conditions on tables an operation does not touch carry over. *)
Ltac kept := split; simpl in *; unfold store_local, dead_build in *; simpl in *; auto.

Lemma admit_cases a s s' :
  admit_authority a s = Ok s' ->
  s' = s \/
  s' = install_authority a s /\ aa_validate a = Ok tt /\ aa_local_identity a = store_local s /\
  as_retired s = None /\ as_started s = None.
Proof.
  unfold admit_authority. intros Hok. guards.
  rename select (is_some (as_retired s) = false) into Hr. apply is_some_false in Hr.
  rename select (is_some (as_started s) = false) into Ht. apply is_some_false in Ht.
  destruct (as_authority s) as [e|]; [destruct (e == a)|]; guards; auto 7.
Qed.

Lemma install_ok a s : store_ok s -> store_ok (install_authority a s).
Proof. intros []. kept. Qed.

Lemma admit_ok a s s' : admit_authority a s = Ok s' -> store_ok s -> store_ok s'.
Proof. intros [->|[-> _]]%admit_cases; auto using install_ok. Qed.

Lemma preparation_cases p s s' :
  record_secondary_removal p s = Ok s' -> s' = s \/ s' = s <| as_preparation := Some p |>.
Proof.
  unfold record_secondary_removal. intros Hok. guards.
  destruct (as_preparation s) as [e|]; [destruct (e == p)|]; guards; auto.
Qed.

Lemma preparation_row_ok p s s' : record_secondary_removal p s = Ok s' -> store_ok s -> store_ok s'.
Proof.
  intros Hok Hs. destruct (preparation_cases _ _ _ Hok) as [->| ->]; [done|].
  unfold record_secondary_removal, checked in Hok. guards. destruct Hs. kept. intros q [= <-]. done.
Qed.

Lemma validate_retirement_ok r s b :
  validate_retirement r s = Ok b ->
  ra_validate r (store_local s) = Ok tt /\
  (b = false -> as_retired s = None /\
   forall a, as_authority s = Some a ->
     aa_current_configuration a = sdi_previous_configuration (rrr_intent (ra_report r)) /\
     aa_previous_configuration a = None).
Proof.
  unfold validate_retirement. intros Hok. guards. split; [done|]. intros ->.
  destruct (as_retired s); [done|]. simpl in *. guards. split; [done|]. intros a Ha.
  rename select (is_some_and _ (as_authority s) = false) into Hf. rewrite Ha in Hf. simpl in Hf.
  guards. by apply is_some_false in Hf.
Qed.

Lemma started_ok r s s' : record_retirement_started r s = Ok s' -> store_ok s -> store_ok s'.
Proof.
  unfold record_retirement_started. intros Hok Hs. guards.
  rename select (validate_retirement _ _ = _) into Hv.
  apply validate_retirement_ok in Hv as [Hr Hn]. destruct x; [done|].
  destruct (Hn eq_refl) as [Hnone _]. destruct Hs. kept; [congruence|]. by intros q [= <-].
Qed.

Lemma retire_ok r s s' : retire_authority r s = Ok s' -> store_ok s -> store_ok s'.
Proof.
  unfold retire_authority. intros Hok Hs. guards.
  rename select (validate_retirement _ _ = _) into Hv.
  apply validate_retirement_ok in Hv as [Hr Hn]. destruct x; [done|].
  destruct Hs. kept; [by intros q [= <-]|done].
Qed.

Lemma commit_ok c s s' : record_secondary_removal_commit c s = Ok s' -> store_ok s -> store_ok s'.
Proof.
  unfold record_secondary_removal_commit, checked. intros Hok []. guards. kept. by intros d [= <-].
Qed.

Lemma progress_ok p s s' : record_replication_progress p s = Ok s' -> store_ok s -> store_ok s'.
Proof.
  unfold record_replication_progress. intros Hok []. guards. kept.
  intros f q. rewrite lookup_insert_Some. naive_solver.
Qed.

Lemma write_ok w s s' : record_local_write w s = Ok s' -> store_ok s -> store_ok s'.
Proof.
  unfold record_local_write. intros Hok []. guards. kept.
  intros f q. rewrite lookup_insert_Some. naive_solver.
Qed.

Lemma admit_build_ok b s s' : admit_build b s = Ok s' -> store_ok s -> store_ok s'.
Proof.
  intros Hok Hs. pose proof (rem_builds _ _ _ (admit_build_remembers _ _ _ Hok)) as Hb.
  unfold admit_build, checked in Hok. destruct Hs. guards. kept.
  - intros id c. destruct (as_builds s !! ba_build_id b) eqn:E; [auto|].
    rewrite lookup_insert_Some. naive_solver.
  - intros k x Hx. destruct (ok_selections0 k x Hx) as (? & ? & ?). auto.
Qed.

Lemma select_ok b s s' x : select_build b s = Ok (s', x) -> store_ok s -> store_ok s'.
Proof.
  intros (Hb & _ & Hx & [[-> _]|(Hsome & Hnone & ->)])%select_cases Hs; [done|].
  destruct Hs. kept. intros k y [[<- <-]|[Hne Hy]]%lookup_insert_Some; [|auto].
  rewrite Hx. split_and!; [done| |done].
  destruct (as_selections s !! replica_id (ba_target b)) as [p|] eqn:E; [|by rewrite Hnone].
  destruct (Hsome p eq_refl) as [_ ->]. destruct (ok_selections0 _ _ E) as (_ & ? & _). lia.
Qed.

Lemma build_progress_ok p x s s' : record_build_progress p x s = Ok s' -> store_ok s -> store_ok s'.
Proof.
  unfold record_build_progress. intros Hok []. guards. kept.
  intros id q. rewrite lookup_insert_Some. naive_solver.
Qed.

Lemma row_ok v s : row_follows (as_state s) v -> store_ok s -> store_ok (s <| as_state := v |>).
Proof.
  intros (Hl & _) []. kept; rewrite Hl; auto.
Qed.

Lemma reset_ok c s : store_ok s -> store_ok (reset_local_writes_after_data_loss c s).
Proof. intros []. kept. intros id d [Hd _]%map_lookup_filter_Some. eauto. Qed.

Hint Resolve admit_ok preparation_row_ok started_ok retire_ok commit_ok progress_ok write_ok
  admit_build_ok select_ok build_progress_ok row_ok reset_ok install_ok : store.

Lemma step_keeps_ok s e s' : store_step s e s' -> store_ok s -> store_ok s'.
Proof. destruct 1 as [e s' []| |]; eauto with store. Qed.

Lemma new_store_ok local resource : store_ok (new_store local resource).
Proof. split; try done; intros *; simpl; by rewrite ?lookup_empty. Qed.

Lemma history_keeps_ok es s s' : store_history es s s' -> store_ok s -> store_ok s'.
Proof. induction 1; eauto using step_keeps_ok. Qed.

Lemma store_reachable_ok local resource es s : store_reachable local resource es s -> store_ok s.
Proof. intros Hr. eapply history_keeps_ok; [exact Hr|apply new_store_ok]. Qed.

(** *** The authority row *)

Lemma authority_ok_same s s' :
  store_local s' = store_local s -> as_authority s' = as_authority s ->
  as_retired s' = as_retired s -> as_started s' = as_started s -> authority_ok s -> authority_ok s'.
Proof. intros Hl Ha Hr Hs []. split; rewrite ?Hl, ?Ha, ?Hr, ?Hs; auto. Qed.

Lemma admit_authority_ok a s s' : admit_authority a s = Ok s' -> authority_ok s -> authority_ok s'.
Proof.
  intros [->|(-> & Hv & Hl & Hr & Ht)]%admit_cases Hs; [done|]. split; simpl.
  - by intros b [= <-].
  - rewrite Hr. by intros [? ?].
  - congruence.
Qed.

Lemma started_authority_ok r s s' :
  record_retirement_started r s = Ok s' -> authority_ok s -> authority_ok s'.
Proof.
  unfold record_retirement_started. intros Hok Hs. guards.
  rename select (validate_retirement _ _ = _) into Hv.
  apply validate_retirement_ok in Hv as [_ Hn]. destruct x; [done|].
  destruct (Hn eq_refl) as [_ Ha], Hs. split; [done|done|]. intros q a [= <-]. apply Ha.
Qed.

Lemma retire_authority_ok r s s' : retire_authority r s = Ok s' -> authority_ok s -> authority_ok s'.
Proof.
  unfold retire_authority. intros Hok Hs. guards. destruct x; [done|]. by split.
Qed.

Lemma step_keeps_authority s e s' :
  store_step s e s' -> (forall a, e <> AuthorityInstalled a) -> authority_ok s -> authority_ok s'.
Proof.
  intros Hstep Hne Hs.
  pose proof (rem_local _ _ _ (step_remembers _ _ _ Hstep)) as Hl.
  destruct Hstep as [e s' []|v Hv|a]; eauto using admit_authority_ok, started_authority_ok, retire_authority_ok;
    try (by destruct (Hne a)); eapply authority_ok_same; try exact Hs; try exact Hl; try done.
  all: rename select (_ = Ok _) into Hok; revert Hok;
    unfold record_secondary_removal, record_secondary_removal_commit, record_replication_progress,
      record_local_write, admit_build, select_build, record_build_progress; intros Hok;
    guards; repeat case_match; guards; done.
Qed.

Lemma history_keeps_authority es s s' :
  store_history es s s' -> nothing_installed es -> authority_ok s -> authority_ok s'.
Proof.
  induction 1 as [|e es s1 s2 s3 Hstep _ IH]; intros Hn Hs; [done|]. apply IH.
  - intros a Ha. apply (Hn a). by right.
  - eapply step_keeps_authority; [exact Hstep| |done]. intros a ->. apply (Hn a). by left.
Qed.

Lemma elem_of_load_local_writes s w :
  store_ok s ->
  w ∈ load_local_writes s <->
  as_local_writes s !! dlw_operation_id w = Some w /\ dlw_phase w <> Committed.
Proof.
  intros Hs. unfold load_local_writes.
  rewrite merge_sort_Permutation, elem_of_filterb, negb_true_iff, bool_decide_eq_false.
  rewrite list_elem_of_fmap. split.
  - intros [([id v] & -> & Hv%elem_of_map_to_list) Hp]. simpl in *.
    by rewrite (ok_writes s Hs _ _ Hv).
  - intros [Hw Hp]. split; [|done]. exists (dlw_operation_id w, w).
    by rewrite elem_of_map_to_list.
Qed.

(** ** Theorems *)

(** [C35] Over any history of committed transactions the store forgets nothing it has to
    remember: a retirement stays, replication progress and build progress only advance, a
    build id keeps its authority, a dead build stays dead, and a build selection is replaced
    only by one of a larger generation that abandons the old build.  A journaled write keeps
    its LSN and payload and its phase only advances, unless data loss resets the journal while
    the write is unresolved or above the committed LSN.  The authority's epoch never goes back
    until the replica retires, unless the completion of an admission writes the row. *)
Theorem durable_store_is_monotone es s s' : store_history es s s' -> remembers es s s'.
Proof. apply history_remembers. Qed.

(** [C36] The rows of every reachable store are valid: the tombstone of a retired store and a
    started retirement are certified for the local replica, a prepared removal names it as the
    primary and passed validation, a committed removal did too; progress and journaled writes
    are under their own keys, every build was validated under its own id, and every progress
    row and selection refers to such a build.  As long as the authority row is written by
    [admit_authority] alone, it passed validation and is the local replica's, a retired
    store has none, and it is the one that a started retirement retires. *)
Theorem stored_rows_are_valid local resource es s :
  store_reachable local resource es s ->
  store_local s = local /\ store_ok s /\ (nothing_installed es -> authority_ok s).
Proof.
  intros Hr. split_and!.
  - by rewrite (rem_local _ _ _ (history_remembers _ _ _ Hr)).
  - by eapply store_reachable_ok.
  - intros Hn. eapply history_keeps_authority; [exact Hr|done|by split].
Qed.

(** Retirement is final: from a store that retired, whatever is recorded
    later, the tombstone is the same, no authority is ever admitted again and
    no other retirement is recorded. *)
Theorem retirement_is_final es s s' r :
  as_retired s = Some r -> store_history es s s' ->
  as_retired s' = Some r /\ (forall a s'', admit_authority a s' <> Ok s'') /\
  (forall r' s'', retire_authority r' s' = Ok s'' -> r' = r /\ s'' = s').
Proof.
  intros Hr Hlater. pose proof (rem_retired _ _ _ (history_remembers _ _ _ Hlater) r Hr) as Hr'.
  split_and!; [done| |].
  - unfold admit_authority. intros a s'' Hadmit. guards. by rewrite Hr' in *.
  - unfold retire_authority, validate_retirement. intros r' s'' Hretire. guards.
    rewrite Hr' in *. simpl in *. by guards.
Qed.

(** A build selection that was superseded is dead for good: once the target
    has another selection, the build's authority no longer loads, it cannot be
    admitted or selected again, and no progress is ever recorded for it. *)
Theorem superseded_build_is_dead es s s' k x x' :
  as_selections s !! k = Some x -> store_history es s s' ->
  as_selections s' !! k = Some x' -> x' <> x ->
  load_build (ba_build_id (bs_authority x)) s' = None /\
  (forall b s'', ba_build_id b = ba_build_id (bs_authority x) -> admit_build b s' <> Ok s'') /\
  (forall b s'' y, ba_build_id b = ba_build_id (bs_authority x) -> select_build b s' <> Ok (s'', y)) /\
  (forall p y s'', ba_build_id (bp_authority p) = ba_build_id (bs_authority x) ->
     record_build_progress p y s' <> Ok s'').
Proof.
  intros Hx Hlater Hx' Hne.
  destruct (rem_selections _ _ _ (history_remembers _ _ _ Hlater) k x Hx) as (y & Hy & _ & Hor).
  assert (Hdead : dead_build s' (ba_build_id (bs_authority x)) = true) by naive_solver.
  unfold load_build. rewrite Hdead. split_and!; [done|..].
  - unfold admit_build. intros b s'' Hb Hr. guards. congruence.
  - intros b s'' z Hb Hr. apply select_cases in Hr as (_ & Hl & _). congruence.
  - unfold record_build_progress. intros p z s'' Hb Hr. guards. congruence.
Qed.

(** The journal recovers exactly the unresolved writes: after a write is
    recorded, the recovered list has that write when it is not committed, every
    other unresolved write, nothing else, and is ordered by LSN. *)
Theorem journal_recovers_unresolved local resource es s s' w :
  store_reachable local resource es s -> record_local_write w s = Ok s' ->
  StronglySorted write_le (load_local_writes s') /\
  forall v, v ∈ load_local_writes s' <->
    v = w /\ dlw_phase w <> Committed \/
    v ∈ load_local_writes s /\ dlw_operation_id v <> dlw_operation_id w.
Proof.
  intros Hreach Hok. split; [apply StronglySorted_merge_sort; apply _|]. intros v.
  pose proof (store_reachable_ok _ _ _ _ Hreach) as Hs. pose proof (write_ok _ _ _ Hok Hs) as Hs'.
  rewrite !elem_of_load_local_writes by done. unfold record_local_write in Hok. guards. simpl.
  rewrite lookup_insert_Some. naive_solver.
Qed.

End steps.

(** ** Sample histories *)

#[local] Existing Instance padding_sha256.

Module Stores.

Definition after (m : contract AuthorityStore) (s : AuthorityStore) : AuthorityStore :=
  match m with Ok s' => s' | _ => s end.

(** The removed replica: its store before and after it retires. *)
Definition fresh : AuthorityStore :=
  new_store Removal.target (sdi_resource_uid Removal.intent).
Definition retired : AuthorityStore := after (retire_authority Authorities.retired fresh) fresh.

(** The primary of an expansion: a build of member 4 superseded by a second one. *)
Definition first_build : BuildAuthority := bp_authority Authorities.build.
Definition second_build : BuildAuthority :=
  {| ba_build_id := "rebuild"; ba_kind := ba_kind first_build; ba_source := ba_source first_build;
     ba_target := ba_target first_build;
     ba_current_configuration := ba_current_configuration first_build;
     ba_replication_boundary_lsn := 5 |}.
Definition primary : AuthorityStore := new_store (Sample.identity 1 "a") "resource".
Definition with_first : AuthorityStore := after (admit_build first_build primary) primary.
Definition with_both : AuthorityStore := after (admit_build second_build with_first) with_first.
Definition selected (b : BuildAuthority) (s : AuthorityStore) : AuthorityStore :=
  match select_build b s with Ok (s', _) => s' | _ => s end.
Definition building : AuthorityStore := selected first_build with_both.

(** A write that is registered and then committed. *)
Definition write (phase : LocalWritePhase) : DurableLocalWrite :=
  {| dlw_operation_id := "w1"; dlw_lsn := 7; dlw_committed_lsn := 6; dlw_data := [];
     dlw_phase := phase |}.
Definition registered : AuthorityStore := after (record_local_write (write Registered) primary) primary.

Lemma retires : retire_authority Authorities.retired fresh = Ok retired.
Proof. vm_compute. reflexivity. Qed.

Lemma retired_reachable :
  store_reachable Removal.target (sdi_resource_uid Removal.intent) [Recorded] retired.
Proof. eapply HistoryStep, HistoryNil. eapply StoreRuntime, StoreRetire, retires. Qed.

(** The primary commits a write, loses data and rebuilds the target. *)
Definition committed : AuthorityStore := after (record_local_write (write Committed) building) building.
Definition recovered : AuthorityStore :=
  selected second_build (reset_local_writes_after_data_loss 7 committed).
Definition recovery : list StoreEvent := [WritesReset 7; Recorded].

Lemma recovers : store_history recovery committed recovered.
Proof.
  eapply HistoryStep; [apply StoreRuntime, StoreReset|].
  eapply HistoryStep, HistoryNil. apply StoreRuntime.
  eapply (StoreSelect _ second_build _ {| bs_authority := second_build; bs_generation := 2 |}).
  vm_compute. reflexivity.
Qed.

End Stores.

Lemma durable_store_is_monotone_witness :
  dead_build Stores.recovered "build" = true /\
  remembers Stores.recovery Stores.committed Stores.recovered.
Proof.
  split; [vm_compute; reflexivity|]. apply durable_store_is_monotone, Stores.recovers.
Defined.

Lemma stored_rows_are_valid_witness :
  store_local Stores.retired = Removal.target /\ as_authority Stores.retired = None.
Proof.
  destruct (stored_rows_are_valid _ _ _ _ Stores.retired_reachable) as (Hl & _ & Ha).
  split; [exact Hl|]. apply Ha.
  - intros a Hin. apply list_elem_of_singleton in Hin. discriminate.
  - eexists. vm_compute. reflexivity.
Defined.

Lemma retirement_is_final_witness :
  admit_authority (Authorities.expanding None) Stores.retired <> Ok Stores.retired.
Proof.
  destruct (retirement_is_final [] Stores.retired Stores.retired Authorities.retired)
    as (_ & Hadmit & _); [vm_compute; reflexivity|apply HistoryNil|apply Hadmit].
Defined.

Lemma superseded_build_is_dead_witness : load_build "build" Stores.recovered = None.
Proof.
  destruct (superseded_build_is_dead Stores.recovery Stores.committed Stores.recovered 4
              {| bs_authority := Stores.first_build; bs_generation := 1 |}
              {| bs_authority := Stores.second_build; bs_generation := 2 |}) as [Hload _];
    [vm_compute; reflexivity|apply Stores.recovers|vm_compute; reflexivity|discriminate|].
  exact Hload.
Defined.

Lemma journal_recovers_unresolved_witness :
  Stores.write Registered ∈ load_local_writes Stores.registered.
Proof.
  destruct (journal_recovers_unresolved (Sample.identity 1 "a") "resource" [] Stores.primary
              Stores.registered (Stores.write Registered)) as [_ Hin];
    [apply HistoryNil|vm_compute; reflexivity|].
  apply Hin. left. split; [reflexivity|discriminate].
Defined.
