(* ===== verification/Engine.v ===== *)
(** * The replication engine ([runtime.rs])

    The state of [DefaultReplicatorInner] and its control and write paths.  An
    operation of the engine runs under the engine's locks; it is a function of
    the engine, the durable stores the engine was given and the durable state of
    the application, and keeps what it changed before an early return.  The
    application, with its state provider and its operation streams, is the class
    [DurableApplication].  A transaction of the stores can fail for reasons of its own;
    [en_faults] says which of the next transactions do. *)

From S2P Require Import Prelude Digest Types Intents Commands Validation Quorums ScaleDown ScaleUp.
From S2P Require Import ManagedConfiguration Quorum QuorumSafety Log Authority AuthorityStore.
From stdpp Require Import base gmap strings list sorting pretty relations.
From Stdlib Require Import ZArith Lia Strings.Byte.
Local Open Scope Z_scope.
Import Queue.

(** ** Builds in flight *)

Record EmittedBuildItem := {
  ebi_lsn : Lsn;
  ebi_final_item : bool;
  ebi_snapshot_chunk : bool;
}.

(** A copy stream, [mpsc::channel(64)]: whether its receiver is still there, the items
    the receiver has taken, and those in the channel.  The build and the task that
    produces the copy hold senders of one stream; they hold its number. *)
Record CopyStream := {
  cs_open : bool;
  cs_received : list (result CopyItem);
  cs_queue : list (result CopyItem);
}.
#[export] Instance CopyStream_fields : Fields CopyStream := fun s =>
  Build_CopyStream (cs_open s) (cs_received s) (cs_queue s).

Definition COPY_STREAM_CAPACITY : nat := 64.

Definition new_stream : CopyStream := {| cs_open := true; cs_received := []; cs_queue := [] |}.
(** Everything that was sent, in order. *)
Definition cs_sent (s : CopyStream) : list (result CopyItem) := cs_received s ++ cs_queue s.
(** A sender waits: the receiver is there and no slot is free. *)
Definition stream_waits (s : CopyStream) : bool :=
  cs_open s && (COPY_STREAM_CAPACITY <=? length (cs_queue s))%nat.
Definition push_item (item : result CopyItem) (s : CopyStream) : CopyStream :=
  s <| cs_queue := cs_queue s ++ [item] |>.
Definition take_item (s : CopyStream) : CopyStream :=
  match cs_queue s with
  | [] => s
  | item :: rest => s <| cs_received := cs_received s ++ [item] |> <| cs_queue := rest |>
  end.

Record OutboundBuild := {
  ob_progress : DurableBuildProgress;
  ob_final_sequence : option Z;
  ob_next_sequence : Z;
  ob_emitted : gmap Z EmittedBuildItem;
  ob_pending_operations : gmap Z Operation;
  ob_catching_up : bool;
  ob_stream : option nat;
  ob_generation : Z;
}.
#[export] Instance OutboundBuild_fields : Fields OutboundBuild := fun b =>
  Build_OutboundBuild (ob_progress b) (ob_final_sequence b) (ob_next_sequence b) (ob_emitted b)
    (ob_pending_operations b) (ob_catching_up b) (ob_stream b) (ob_generation b).

Definition MAX_BUILD_PENDING_OPERATIONS : nat := 64.

(** ** The engine *)

(** [pmc_active] is the number of the shared flag that the caller's preparation
    also holds. *)
Record PendingManagedConfiguration := {
  pmc_configuration : ManagedReplicaConfiguration;
  pmc_engine_generation : Z;
  pmc_host_generation : Z;
  pmc_active : nat;
  pmc_replication_progress : ReplicationProgress;
  pmc_current_progress : Lsn;
  pmc_previous_epoch : option Epoch;
  pmc_prior_access : AccessStatus * AccessStatus;
  pmc_authority_changed : bool;
  pmc_preserve_access : bool;
  pmc_completed_builds : list (ReplicaIdentity * Lsn);
}.

Record ReplicaEndpoint := {
  re_build_id : OperationId;
  re_identity : ReplicaIdentity;
  re_replication_address : string;
}.

Inductive OutboundOperation :=
| OutboundReplication (item : ReplicationItem)
| OutboundCopy (item : CopyItem)
| OutboundReplicaBuild (endpoint : ReplicaEndpoint)
| OutboundRemove (replica : ReplicaId)
| OutboundEvict (replica : ReplicaIdentity).

(** [RuntimeState] and the other fields of [DefaultReplicatorInner]. *)
Record Engine := {
  en_identity : ReplicaIdentity;
  en_session_id : string;
  en_open : bool;
  en_replication_address : option string;
  en_role : ReplicaRole;
  en_read_status : AccessStatus;
  en_write_status : AccessStatus;
  en_authority : option ManagedReplicaConfiguration;
  en_configuration_generation : Z;
  en_pending_configuration : option PendingManagedConfiguration;
  en_prepared_secondary_removal : option SecondaryRemovalPreparation;
  en_removal_in_progress : option SecondaryScaleDownIntent;
  en_retired_authority : option RetiredAuthority;
  en_retiring_authority : option RetiredAuthority;
  en_accepted_secondary_removal : option SecondaryScaleDownCleanup;
  en_replication_progress : option ReplicationProgress;
  en_current_progress : Lsn;
  en_committed_lsn : Lsn;
  en_builds : gmap string DurableBuildProgress;
  en_inbound_build_generations : gmap string Z;
  en_outbound_builds : gmap string OutboundBuild;
  en_copy_streams : list CopyStream;
  en_cancelled_outbound_builds : gset string;
  en_removed_replicas : gset Z;
  en_local_writes : gmap string DurableLocalWrite;
  en_peer_repair_targets : gmap ReplicaIdentity Lsn;
  en_log : ReplicationLog;
  en_store : AuthorityStore;
  en_faults : list (option string);
  en_outbound : list OutboundOperation;
  en_bound : bool;
  en_streams_closed : bool;
  en_control_attached : bool;
  en_primary_attached : bool;
  en_write_generation : Z;
  en_fence_generation : Z;
  en_aborted : bool;
  en_closed : bool;
  en_active_preparations : gset nat;
  en_next_preparation : nat;
}.
#[export] Instance Engine_fields : Fields Engine := fun e =>
  Build_Engine (en_identity e) (en_session_id e) (en_open e) (en_replication_address e) (en_role e)
    (en_read_status e) (en_write_status e) (en_authority e) (en_configuration_generation e)
    (en_pending_configuration e) (en_prepared_secondary_removal e) (en_removal_in_progress e)
    (en_retired_authority e) (en_retiring_authority e) (en_accepted_secondary_removal e)
    (en_replication_progress e) (en_current_progress e) (en_committed_lsn e) (en_builds e)
    (en_inbound_build_generations e) (en_outbound_builds e) (en_copy_streams e)
    (en_cancelled_outbound_builds e) (en_removed_replicas e) (en_local_writes e) (en_peer_repair_targets e) (en_log e) (en_store e)
    (en_faults e) (en_outbound e) (en_bound e) (en_streams_closed e) (en_control_attached e)
    (en_primary_attached e) (en_write_generation e) (en_fence_generation e) (en_aborted e)
    (en_closed e) (en_active_preparations e) (en_next_preparation e).

(** [DefaultReplicatorInner::new] on the stores of an agent *)
Definition new_engine (identity : ReplicaIdentity) (session : string) (store : AuthorityStore)
    : Engine :=
  {| en_identity := identity; en_session_id := session; en_open := false;
     en_replication_address := None; en_role := RoleNone; en_read_status := NotPrimary;
     en_write_status := NotPrimary; en_authority := None; en_configuration_generation := 0;
     en_pending_configuration := None; en_prepared_secondary_removal := None;
     en_removal_in_progress := None; en_retired_authority := None; en_retiring_authority := None;
     en_accepted_secondary_removal := None; en_replication_progress := None;
     en_current_progress := 0; en_committed_lsn := 0; en_builds := ∅;
     en_inbound_build_generations := ∅; en_outbound_builds := ∅; en_copy_streams := [];
     en_cancelled_outbound_builds := ∅; en_removed_replicas := ∅; en_local_writes := ∅;
     en_peer_repair_targets := ∅; en_log := new_log identity; en_store := store; en_faults := [];
     en_outbound := []; en_bound := false; en_streams_closed := false;
     en_control_attached := false; en_primary_attached := false; en_write_generation := 0;
     en_fence_generation := 0; en_aborted := false; en_closed := false;
     en_active_preparations := ∅; en_next_preparation := 0 |}.

(** ** The application

    [DurableState], the state provider and the service behind the operation
    streams, over the application's own durable state [St]. *)

Inductive OperationMetadata :=
| MetaReplication (lsn committed_lsn : Lsn)
| MetaCopy (build_id : OperationId) (sequence : Z)
| MetaCopyComplete (build_id : OperationId) (up_to_lsn committed_lsn : Lsn).

Class DurableApplication (St : Type) := {
  durable_progress : M St RuntimeError DurableApplicationProgress;
  apply_operation : Operation -> M St RuntimeError DurableApplicationProgress;
  verify_applied : Operation -> M St RuntimeError bool;
  commit_storage : Lsn -> M St RuntimeError DurableApplicationProgress;
  verify_copy_chunk : OperationId -> Z -> Bytes -> M St RuntimeError bool;
  get_replication_operations : Lsn -> Lsn -> M St RuntimeError (list (result Operation));
  get_copy_state : Lsn -> list (result Bytes) -> M St RuntimeError (list (result Bytes));
  deliver : OperationMetadata -> Bytes -> M St RuntimeError DurableApplicationProgress;
  provider_update_epoch : Epoch -> Lsn -> M St RuntimeError unit;
  provider_on_data_loss : M St RuntimeError bool;
  provider_last_committed_lsn : M St RuntimeError Lsn;
}.

(** ** Running operations *)

Section engine.
Context `{Sha256} {St : Type} `{!DurableApplication St}.

Definition World : Type := Engine * St.
Definition engine (A : Type) : Type := M World RuntimeError A.

Definition get_engine : engine Engine := fun w => (w, Ok (fst w)).
Definition modify_engine (f : Engine -> Engine) : engine unit :=
  m_modify (fun w => (f (fst w), snd w)).

(** [return Err(..)] when the condition holds *)
Definition fail_if (b : bool) (e : RuntimeError) : engine unit := m_lift (reject b e).

Definition engine_mismatch (message : string) : RuntimeError := AuthorityMismatch (Text message).
Definition application_error (message : string) : RuntimeError := Application (Text message).

(** [self.replicator.lock().await.method()?] *)
Definition replicator {A} (m : log A) : engine A :=
  m_zoom (fun w => en_log (fst w)) (fun l w => ((fst w) <| en_log := l |>, snd w)) m.

(** A transaction of the stores; it fails as the next fault says, or runs. *)
Definition transaction {A} (f : AuthorityStore -> contract (AuthorityStore * A)) : engine A :=
  fun w =>
    let e := fst w in
    match en_faults e with
    | Some message :: faults =>
        ((e <| en_faults := faults |>, snd w),
         Err (runtime_error_of_contract (Persistence (Text message))))
    | faults =>
        let e := e <| en_faults := tail faults |> in
        match f (en_store e) with
        | Ok (s, a) => ((e <| en_store := s |>, snd w), Ok a)
        | Err c => ((e, snd w), Err (runtime_error_of_contract c))
        | Panic => ((e, snd w), Panic)
        end
    end.
Definition store_read {A} (f : AuthorityStore -> contract A) : engine A :=
  transaction (fun s => let? a := f s in Ok (s, a)).
Definition store_write (f : AuthorityStore -> contract AuthorityStore) : engine unit :=
  transaction (fun s => let? s' := f s in Ok (s', tt)).

(** [ManagedReplicaStoreView::load_configuration] *)
Definition load_configuration : engine (option ManagedReplicaConfiguration) :=
  store_read (fun s =>
    match as_authority s with
    | Some a => aa_validate a ;? Ok (Some (managed_configuration a))
    | None => Ok None
    end).

(** [self.storage().await?.method().await?] *)
Definition storage {A} (m : M St RuntimeError A) : engine A :=
  let! e := get_engine in
  fail_if (negb (en_bound e))
    (application_error "the selected factory does not use the default durability engine") ;!
  m_zoom snd (fun s w => (fst w, s)) m.

(** [self.provider().await?.method().await?] *)
Definition provider {A} (m : M St RuntimeError A) : engine A :=
  let! e := get_engine in
  fail_if (negb (en_bound e)) NotOpen ;!
  m_zoom snd (fun s w => (fst w, s)) m.

(** [fetch_add(1)] on an [AtomicU64] *)
Definition u64_next (g : Z) : Z := (g + 1) mod 2 ^ 64.
Definition bump_fence (e : Engine) : Engine :=
  e <| en_fence_generation := u64_next (en_fence_generation e) |>.

Definition check_aborted : engine unit :=
  let! e := get_engine in fail_if (en_aborted e || en_closed e) Closed.

Definition check_no_pending_configuration : engine unit :=
  let! e := get_engine in
  fail_if (is_some (en_pending_configuration e)) RtReconfigurationPending.

Definition check_delivery_generation (generation : Z) : engine unit :=
  let! e := get_engine in
  fail_if (en_fence_generation e != generation)
    (engine_mismatch "delivery was fenced before acknowledgement") ;!
  check_aborted.

Definition attach_interfaces (primary : bool) : engine unit :=
  let! e := get_engine in
  fail_if (en_control_attached e)
    (application_error "default replicator interfaces are already attached") ;!
  modify_engine (fun e => e <| en_control_attached := true |> <| en_primary_attached := primary |>).

Definition install_provider : engine unit :=
  let! e := get_engine in
  fail_if (en_bound e) (application_error "replication engine is already bound") ;!
  modify_engine (fun e => e <| en_bound := true |>).

(** ** Control *)

Definition control_open (committed : Lsn) : engine unit :=
  check_aborted ;!
  let! p := storage durable_progress in
  fail_if ((committed <? 0) || (dap_applied_lsn p <? committed) || (dap_committed_lsn p <? 0)
           || (dap_applied_lsn p <? dap_committed_lsn p))
    (application_error "state-provider progress is not durable") ;!
  replicator open_log.

Definition complete_open (address : string) : engine unit :=
  let! e := get_engine in
  let! p := (if en_bound e then storage durable_progress
             else
               fail_if (negb (en_control_attached e)) NotOpen ;!
               check_aborted ;!
               m_ret {| dap_applied_lsn := Z.max (en_current_progress e) (current_progress (en_log e));
                        dap_committed_lsn := 0 |}) in
  let! writes := store_read (fun s => Ok (load_local_writes s)) in
  modify_engine (fun e =>
    e <| en_open := true |> <| en_replication_address := Some address |>
      <| en_current_progress := dap_applied_lsn p |> <| en_committed_lsn := dap_committed_lsn p |>
      <| en_local_writes := list_to_map (map (fun w => (dlw_operation_id w, w)) writes) |>).

Definition control_change_role (epoch : Epoch) (role : ReplicaRole) : engine unit :=
  check_aborted ;!
  modify_engine bump_fence ;!
  modify_engine (fun e => e <| en_write_status := ReconfigurationPending |>) ;!
  replicator fence_client_writes ;!
  replicator (change_role epoch role) ;!
  modify_engine (fun e => e <| en_role := role |>).

Definition control_update_epoch (epoch : Epoch) : engine unit :=
  check_aborted ;!
  modify_engine bump_fence ;!
  let! e := get_engine in
  fail_if (negb (en_open e)) NotOpen ;!
  modify_engine (fun e => e <| en_write_status := ReconfigurationPending |>) ;!
  replicator (update_epoch epoch) ;!
  provider (provider_update_epoch epoch (en_current_progress e)).

Definition control_close : engine unit :=
  modify_engine (fun e => e <| en_streams_closed := en_bound e || en_streams_closed e |>) ;!
  modify_engine bump_fence ;!
  modify_engine (fun e =>
    e <| en_open := false |> <| en_role := RoleNone |> <| en_read_status := NotPrimary |>
      <| en_write_status := NotPrimary |> <| en_outbound_builds := ∅ |>) ;!
  replicator close_log ;!
  modify_engine (fun e => e <| en_closed := true |>).

(** [control_abort] takes no lock and skips what another holder has locked. *)
Definition control_abort (log_free streams_free state_free : bool) (e : Engine) : Engine :=
  let e := (bump_fence e) <| en_aborted := true |> in
  let e := if log_free then e <| en_log := abort_log (en_log e) |> else e in
  let e := if streams_free then e <| en_streams_closed := en_bound e || en_streams_closed e |>
           else e in
  if state_free
  then e <| en_outbound_builds := ∅ |> <| en_read_status := NotPrimary |>
         <| en_write_status := NotPrimary |>
  else e.

Definition control_progress : engine Lsn :=
  check_aborted ;!
  let! e := get_engine in
  m_ret (Z.max (en_current_progress e) (current_progress (en_log e))).

Definition control_catch_up_capability : engine Lsn :=
  check_aborted ;!
  let! e := get_engine in
  m_ret (catch_up_capability (en_log e) (en_current_progress e)).

Definition require_primary : engine unit :=
  check_aborted ;!
  let! e := get_engine in
  fail_if (negb (en_open e)) NotOpen ;!
  fail_if (en_role e != Primary) RtNotPrimary.

Definition require_write_access : engine unit :=
  require_primary ;!
  let! e := get_engine in
  fail_if (en_write_status e != Granted) (WriteClosed (en_write_status e)).

Definition fence_writes : engine unit :=
  check_aborted ;!
  modify_engine (fun e => e <| en_write_status := ReconfigurationPending |>) ;!
  replicator fence_client_writes.

Definition fence_for_data_loss : engine unit :=
  require_primary ;!
  modify_engine (fun e =>
    e <| en_write_generation := u64_next (en_write_generation e) |>
      <| en_write_status := ReconfigurationPending |>) ;!
  replicator fence_client_writes.

Definition reset_after_data_loss_locked (current committed : Lsn) : engine unit :=
  modify_engine bump_fence ;!
  store_write (fun s => Ok (reset_local_writes_after_data_loss committed s)) ;!
  modify_engine (fun e => e <| en_write_status := ReconfigurationPending |>) ;!
  replicator fence_client_writes ;!
  replicator (m_modify (log_reset_progress_after_data_loss current committed)) ;!
  modify_engine (fun e =>
    e <| en_current_progress := current |> <| en_committed_lsn := committed |>
      <| en_local_writes := ∅ |>).

Definition control_on_data_loss : engine (option Lsn) :=
  fence_for_data_loss ;!
  let! lost := provider provider_on_data_loss in
  if negb lost then m_ret None
  else
    let! progress := provider provider_last_committed_lsn in
    reset_after_data_loss_locked progress progress ;!
    m_ret (Some progress).

(** ** The write path *)

Record PendingWrite := {
  pend_lsn : Lsn;
  pend_items : list ReplicationItem;
  pend_completion : Channel;
}.

(** The entries of a [BTreeMap] keyed by operation ids, in order. *)
Definition in_key_order {V} (m : gmap string V) : list (string * V) :=
  merge_sort (fun x y => String.le (fst x) (fst y)) (map_to_list m).

Definition validate_durable_ack (lsn required : Lsn) (k : DurableApplicationProgress)
    : result unit :=
  reject ((dap_applied_lsn k != lsn) || (dap_committed_lsn k <? required)
          || (dap_applied_lsn k <? dap_committed_lsn k))
    (application_error "durable acknowledgement does not prove application acceptance").

Definition verify_local_write_progress (lsn : Lsn) : engine unit :=
  let! e := get_engine in
  let! p := m_lift (ok_or (en_replication_progress e) AuthorityNotAdmitted) in
  if lsn == i64_wrap (rp_verified_lsn p + 1) then
    let p := {| rp_fence := rp_fence p; rp_verified_lsn := lsn |} in
    store_write (record_replication_progress p) ;!
    replicator (modify_quorum (record_verified_local_progress lsn)) ;!
    modify_engine (fun e => e <| en_replication_progress := Some p |>)
  else m_ret tt.

(** The registered writes up to [lsn], as they are journaled when committed. *)
Definition newly_committed (lsn : Lsn) (e : Engine) : list DurableLocalWrite :=
  map (fun w => w <| dlw_phase := Committed |>)
    (List.filter (fun w => (dlw_phase w == Registered) && (dlw_lsn w <=? lsn))
       (map snd (in_key_order (en_local_writes e)))).

Definition remove_local_writes (ws : list DurableLocalWrite) (e : Engine) : Engine :=
  e <| en_local_writes :=
    fold_left (fun m w => delete (dlw_operation_id w) m) ws (en_local_writes e) |>.

Definition finalize_ready_commit_locked : engine unit :=
  let! e := get_engine in
  match ready_commit_lsn (rl_quorum (en_log e)) with
  | None => m_ret tt
  | Some ready =>
      let! p := storage (commit_storage ready) in
      fail_if ((dap_committed_lsn p <? ready) || (dap_applied_lsn p <? dap_committed_lsn p))
        (application_error "application did not durably record quorum-ready progress") ;!
      let! e := get_engine in
      let committed := newly_committed ready e in
      m_for_each (fun w => store_write (record_local_write w)) committed ;!
      replicator (log_finalize_commit ready) ;!
      modify_engine (remove_local_writes committed) ;!
      modify_engine (fun e =>
        e <| en_committed_lsn := Z.max (en_committed_lsn e) (dap_committed_lsn p) |>)
  end.

(** Offering a new operation to a build in flight: queue it behind the snapshot,
    or number it and send it. *)
Definition copy_operation_item (b : BuildAuthority) (sequence : Z) (o : Operation) : CopyItem :=
  {| ci_build_id := ba_build_id b; ci_sender := ba_source b; ci_receiver := ba_target b;
     ci_epoch := cd_epoch (ba_current_configuration b);
     ci_current_configuration_id := cd_configuration_id (ba_current_configuration b);
     ci_sequence := sequence; ci_lsn := op_lsn o;
     ci_committed_lsn := Z.min (op_committed_lsn o) (op_lsn o);
     ci_replication_boundary_lsn := ba_replication_boundary_lsn b;
     ci_catch_up_boundary_lsn := None; ci_final_item := false; ci_snapshot_chunk := false;
     ci_data := op_data o |}.

Definition emitted_operation (b : OutboundBuild) (lsn : Lsn) : bool :=
  existsb (fun i => negb (ebi_snapshot_chunk i) && negb (ebi_final_item i) && (ebi_lsn i == lsn))
    (map snd (map_to_list (ob_emitted b))).

Definition number_operation (o : Operation) (b : OutboundBuild) : OutboundBuild * CopyItem :=
  (b <| ob_next_sequence := u64_next (ob_next_sequence b) |>
     <| ob_emitted := <[ob_next_sequence b :=
          {| ebi_lsn := op_lsn o; ebi_final_item := false; ebi_snapshot_chunk := false |}]>
          (ob_emitted b) |>,
   copy_operation_item (bp_authority (ob_progress b)) (ob_next_sequence b) o).

(** The operation as it is queued or numbered for a build, with the item to send
    and the stream to send it on. *)
Definition offer_to_build (o : Operation) (b : OutboundBuild)
    : OutboundBuild * option (nat * CopyItem) :=
  if (op_lsn o <=? ba_replication_boundary_lsn (bp_authority (ob_progress b)))
     || emitted_operation b (op_lsn o)
  then (b, None)
  else if is_none (ob_final_sequence b) || ob_catching_up b
  then (b <| ob_pending_operations := <[op_lsn o := o]> (ob_pending_operations b) |>, None)
  else
    let '(b', item) := number_operation o b in
    (b', (fun stream => (stream, item)) <$> ob_stream b).

(** [sender.send(item).await] as it returns: it fails when the receiver is gone; on a
    full channel it returns after the receiver has taken an item. *)
Definition send_on_stream (stream : nat) (item : result CopyItem) (error : RuntimeError)
    : engine unit :=
  let! e := get_engine in
  let! s := m_lift (ok_or (en_copy_streams e !! stream) error) in
  fail_if (negb (cs_open s)) error ;!
  modify_engine (fun e => e <| en_copy_streams :=
    <[stream := push_item item (if stream_waits s then take_item s else s)]>
      (en_copy_streams e) |>).

(** The receiver of a copy stream takes the next item. *)
Definition receive_from_stream (n : nat) (e : Engine) : Engine :=
  e <| en_copy_streams := alter (fun s => if cs_open s then take_item s else s) n (en_copy_streams e) |>.
(** It goes away. *)
Definition close_stream (n : nat) (e : Engine) : Engine :=
  e <| en_copy_streams := alter (fun s => s <| cs_open := false |>) n (en_copy_streams e) |>.

(** The new operation is queued or numbered for every build; [live_items] is what
    there is to send, in the order of the builds. *)
Definition record_offer (o : Operation) : engine (list (nat * CopyItem)) :=
  let! e := get_engine in
  let offered := offer_to_build o <$> en_outbound_builds e in
  modify_engine (fun e => e <| en_outbound_builds := fst <$> offered |>) ;!
  m_ret (omap (fun x => snd (snd x)) (in_key_order offered)).

Definition offer_to_builds (o : Operation) : engine unit :=
  let! live_items := record_offer o in
  m_for_each (fun '(stream, item) => send_on_stream stream (Ok item) Closed) live_items.

(** What [begin_write_locked] has established before it touches the application:
    the journaled reservation of the write. *)
Record WriteAttempt := {
  wa_write : ClientWrite;
  wa_durable : DurableLocalWrite;
  wa_generation : Z;
}.

Definition wa_operation (a : WriteAttempt) : Operation :=
  {| op_lsn := dlw_lsn (wa_durable a); op_committed_lsn := dlw_committed_lsn (wa_durable a);
     op_data := cw_data (wa_write a) |}.

(** The write's row in the journal, reserving the next LSN when there is none. *)
Definition load_or_reserve (w : ClientWrite) (recovering : bool) : engine DurableLocalWrite :=
  let! existing := store_read (fun s => Ok (as_local_writes s !! cw_operation_id w)) in
  match existing with
  | Some existing =>
      fail_if (dlw_data existing != cw_data w)
        (application_error "client operation ID was reused with different data") ;!
      m_ret existing
  | None =>
      fail_if recovering (LocalWritePending (cw_operation_id w)) ;!
      let! e := get_engine in
      let committed := qt_committed_lsn (rl_quorum (en_log e)) in
      let! lsn := replicator (reserve_write w) in
      let reserved := {| dlw_operation_id := cw_operation_id w; dlw_lsn := lsn;
                         dlw_committed_lsn := committed; dlw_data := cw_data w;
                         dlw_phase := Reserved |} in
      store_write (record_local_write reserved) ;!
      modify_engine (fun e =>
        e <| en_local_writes := <[cw_operation_id w := reserved]> (en_local_writes e) |>) ;!
      m_ret reserved
  end.

(** Who may write: the guards of [begin_write_locked]. *)
Definition check_write (w : ClientWrite) (recovering : bool) : engine unit :=
  check_aborted ;!
  let! e := get_engine in
  fail_if (negb (en_open e)) NotOpen ;!
  fail_if (en_role e != Primary) RtNotPrimary ;!
  fail_if ((en_write_status e != Granted) && negb recovering) (WriteClosed (en_write_status e)) ;!
  fail_if (existsb (fun '(_, b) =>
             ob_catching_up b
             && (MAX_BUILD_PENDING_OPERATIONS <=? size (ob_pending_operations b))%nat)
             (map_to_list (en_outbound_builds e))) QueueFull ;!
  let! a := m_lift (ok_or (en_authority e) AuthorityNotAdmitted) in
  let! primary := m_lift (mr_primary_identity a) in
  fail_if (primary != en_identity e) (engine_mismatch "local runtime is not the admitted primary") ;!
  match List.find (fun p => dlw_operation_id p != cw_operation_id w)
          (map snd (in_key_order (en_local_writes e))) with
  | Some unresolved => m_err (LocalWritePending (dlw_operation_id unresolved))
  | None => m_ret tt
  end.

Definition prepare_write (w : ClientWrite) (recovering : bool) : engine WriteAttempt :=
  let! e := get_engine in
  check_write w recovering ;!
  let! d := load_or_reserve w recovering in
  m_ret {| wa_write := w; wa_durable := d; wa_generation := en_write_generation e |}.

(** The end of a write that is already durable and committed. *)
Definition complete_committed (a : WriteAttempt) (k : DurableApplicationProgress)
    : engine PendingWrite :=
  let lsn := dlw_lsn (wa_durable a) in
  replicator (restore_committed_write (wa_operation a)) ;!
  modify_engine (fun e =>
    e <| en_local_writes := delete (cw_operation_id (wa_write a)) (en_local_writes e) |>
      <| en_current_progress := Z.max (en_current_progress e) (dap_applied_lsn k) |>
      <| en_committed_lsn := Z.max (en_committed_lsn e) (dap_committed_lsn k) |>) ;!
  let! c := replicator (quorum (answered_channel lsn)) in
  m_ret {| pend_lsn := lsn; pend_items := []; pend_completion := c |}.

Definition resume_committed (a : WriteAttempt) : engine PendingWrite :=
  let lsn := dlw_lsn (wa_durable a) in
  let! p := storage durable_progress in
  m_lift (validate_durable_ack (dap_applied_lsn p) lsn p) ;!
  verify_local_write_progress lsn ;!
  complete_committed a p.

(** Apply the operation once: verify it when the application already has it. *)
Definition apply_write (a : WriteAttempt)
    : engine (DurableApplicationProgress * DurableApplicationProgress) :=
  let o := wa_operation a in
  let! p := storage durable_progress in
  if op_lsn o <=? dap_applied_lsn p then
    let! same := storage (verify_applied o) in
    fail_if (negb same) (application_error "reserved write conflicts with durable application state") ;!
    m_ret (p, p)
  else
    fail_if (i64_wrap (dap_applied_lsn p + 1) != op_lsn o)
      (application_error ("reserved LSN " +:+ pretty (op_lsn o) +:+
         " is not contiguous with durable progress " +:+ pretty (dap_applied_lsn p))) ;!
    let! k := storage (apply_operation o) in
    m_ret (p, k).

Definition register_write_attempt (a : WriteAttempt) (k : DurableApplicationProgress)
    : engine PendingWrite :=
  let d := wa_durable a in
  let registered := d <| dlw_phase := Registered |> in
  store_write (record_local_write registered) ;!
  modify_engine (fun e => e <| en_local_writes :=
    <[cw_operation_id (wa_write a) := registered]> (en_local_writes e) |>) ;!
  (if dlw_phase d == Reserved
   then replicator (restore_write_reservation (wa_write a) (dlw_lsn d)) else m_ret tt) ;!
  let! prepared := replicator (ensure_local_write_registered (wa_operation a)) in
  finalize_ready_commit_locked ;!
  let! e := get_engine in
  fail_if (en_write_generation e != wa_generation a) DataLossFenced ;!
  modify_engine (fun e => e <| en_current_progress := dap_applied_lsn k |>) ;!
  offer_to_builds (wa_operation a) ;!
  m_ret {| pend_lsn := pw_lsn prepared; pend_items := pw_items prepared;
           pend_completion := pw_completion prepared |}.

Definition finish_write (a : WriteAttempt) (p k : DurableApplicationProgress)
    : engine PendingWrite :=
  let d := wa_durable a in
  let lsn := dlw_lsn d in
  let! e := get_engine in
  fail_if (en_write_generation e != wa_generation a) DataLossFenced ;!
  m_lift (validate_durable_ack (Z.max lsn (dap_applied_lsn p)) (dlw_committed_lsn d) k) ;!
  verify_local_write_progress lsn ;!
  if lsn <=? dap_committed_lsn k then
    store_write (record_local_write (d <| dlw_phase := Committed |>)) ;!
    complete_committed a k
  else register_write_attempt a k.

Definition begin_write_locked (w : ClientWrite) (recovering : bool) : engine PendingWrite :=
  let! a := prepare_write w recovering in
  if dlw_phase (wa_durable a) == Committed then resume_committed a
  else
    let! applied := apply_write a in
    finish_write a (fst applied) (snd applied).

Definition begin_write (w : ClientWrite) : engine PendingWrite :=
  check_no_pending_configuration ;!
  begin_write_locked w false.

Definition resume_local_write (w : ClientWrite) : engine PendingWrite :=
  begin_write_locked w true.

(** ** Acknowledgements from peers *)

(** [Option<ManagedReplicaConfiguration>] of the store and of the engine agree. *)
Definition same_durable_authority (message : string) : engine unit :=
  let! durable := load_configuration in
  let! e := get_engine in
  fail_if (durable != en_authority e) (engine_mismatch message).

Definition accept_acknowledgement (k : ReplicationAck) : engine unit :=
  check_aborted ;!
  same_durable_authority "acknowledgement authority differs from durable admission" ;!
  check_no_pending_configuration ;!
  replicator (log_acknowledge k) ;!
  finalize_ready_commit_locked.

Definition observe_replication_ack_instruction (k : ReplicationAck) (session : ProcessSessionId)
    : engine unit :=
  same_durable_authority "ACK differs from durable authority" ;!
  replicator (log_acknowledge_in_session k session) ;!
  finalize_ready_commit_locked.

Definition refresh_application_progress_instruction : engine unit :=
  let! e := get_engine in
  let! p := (if en_bound e then storage durable_progress
             else
               fail_if (negb (en_control_attached e)) NotOpen ;!
               let! applied := control_progress in
               let! committed := provider provider_last_committed_lsn in
               m_ret {| dap_applied_lsn := applied; dap_committed_lsn := committed |}) in
  modify_engine (fun e =>
    e <| en_current_progress := Z.max (en_current_progress e) (dap_applied_lsn p) |>
      <| en_committed_lsn := Z.max (en_committed_lsn e) (dap_committed_lsn p) |>) ;!
  let! e := get_engine in
  if is_some (en_authority e) then
    replicator (log_record_local_progress (dap_applied_lsn p)) ;!
    finalize_ready_commit_locked
  else m_ret tt.

(** ** Sending *)

Definition send_outbound (o : OutboundOperation) : engine unit :=
  let! e := get_engine in
  fail_if (en_aborted e) Closed ;!
  modify_engine (fun e => e <| en_outbound := en_outbound e ++ [o] |>).

Definition publish_replication (p : PendingWrite) : engine unit :=
  m_for_each (fun item => send_outbound (OutboundReplication item)) (pend_items p).

(** [execute_managed_operation]: the guard of the managed operations. *)
Definition execute_managed_operation {A} (allow_closed allow_retiring : bool) (m : engine A)
    : engine A :=
  check_no_pending_configuration ;!
  (if allow_closed then m_ret tt else check_aborted) ;!
  let! e := get_engine in
  fail_if (negb allow_retiring && is_some (en_retiring_authority e)) Closed ;!
  m.

End engine.
