(* ===== verification/EngineWrites.v ===== *)
(** * Safety of the engine's write path

    What the journal of local writes and the engine's own record of unresolved
    writes say about each other, and what a client may conclude from the answer
    to its write. *)

From S2P Require Import Prelude Digest Types Intents Commands Validation Quorums ScaleDown ScaleUp.
From S2P Require Import ManagedConfiguration Quorum QuorumSafety Log Authority AuthorityStore Engine.
From stdpp Require Import base gmap strings list sorting relations.
From Stdlib Require Import ZArith Lia.
Local Open Scope Z_scope.

(** ** Runs of the engine's primitives *)

Section runs.
Context `{Sha256} {St : Type} `{!DurableApplication St}.
Implicit Types w : World (St := St).

(** The engine after a transaction: the stores, and the faults still to come. *)
Definition with_store (e : Engine) (faults : list (option string)) (s : AuthorityStore) : Engine :=
  e <| en_faults := faults |> <| en_store := s |>.

Lemma get_engine_inv w w' e : get_engine w = (w', Ok e) -> w' = w /\ e = fst w.
Proof. unfold get_engine. by intros [= <- <-]. Qed.

Lemma fail_if_inv b err w w' u : fail_if b err w = (w', Ok u) -> w' = w /\ b = false.
Proof. unfold fail_if, m_lift. intros [= <- Hr]. by apply reject_ok in Hr. Qed.

Lemma modify_engine_inv f w w' u : modify_engine f w = (w', Ok u) -> w' = (f (fst w), snd w).
Proof. unfold modify_engine, m_modify. by intros [= <-]. Qed.

Lemma replicator_inv {A} (m : log A) w w' r :
  replicator m w = (w', r) ->
  exists l, m (en_log (fst w)) = (l, r) /\ w' = ((fst w) <| en_log := l |>, snd w).
Proof. unfold replicator. by intros (l & Hm & ->)%m_zoom_inv; eauto. Qed.

Lemma transaction_cases {A} (f : AuthorityStore -> contract (AuthorityStore * A)) w :
  (exists s a faults, f (en_store (fst w)) = Ok (s, a) /\
     transaction f w = ((with_store (fst w) faults s, snd w), Ok a)) \/
  (exists r faults, (forall a, r <> Ok a) /\
     transaction f w = (((fst w) <| en_faults := faults |>, snd w), r)).
Proof.
  unfold transaction, with_store. destruct (en_faults (fst w)) as [|[message|] faults]; simpl.
  - destruct (f _) as [[s a]|c|] eqn:Hf; [left; eauto 10|right; do 2 eexists; (split; [|done]); done..].
  - right. do 2 eexists. split; [|done]. done.
  - destruct (f _) as [[s a]|c|] eqn:Hf; [left; eauto 10|right; do 2 eexists; (split; [|done]); done..].
Qed.

Lemma transaction_inv {A} (f : AuthorityStore -> contract (AuthorityStore * A)) w w' a :
  transaction f w = (w', Ok a) ->
  exists s faults, f (en_store (fst w)) = Ok (s, a) /\ w' = (with_store (fst w) faults s, snd w).
Proof.
  destruct (transaction_cases f w) as [(s & a' & faults & Hf & ->)|(r & faults & Hr & ->)].
  - intros [= <- <-]. eauto.
  - intros [= _ Heq]. by destruct (Hr a).
Qed.

Lemma store_write_inv f w w' u :
  store_write f w = (w', Ok u) ->
  exists s faults, f (en_store (fst w)) = Ok s /\ w' = (with_store (fst w) faults s, snd w).
Proof. intros (s & faults & Hf & ->)%transaction_inv. ok_inv. eauto. Qed.

Lemma store_read_inv {A} (f : AuthorityStore -> contract A) w w' a :
  store_read f w = (w', Ok a) ->
  f (en_store (fst w)) = Ok a /\
  exists faults, w' = (with_store (fst w) faults (en_store (fst w)), snd w).
Proof. intros (s & faults & Hf & ->)%transaction_inv. ok_inv. eauto. Qed.

Lemma storage_inv {A} (m : M St RuntimeError A) w w' a :
  storage m w = (w', Ok a) -> exists st, m (snd w) = (st, Ok a) /\ w' = (fst w, st).
Proof.
  unfold storage. intros Hok. m_inv. apply get_engine_inv in Hm as [-> ->].
  apply fail_if_inv in Hm0 as [-> _]. by apply m_zoom_inv in Hok.
Qed.

(** Operations that only look. *)
Definition reads {A} (m : engine (St := St) A) : Prop := forall w, fst (m w) = w.

Lemma reads_get : reads get_engine.
Proof. done. Qed.
Lemma reads_lift {A} (r : result A) : reads (m_lift r).
Proof. done. Qed.
Lemma reads_ret {A} (a : A) : reads (m_ret a).
Proof. done. Qed.
Lemma reads_err {A} err : reads (A := A) (m_err err).
Proof. done. Qed.
Lemma reads_seq {A B} (m : engine A) (k : A -> engine B) :
  reads m -> (forall a, reads (k a)) -> reads (m_bind m k).
Proof.
  intros Hm Hk w. specialize (Hm w). unfold m_bind. destruct (m w) as [w' [a| |]]; simpl in *; subst;
    [apply Hk|done..].
Qed.

Lemma reads_bind {A B} (m : engine A) (k : A -> engine B) (P : World -> Prop) w :
  reads m -> P w -> (forall a, m w = (w, Ok a) -> P (fst (k a w))) -> P (fst (m_bind m k w)).
Proof.
  intros Hm Hw Hk. pose proof (Hm w) as Hmw. apply m_bind_ends.
  - intros w' r Heq _. rewrite Heq in Hmw. simpl in Hmw. by subst.
  - intros w' a Heq. rewrite Heq in Hmw. simpl in Hmw. subst. by apply Hk.
Qed.

Lemma reads_fail_if b err : reads (fail_if b err).
Proof. done. Qed.
Lemma reads_check_aborted : reads check_aborted.
Proof. apply reads_seq; [apply reads_get|]. intros e. apply reads_fail_if. Qed.
Lemma reads_no_pending : reads check_no_pending_configuration.
Proof. apply reads_seq; [apply reads_get|]. intros e. apply reads_fail_if. Qed.

Lemma reads_check_generation g : reads (check_delivery_generation g).
Proof.
  apply reads_seq; [apply reads_get|]. intros e. apply reads_seq; [apply reads_fail_if|]. intros _.
  apply reads_check_aborted.
Qed.

End runs.

Create HintDb reads.
#[export] Hint Resolve reads_get reads_lift reads_ret reads_err reads_fail_if reads_check_aborted
  reads_no_pending reads_check_generation reads_seq : reads.

(** Take a successful run of an engine operation apart. *)
Ltac e_step :=
  match goal with
  | H : get_engine _ = (_, Ok _) |- _ => apply get_engine_inv in H as [? ?]; subst
  | H : fail_if _ _ _ = (_, Ok _) |- _ => apply fail_if_inv in H as [? H]; subst
  | H : modify_engine _ _ = (_, Ok _) |- _ => apply modify_engine_inv in H as ->
  | H : storage _ _ = (_, Ok _) |- _ => apply storage_inv in H as (? & H & ->)
  | H : store_write _ _ = (_, Ok _) |- _ => apply store_write_inv in H as (? & ? & H & ->)
  | H : store_read _ _ = (_, Ok _) |- _ => apply store_read_inv in H as (H & ? & ->)
  | H : replicator _ _ = (_, Ok _) |- _ => apply replicator_inv in H as (? & H & ->)
  end.
Ltac e_inv := repeat (m_step || e_step || ok_step); cbn [fst snd] in *.

(** ** A write is journaled before it reaches the application *)

Section journal.
Context `{Sha256} {St : Type} `{!DurableApplication St}.
Implicit Types w : World (St := St).

(** The journal row of a write. *)
Definition journaled (e : Engine) (id : OperationId) : option DurableLocalWrite :=
  as_local_writes (en_store e) !! id.

(** The local replica may assign an LSN to [write]: it is open, the primary of
    the installed authority, and has no other unresolved write. *)
Record may_write (e : Engine) (write : ClientWrite) (recovering : bool) : Prop := {
  mw_running : en_aborted e = false /\ en_closed e = false /\ en_open e = true;
  mw_role : en_role e = Primary;
  mw_access : recovering = false -> en_write_status e = Granted;
  mw_primary : exists a, en_authority e = Some a /\
    mr_primary_identity (E := RuntimeError) a = Ok (en_identity e);
  mw_alone : forall id v, en_local_writes e !! id = Some v ->
    dlw_operation_id v = cw_operation_id write;
}.

Lemma elem_of_in_key_order {V} (m : gmap string V) id v :
  (id, v) ∈ in_key_order m <-> m !! id = Some v.
Proof. unfold in_key_order. by rewrite merge_sort_Permutation, elem_of_map_to_list. Qed.

Lemma elem_of_ordered_values {V} (m : gmap string V) v :
  v ∈ map snd (in_key_order m) <-> exists id, m !! id = Some v.
Proof.
  rewrite list_elem_of_fmap. setoid_rewrite <-elem_of_in_key_order. split.
  - intros ([id x] & -> & Hx). eauto.
  - intros [id Hv]. by exists (id, v).
Qed.

(** The reservation that [load_or_reserve] finds or makes. *)
Lemma load_or_reserve_cases write recovering w w' d :
  load_or_reserve write recovering w = (w', Ok d) ->
  snd w' = snd w /\ dlw_data d = cw_data write /\
  journaled (fst w') (cw_operation_id write) = Some d /\
  match journaled (fst w) (cw_operation_id write) with
  | Some row => d = row /\ exists faults, fst w' = with_store (fst w) faults (en_store (fst w))
  | None =>
      recovering = false /\ dlw_phase d = Reserved /\ dlw_operation_id d = cw_operation_id write /\
      exists l faults, reserve_write write (en_log (fst w)) = (l, Ok (dlw_lsn d)) /\
        fst w' = (with_store (fst w) faults
                    ((en_store (fst w)) <| as_local_writes :=
                       <[cw_operation_id write := d]> (as_local_writes (en_store (fst w))) |>))
                 <| en_log := l |>
                 <| en_local_writes := <[cw_operation_id write := d]> (en_local_writes (fst w)) |>
  end.
Proof.
  unfold load_or_reserve, journaled. intros Hok. e_inv.
  destruct (as_local_writes (en_store (fst w)) !! cw_operation_id write) as [row|] eqn:Hrow.
  - e_inv. guards. split_and!; eauto.
  - e_inv. apply record_write_cases in Hm2 as [-> _]. simpl in *. subst. simpl.
    split_and!; [done|done| |done..|].
    + by rewrite lookup_insert_eq.
    + do 2 eexists. split; [done|]. done.
Qed.

Lemma check_write_ok write recovering w w' u :
  check_write write recovering w = (w', Ok u) -> w' = w /\ may_write (fst w) write recovering.
Proof.
  unfold check_write, check_aborted. intros Hok. e_inv.
  destruct (List.find _ _) eqn:Hfind; e_inv. split; [done|].
  rewrite find_none_iff in Hfind. guards.
  rename select (_ && negb recovering = false) into Hstatus.
  split.
  - guards. done.
  - done.
  - intros ->. apply andb_false_iff in Hstatus as [Hs|]; [|done]. by guards.
  - eexists. split; [done|congruence].
  - intros id v Hv. specialize (Hfind v). rewrite elem_of_ordered_values in Hfind.
    specialize (Hfind (ex_intro _ id Hv)). by guards.
Qed.

Lemma reads_check_write write recovering : reads (check_write (St := St) write recovering).
Proof.
  unfold check_write. repeat (apply reads_seq; [auto with reads|intros ?]).
  destruct (List.find _ _); auto with reads.
Qed.

Lemma prepare_write_cases write recovering w w' a :
  prepare_write write recovering w = (w', Ok a) ->
  may_write (fst w) write recovering /\ wa_write a = write /\
  wa_generation a = en_write_generation (fst w) /\
  load_or_reserve write recovering w = (w', Ok (wa_durable a)).
Proof.
  unfold prepare_write. intros Hok. e_inv.
  rename select (check_write _ _ _ = _) into Hc. apply check_write_ok in Hc as [-> Hmay]. done.
Qed.

(** A write reaches the application only after it is journaled: when the
    engine has prepared a write, the application has not been called, the
    journal holds the write's LSN and bytes under its operation id, a write the
    journal already knew keeps its row and a new one has a reserved row, and the
    local replica is the open primary of its authority with no other unresolved
    write. *)
Theorem writes_are_journaled_first write recovering w w' a :
  prepare_write write recovering w = (w', Ok a) ->
  snd w' = snd w /\ may_write (fst w) write recovering /\
  journaled (fst w') (cw_operation_id write) = Some (wa_durable a) /\
  op_data (wa_operation a) = dlw_data (wa_durable a) /\
  op_lsn (wa_operation a) = dlw_lsn (wa_durable a) /\
  match journaled (fst w) (cw_operation_id write) with
  | Some row => wa_durable a = row /\ en_store (fst w') = en_store (fst w)
  | None => recovering = false /\ dlw_phase (wa_durable a) = Reserved
  end.
Proof.
  intros (Hmay & Hw & _ & Hload)%prepare_write_cases.
  apply load_or_reserve_cases in Hload as (Hst & Hdata & Hj & Hcases).
  split_and!; [done..| |done|].
  - simpl. by rewrite Hw, Hdata.
  - destruct (journaled (fst w) _); [|naive_solver].
    destruct Hcases as (-> & faults & ->). done.
Qed.

End journal.

(** ** The engine's record of unresolved writes *)

Section tracking.
Context `{Sha256} {St : Type} `{!DurableApplication St}.
Implicit Types w : World (St := St).

Definition unresolved (s : AuthorityStore) (id : OperationId) : Prop :=
  exists d, as_local_writes s !! id = Some d /\ dlw_phase d <> Committed.

(** The open engine tracks every unresolved write of its journal, the writes it
    tracks are journaled, and at most one write is unresolved. *)
Record writes_ok (e : Engine) : Prop := {
  wo_store : store_ok (en_store e);
  wo_tracked : en_open e = true -> forall id, unresolved (en_store e) id ->
    is_Some (en_local_writes e !! id);
  wo_recorded : forall id v, en_local_writes e !! id = Some v -> dlw_operation_id v = id /\
    exists d, as_local_writes (en_store e) !! id = Some d /\ write_advances v d;
  wo_single : forall id id', unresolved (en_store e) id -> unresolved (en_store e) id' -> id = id';
}.

Definition tracks (w : World (St := St)) : Prop := writes_ok (fst w).

(** Steps that touch neither the stores nor the record of writes, and do not
    open the engine. *)
Definition untracked (e e' : Engine) : Prop :=
  en_store e' = en_store e /\ en_local_writes e' = en_local_writes e /\
  (en_open e' = true -> en_open e = true).

Lemma untracked_ok e e' : untracked e e' -> writes_ok e -> writes_ok e'.
Proof. intros (Hs & Hl & Ho) []. split; rewrite ?Hs, ?Hl; auto. Qed.

Lemma modify_tracks f :
  (forall e, untracked e (f e)) -> evolves (keeps tracks) (modify_engine (St := St) f).
Proof. intros Hf w Hw. eapply untracked_ok; [apply Hf|exact Hw]. Qed.

Lemma replicator_tracks {A} (m : log A) : evolves (keeps tracks) (replicator (St := St) m).
Proof.
  intros w Hw. destruct (replicator m w) as [w' r] eqn:E.
  apply replicator_inv in E as (l & _ & ->). by eapply untracked_ok; [|exact Hw].
Qed.

Lemma get_engine_tracks : evolves (keeps tracks) (get_engine (St := St)).
Proof. intros w Hw. exact Hw. Qed.

Lemma fail_if_tracks b err : evolves (keeps tracks) (fail_if (St := St) b err).
Proof. intros w Hw. exact Hw. Qed.

Lemma app_tracks {A} (m : M St RuntimeError A) :
  evolves (keeps tracks) (m_zoom (@snd Engine St) (fun s w => (fst w, s)) m).
Proof. intros [e st] Hw. unfold m_zoom. simpl. by destruct (m st). Qed.

(** A transaction that leaves the journal alone. *)
Lemma transaction_tracks {A} (f : AuthorityStore -> contract (AuthorityStore * A)) :
  (forall s s' a, f s = Ok (s', a) ->
     as_local_writes s' = as_local_writes s /\ (store_ok s -> store_ok s')) ->
  evolves (keeps tracks) (transaction (St := St) f).
Proof.
  intros Hf w Hw. destruct (transaction_cases f w) as [(s & a & faults & Hok & ->)|(r & faults & _ & ->)].
  - apply Hf in Hok as [Hl Hs]. destruct Hw as [Hok' Ht Hr Hsg]. split; simpl.
    + auto.
    + unfold unresolved in *. by rewrite Hl.
    + by rewrite Hl.
    + unfold unresolved in *. by rewrite Hl.
  - by eapply untracked_ok; [|exact Hw].
Qed.

Lemma store_read_tracks {A} (f : AuthorityStore -> contract A) :
  evolves (keeps tracks) (store_read (St := St) f).
Proof. apply transaction_tracks. intros s s' a Hok. ok_inv. done. Qed.

(** Recording a committed row, or a later row of an unresolved write. *)
Lemma record_tracked d e faults s :
  writes_ok e -> record_local_write d (en_store e) = Ok s ->
  (dlw_phase d <> Committed -> unresolved (en_store e) (dlw_operation_id d)) ->
  writes_ok (with_store e faults s) /\
  (dlw_phase d = Committed -> ~ unresolved s (dlw_operation_id d)).
Proof.
  intros [Hok Ht Hr Hs] Hrec Hphase. pose proof (write_ok _ _ _ Hrec Hok) as Hok'.
  apply record_write_cases in Hrec as [-> Hadv].
  assert (Hsub : forall id, unresolved ((en_store e) <| as_local_writes :=
    <[dlw_operation_id d := d]> (as_local_writes (en_store e)) |>) id -> unresolved (en_store e) id).
  { intros id (x & Hx & Hp). simpl in Hx. apply lookup_insert_Some in Hx as [[<- <-]|[_ Hx]].
    - auto.
    - by exists x. }
  split; [split; simpl; auto|].
  - intros id v Hv. destruct (Hr id v Hv) as (Hid & x & Hx & Ha). split; [done|].
    destruct (decide (id = dlw_operation_id d)) as [->|Hne].
    + exists d. rewrite lookup_insert_eq. eauto using write_advances_trans.
    + rewrite lookup_insert_ne by done. eauto.
  - intros Hc (x & Hx & Hp). simpl in Hx. rewrite lookup_insert_eq in Hx. congruence.
Qed.

Lemma forget_tracked e id :
  writes_ok e -> ~ unresolved (en_store e) id ->
  writes_ok (e <| en_local_writes := delete id (en_local_writes e) |>).
Proof.
  intros [Hok Ht Hr Hs] Hres. split; simpl; auto.
  - intros Ho id' Hid'. rewrite lookup_delete_ne; [auto|]. congruence.
  - intros id' v [_ Hv]%lookup_delete_Some. auto.
Qed.

Lemma remember_tracked e id v d :
  writes_ok e -> as_local_writes (en_store e) !! id = Some d -> write_advances v d ->
  dlw_operation_id v = id ->
  writes_ok (e <| en_local_writes := <[id := v]> (en_local_writes e) |>).
Proof.
  intros [Hok Ht Hr Hs] Hd Ha Hid. split; simpl; auto.
  - intros Ho id' Hid'. rewrite lookup_insert_is_Some'. auto.
  - intros id' x [[<- <-]|[_ Hx]]%lookup_insert_Some; eauto.
Qed.

(** A new reservation, when nothing is unresolved. *)
Lemma reserve_tracked e faults l d :
  writes_ok e -> en_open e = true ->
  (forall id v, en_local_writes e !! id = Some v -> dlw_operation_id v = dlw_operation_id d) ->
  as_local_writes (en_store e) !! dlw_operation_id d = None ->
  writes_ok ((with_store e faults ((en_store e) <| as_local_writes :=
               <[dlw_operation_id d := d]> (as_local_writes (en_store e)) |>))
             <| en_log := l |>
             <| en_local_writes := <[dlw_operation_id d := d]> (en_local_writes e) |>).
Proof.
  intros [Hok Ht Hr Hs] Ho Halone Hnone.
  assert (Hfree : forall id, ~ unresolved (en_store e) id).
  { intros id Hid. destruct (Ht Ho id Hid) as [v Hv]. destruct (Hr id v Hv) as [Heq _].
    rewrite (Halone id v Hv) in Heq. subst id. destruct Hid as (x & Hx & _). congruence. }
  assert (Honly : forall id, unresolved ((en_store e) <| as_local_writes :=
    <[dlw_operation_id d := d]> (as_local_writes (en_store e)) |>) id -> id = dlw_operation_id d).
  { intros id (x & Hx & Hp). simpl in Hx. apply lookup_insert_Some in Hx as [[<- _]|[_ Hx]]; [done|].
    destruct (Hfree id). by exists x. }
  split; simpl.
  - destruct Hok. split; simpl; auto. intros id x. rewrite lookup_insert_Some. naive_solver.
  - intros _ id ->%Honly. by rewrite lookup_insert_eq.
  - intros id v [[<- <-]|[Hne Hv]]%lookup_insert_Some.
    + split; [done|]. exists d. rewrite lookup_insert_eq. split; [done|]. by repeat split.
    + destruct (Hr id v Hv) as (Hid & x & Hx & Ha). split; [done|]. exists x.
      by rewrite lookup_insert_ne.
  - intros id id' ->%Honly ->%Honly. done.
Qed.

End tracking.
#[export] Hint Resolve replicator_tracks get_engine_tracks fail_if_tracks app_tracks
  store_read_tracks : evolves.

(** Changes of the engine that leave its record of writes alone. *)
Ltac unrelated := apply modify_tracks; intros ?; by repeat split.

Section operations.
Context `{Sha256} {St : Type} `{!DurableApplication St}.
Implicit Types w : World (St := St).

(** A chain whose first operation keeps the writes tracked. *)
Lemma tracks_bind {A B} (m : engine (St := St) A) (k : A -> engine B) w :
  evolves (keeps tracks) m -> tracks w ->
  (forall w' a, m w = (w', Ok a) -> tracks w' -> tracks (fst (k a w'))) ->
  tracks (fst (m_bind m k w)).
Proof.
  intros Hm Hw Hk. pose proof (Hm w Hw) as Hw'. apply m_bind_ends.
  - intros w' r Heq _. by rewrite Heq in Hw'.
  - intros w' a Heq. rewrite Heq in Hw'. by apply Hk.
Qed.

Lemma store_write_cases f w :
  (exists s faults, f (en_store (fst w)) = Ok s /\
     store_write f w = ((with_store (fst w) faults s, snd w), Ok tt)) \/
  (exists r faults, (forall u, r <> Ok u) /\
     store_write f w = (((fst w) <| en_faults := faults |>, snd w), r)).
Proof.
  unfold store_write.
  destruct (transaction_cases (fun s => let? s' := f s in Ok (s', tt)) w)
    as [(s & u & faults & Hf & ->)|(r & faults & Hr & ->)]; [|right; eauto].
  left. ok_inv. eauto.
Qed.

Lemma store_write_fails f w w' r :
  store_write f w = (w', r) -> (forall u, r <> Ok u) -> tracks w -> tracks w'.
Proof.
  intros Heq Hr Hw.
  destruct (store_write_cases f w) as [(s & faults & _ & Heq')|(r' & faults & _ & Heq')];
    rewrite Heq' in Heq; simplify_eq.
  - by destruct (Hr tt).
  - by eapply untracked_ok; [|exact Hw].
Qed.

Lemma load_or_reserve_tracks write recovering w :
  tracks w -> may_write (fst w) write recovering ->
  tracks (fst (load_or_reserve write recovering w)).
Proof.
  intros Hw [[_ [_ Hopen]] _ _ _ Halone]. unfold load_or_reserve.
  apply tracks_bind; [auto with evolves|done|]. intros w1 existing Hread Hw1.
  e_inv. destruct (as_local_writes _ !! cw_operation_id write) eqn:Hrow.
  { apply (evolves_bind (keeps tracks)); auto with evolves typeclass_instances. }
  do 2 (apply tracks_bind; [auto with evolves|done|]; intros ? ? ? _; e_inv).
  apply tracks_bind; [auto with evolves|done|]. intros w4 lsn Hres Hw4.
  apply replicator_inv in Hres as (l & _ & ->). cbn [fst snd] in *. apply m_bind_ends.
  - intros w' r Heq Hr. by eapply store_write_fails.
  - intros w' [] (s & faults' & [-> _]%record_write_cases & ->)%store_write_inv. simpl.
    apply (reserve_tracked (fst w) faults' l
      {| dlw_operation_id := cw_operation_id write; dlw_lsn := lsn;
         dlw_committed_lsn := qt_committed_lsn (rl_quorum (en_log (fst w)));
         dlw_data := cw_data write; dlw_phase := Reserved |}); simpl; auto.
Qed.

Lemma store_write_tracks f :
  (forall s s', f s = Ok s' ->
     as_local_writes s' = as_local_writes s /\ (store_ok s -> store_ok s')) ->
  evolves (keeps tracks) (store_write (St := St) f).
Proof. intros Hf. apply transaction_tracks. intros s s' [] Hok. ok_inv. by apply Hf. Qed.

Lemma progress_tracks p : evolves (keeps tracks) (store_write (St := St) (record_replication_progress p)).
Proof.
  apply store_write_tracks. intros s s' Hok. split; [|by apply (progress_ok p)].
  unfold record_replication_progress in Hok. by guards.
Qed.
Hint Resolve progress_tracks : evolves.

Lemma storage_tracks {A} (m : M St RuntimeError A) : evolves (keeps tracks) (storage m).
Proof. unfold storage. evolve. Qed.
Lemma provider_tracks {A} (m : M St RuntimeError A) : evolves (keeps tracks) (provider m).
Proof. unfold provider. evolve. Qed.
Lemma check_aborted_tracks : evolves (keeps tracks) (check_aborted (St := St)).
Proof. unfold check_aborted. evolve. Qed.
Hint Resolve storage_tracks provider_tracks check_aborted_tracks : evolves.

Lemma verify_local_write_progress_tracks lsn :
  evolves (keeps tracks) (verify_local_write_progress (St := St) lsn).
Proof. unfold verify_local_write_progress. evolve. unrelated. Qed.
Hint Resolve verify_local_write_progress_tracks : evolves.

(** *** Committing *)

(** Journaling writes as committed, one after the other. *)
Lemma record_committed_tracks ws w w' r :
  m_for_each (fun v => store_write (record_local_write v)) ws w = (w', r) ->
  Forall (fun v => dlw_phase v = Committed) ws -> tracks w ->
  tracks w' /\ en_local_writes (fst w') = en_local_writes (fst w) /\
  (forall id, unresolved (en_store (fst w')) id -> unresolved (en_store (fst w)) id) /\
  (r = Ok tt -> forall v, v ∈ ws -> ~ unresolved (en_store (fst w')) (dlw_operation_id v)).
Proof.
  intros Hrun Hall. revert w Hrun. induction Hall as [|v ws Hv Hall IH]; intros w Hrun Hw; simpl in Hrun.
  { injection Hrun as <- <-. split_and!; [done..|]. intros _ v Hv%elem_of_nil. done. }
  unfold m_bind in Hrun. destruct (store_write_cases (record_local_write v) w)
    as [(s & faults & Hrec & Heq)|(r' & faults & Hr' & Heq)]; rewrite Heq in Hrun.
  - destruct (record_tracked v (fst w) faults s Hw Hrec) as [Hw1 Hres]; [by rewrite Hv|].
    destruct (IH _ Hrun Hw1) as (Hw' & Hl & Hsub & Hdone). split_and!; [done|done| |].
    + intros id Hid%Hsub. simpl in Hid. apply record_write_cases in Hrec as [-> _].
      destruct Hid as (x & Hx & Hp). simpl in Hx.
      apply lookup_insert_Some in Hx as [[_ <-]|[_ Hx]]; [done|]. by exists x.
    + intros Hr x [->|Hx]%elem_of_cons; [|auto]. intros Hu%Hsub. by apply Hres in Hv.
  - destruct r' as [u| |]; [by destruct (Hr' u)|..]; injection Hrun as <- <-;
      (split_and!; [by eapply untracked_ok; [|exact Hw]|done..]).
Qed.

Lemma remove_tracked ws e :
  writes_ok e -> (forall v, v ∈ ws -> ~ unresolved (en_store e) (dlw_operation_id v)) ->
  writes_ok (remove_local_writes ws e).
Proof.
  revert e. induction ws as [|v ws IH]; intros e He Hres; [by eapply untracked_ok; [|exact He]|].
  set (e' := e <| en_local_writes := delete (dlw_operation_id v) (en_local_writes e) |>).
  assert (remove_local_writes (v :: ws) e = remove_local_writes ws e') as -> by done. apply IH.
  - apply forget_tracked; [done|]. apply Hres. set_solver.
  - intros x Hx. apply Hres. set_solver.
Qed.

Lemma newly_committed_phase lsn e : Forall (fun v => dlw_phase v = Committed) (newly_committed lsn e).
Proof. unfold newly_committed. apply Forall_fmap, Forall_forall. done. Qed.

Lemma finalize_tracks : evolves (keeps tracks) (finalize_ready_commit_locked (St := St)).
Proof.
  intros w Hw. unfold finalize_ready_commit_locked.
  apply tracks_bind; [auto with evolves|done|]. intros ? ? ? _. e_inv.
  destruct (ready_commit_lsn _) as [ready|]; [|done].
  apply tracks_bind; [auto with evolves|done|]. intros w1 p _ Hw1.
  do 2 (apply tracks_bind; [auto with evolves|done|]; intros ? ? ? _; e_inv).
  pose proof (newly_committed_phase ready (fst w1)) as Hphase. apply m_bind_ends.
  - intros w' r Hrun _. by destruct (record_committed_tracks _ _ _ _ Hrun Hphase Hw1).
  - intros w2 [] Hrun. destruct (record_committed_tracks _ _ _ _ Hrun Hphase Hw1) as (Hw2 & _ & _ & Hres).
    apply tracks_bind; [auto with evolves|done|]. intros w3 [] Hfin Hw3.
    apply replicator_inv in Hfin as (l & _ & ->). simpl in *.
    eapply untracked_ok; [|apply (remove_tracked (newly_committed ready (fst w1)) _ Hw3); auto].
    by repeat split.
Qed.
Hint Resolve finalize_tracks : evolves.

Lemma complete_committed_tracks a k w :
  tracks w -> ~ unresolved (en_store (fst w)) (cw_operation_id (wa_write a)) ->
  tracks (fst (complete_committed a k w)).
Proof.
  intros Hw Hres. unfold complete_committed.
  apply tracks_bind; [auto with evolves|done|]. intros w1 [] Hrun Hw1.
  apply replicator_inv in Hrun as (l & _ & ->). apply m_bind_ends; [intros ? ? [= _ <-] Hr; by destruct (Hr tt)|].
  intros w2 [] Hmod. apply modify_engine_inv in Hmod as ->.
  apply tracks_bind; [auto with evolves| |done].
  eapply untracked_ok; [|apply (forget_tracked _ (cw_operation_id (wa_write a)) Hw1 Hres)].
  by repeat split.
Qed.

(** *** A write attempt *)

(** The attempt's row is journaled under the write's operation id. *)
Definition attempt_ok (a : WriteAttempt) (e : Engine) : Prop :=
  journaled e (cw_operation_id (wa_write a)) = Some (wa_durable a).

Lemma verify_progress_keeps_attempt a lsn w w' u :
  verify_local_write_progress lsn w = (w', Ok u) -> attempt_ok a (fst w) -> attempt_ok a (fst w').
Proof.
  unfold verify_local_write_progress, attempt_ok, journaled. intros Hrun Ha. e_inv.
  destruct (_ == _) in Hrun; e_inv; [|done]. simpl.
  unfold record_replication_progress in *. by guards.
Qed.

Lemma attempt_id a e :
  writes_ok e -> attempt_ok a e -> dlw_operation_id (wa_durable a) = cw_operation_id (wa_write a).
Proof. intros [Hs _ _ _] Ha. by apply (ok_writes _ Hs). Qed.

Lemma offer_to_builds_tracks o : evolves (keeps tracks) (offer_to_builds (St := St) o).
Proof.
  unfold offer_to_builds, record_offer. evolve; [unrelated|]. apply evolves_for_each; [apply _|].
  intros [stream item]. unfold send_on_stream. evolve. unrelated.
Qed.
Hint Resolve offer_to_builds_tracks : evolves.

Lemma register_attempt_tracks a k w :
  tracks w -> attempt_ok a (fst w) -> dlw_phase (wa_durable a) <> Committed ->
  tracks (fst (register_write_attempt a k w)).
Proof.
  intros Hw Ha Hp. pose proof (attempt_id a (fst w) Hw Ha) as Hid. unfold register_write_attempt.
  apply m_bind_ends; [intros ? ? Hrun Hr; by eapply store_write_fails|].
  intros w1 [] (s & faults & Hrec & ->)%store_write_inv.
  destruct (record_tracked _ (fst w) faults s Hw Hrec) as [Hw1 _].
  { intros _. exists (wa_durable a). simpl. by rewrite Hid. }
  apply m_bind_ends; [intros ? ? [= _ <-] Hr; by destruct (Hr tt)|].
  intros w2 [] Hmod. apply modify_engine_inv in Hmod as ->. cbn [fst snd].
  match goal with |- tracks (fst (_ ?w2)) => assert (Hw2 : tracks w2) end.
  { eapply (remember_tracked (with_store (fst w) faults s) _
              ((wa_durable a) <| dlw_phase := Registered |>)); [exact Hw1| |done|done].
    apply record_write_cases in Hrec as [-> _]. simpl. by rewrite Hid, lookup_insert_eq. }
  match goal with |- tracks (fst (?m _)) =>
    assert (Hm : evolves (keeps tracks) m); [|by apply Hm] end.
  evolve. unrelated.
Qed.

Lemma finish_write_tracks a p k w :
  tracks w -> attempt_ok a (fst w) -> dlw_phase (wa_durable a) <> Committed ->
  tracks (fst (finish_write a p k w)).
Proof.
  intros Hw Ha Hp. unfold finish_write.
  do 3 (apply tracks_bind; [auto with evolves|done|]; intros ? ? ? _; e_inv).
  apply tracks_bind; [auto with evolves|done|]. intros w1 [] Hver Hw1.
  apply (verify_progress_keeps_attempt a) in Hver; [|done].
  destruct (_ <=? _); [|by apply register_attempt_tracks].
  apply m_bind_ends; [intros ? ? Hrun Hr; by eapply store_write_fails|].
  intros w2 [] (s & faults & Hrec & ->)%store_write_inv.
  destruct (record_tracked _ (fst w1) faults s Hw1 Hrec) as [Hw2 Hres]; [done|].
  apply complete_committed_tracks; [done|]. simpl in *.
  rewrite <-(attempt_id a (fst w1)) by done. by apply Hres.
Qed.

Lemma apply_write_engine a w w' r : apply_write a w = (w', Ok r) -> fst w' = fst w.
Proof.
  unfold apply_write. intros Hrun. e_inv. destruct (_ <=? _) in Hrun; e_inv; done.
Qed.

Lemma apply_write_tracks a : evolves (keeps tracks) (apply_write (St := St) a).
Proof. unfold apply_write. evolve. Qed.

Lemma prepare_write_tracks write recovering :
  evolves (keeps tracks) (prepare_write (St := St) write recovering).
Proof.
  intros w Hw. unfold prepare_write.
  apply reads_bind; [apply reads_get|done|]. intros e _.
  apply reads_bind; [apply reads_check_write|done|]. intros [] [_ Hmay]%check_write_ok.
  pose proof (load_or_reserve_tracks write recovering w Hw Hmay) as Hload.
  apply m_bind_ends; [intros w' r Heq _|intros w' d Heq]; by rewrite Heq in Hload.
Qed.

Lemma resume_committed_tracks a w :
  tracks w -> attempt_ok a (fst w) -> dlw_phase (wa_durable a) = Committed ->
  tracks (fst (resume_committed a w)).
Proof.
  intros Hw Ha Hp. unfold resume_committed.
  do 2 (apply tracks_bind; [auto with evolves|done|]; intros ? ? ? _; e_inv).
  apply tracks_bind; [auto with evolves|done|]. intros w2 [] Hver Hw2.
  apply (verify_progress_keeps_attempt a) in Hver; [|done].
  apply complete_committed_tracks; [done|]. intros (d & Hd & Hd').
  unfold attempt_ok, journaled in *. congruence.
Qed.

Lemma begin_write_locked_tracks write recovering :
  evolves (keeps tracks) (begin_write_locked (St := St) write recovering).
Proof.
  intros w Hw. unfold begin_write_locked.
  apply tracks_bind; [apply prepare_write_tracks|done|]. intros w1 a Hprep Hw1.
  assert (Ha : attempt_ok a (fst w1)).
  { apply prepare_write_cases in Hprep as (_ & <- & _ & Hload).
    by apply load_or_reserve_cases in Hload as (_ & _ & Hj & _). }
  destruct (dlw_phase (wa_durable a) == Committed) eqn:Hp; guards; [by apply resume_committed_tracks|].
  apply tracks_bind; [apply apply_write_tracks|done|]. intros w2 [p k] Happ Hw2.
  apply apply_write_engine in Happ. apply finish_write_tracks; simpl; [done| |done].
  by rewrite Happ.
Qed.

End operations.
#[export] Hint Resolve progress_tracks storage_tracks provider_tracks check_aborted_tracks
  verify_local_write_progress_tracks finalize_tracks offer_to_builds_tracks
  begin_write_locked_tracks : evolves.
