(* ===== verification/EngineConfiguration.v ===== *)
(** * Configuration, access and removal in the engine ([runtime.rs])

    Installing an admitted authority happens in two steps, [prepare] and
    [commit], with the engine's fence generation in between; granting access
    likewise.  The task-local flag that marks recovery at startup is an argument
    of the operations that read it.  [recover_pending_local_writes] waits for
    quorums between its steps; its steps are [recover_local_write]. *)

From S2P Require Import Prelude Digest Types Intents Commands Validation Quorums ScaleDown ScaleUp.
From S2P Require Import ManagedConfiguration Quorum QuorumSafety Log Authority AuthorityStore Engine.
From stdpp Require Import base gmap strings list sorting relations.
From Stdlib Require Import ZArith Lia.
Local Open Scope Z_scope.

Record ManagedOperationFence := {
  mof_configuration : option ManagedReplicaConfiguration;
  mof_engine_session_id : string;
  mof_engine_generation : Z;
}.

Record ManagedConfigurationPreparation := {
  mcp_fence : ManagedOperationFence;
  mcp_configuration : ManagedReplicaConfiguration;
  mcp_host_generation : Z;
  mcp_active : nat;
}.

Record ManagedAccessPreparation := {
  map_fence : ManagedOperationFence;
  map_read : AccessStatus;
  map_write : AccessStatus;
  map_current_progress : Lsn;
  map_committed_lsn : Lsn;
}.

Record ManagedCertifiedPrefixOutcome := {
  mcpo_fence : ManagedOperationFence;
  mcpo_verified_lsn : Lsn;
  mcpo_settled_lsn : Lsn;
  mcpo_committed_lsn : Lsn;
}.

Record ManagedSwitchoverOutcome := {
  mso_fence : ManagedOperationFence;
  mso_preparation_generation : Z;
  mso_request_id : string;
  mso_source : ReplicaIdentity;
  mso_target : ReplicaIdentity;
  mso_starting_configuration_id : ConfigurationId;
  mso_starting_epoch : Epoch;
  mso_handoff_lsn : Lsn;
  mso_committed_lsn : Lsn;
}.

Definition engine_fence (e : Engine) : ManagedOperationFence :=
  {| mof_configuration := en_authority e; mof_engine_session_id := en_session_id e;
     mof_engine_generation := en_fence_generation e |}.

(** [iter().filter_map(f).collect()] for an [f] that can panic *)
Fixpoint filter_map_res {E A B} (f : A -> res E (option B)) (xs : list A) : res E (list B) :=
  match xs with
  | [] => Ok []
  | x :: xs =>
      let? y := f x in
      let? ys := filter_map_res f xs in
      Ok match y with Some y => y :: ys | None => ys end
  end.

Section configuration.
Context `{Sha256} {St : Type} `{!DurableApplication St}.
#[local] Abbreviation engine := (engine (St := St)).

(** ** Configuring the log *)

Definition configure_replicas (current : ConfigurationDescriptor)
    (previous : option ConfigurationDescriptor) : engine unit :=
  check_aborted ;!
  let! durable := load_configuration in
  let! a := m_lift (ok_or durable AuthorityNotAdmitted) in
  let! e := get_engine in
  fail_if ((mr_local_identity a != en_identity e) || (mr_current_configuration a != current)
           || (mr_previous_configuration a != previous))
    (engine_mismatch "configuration is not durably admitted") ;!
  fail_if (epoch_ltb (cd_epoch (mr_current_configuration a)) (rl_epoch (en_log e)))
    (engine_mismatch "replicator epoch cannot regress") ;!
  replicator (admit_prepared_authority a (en_current_progress e) false).

Definition configure_admitted_authority (a : ManagedReplicaConfiguration) (progress : Lsn)
    (preserve_write_access : bool) (completed : list (ReplicaIdentity * Lsn)) : engine unit :=
  replicator (admit_prepared_authority a progress preserve_write_access) ;!
  let! role := m_lift (mr_local_role a) in
  if role == Primary then
    m_for_each (fun '(i, lsn) =>
      replicator (modify_quorum (record_prepared_build_handoff_progress i lsn))) completed ;!
    let! e := get_engine in
    fail_if (negb (en_primary_attached e))
      (application_error "primary role requires IFabricPrimaryReplicator") ;!
    configure_replicas (mr_current_configuration a) (mr_previous_configuration a)
  else m_ret tt.

(** The progress of builds that a new primary may credit. *)
Definition load_completed_build_handoffs (a : ManagedReplicaConfiguration)
    : engine (list (ReplicaIdentity * Lsn)) :=
  let! role := m_lift (mr_local_role a) in
  if role != Primary then m_ret []
  else
    let! e := get_engine in
    let! completed := m_lift (filter_map_res (fun b =>
        let? lsn := completed_build_handoff_lsn (ob_progress b) a in
        Ok ((fun lsn => (ba_target (bp_authority (ob_progress b)), lsn)) <$> lsn))
        (map snd (in_key_order (en_outbound_builds e)))) in
    match mr_scale_up a with
    | None => m_ret completed
    | Some evidence =>
        let! stored := store_read (fun s =>
          Ok (as_build_progress s !! sui_build_id (evidence_intent evidence))) in
        match stored with
        | None => m_ret completed
        | Some p =>
            let! lsn := m_lift (completed_build_handoff_lsn p a) in
            m_ret match lsn with
                  | Some lsn =>
                      let target := ba_target (bp_authority p) in
                      if negb (existsb (fun c => fst c == target) completed)
                      then completed ++ [(target, lsn)] else completed
                  | None => completed
                  end
        end
    end.

(** *** The verified prefix that carries over to an authority *)

Definition current_only_fence (epoch : Epoch) (id : ConfigurationId) : AuthorityFence :=
  {| fence_epoch := epoch; fence_previous_configuration_id := None;
     fence_current_configuration_id := id |}.

Definition load_replication_progress (f : AuthorityFence) : engine (option ReplicationProgress) :=
  store_read (fun s => Ok (as_progress s !! f)).

(** A target that was built for a scale-up has the prefix of its build. *)
Definition scale_up_target_prefix (a : ManagedReplicaConfiguration) : engine (option Lsn) :=
  let! e := get_engine in
  match mr_scale_up a with
  | None => m_ret None
  | Some evidence =>
      let i := evidence_intent evidence in
      if sui_target i != en_identity e then m_ret None
      else
        let! stored := store_read (fun s => Ok (as_build_progress s !! sui_build_id i)) in
        m_ret (then_some (is_some_and (fun b =>
            bp_completed b
            && (ba_source (bp_authority b) == sui_primary i)
            && (ba_target (bp_authority b) == sui_target i)
            && (ba_current_configuration (bp_authority b) == sui_previous_configuration i)
            && (ba_replication_boundary_lsn (bp_authority b) == sui_snapshot_boundary_lsn i)
            && (bp_catch_up_boundary_lsn b == Some (sui_catch_up_boundary_lsn i))
            && (sui_catch_up_boundary_lsn i <=? bp_durable_lsn b)) stored)
          (sui_catch_up_boundary_lsn i))
  end.

(** Under the same primary, a member keeps the prefix it verified before. *)
Definition same_primary_prefix (a : ManagedReplicaConfiguration) : engine (option Lsn) :=
  let! e := get_engine in
  let current := mr_current_configuration a in
  match mr_previous_configuration a with
  | None => m_ret None
  | Some previous =>
      if (cd_primary_id previous == cd_primary_id current)
         && (match find_primary previous, find_primary current with
             | Some p, Some c => cm_identity p == cm_identity c
             | _, _ => false
             end)
         && has_member previous (en_identity e) && has_member current (en_identity e)
      then
        let! p := load_replication_progress
                    (current_only_fence (cd_epoch previous) (cd_configuration_id previous)) in
        m_ret (rp_verified_lsn <$> p)
      else m_ret None
  end.

(** A planned switchover hands over a certified prefix. *)
Definition switchover_prefix (a : ManagedReplicaConfiguration) : engine (option Lsn) :=
  match mr_switchover_handoff a with
  | None => m_ret None
  | Some h =>
      let! stored := load_replication_progress
        (current_only_fence (sh_starting_epoch h) (sh_starting_configuration_id h)) in
      let! configuration := store_read (fun s =>
        Ok (load_configuration_progress (sh_starting_epoch h) (sh_starting_configuration_id h) s)) in
      let! e := get_engine in
      let starting :=
        if en_identity e == sh_source h then en_current_progress e
        else Z.max (default 0 (rp_verified_lsn <$> stored)) (default 0 configuration) in
      let! primary := m_lift (mr_primary_identity a) in
      fail_if ((en_identity e == primary) && (starting <? sh_handoff_lsn h))
        (engine_mismatch "new switchover primary lacks the certified handoff prefix") ;!
      m_ret (Some (Z.min starting (sh_handoff_lsn h)))
  end.

(** [verified.max(lsn)] where there is an [lsn] *)
Definition raise_verified (lsn : option Lsn) (p : ReplicationProgress) : ReplicationProgress :=
  {| rp_fence := rp_fence p; rp_verified_lsn := Z.max (rp_verified_lsn p) (default (rp_verified_lsn p) lsn) |}.

Definition load_replication_progress_with_handoff (a : ManagedReplicaConfiguration)
    : engine ReplicationProgress :=
  let! stored := load_replication_progress (mr_fence a) in
  let p := default {| rp_fence := mr_fence a; rp_verified_lsn := 0 |} stored in
  let! target := scale_up_target_prefix a in
  let p := raise_verified target p in
  let! configuration :=
    (if is_none (mr_previous_configuration a)
     then store_read (fun s => Ok (load_configuration_progress
            (cd_epoch (mr_current_configuration a))
            (cd_configuration_id (mr_current_configuration a)) s))
     else m_ret None) in
  let p := raise_verified configuration p in
  let! previous := same_primary_prefix a in
  let p := raise_verified previous p in
  let! handoff := switchover_prefix a in
  let p := raise_verified handoff p in
  let! e := get_engine in
  let! built := m_lift (filter_map_res (fun b => completed_build_handoff_lsn b a)
    (List.filter (fun b => ba_target (bp_authority b) == en_identity e)
       (map snd (in_key_order (en_builds e))))) in
  let p := raise_verified (max_lsn built) p in
  fail_if (is_some_and (fun evidence =>
      let boundary := srp_boundary_lsn (sre_preparation evidence) in
      (en_identity e == sdi_primary (srp_intent (sre_preparation evidence)))
      && ((rp_verified_lsn p <? boundary) || (en_current_progress e <? boundary)))
      (mr_secondary_removal a))
    (engine_mismatch "reduced primary lacks its verified durable preparation boundary") ;!
  store_write (record_replication_progress p) ;!
  m_ret p.

(** ** Preparing and committing a configuration *)

Definition is_failover_evidence (a : ManagedReplicaConfiguration) : bool :=
  match mr_scale_up a with Some (FailoverEvidence _) => true | _ => false end.

Definition is_admission_evidence (a : ManagedReplicaConfiguration) : bool :=
  match mr_scale_up a with Some (Admission _) => true | _ => false end.

Definition configuration_regresses (a existing : ManagedReplicaConfiguration) : bool :=
  epoch_ltb (cd_epoch (mr_current_configuration a)) (cd_epoch (mr_current_configuration existing))
  || ((cd_epoch (mr_current_configuration a) == cd_epoch (mr_current_configuration existing))
      && (existing != a) && negb (mr_is_current_only_completion_of a existing)).

(** A reduction extends the installed current-only configuration, and its
    primary has prepared it. *)
Definition check_reduction (a : ManagedReplicaConfiguration) (evidence : SecondaryRemovalEvidence)
    : engine unit :=
  let! e := get_engine in
  let p := sre_preparation evidence in
  let intent := srp_intent p in
  let! existing := m_lift (ok_or (en_authority e) AuthorityNotAdmitted) in
  fail_if (((sre_preparation <$> mr_secondary_removal existing) != Some p)
           && (is_some (mr_previous_configuration existing)
               || (mr_current_configuration existing != sdi_previous_configuration intent)))
    (engine_mismatch "reduction does not extend installed current-only configuration") ;!
  fail_if ((en_identity e == sdi_primary intent)
           && is_none_or (fun c => (sdc_evidence c != evidence)
                || is_some (mr_previous_configuration a)
                || (mr_current_configuration a != sdi_current_configuration intent))
                (en_accepted_secondary_removal e)
           && ((en_prepared_secondary_removal e != Some p)
               || (en_current_progress e <? srp_boundary_lsn p)
               || is_none_or (fun r => rp_verified_lsn r <? srp_boundary_lsn p)
                    (en_replication_progress e)))
    (engine_mismatch "primary lacks exact durable preparation").

Definition validate_managed_configuration_candidate (recovering : bool)
    (a : ManagedReplicaConfiguration) : engine unit :=
  m_lift (mr_validate a) ;!
  let! e := get_engine in
  fail_if (mr_local_identity a != en_identity e)
    (engine_mismatch "configuration target differs from runtime identity") ;!
  let! retired := store_read (fun s => Ok (as_retired s)) in
  (if is_some retired then m_err Closed
   else
     let! started := store_read (fun s => Ok (as_started s)) in
     fail_if (is_some started) Closed) ;!
  fail_if (is_failover_evidence a && is_none (en_authority e) && negb recovering)
    AuthorityNotAdmitted ;!
  fail_if (is_some_and (configuration_regresses a) (en_authority e))
    (engine_mismatch "configuration changed without a newer epoch") ;!
  match mr_secondary_removal a with
  | Some evidence => if recovering then m_ret tt else check_reduction a evidence
  | None => m_ret tt
  end ;!
  fail_if (negb recovering && is_some_and (fun p =>
      ((sre_preparation <$> mr_secondary_removal a) != Some p)
      && is_none_or (fun c => sre_preparation (sdc_evidence c) != p)
           (en_accepted_secondary_removal e)) (en_prepared_secondary_removal e))
    (engine_mismatch "prepared removal may only roll forward").

(** The preparation's flag is still set. *)
Definition preparation_active (e : Engine) (token : nat) : bool :=
  bool_decide (token ∈ en_active_preparations e).

Definition prepare_replica_configuration (recovering : bool) (a : ManagedReplicaConfiguration)
    (host_generation : Z) : engine ManagedConfigurationPreparation :=
  check_aborted ;!
  let! e := get_engine in
  fail_if (is_some (en_retiring_authority e)) Closed ;!
  validate_managed_configuration_candidate recovering a ;!
  let! e := get_engine in
  fail_if (is_some_and (fun p => preparation_active e (pmc_active p)) (en_pending_configuration e))
    RtReconfigurationPending ;!
  let! preserve := m_lift (match en_authority e with
    | Some current => if current == a then Ok true
                      else preserves_same_primary_scale_up_access current a
    | None => Ok false
    end) in
  let authority_changed := en_authority e != Some a in
  let changed := authority_changed || (en_configuration_generation e != host_generation) in
  fail_if (epoch_ltb (cd_epoch (mr_current_configuration a)) (rl_epoch (en_log e)))
    (engine_mismatch "replicator epoch cannot regress") ;!
  let! progress := load_replication_progress_with_handoff a in
  let! completed := load_completed_build_handoffs a in
  (if changed then
     modify_engine bump_fence ;!
     if preserve then m_ret tt
     else
       modify_engine (fun e => e <| en_read_status := ReconfigurationPending |>
                                 <| en_write_status := ReconfigurationPending |>) ;!
       replicator fence_client_writes
   else m_ret tt) ;!
  let! e' := get_engine in
  let token := en_next_preparation e' in
  let preparation :=
    {| mcp_fence := {| mof_configuration := Some a; mof_engine_session_id := en_session_id e';
                       mof_engine_generation := en_fence_generation e' |};
       mcp_configuration := a; mcp_host_generation := host_generation; mcp_active := token |} in
  modify_engine (fun e' =>
    e' <| en_active_preparations := {[token]} ∪ en_active_preparations e' |>
       <| en_next_preparation := S token |>
       <| en_pending_configuration := Some
            {| pmc_configuration := a;
               pmc_engine_generation := mof_engine_generation (mcp_fence preparation);
               pmc_host_generation := host_generation; pmc_active := token;
               pmc_replication_progress := progress;
               pmc_current_progress := en_current_progress e;
               pmc_previous_epoch := (fun x => cd_epoch (mr_current_configuration x)) <$> en_authority e;
               pmc_prior_access := (en_read_status e, en_write_status e);
               pmc_authority_changed := authority_changed; pmc_preserve_access := preserve;
               pmc_completed_builds := completed |} |>) ;!
  m_ret preparation.

(** The default control interface's [update_epoch]. *)
Definition control_interface_update_epoch (epoch : Epoch) : engine unit :=
  let! e := get_engine in
  fail_if (negb (en_control_attached e)) NotOpen ;!
  control_update_epoch epoch.

Definition install_managed_configuration (p : PendingManagedConfiguration) : engine unit :=
  let a := pmc_configuration p in
  let changed := pmc_authority_changed p in
  let preserve := pmc_preserve_access p in
  (if changed then
     (if preserve then m_ret tt
      else modify_engine (fun e => e <| en_read_status := ReconfigurationPending |>
                                     <| en_write_status := ReconfigurationPending |>)) ;!
     modify_engine (fun e =>
       if is_none (mr_secondary_removal a)
          && is_some_and (fun r => epoch_ltb (cd_epoch (sdi_current_configuration (srp_intent r)))
                                     (cd_epoch (mr_current_configuration a)))
               (en_prepared_secondary_removal e)
       then e <| en_prepared_secondary_removal := None |> <| en_removal_in_progress := None |>
       else e) ;!
     modify_engine (fun e => e <| en_accepted_secondary_removal := None |>)
   else m_ret tt) ;!
  let! role := m_lift (mr_local_role a) in
  (if role != Primary then
     modify_engine (fun e => e <| en_write_status := ReconfigurationPending |>) ;!
     replicator fence_client_writes
   else m_ret tt) ;!
  let secondary := (role == ActiveSecondary) || (role == IdleSecondary) in
  (if (pmc_previous_epoch p != Some (cd_epoch (mr_current_configuration a))) && secondary
   then control_interface_update_epoch (cd_epoch (mr_current_configuration a)) else m_ret tt) ;!
  configure_admitted_authority a (pmc_current_progress p) preserve (pmc_completed_builds p) ;!
  replicator (modify_quorum (record_verified_local_progress
    (rp_verified_lsn (pmc_replication_progress p)))) ;!
  match mr_previous_configuration a, mr_secondary_removal a with
  | None, Some evidence =>
      let target := sdi_target (srp_intent (sre_preparation evidence)) in
      modify_engine (fun e =>
        e <| en_outbound_builds :=
               filter (fun b => ba_target (bp_authority (ob_progress b.2)) <> target)
                 (en_outbound_builds e) |>
          <| en_peer_repair_targets := delete target (en_peer_repair_targets e) |>)
  | _, _ => m_ret tt
  end ;!
  modify_engine (fun e =>
    let e := if negb changed || preserve
             then e <| en_read_status := fst (pmc_prior_access p) |>
                    <| en_write_status := snd (pmc_prior_access p) |>
             else e in
    e <| en_authority := Some a |>
      <| en_replication_progress := Some (pmc_replication_progress p) |>).

(** Installing the prepared configuration; the result is what a committed scale-up
    recovers next, outside the effect lock. *)
Definition commit_prepared (recovering : bool) (p : ManagedConfigurationPreparation)
    : engine (list DurableLocalWrite) :=
  check_aborted ;!
  let! e := get_engine in
  let pending_matches (q : PendingManagedConfiguration) :=
    preparation_active e (pmc_active q)
    && (pmc_configuration q == mcp_configuration p)
    && (pmc_engine_generation q == mof_engine_generation (mcp_fence p))
    && (pmc_host_generation q == mcp_host_generation p) in
  fail_if (negb (preparation_active e (mcp_active p))
           || (mof_engine_session_id (mcp_fence p) != en_session_id e)
           || (mof_engine_generation (mcp_fence p) != en_fence_generation e)
           || (mof_configuration (mcp_fence p) != Some (mcp_configuration p))
           || negb (is_some_and pending_matches (en_pending_configuration e)))
    OperationCancelled ;!
  let! q := m_lift (expect (en_pending_configuration e)) in
  install_managed_configuration q ;!
  modify_engine (fun e =>
    e <| en_configuration_generation := mcp_host_generation p |>
      <| en_pending_configuration := None |>
      <| en_active_preparations := en_active_preparations e ∖ {[mcp_active p]} |>) ;!
  let! e := get_engine in
  m_ret (if is_admission_evidence (mcp_configuration p) && negb recovering
         then map snd (in_key_order (en_local_writes e)) else []).

(** [Drop for ManagedConfigurationPreparation]: abandoning a preparation that is
    still active fences the engine. *)
Definition drop_preparation (p : ManagedConfigurationPreparation) (e : Engine) : Engine :=
  if preparation_active e (mcp_active p)
  then bump_fence (e <| en_active_preparations := en_active_preparations e ∖ {[mcp_active p]} |>)
  else e.

Definition commit_replica_configuration (recovering : bool) (p : ManagedConfigurationPreparation)
    : engine (list DurableLocalWrite) :=
  fun w =>
    let '(w', r) := commit_prepared recovering p w in ((drop_preparation p (fst w'), snd w'), r).

Definition synchronize_replica_configuration (host_generation : Z) : engine unit :=
  check_aborted ;!
  let! e := get_engine in
  fail_if (is_none (en_authority e) || is_some (en_pending_configuration e)) AuthorityNotAdmitted ;!
  if en_configuration_generation e != host_generation
  then modify_engine (fun e => (bump_fence e) <| en_configuration_generation := host_generation |>)
  else m_ret tt.

Definition cancel_configuration_work : engine unit :=
  check_aborted ;!
  modify_engine bump_fence ;!
  modify_engine (fun e =>
    match en_pending_configuration e with
    | Some p => e <| en_pending_configuration := None |>
                  <| en_active_preparations := en_active_preparations e ∖ {[pmc_active p]} |>
    | None => e
    end) ;!
  replicator fence_client_writes.

(** ** Access *)

(** Resuming a journaled write and offering it to the peers again. *)
Definition recover_local_write (d : DurableLocalWrite) : engine PendingWrite :=
  let! p := resume_local_write
              {| cw_operation_id := dlw_operation_id d; cw_data := dlw_data d |} in
  publish_replication p ;!
  m_ret p.

Definition validate_removal_write_grant : engine unit :=
  let! e := get_engine in
  if is_some (en_removal_in_progress e) || is_some (en_prepared_secondary_removal e)
     || is_some_and (fun a => is_some (mr_secondary_removal a)) (en_authority e)
  then
    if is_none_or (fun a => is_some (mr_previous_configuration a)) (en_authority e)
       || is_none_or (fun c =>
            is_some_and (fun intent => intent != srp_intent (sre_preparation (sdc_evidence c)))
              (en_removal_in_progress e)
            || is_some_and (fun p => p != sre_preparation (sdc_evidence c))
                 (en_prepared_secondary_removal e))
            (en_accepted_secondary_removal e)
    then m_err RtReconfigurationPending
    else
      let! complete := m_lift (catch_up_complete (rl_quorum (en_log e))) in
      fail_if (negb complete) RtReconfigurationPending
  else m_ret tt.

(** The checks before the recovery of local writes, which [prepare_access] runs
    when it opens writes: the generation it started from, and what to recover. *)
Definition start_access (write : AccessStatus) : engine (Z * list DurableLocalWrite) :=
  check_aborted ;!
  check_no_pending_configuration ;!
  let! e := get_engine in
  (if write == Granted then validate_removal_write_grant else m_ret tt) ;!
  m_ret (en_fence_generation e,
         if (write == Granted) && (en_write_status e != Granted)
         then map snd (in_key_order (en_local_writes e)) else []).

(** The checks after it. *)
Definition finish_access (generation : Z) (read write : AccessStatus)
    : engine ManagedAccessPreparation :=
  let! e := get_engine in
  fail_if ((read == Granted)
           && (negb (en_open e) || negb ((en_role e == Primary) || (en_role e == ActiveSecondary))))
    (engine_mismatch "read access requires an open Primary or Active Secondary") ;!
  (if write == Granted then
     fail_if (negb (en_open e)) NotOpen ;!
     fail_if (en_role e != Primary) RtNotPrimary ;!
     let! a := m_lift (ok_or (en_authority e) AuthorityNotAdmitted) in
     let! primary := m_lift (mr_primary_identity a) in
     fail_if (primary != en_identity e)
       (engine_mismatch "write grant target is not the admitted primary")
   else m_ret tt) ;!
  (if (read == Granted) && (en_role e == Primary) then
     let! complete := m_lift (catch_up_complete (rl_quorum (en_log e))) in
     fail_if (negb complete) RtReconfigurationPending
   else m_ret tt) ;!
  fail_if (generation != en_fence_generation e) OperationCancelled ;!
  m_ret {| map_fence := {| mof_configuration := en_authority e;
                           mof_engine_session_id := en_session_id e;
                           mof_engine_generation := generation |};
           map_read := read; map_write := write;
           map_current_progress := en_current_progress e;
           map_committed_lsn := en_committed_lsn e |}.

Definition publish_access (p : ManagedAccessPreparation) : engine unit :=
  check_aborted ;!
  let! e := get_engine in
  fail_if ((mof_engine_session_id (map_fence p) != en_session_id e)
           || (mof_engine_generation (map_fence p) != en_fence_generation e))
    OperationCancelled ;!
  fail_if ((mof_configuration (map_fence p) != en_authority e)
           || (((map_read p == Granted) || (map_write p == Granted))
               && ((map_current_progress p != en_current_progress e)
                   || (map_committed_lsn p != en_committed_lsn e))))
    OperationCancelled ;!
  (if map_write p != Granted then replicator fence_client_writes else m_ret tt) ;!
  modify_engine (fun e => e <| en_read_status := map_read p |> <| en_write_status := map_write p |>).

Definition check_fence (expected : ManagedOperationFence) : engine unit :=
  check_aborted ;!
  check_no_pending_configuration ;!
  let! e := get_engine in
  fail_if ((mof_engine_session_id expected != en_session_id e)
           || (mof_engine_generation expected != en_fence_generation e)
           || (mof_configuration expected != en_authority e)) OperationCancelled.

Definition native_fence : engine ManagedOperationFence :=
  check_aborted ;!
  check_no_pending_configuration ;!
  let! e := get_engine in
  m_ret (engine_fence e).

(** ** Certified prefixes *)

(** The primary's prefix, verified under its durable authority. *)
Definition settled_verified_lsn (durable : DurableApplicationProgress) : engine Lsn :=
  let! e := get_engine in
  match en_authority e, en_replication_progress e with
  | Some a, Some p =>
      let! primary := m_lift (mr_primary_identity a) in
      let lacks := engine_mismatch "primary activation lacks durable authority-fenced progress" in
      fail_if ((primary != en_identity e) || (rp_fence p != mr_fence a)) lacks ;!
      let! durable := load_configuration in
      fail_if (durable != Some a) lacks ;!
      let! stored := load_replication_progress (mr_fence a) in
      fail_if (stored != Some p) lacks ;!
      m_ret (rp_verified_lsn p)
  | None, None =>
      fail_if (negb ((dap_applied_lsn durable == 0) && (dap_committed_lsn durable == 0)))
        AuthorityNotAdmitted ;!
      m_ret 0
  | _, _ => m_err AuthorityNotAdmitted
  end.

(** The least LSN of an unresolved local write. *)
Definition min_lsn (lsns : list Lsn) : option Lsn :=
  match lsns with [] => None | lsn :: rest => Some (fold_left Z.min rest lsn) end.

Definition settle_primary_prefix : engine ManagedCertifiedPrefixOutcome :=
  check_aborted ;!
  let! e := get_engine in
  fail_if (negb (en_open e) || (en_role e != Primary) || (en_write_status e == Granted))
    RtReconfigurationPending ;!
  let unresolved := min_lsn (map dlw_lsn
    (List.filter (fun w => dlw_phase w != Committed) (map snd (in_key_order (en_local_writes e))))) in
  let! durable := storage durable_progress in
  let! verified := settled_verified_lsn durable in
  fail_if ((verified <? 0) || (dap_applied_lsn durable <? verified))
    (engine_mismatch "primary prefix exceeds durable application data") ;!
  let settled := Z.max (match unresolved with
                        | Some lsn => Z.min verified (i64_wrap (lsn - 1))
                        | None => verified
                        end) (dap_committed_lsn durable) in
  let! committed := storage (commit_storage settled) in
  fail_if ((dap_committed_lsn committed != settled)
           || (dap_applied_lsn committed != dap_applied_lsn durable))
    (application_error "failed to settle certified primary prefix") ;!
  replicator (restore_committed_prefix settled) ;!
  modify_engine (fun e => e <| en_committed_lsn := dap_committed_lsn committed |>) ;!
  let! e' := get_engine in
  m_ret {| mcpo_fence := {| mof_configuration := en_authority e;
                            mof_engine_session_id := en_session_id e;
                            mof_engine_generation := en_fence_generation e' |};
           mcpo_verified_lsn := Z.max verified settled; mcpo_settled_lsn := settled;
           mcpo_committed_lsn := dap_committed_lsn committed |}.

Definition authorize_failover_prefix_instruction (safe : Lsn) : engine unit :=
  let! e := get_engine in
  fail_if (is_some (en_removal_in_progress e)
           || is_some_and (fun a => is_some (mr_secondary_removal a)) (en_authority e))
    (engine_mismatch "failover prefix cannot certify a secondary removal") ;!
  fail_if (safe <? 0) (engine_mismatch "failover-safe LSN must not be negative") ;!
  let! a := m_lift (ok_or (en_authority e) AuthorityNotAdmitted) in
  let! p := m_lift (ok_or (en_replication_progress e) AuthorityNotAdmitted) in
  let! durable := storage durable_progress in
  let p := {| rp_fence := rp_fence p;
              rp_verified_lsn := Z.max (rp_verified_lsn p) (Z.min (dap_applied_lsn durable) safe) |} in
  fail_if (rp_fence p != mr_fence a)
    (engine_mismatch "failover-safe prefix belongs to another authority fence") ;!
  store_write (record_replication_progress p) ;!
  modify_engine (fun e => e <| en_replication_progress := Some p |>).

Definition certified_prefix_outcome (settled : Lsn) : engine ManagedCertifiedPrefixOutcome :=
  check_aborted ;!
  let! e := get_engine in
  m_ret {| mcpo_fence := engine_fence e;
           mcpo_verified_lsn := match en_replication_progress e with
                                | Some p => rp_verified_lsn p
                                | None => en_current_progress e
                                end;
           mcpo_settled_lsn := settled; mcpo_committed_lsn := en_committed_lsn e |}.

Definition authorize_failover_prefix (boundary : Lsn) : engine ManagedCertifiedPrefixOutcome :=
  execute_managed_operation false false (authorize_failover_prefix_instruction boundary) ;!
  certified_prefix_outcome boundary.

(** ** Planned switchover *)

Definition prepare_switchover_instruction (generation : Z) (request : string)
    (source target : ReplicaIdentity) (starting_id : ConfigurationId) (starting_epoch : Epoch)
    : engine unit :=
  let! e := get_engine in
  fail_if (is_some_and (fun p =>
      is_none_or (fun c => sre_preparation (sdc_evidence c) != p) (en_accepted_secondary_removal e))
      (en_prepared_secondary_removal e)) RtReconfigurationPending ;!
  fail_if ((generation == 0) || is_empty request)
    (engine_mismatch "planned switchover requires a request ID and positive generation") ;!
  fail_if (negb (en_open e)) NotOpen ;!
  fail_if ((en_role e != Primary)
           || negb ((en_write_status e == Granted) || (en_write_status e == ReconfigurationPending)))
    RtNotPrimary ;!
  let! a := m_lift (ok_or (en_authority e) AuthorityNotAdmitted) in
  let current := mr_current_configuration a in
  let! primary := m_lift (expect (find_primary current)) in
  fail_if ((cd_configuration_id current != starting_id) || (cd_epoch current != starting_epoch)
           || (source != en_identity e) || (cm_identity primary != source)
           || (replica_id target == cd_primary_id current)
           || negb (existsb (fun m => (cm_identity m == target) && (cm_role m != Primary))
                      (cd_members current)))
    (engine_mismatch "planned switchover preparation differs from admitted authority") ;!
  replicator fence_client_writes ;!
  modify_engine (fun e => e <| en_write_status := ReconfigurationPending |>) ;!
  let! e := get_engine in
  m_for_each (fun d => let! _ := recover_local_write d in m_ret tt)
    (map snd (in_key_order (en_local_writes e))) ;!
  replicator fence_client_writes.

Definition prepare_switchover (generation : Z) (request : string)
    (source target : ReplicaIdentity) (starting_id : ConfigurationId) (starting_epoch : Epoch)
    : engine ManagedSwitchoverOutcome :=
  check_aborted ;!
  let! e := get_engine in
  fail_if (is_some (en_retiring_authority e)) Closed ;!
  prepare_switchover_instruction generation request source target starting_id starting_epoch ;!
  let! e' := get_engine in
  m_ret {| mso_fence := engine_fence e; mso_preparation_generation := generation;
           mso_request_id := request; mso_source := source; mso_target := target;
           mso_starting_configuration_id := starting_id; mso_starting_epoch := starting_epoch;
           mso_handoff_lsn :=
             Z.max (Z.min (match en_replication_progress e' with
                           | Some p => rp_verified_lsn p
                           | None => en_current_progress e'
                           end) (en_current_progress e')) (en_committed_lsn e');
           mso_committed_lsn := en_committed_lsn e' |}.

End configuration.
