(* ===== verification/EngineRemoval.v ===== *)
(** * Secondary removal, retirement and recovery in the engine ([runtime.rs])

    The instructions of a scale-down at the primary (freezing the boundary,
    collecting witnesses, accepting the commit), at the removed replica (fencing
    and completing its retirement), the instructions that register peers and
    builds, and the restoration of the engine from its stores at startup. *)

From S2P Require Import Prelude Digest Types Intents Commands Validation Quorums ScaleDown ScaleUp.
From S2P Require Import ManagedConfiguration Quorum QuorumSafety Log Authority AuthorityStore Engine.
From S2P Require Import EngineConfiguration.
From stdpp Require Import base gmap strings list sorting relations.
From Stdlib Require Import ZArith Lia.
Local Open Scope Z_scope.

#[export] Instance SecondaryRemovalPreparation_fields : Fields SecondaryRemovalPreparation := fun p =>
  Build_SecondaryRemovalPreparation (srp_intent p) (srp_operation_id p) (srp_process_session_id p)
    (srp_report_sequence p) (srp_boundary_lsn p).

(** [SecondaryRemovalState] *)
Record RemovalState := {
  rs_fence : ManagedOperationFence;
  rs_preparation : option SecondaryRemovalPreparation;
  rs_witness : option SecondaryRemovalWitness;
  rs_accepted : option SecondaryScaleDownCleanup;
  rs_verified_lsn : option Lsn;
  rs_committed_lsn : Lsn;
}.

Section removal.
Context `{Sha256} {St : Type} `{!DurableApplication St}.
#[local] Abbreviation engine := (engine (St := St)).

(** [.map_err(|e| RuntimeError::AuthorityMismatch(e.to_string()))?] *)
Definition validated_by (v : validation) : engine unit :=
  m_lift (map_err runtime_error_of_validation v).

(** A contract check of the engine's own: [value.validate(..)?] *)
Definition contract_check (v : contract unit) : engine unit :=
  m_lift (map_err runtime_error_of_contract v).

Definition with_boundary (boundary : Lsn) (p : SecondaryRemovalPreparation)
    : SecondaryRemovalPreparation :=
  p <| srp_boundary_lsn := boundary |>.

(** Whether a preparation may follow the one the store holds. *)
Definition advances_preparation (e : Engine) (p durable : SecondaryRemovalPreparation) : bool :=
  epoch_leb (cd_epoch (sdi_current_configuration (srp_intent durable)))
    (cd_epoch (sdi_previous_configuration (srp_intent p)))
  && (srp_intent p != srp_intent durable)
  && is_some_and (fun a => is_none (mr_previous_configuration a)
       && (mr_current_configuration a == sdi_previous_configuration (srp_intent p))) (en_authority e)
  && (is_some_and (fun c => sre_preparation (sdc_evidence c) == durable)
        (en_accepted_secondary_removal e)
      || epoch_ltb (cd_epoch (sdi_current_configuration (srp_intent durable)))
           (cd_epoch (sdi_previous_configuration (srp_intent p)))
      || (en_removal_in_progress e == Some (srp_intent p))).

(** Reconcile with the durable preparation: replay it, or move past it. *)
Definition reconcile_preparation (p : SecondaryRemovalPreparation)
    : engine SecondaryRemovalPreparation :=
  let! durable := store_read (fun s => Ok (as_preparation s)) in
  match durable with
  | None => m_ret p
  | Some durable =>
      let p := with_boundary (srp_boundary_lsn durable) p in
      if p != durable then
        let! e := get_engine in
        fail_if (negb (advances_preparation e p durable))
          (engine_mismatch "conflicting persisted preparation") ;!
        modify_engine (fun e => e <| en_prepared_secondary_removal := None |>
                                  <| en_removal_in_progress := None |>) ;!
        m_ret (with_boundary 0 p)
      else
        modify_engine (fun e => e <| en_prepared_secondary_removal := Some durable |>) ;!
        m_ret p
  end.

(** Stop client writes, resolve the journaled ones, and freeze the boundary. *)
Definition freeze_boundary (p : SecondaryRemovalPreparation) : engine unit :=
  modify_engine (fun e => e <| en_removal_in_progress := Some (srp_intent p) |>
                            <| en_read_status := ReconfigurationPending |>
                            <| en_write_status := ReconfigurationPending |>) ;!
  replicator fence_client_writes ;!
  let! writes := store_read (fun s => Ok (load_local_writes s)) in
  m_for_each (fun d =>
    let! _ := begin_write_locked
                {| cw_operation_id := dlw_operation_id d; cw_data := dlw_data d |} true in
    m_ret tt) writes ;!
  replicator fence_client_writes ;!
  let! durable := storage durable_progress in
  let! e := get_engine in
  let verified := default 0 (rp_verified_lsn <$> en_replication_progress e) in
  fail_if ((verified <? dap_applied_lsn durable)
           || (dap_applied_lsn durable <? dap_committed_lsn durable))
    (engine_mismatch "primary prefix is not authority-verified") ;!
  let p := with_boundary (dap_applied_lsn durable) p in
  store_write (record_secondary_removal p) ;!
  modify_engine (fun e => e <| en_prepared_secondary_removal := Some p |>).

Definition prepare_secondary_removal_instruction (intent : SecondaryScaleDownIntent)
    (session : ProcessSessionId) (sequence : Z) : engine unit :=
  let p := {| srp_operation_id := sdi_command_operation_id intent SrPrepare (sdi_primary intent);
              srp_intent := intent; srp_process_session_id := session;
              srp_report_sequence := sequence; srp_boundary_lsn := 0 |} in
  validated_by (validate_secondary_removal_preparation p) ;!
  let! e := get_engine in
  fail_if (sdi_primary intent != en_identity e)
    (engine_mismatch "preparation belongs to another primary") ;!
  let! a := m_lift (ok_or (en_authority e) AuthorityNotAdmitted) in
  fail_if (negb (en_open e) || (en_role e != Primary)
           || ((mr_current_configuration a != sdi_previous_configuration intent)
               && is_none_or (fun x => srp_intent (sre_preparation x) != intent)
                    (mr_secondary_removal a)))
    (engine_mismatch "preparation no longer matches installed primary authority") ;!
  let! p := reconcile_preparation p in
  let! e := get_engine in
  match en_prepared_secondary_removal e with
  | Some existing =>
      fail_if (existing != with_boundary (srp_boundary_lsn existing) p)
        (engine_mismatch "conflicting removal preparation replay")
  | None =>
      fail_if (is_some_and (fun i => i != intent) (en_removal_in_progress e))
        (engine_mismatch "conflicting in-flight preparation") ;!
      let! a := m_lift (ok_or (en_authority e) AuthorityNotAdmitted) in
      fail_if (negb (en_open e) || (en_role e != Primary) || (sdi_primary intent != en_identity e)
               || is_some (mr_previous_configuration a)
               || (mr_current_configuration a != sdi_previous_configuration intent))
        (engine_mismatch "preparation requires the unchanged current-only primary") ;!
      freeze_boundary p
  end.

Definition register_peer_session_instruction (i : ReplicaIdentity) (session : ProcessSessionId)
    : engine unit :=
  replicator (quorum (register_peer_session i session)).

Definition observe_secondary_removal_witness_instruction (w : SecondaryRemovalWitness)
    : engine unit :=
  replicator (quorum (observe_secondary_removal w)).

Definition observe_secondary_removal_progress_instruction (w : SecondaryRemovalWitness)
    (c : SecondaryScaleDownCleanup) : engine unit :=
  replicator (quorum (observe_secondary_removal_progress w c)).

Definition accept_secondary_removal_commit_instruction (c : SecondaryScaleDownCleanup)
    : engine unit :=
  validated_by (validate_secondary_scale_down_cleanup c) ;!
  let! e := get_engine in
  let! a := m_lift (ok_or (en_authority e) AuthorityNotAdmitted) in
  fail_if (is_some (mr_previous_configuration a)
           || (mr_secondary_removal a != Some (sdc_evidence c))
           || (mr_current_configuration a
                 != sdi_current_configuration (srp_intent (sre_preparation (sdc_evidence c)))))
    (engine_mismatch "commit does not match installed reduction") ;!
  match en_accepted_secondary_removal e with
  | Some existing =>
      fail_if (existing != c) (engine_mismatch "conflicting reduction commit replay")
  | None =>
      replicator (quorum (validate_secondary_removal_commit c)) ;!
      m_for_each (fun w =>
        if srw_identity w != en_identity e
        then replicator (quorum (observe_committed_secondary_removal w)) else m_ret tt)
        (sdc_current_only_write_quorum c) ;!
      let! e := get_engine in
      let! complete := m_lift (catch_up_complete (rl_quorum (en_log e))) in
      fail_if (negb complete) RtReconfigurationPending ;!
      store_write (record_secondary_removal_commit c) ;!
      modify_engine (fun e => e <| en_accepted_secondary_removal := Some c |>)
  end.

Definition accept_historical_secondary_removal_commit_instruction
    (k : AcceptSecondaryRemovalCommit) : engine unit :=
  validated_by (validate_accept_secondary_removal_commit k) ;!
  let c := arc_committed k in
  let boundary := srp_boundary_lsn (sre_preparation (sdc_evidence c)) in
  let rejected := engine_mismatch
    "historical acceptance requires exact verified write-closed secondary authority" in
  let! e := get_engine in
  let! a := m_lift (ok_or (en_authority e) AuthorityNotAdmitted) in
  fail_if (negb (arc_local_recovery k) || (arc_target k != en_identity e)
           || (en_role e != ActiveSecondary) || (en_write_status e == Granted)
           || is_some (en_prepared_secondary_removal e)
           || is_some (mr_previous_configuration a)
           || (mr_current_configuration a
                 != sdi_current_configuration (srp_intent (sre_preparation (sdc_evidence c))))
           || (mr_secondary_removal a != Some (sdc_evidence c))
           || (en_current_progress e <? boundary)
           || is_none_or (fun p => (rp_fence p != mr_fence a) || (rp_verified_lsn p <? boundary))
                (en_replication_progress e)
           || is_some_and (fun x => x != c) (en_accepted_secondary_removal e)) rejected ;!
  let! durable := load_configuration in
  fail_if (durable != Some a) rejected ;!
  modify_engine (fun e => e <| en_accepted_secondary_removal := Some c |>).

Definition secondary_removal_state (w : option SecondaryRemovalWitness) : engine RemovalState :=
  check_aborted ;!
  let! e := get_engine in
  m_ret {| rs_fence := engine_fence e; rs_preparation := en_prepared_secondary_removal e;
           rs_witness := w; rs_accepted := en_accepted_secondary_removal e;
           rs_verified_lsn := rp_verified_lsn <$> en_replication_progress e;
           rs_committed_lsn := en_committed_lsn e |}.

(** ** Retirement *)

Definition fence_retirement_instruction (r : RetiredAuthority) : engine unit :=
  let! e := get_engine in
  contract_check (ra_validate r (en_identity e)) ;!
  fail_if (is_some_and (fun old => old != r) (en_retiring_authority e))
    (engine_mismatch "conflicting retirement replay") ;!
  fail_if (is_some_and (fun a =>
      (mr_current_configuration a != sdi_previous_configuration (rrr_intent (ra_report r)))
      || is_some (mr_previous_configuration a)) (en_authority e))
    (engine_mismatch "retirement differs from installed target authority") ;!
  store_write (record_retirement_started r) ;!
  modify_engine (fun e =>
    e <| en_read_status := NotPrimary |> <| en_write_status := NotPrimary |>
      <| en_authority := None |> <| en_replication_progress := None |>
      <| en_outbound_builds := ∅ |> <| en_builds := ∅ |> <| en_peer_repair_targets := ∅ |>
      <| en_retiring_authority := Some r |>) ;!
  modify_engine (fun e => e <| en_streams_closed := en_bound e || en_streams_closed e |>) ;!
  modify_engine bump_fence ;!
  replicator fence_client_writes.

Definition complete_retirement_instruction (r : RetiredAuthority) : engine unit :=
  let! e := get_engine in
  contract_check (ra_validate r (en_identity e)) ;!
  fail_if (en_open e || (en_role e != RoleNone) || (en_retiring_authority e != Some r))
    RtReconfigurationPending ;!
  let! existing := store_read (fun s => Ok (as_retired s)) in
  match existing with
  | Some x => fail_if (x != r) (engine_mismatch "conflicting durable retirement")
  | None => store_write (retire_authority r)
  end ;!
  modify_engine (fun e => e <| en_retired_authority := Some r |>).

(** ** Builds *)

Definition no_build_progress (b : BuildAuthority) : DurableBuildProgress :=
  {| bp_authority := b; bp_last_sequence := 0; bp_durable_lsn := 0; bp_completed := false;
     bp_catch_up_boundary_lsn := None |}.

Definition admit_build_authority_instruction (b : BuildAuthority) : engine unit :=
  validated_by (validate_build_authority b) ;!
  let! e := get_engine in
  fail_if ((ba_target b != en_identity e) && (ba_source b != en_identity e))
    (engine_mismatch "build authority does not address this runtime") ;!
  let! existing := store_read (fun s => Ok (load_build (ba_build_id b) s)) in
  match existing with
  | Some x => fail_if (x != b)
                (engine_mismatch "build ID is already bound to different authority")
  | None => store_write (admit_build b)
  end ;!
  let! stored := store_read (fun s => Ok (as_build_progress s !! ba_build_id b)) in
  let p := default (no_build_progress b) stored in
  fail_if (bp_authority p != b) (engine_mismatch "build progress belongs to different authority") ;!
  if ba_target b == en_identity e then
    (if ba_kind b == BuildProvisioning
     then control_interface_update_epoch (cd_epoch (ba_current_configuration b)) else m_ret tt) ;!
    modify_engine (fun e =>
      e <| en_builds := <[ba_build_id b := p]> (en_builds e) |>
        <| en_inbound_build_generations :=
             <[ba_build_id b := en_fence_generation e]> (en_inbound_build_generations e) |>)
  else m_ret tt.

Definition retire_build_instruction (id : OperationId) : engine unit :=
  modify_engine (fun e =>
    e <| en_builds := delete id (en_builds e) |>
      <| en_outbound_builds := delete id (en_outbound_builds e) |>
      <| en_cancelled_outbound_builds := en_cancelled_outbound_builds e ∖ {[id]} |>).

Definition cancel_outbound_build (id : OperationId) : engine unit :=
  modify_engine (fun e =>
    e <| en_outbound_builds := delete id (en_outbound_builds e) |>
      <| en_cancelled_outbound_builds := {[id]} ∪ en_cancelled_outbound_builds e |>).

Definition detach_outbound_build_stream (id : OperationId) : engine unit :=
  let! e := get_engine in
  let! b := m_lift (ok_or (en_outbound_builds e !! id) OperationCancelled) in
  fail_if (negb (bp_completed (ob_progress b))) RtReconfigurationPending ;!
  modify_engine (fun e => e <| en_outbound_builds :=
    <[id := b <| ob_stream := None |>]> (en_outbound_builds e) |>).

Definition remove_replica (id : ReplicaId) : engine unit :=
  require_primary ;!
  let! e := get_engine in
  fail_if (is_some_and (fun a =>
      existsb (fun m => replica_id (cm_identity m) == id)
        (cd_members (mr_current_configuration a)
         ++ default [] (cd_members <$> mr_previous_configuration a))) (en_authority e))
    (engine_mismatch "cannot remove a configured replica") ;!
  modify_engine (fun e =>
    e <| en_outbound_builds :=
           filter (fun b => replica_id (ba_target (bp_authority (ob_progress b.2))) <> id)
             (en_outbound_builds e) |>
      <| en_removed_replicas := {[id]} ∪ en_removed_replicas e |>).

(** ** Startup *)

Definition restore_authority (authority : option ManagedReplicaConfiguration) (host_generation : Z)
    : engine unit :=
  let! retired := store_read (fun s => Ok (as_retired s)) in
  (if is_some retired then m_err Closed
   else
     let! started := store_read (fun s => Ok (as_started s)) in
     fail_if (is_some started) Closed) ;!
  let! preparation := store_read (fun s => Ok (as_preparation s)) in
  modify_engine (fun e =>
    e <| en_removal_in_progress := srp_intent <$> preparation |>
      <| en_prepared_secondary_removal := preparation |>) ;!
  match authority with
  | None => m_ret tt
  | Some a =>
      modify_engine (fun e =>
        if is_some_and (fun p => epoch_ltb (cd_epoch (sdi_current_configuration (srp_intent p)))
                                   (cd_epoch (mr_current_configuration a)))
             (en_prepared_secondary_removal e)
        then e <| en_prepared_secondary_removal := None |> <| en_removal_in_progress := None |>
        else e) ;!
      let! commit := store_read (fun s => Ok (as_commit s)) in
      let accepted := opt_filter (fun c =>
        is_none (mr_previous_configuration a)
        && (mr_secondary_removal a == Some (sdc_evidence c))) commit in
      modify_engine (fun e => e <| en_accepted_secondary_removal := accepted |>) ;!
      let! prepared := prepare_replica_configuration true a host_generation in
      let! _ := commit_replica_configuration true prepared in
      match accepted with
      | None => m_ret tt
      | Some c =>
          validated_by (validate_secondary_scale_down_cleanup c) ;!
          let! e := get_engine in
          m_for_each (fun w =>
            if srw_identity w != en_identity e
            then replicator (quorum (restore_committed_secondary_removal w)) else m_ret tt)
            (sdc_current_only_write_quorum c)
      end
  end.

End removal.
