(* ===== verification/EngineReplication.v ===== *)
(** * Replication at a secondary ([runtime.rs])

    [receive_replication] checks an item against the installed authority and
    hands it to the service; [complete_replication_delivery] runs when the
    service has answered and produces the acknowledgement.  Other operations of
    the engine can run in between, so the two are separate operations, with the
    captured values in a [Delivery].  What the application's operations mean is
    the class [ApplicationLaws]. *)

From S2P Require Import Prelude Digest Types Intents Commands Validation Quorums ScaleDown ScaleUp.
From S2P Require Import ManagedConfiguration Quorum QuorumSafety Log Authority AuthorityStore Engine.
From S2P Require Import EngineWrites.
From stdpp Require Import base gmap strings list sorting relations pretty.
From Stdlib Require Import ZArith Lia.
Local Open Scope Z_scope.

(** ** What the application promises

    The documented contract of [DurableState] and of the operation streams:
    an operation is acknowledged only after it and its progress are durable, and
    [verify_applied] compares against the bytes applied at the LSN. *)

Class ApplicationLaws (St : Type) `{!DurableApplication St} := {
  contents : St -> gmap Z Bytes;
  app_progress : St -> DurableApplicationProgress;
  progress_law s s' p : durable_progress s = (s', Ok p) ->
    contents s' = contents s /\ app_progress s' = app_progress s /\ p = app_progress s;
  verify_law o s s' : verify_applied o s = (s', Ok true) ->
    contents s' = contents s /\ app_progress s' = app_progress s /\
    contents s !! op_lsn o = Some (op_data o);
  commit_law c s s' p : commit_storage c s = (s', Ok p) ->
    contents s' = contents s /\ p = app_progress s' /\
    dap_applied_lsn p = dap_applied_lsn (app_progress s);
  apply_law o s s' p : apply_operation o s = (s', Ok p) ->
    contents s' = <[op_lsn o := op_data o]> (contents s) /\ p = app_progress s';
  deliver_law lsn committed data s s' p : deliver (MetaReplication lsn committed) data s = (s', Ok p) ->
    contents s' = <[lsn := data]> (contents s) /\ p = app_progress s';
  history_law from to s s' operations o :
    get_replication_operations from to s = (s', Ok operations) -> Ok o ∈ operations ->
    contents s !! op_lsn o = Some (op_data o);
  copy_law boundary context s s' chunks :
    get_copy_state boundary context s = (s', Ok chunks) -> Forall (fun r => r <> Panic) chunks;
  (** What is durable stays durable, whatever the outcome. *)
  progress_keeps s : contents s ⊆ contents (fst (durable_progress s));
  verify_keeps o s : contents s ⊆ contents (fst (verify_applied o s));
  commit_keeps c s : contents s ⊆ contents (fst (commit_storage c s));
  chunk_keeps id sequence data s : contents s ⊆ contents (fst (verify_copy_chunk id sequence data s));
  deliver_keeps lsn committed data s :
    let s' := fst (deliver (MetaReplication lsn committed) data s) in
    contents s' = contents s \/ contents s' = <[lsn := data]> (contents s);
}.

(** What the application has committed, and that it never takes it back: only the
    provider's answer to data loss may. *)
Definition app_committed `{ApplicationLaws St} (s : St) : Lsn := dap_committed_lsn (app_progress s).

Definition retains `{ApplicationLaws St} {A} (m : M St RuntimeError A) : Prop :=
  forall s, app_committed s <= app_committed (fst (m s)).

Class CommitLaws (St : Type) `{!DurableApplication St, !ApplicationLaws St} := {
  retains_progress : retains durable_progress;
  retains_apply o : retains (apply_operation o);
  retains_verify o : retains (verify_applied o);
  retains_commit c : retains (commit_storage c);
  retains_chunk id sequence data : retains (verify_copy_chunk id sequence data);
  retains_history from to : retains (get_replication_operations from to);
  retains_copy boundary context : retains (get_copy_state boundary context);
  retains_deliver m data : retains (deliver m data);
  retains_update_epoch epoch lsn : retains (provider_update_epoch epoch lsn);
  retains_last_committed : retains provider_last_committed_lsn;
}.

(** ** Receiving an item *)

Record Delivery := {
  dv_generation : Z;
  dv_authority : ManagedReplicaConfiguration;
  dv_item : ReplicationItem;
  dv_application : DurableApplicationProgress;
  dv_enqueued : bool;
  dv_progress : ReplicationProgress;
}.

Section replication.
Context `{Sha256} {St : Type} `{!DurableApplication St}.
#[local] Abbreviation engine := (engine (St := St)).

Definition item_operation (i : ReplicationItem) : Operation :=
  {| op_lsn := item_lsn i; op_committed_lsn := item_committed_lsn i; op_data := item_data i |}.

(** [self.service_streams().await?], and the check of [OperationSender::enqueue] *)
Definition open_streams : engine unit :=
  let! e := get_engine in
  fail_if (negb (en_bound e)) NotOpen ;!
  fail_if (en_streams_closed e) Closed.

(** The item is admitted by the authority that is both installed and durable. *)
Definition check_delivery (i : ReplicationItem)
    : engine (ManagedReplicaConfiguration * ReplicationProgress) :=
  check_aborted ;!
  check_no_pending_configuration ;!
  let! e := get_engine in
  fail_if (negb (en_open e)) NotOpen ;!
  let! installed := m_lift (ok_or (en_authority e) AuthorityNotAdmitted) in
  let! p := m_lift (ok_or (en_replication_progress e) AuthorityNotAdmitted) in
  let! durable := load_configuration in
  let! a := m_lift (ok_or durable AuthorityNotAdmitted) in
  m_lift (mr_validate a) ;!
  fail_if (a != installed) (engine_mismatch "durable authority differs from runtime authority") ;!
  fail_if ((mr_local_identity a != en_identity e) || (item_receiver i != en_identity e))
    (engine_mismatch "replication target differs from the local durable identity") ;!
  let! role := m_lift (mr_local_role a) in
  fail_if ((en_role e != role)
           || negb ((en_role e == ActiveSecondary) || (en_role e == IdleSecondary)))
    (engine_mismatch "runtime role is not admitted to receive replication") ;!
  m_lift (mr_validate_envelope a i) ;!
  fail_if (rl_epoch (en_log e) != item_epoch i)
    (engine_mismatch "replication epoch is fenced by the control interface") ;!
  fail_if (rp_fence p != mr_fence a)
    (engine_mismatch "replication progress belongs to another authority") ;!
  let expected := i64_wrap (rp_verified_lsn p + 1) in
  fail_if (expected <? item_lsn i)
    (InvalidReplication ("authority verification gap: expected at most LSN " +:+ pretty expected
       +:+ ", observed " +:+ pretty (item_lsn i))) ;!
  m_ret (a, p).

Definition receive_replication (i : ReplicationItem) : engine Delivery :=
  let! e := get_engine in
  let! checked := check_delivery i in
  let! application := storage durable_progress in
  let applied := dap_applied_lsn application in
  (if item_lsn i <=? applied then m_ret tt
   else
     let expected := i64_wrap (applied + 1) in
     fail_if (item_lsn i != expected)
       (InvalidReplication ("application gap: expected LSN " +:+ pretty expected
          +:+ ", observed " +:+ pretty (item_lsn i))) ;!
     open_streams) ;!
  m_ret {| dv_generation := en_fence_generation e; dv_authority := fst checked; dv_item := i;
           dv_application := application; dv_enqueued := applied <? item_lsn i;
           dv_progress := snd checked |}.

(** The service's answer, or the check of an operation it already has. *)
Definition service_answer (d : Delivery) : engine DurableApplicationProgress :=
  let i := dv_item d in
  if dv_enqueued d then
    let! e := get_engine in
    fail_if (en_streams_closed e) Closed ;!
    let! k := m_zoom snd (fun s w => (fst w, s))
                (deliver (MetaReplication (item_lsn i) (item_committed_lsn i)) (item_data i)) in
    m_lift (validate_durable_ack (item_lsn i) (item_committed_lsn i) k) ;!
    m_ret k
  else
    let! same := storage (verify_applied (item_operation i)) in
    fail_if (negb same)
      (InvalidReplication "authority operation conflicts with durable application state") ;!
    if dap_committed_lsn (dv_application d) <? item_committed_lsn i
    then storage (commit_storage (item_committed_lsn i))
    else m_ret (dv_application d).

Definition check_unchanged (d : Delivery) : engine unit :=
  check_delivery_generation (dv_generation d) ;!
  let! e := get_engine in
  fail_if (negb (en_open e) || (en_authority e != Some (dv_authority d)))
    (engine_mismatch "replication authority changed before service acknowledgement") ;!
  fail_if (rl_epoch (en_log e) != item_epoch (dv_item d))
    (engine_mismatch "replication epoch changed before service acknowledgement") ;!
  let! durable := load_configuration in
  fail_if (durable != Some (dv_authority d))
    (engine_mismatch "durable authority changed before service acknowledgement") ;!
  check_delivery_generation (dv_generation d).

Definition complete_replication_delivery (d : Delivery) : engine ReplicationAck :=
  let i := dv_item d in
  let! k := service_answer d in
  check_unchanged d ;!
  let advances := item_lsn i == i64_wrap (rp_verified_lsn (dv_progress d) + 1) in
  let p := if advances
           then {| rp_fence := rp_fence (dv_progress d); rp_verified_lsn := item_lsn i |}
           else dv_progress d in
  (if advances then
     store_write (record_replication_progress p) ;!
     check_delivery_generation (dv_generation d)
   else m_ret tt) ;!
  check_delivery_generation (dv_generation d) ;!
  modify_engine (fun e =>
    e <| en_replication_progress := Some p |> <| en_current_progress := dap_applied_lsn k |>
      <| en_committed_lsn := Z.max (en_committed_lsn e) (dap_committed_lsn k) |>) ;!
  check_delivery_generation (dv_generation d) ;!
  let! e := get_engine in
  m_ret {| ack_sender := item_sender i; ack_receiver := en_identity e; ack_epoch := item_epoch i;
           ack_previous_configuration_id := item_previous_configuration_id i;
           ack_current_configuration_id := item_current_configuration_id i;
           ack_received_lsn := Z.max (item_lsn i) (rp_verified_lsn p);
           ack_applied_lsn := rp_verified_lsn p;
           ack_committed_lsn := Z.min (dap_committed_lsn k) (rp_verified_lsn p) |}.

(** ** Repairing a peer *)

(** Every retained operation is the next one; the last is the current one. *)
Fixpoint send_history (a : ManagedReplicaConfiguration) (peer : ReplicaIdentity)
    (history : list (result Operation)) (expected : Lsn) : engine Lsn :=
  match history with
  | [] => m_ret expected
  | r :: rest =>
      let! o := m_lift r in
      fail_if (op_lsn o != expected)
        (InvalidReplication "retained history cannot repair the peer contiguously") ;!
      let! e := get_engine in
      send_outbound (OutboundReplication
        {| item_sender := en_identity e; item_receiver := peer;
           item_epoch := cd_epoch (mr_current_configuration a);
           item_previous_configuration_id := cd_configuration_id <$> mr_previous_configuration a;
           item_current_configuration_id := cd_configuration_id (mr_current_configuration a);
           item_lsn := op_lsn o; item_committed_lsn := op_committed_lsn o;
           item_data := op_data o |}) ;!
      send_history a peer rest (i64_wrap (expected + 1))
  end.

Definition send_repair (a : ManagedReplicaConfiguration) (peer : ReplicaIdentity)
    (from current : Lsn) : engine unit :=
  let! history := storage (get_replication_operations (i64_wrap (from + 1)) current) in
  let! next := send_history a peer history (i64_wrap (from + 1)) in
  fail_if (next != i64_wrap (current + 1))
    (InvalidReplication "retained history is unavailable; full copy is required").

Definition repair_peer_from_history (peer : ReplicaIdentity) (progress : Lsn) : engine unit :=
  require_primary ;!
  let! e := get_engine in
  let! a := m_lift (ok_or (en_authority e) AuthorityNotAdmitted) in
  fail_if (negb (has_member (mr_current_configuration a) peer))
    (engine_mismatch "peer repair target is outside Current Configuration") ;!
  if en_current_progress e <=? progress
  then modify_engine (fun e =>
         e <| en_peer_repair_targets := delete peer (en_peer_repair_targets e) |>)
  else if is_some_and (fun t => en_current_progress e <=? t) (en_peer_repair_targets e !! peer)
  then m_ret tt
  else
    modify_engine (fun e => e <| en_peer_repair_targets :=
      <[peer := en_current_progress e]> (en_peer_repair_targets e) |>) ;!
    (fun w =>
       match send_repair a peer progress (en_current_progress e) w with
       | (w', Ok u) => (w', Ok u)
       | ((e', st), r) =>
           ((e' <| en_peer_repair_targets := delete peer (en_peer_repair_targets e') |>, st), r)
       end).

(** The operation id of a [replicate] call: that of an unresolved write with the
    same bytes, or a new one of this session. *)
Definition recover_replicate_write (data : Bytes) (id : Z) (e : Engine) : ClientWrite :=
  let found := List.find (fun w => String.prefix "sf:" (dlw_operation_id w) && (dlw_data w == data))
                 (map snd (in_key_order (en_local_writes e))) in
  {| cw_operation_id := match found with
                        | Some w => dlw_operation_id w
                        | None => "sf:" +:+ en_session_id e +:+ ":" +:+ pretty id
                        end;
     cw_data := data |}.

End replication.

(** ** What an acknowledgement means *)

Section acknowledgements.
Context `{Sha256} {St : Type} `{!DurableApplication St, !ApplicationLaws St}.
Implicit Types w : World (St := St).

Lemma app_inv {A} (m : M St RuntimeError A) w w' a :
  m_zoom (@snd Engine St) (fun s w => (fst w, s)) m w = (w', Ok a) ->
  m (snd w) = (snd w', Ok a) /\ fst w' = fst w.
Proof. by intros (st & Hm & ->)%m_zoom_inv. Qed.

Lemma load_configuration_inv w w' o :
  load_configuration w = (w', Ok o) ->
  exists faults, w' = (with_store (fst w) faults (en_store (fst w)), snd w).
Proof. unfold load_configuration. intros Hrun. e_inv. eauto. Qed.

Lemma check_delivery_inv i w w' a p :
  check_delivery i w = (w', Ok (a, p)) ->
  snd w' = snd w /\ en_fence_generation (fst w') = en_fence_generation (fst w) /\
  en_authority (fst w) = Some a /\ en_replication_progress (fst w) = Some p /\
  rp_fence p = mr_fence a /\ item_lsn i <= i64_wrap (rp_verified_lsn p + 1) /\
  mr_validate_envelope a i = Ok tt /\ item_receiver i = en_identity (fst w).
Proof.
  unfold check_delivery, check_aborted, check_no_pending_configuration. intros Hrun. e_inv.
  rename select (load_configuration _ = _) into Hload.
  apply load_configuration_inv in Hload as (faults & ->). guards. simpl. split_and!; congruence || lia.
Qed.

Lemma service_answer_inv d w w' k :
  service_answer d w = (w', Ok k) ->
  fst w' = fst w /\
  contents (snd w') !! item_lsn (dv_item d) = Some (item_data (dv_item d)).
Proof.
  unfold service_answer. intros Hrun. destruct (dv_enqueued d).
  - e_inv. rename select (m_zoom _ _ _ _ = _) into Hd. apply app_inv in Hd as [Hd Heq].
    apply deliver_law in Hd as [-> _]. split; [done|]. by rewrite lookup_insert_eq.
  - e_inv. destruct a; [|done]. rename select (verify_applied _ _ = _) into Hv.
    apply verify_law in Hv as (Hc & _ & Hin). simpl in Hin.
    destruct (_ <? _) in Hrun; e_inv.
    + apply commit_law in Hrun as (-> & _). by rewrite Hc.
    + by rewrite Hc.
Qed.

Lemma check_generation_inv g w w' u :
  check_delivery_generation g w = (w', Ok u) -> w' = w /\ en_fence_generation (fst w) = g.
Proof.
  unfold check_delivery_generation, check_aborted. intros Hrun. e_inv. guards. done.
Qed.

Lemma check_unchanged_inv d w w' u :
  check_unchanged d w = (w', Ok u) ->
  en_fence_generation (fst w) = dv_generation d /\ en_authority (fst w) = Some (dv_authority d) /\
  exists faults, w' = (with_store (fst w) faults (en_store (fst w)), snd w).
Proof.
  unfold check_unchanged. intros Hrun. e_inv.
  repeat match goal with
  | H : check_delivery_generation _ _ = _ |- _ => apply check_generation_inv in H as [? ?]; subst
  | H : load_configuration _ = _ |- _ => apply load_configuration_inv in H as [? ?]; subst
  end.
  guards. split_and!; [done|done|]. eauto.
Qed.

Lemma receive_replication_inv i w0 w1 d :
  receive_replication i w0 = (w1, Ok d) ->
  dv_item d = i /\ dv_generation d = en_fence_generation (fst w0) /\
  en_authority (fst w0) = Some (dv_authority d) /\
  rp_fence (dv_progress d) = mr_fence (dv_authority d) /\
  item_lsn i <= i64_wrap (rp_verified_lsn (dv_progress d) + 1) /\
  mr_validate_envelope (dv_authority d) i = Ok tt.
Proof.
  unfold receive_replication. intros Hrun. e_inv. destruct a0 as [a p].
  rename select (check_delivery i _ = _) into Hcheck.
  apply check_delivery_inv in Hcheck as (_ & _ & Ha & _ & Hfence & Hle & Henv & _). done.
Qed.

(** The progress after the delivery. *)
Definition delivered_progress (d : Delivery) : ReplicationProgress :=
  if item_lsn (dv_item d) == i64_wrap (rp_verified_lsn (dv_progress d) + 1)
  then {| rp_fence := rp_fence (dv_progress d); rp_verified_lsn := item_lsn (dv_item d) |}
  else dv_progress d.

Lemma complete_delivery_inv d w w' k :
  complete_replication_delivery d w = (w', Ok k) ->
  contents (snd w') !! item_lsn (dv_item d) = Some (item_data (dv_item d)) /\
  en_fence_generation (fst w) = dv_generation d /\
  en_authority (fst w) = Some (dv_authority d) /\ en_authority (fst w') = Some (dv_authority d) /\
  en_replication_progress (fst w') = Some (delivered_progress d) /\
  ack_applied_lsn k = rp_verified_lsn (delivered_progress d) /\
  ack_committed_lsn k <= ack_applied_lsn k /\
  (delivered_progress d <> dv_progress d ->
   as_progress (en_store (fst w')) !! rp_fence (dv_progress d) = Some (delivered_progress d)).
Proof.
  unfold complete_replication_delivery, delivered_progress. intros Hrun. e_inv.
  rename select (service_answer _ _ = _) into Hserv. apply service_answer_inv in Hserv as [Heng Hin].
  rename select (check_unchanged _ _ = _) into Hun.
  apply check_unchanged_inv in Hun as (Hgen & Ha & faults & ->). rewrite Heng in *.
  repeat match goal with
  | H : check_delivery_generation _ _ = _ |- _ => apply check_generation_inv in H as [? ?]; subst
  end.
  destruct (_ == _) eqn:E; e_inv;
  repeat match goal with
  | H : check_delivery_generation _ _ = _ |- _ => apply check_generation_inv in H as [? ?]; subst
  end; simpl in *; (split_and!; [done..|lia|]); [|done].
  intros _. rename select (record_replication_progress _ _ = _) into Hrec.
  unfold record_replication_progress in Hrec. guards. simpl. by rewrite lookup_insert_eq.
Qed.

(** [C24] A secondary acknowledges only what its application holds: the
    acknowledged prefix grows by at most one operation at a time, that operation
    is the delivered one, its bytes are in the application and the grown prefix
    is durable under the fence of an authority that is still installed, with no
    fence raised since the item was received. *)
Theorem acknowledged_delivery_is_durable i w0 w1 d w w' k :
  receive_replication i w0 = (w1, Ok d) ->
  complete_replication_delivery d w = (w', Ok k) ->
  let v := rp_verified_lsn (dv_progress d) in
  i64_min <= v < i64_max ->
  contents (snd w') !! item_lsn i = Some (item_data i) /\
  item_lsn i <= ack_applied_lsn k /\ v <= ack_applied_lsn k <= v + 1 /\
  (v < ack_applied_lsn k -> ack_applied_lsn k = item_lsn i /\
     as_progress (en_store (fst w')) !! mr_fence (dv_authority d)
     = Some {| rp_fence := mr_fence (dv_authority d); rp_verified_lsn := ack_applied_lsn k |}) /\
  ack_committed_lsn k <= ack_applied_lsn k /\
  en_authority (fst w0) = Some (dv_authority d) /\ en_authority (fst w') = Some (dv_authority d) /\
  en_fence_generation (fst w) = en_fence_generation (fst w0) /\
  mr_validate_envelope (dv_authority d) i = Ok tt.
Proof.
  intros (Hi & Hg & Ha0 & Hf & Hle & Henv)%receive_replication_inv.
  intros (Hin & Hgen & Ha & Ha' & Hp & Hk & Hc & Hstored)%complete_delivery_inv v Hv. subst i.
  rewrite i64_wrap_id in Hle by (unfold i64_range, i64_min, i64_max in *; lia).
  unfold delivered_progress in *.
  rewrite i64_wrap_id in * by (unfold i64_range, i64_min, i64_max in *; lia).
  destruct (bool_decide_reflect (item_lsn (dv_item d) = rp_verified_lsn (dv_progress d) + 1)) as [E|E];
    simpl in *.
  - split_and!; [done|lia..| |done|done|done|congruence|done]. intros _. split; [done|].
    rewrite Hk, <-Hf. apply Hstored. destruct (dv_progress d); simpl in *. intros [= ]. lia.
  - split_and!; [done|lia..| |done|done|done|congruence|done]. intros ?. lia.
Qed.

End acknowledgements.
