(* ===== verification/LogApplication.v ===== *)
(** * A concrete application

    A durable log: the smallest service that keeps the contract of
    [ApplicationLaws].  It shows that the contract can be met, and the samples of
    the engine run on it. *)

From S2P Require Import Prelude Digest Types Intents Commands Validation Quorums ScaleDown ScaleUp.
From S2P Require Import ManagedConfiguration Quorum QuorumSafety Log Authority AuthorityStore Engine.
From S2P Require Import EngineWrites EngineReplication.
From stdpp Require Import base gmap strings list sorting relations.
From Stdlib Require Import ZArith Lia Strings.Byte.
Local Open Scope Z_scope.

Record AppLog := {
  al_operations : gmap Z Bytes;
  al_applied : Lsn;
  al_committed : Lsn;
  al_chunks : gmap (string * Z) Bytes;
}.

Definition al_progress (s : AppLog) : DurableApplicationProgress :=
  {| dap_applied_lsn := al_applied s; dap_committed_lsn := al_committed s |}.

(** Apply the bytes at the LSN, and commit up to [committed]. *)
Definition al_apply (lsn committed : Lsn) (data : Bytes) (s : AppLog) : AppLog :=
  {| al_operations := <[lsn := data]> (al_operations s); al_applied := lsn;
     al_committed := Z.max (al_committed s) (Z.min committed lsn); al_chunks := al_chunks s |}.

Definition al_commit (committed : Lsn) (s : AppLog) : AppLog :=
  {| al_operations := al_operations s; al_applied := al_applied s;
     al_committed := Z.max (al_committed s) (Z.min committed (al_applied s));
     al_chunks := al_chunks s |}.

Definition al_between (from to : Lsn) (s : AppLog) : list (result Operation) :=
  omap (fun lsn => (fun data => Ok {| op_lsn := lsn; op_committed_lsn := 0; op_data := data |})
                     <$> al_operations s !! lsn) (seqZ from (to - from + 1)).

Definition al_deliver (m : OperationMetadata) (data : Bytes) (s : AppLog) : AppLog :=
  match m with
  | MetaReplication lsn committed => al_apply lsn committed data s
  | MetaCopy id sequence =>
      {| al_operations := al_operations s; al_applied := al_applied s;
         al_committed := al_committed s; al_chunks := <[(id, sequence) := data]> (al_chunks s) |}
  | MetaCopyComplete _ up_to committed =>
      {| al_operations := al_operations s; al_applied := Z.max (al_applied s) up_to;
         al_committed := Z.max (al_committed s) committed; al_chunks := al_chunks s |}
  end.

#[local] Abbreviation updates f := (fun s => let s' := f s in (s', Ok (al_progress s'))).

#[export] Instance log_application : DurableApplication AppLog := {
  durable_progress := fun s => (s, Ok (al_progress s));
  apply_operation o := updates (al_apply (op_lsn o) (op_committed_lsn o) (op_data o));
  verify_applied o := fun s => (s, Ok (bool_decide (al_operations s !! op_lsn o = Some (op_data o))));
  commit_storage c := updates (al_commit c);
  verify_copy_chunk id sequence data :=
    fun s => (s, Ok (bool_decide (al_chunks s !! (id, sequence) = Some data)));
  get_replication_operations from to := fun s => (s, Ok (al_between from to s));
  get_copy_state boundary context := fun s => (s, Ok [Ok [x2a]]);
  deliver m data := updates (al_deliver m data);
  provider_update_epoch epoch lsn := fun s => (s, Ok tt);
  provider_on_data_loss := fun s => (s, Ok false);
  provider_last_committed_lsn := fun s => (s, Ok (al_committed s));
}.

#[export] Instance log_application_laws : ApplicationLaws AppLog.
Proof.
  refine {| contents := al_operations; app_progress := al_progress |}; simpl.
  - by intros s s' p [= <- <-].
  - intros o s s' [= <- ?%bool_decide_eq_true]. done.
  - by intros c s s' p [= <- <-].
  - by intros o s s' p [= <- <-].
  - by intros lsn committed data s s' p [= <- <-].
  - intros from to s s' operations o [= <- <-] (lsn & _ & Ho)%list_elem_of_omap.
    apply fmap_Some in Ho as (data & Hdata & [= ->]). done.
  - intros boundary context s s' chunks [= <- <-]. repeat constructor. done.
  - done.
  - done.
  - done.
  - done.
  - intros lsn committed data s. by right.
Defined.

#[export] Instance log_application_commits : CommitLaws AppLog.
Proof.
  split; unfold retains, app_committed; simpl; try lia. intros [] data s; simpl; lia.
Defined.

(** A log with the given operations from LSN 1 on, the first [committed] committed. *)
Definition al_of (operations : list Bytes) (committed : Lsn) : AppLog :=
  {| al_operations := list_to_map (imap (fun n data => (Z.of_nat n + 1, data)) operations);
     al_applied := Z.of_nat (length operations); al_committed := committed; al_chunks := ∅ |}.
