(* ===== verification/EngineCopy.v ===== *)
(** * Building a replica ([runtime.rs], [replicator/copy.rs])

    The primary builds a new replica by a copy stream: the chunks of a snapshot,
    the final marker with the frozen catch-up boundary, the operations after the
    snapshot.  [prepare_copy] registers the build; the task it starts is the state
    machine [Producer], whose steps interleave with the other operations of the
    engine, in particular with the client writes, which queue their operations
    behind the stream ([offer_to_build] of [Engine.v]).  The target receives the
    items one by one ([receive_copy_item]) and its acknowledgements drive the
    durable progress of the build ([accept_copy_acknowledgement]). *)

From S2P Require Import Prelude Digest Types Intents Commands Validation Quorums ScaleDown ScaleUp.
From S2P Require Import ManagedConfiguration Quorum QuorumSafety Log Authority AuthorityStore Engine.
From S2P Require Import EngineWrites EngineConfiguration EngineRemoval EngineReplication.
From stdpp Require Import base gmap strings list sorting relations pretty.
From Stdlib Require Import ZArith Lia.
Local Open Scope Z_scope.

#[export] Instance DurableBuildProgress_fields : Fields DurableBuildProgress := fun p =>
  Build_DurableBuildProgress (bp_authority p) (bp_last_sequence p) (bp_durable_lsn p)
    (bp_completed p) (bp_catch_up_boundary_lsn p).

(** The values of a [BTreeMap] keyed by LSNs, in order. *)
Definition values {V} (m : gmap Z V) : list V := omap (fun lsn => m !! lsn) (keys m).

(** ** Items *)

Definition copy_snapshot_item (b : BuildAuthority) (sequence : Z) (data : Bytes) : CopyItem :=
  {| ci_build_id := ba_build_id b; ci_sender := ba_source b; ci_receiver := ba_target b;
     ci_epoch := cd_epoch (ba_current_configuration b);
     ci_current_configuration_id := cd_configuration_id (ba_current_configuration b);
     ci_sequence := sequence; ci_lsn := 0; ci_committed_lsn := 0;
     ci_replication_boundary_lsn := ba_replication_boundary_lsn b;
     ci_catch_up_boundary_lsn := None; ci_final_item := false; ci_snapshot_chunk := true;
     ci_data := data |}.

Definition copy_final_item (b : BuildAuthority) (sequence : Z) (catch_up : Lsn) : CopyItem :=
  {| ci_build_id := ba_build_id b; ci_sender := ba_source b; ci_receiver := ba_target b;
     ci_epoch := cd_epoch (ba_current_configuration b);
     ci_current_configuration_id := cd_configuration_id (ba_current_configuration b);
     ci_sequence := sequence; ci_lsn := ba_replication_boundary_lsn b;
     ci_committed_lsn := ba_replication_boundary_lsn b;
     ci_replication_boundary_lsn := ba_replication_boundary_lsn b;
     ci_catch_up_boundary_lsn := Some catch_up; ci_final_item := true; ci_snapshot_chunk := false;
     ci_data := [] |}.

Definition insert_copy_operation (o : Operation) (operations : gmap Z Operation)
    : result (gmap Z Operation) :=
  reject (op_lsn o <=? 0) (InvalidReplication "copy operation LSN must be positive") ;?
  match operations !! op_lsn o with
  | Some existing =>
      reject (op_data existing != op_data o)
        (InvalidReplication "copy and retained streams disagree at the same LSN") ;?
      Ok (<[op_lsn o := {| op_lsn := op_lsn existing;
                           op_committed_lsn := Z.max (op_committed_lsn existing)
                                                     (op_committed_lsn o);
                           op_data := op_data existing |}]> operations)
  | None => Ok (<[op_lsn o := o]> operations)
  end.

(** The operations of a stream that fall into the range, collected. *)
Fixpoint collect_operations (boundary highest : Lsn) (stream : list (result Operation))
    (operations : gmap Z Operation) : result (gmap Z Operation) :=
  match stream with
  | [] => Ok operations
  | r :: rest =>
      let? o := r in
      if (boundary <? op_lsn o) && (op_lsn o <=? highest)
      then let? operations := insert_copy_operation o operations in
           collect_operations boundary highest rest operations
      else collect_operations boundary highest rest operations
  end.

(** The LSNs [from..=to]. *)
Definition lsn_range (from to : Lsn) : list Lsn := seqZ from (to - from + 1).

(** ** Preparing a build *)

(** What [prepare_copy] has read when it lets go of the engine. *)
Record CopyPreparation := {
  cp_authority : BuildAuthority;
  cp_highest : Lsn;
  cp_retained : list Operation;
  cp_stream : nat;
  cp_generation : Z;
}.

Section copy.
Context `{Sha256} {St : Type} `{!DurableApplication St}.
#[local] Abbreviation engine := (engine (St := St)).

(** The build the request names, checked against the admitted authority. *)
Definition requested_build (id : OperationId) (target : ReplicaIdentity) : engine (BuildAuthority * Lsn) :=
  let! e := get_engine in
  fail_if (negb (en_open e)) NotOpen ;!
  fail_if (en_role e != Primary) RtNotPrimary ;!
  let! a := m_lift (ok_or (en_authority e) AuthorityNotAdmitted) in
  let! primary := m_lift (mr_primary_identity a) in
  fail_if (primary != en_identity e) RtNotPrimary ;!
  let! p := storage durable_progress in
  let highest := Z.max (current_progress (en_log e)) (dap_applied_lsn p) in
  let! stored := store_read (fun s => Ok (load_build id s)) in
  let! existing := m_lift (ok_or stored AuthorityNotAdmitted) in
  let boundary := ba_replication_boundary_lsn existing in
  fail_if ((highest <? boundary) || (dap_committed_lsn p <? boundary))
    (application_error "copy boundary is not durably committed by the application") ;!
  let candidate := {| ba_build_id := id; ba_kind := mr_build_kind a; ba_source := en_identity e;
                      ba_target := target; ba_current_configuration := mr_current_configuration a;
                      ba_replication_boundary_lsn := boundary |} in
  validated_by (validate_build_authority candidate) ;!
  fail_if (existing != candidate)
    (engine_mismatch "build ID is bound to different immutable authority") ;!
  m_ret (existing, highest).

Definition start_build (b : BuildAuthority) : engine nat :=
  let! stored := store_read (fun s => Ok (as_build_progress s !! ba_build_id b)) in
  let p := default (no_build_progress b) stored in
  fail_if (bp_authority p != b) (engine_mismatch "build progress belongs to different authority") ;!
  let! e := get_engine in
  fail_if (is_some (en_outbound_builds e !! ba_build_id b)) RtReconfigurationPending ;!
  let stream := length (en_copy_streams e) in
  modify_engine (fun e =>
    e <| en_copy_streams := en_copy_streams e ++ [new_stream] |>
      <| en_outbound_builds := <[ba_build_id b :=
           {| ob_progress := p; ob_final_sequence := None; ob_next_sequence := 1; ob_emitted := ∅;
              ob_pending_operations := ∅; ob_catching_up := true; ob_stream := Some stream;
              ob_generation := en_fence_generation e |}]> (en_outbound_builds e) |>) ;!
  m_ret stream.

(** The first part of [prepare_copy], under the effect lock. *)
Definition begin_prepare_copy (id : OperationId) (target : ReplicaIdentity) : engine CopyPreparation :=
  let! e := get_engine in
  let! '(b, highest) := requested_build id target in
  let! stream := start_build b in
  m_ret {| cp_authority := b; cp_highest := highest;
           cp_retained := retained_operations_from (en_log e) 1; cp_stream := stream;
           cp_generation := en_fence_generation e |}.

(** [BuildPreparationGuard]: without success, the build of this generation goes. *)
Definition drop_build (id : OperationId) (generation : Z) : engine unit :=
  modify_engine (fun e =>
    if is_some_and (fun b => ob_generation b == generation) (en_outbound_builds e !! id)
    then e <| en_outbound_builds := delete id (en_outbound_builds e) |> else e).

Definition or_drop_build {A} (id : OperationId) (generation : Z) (m : engine A) : engine A :=
  fun w =>
    match m w with
    | (w', Ok a) => (w', Ok a)
    | (w', r) => (fst (drop_build id generation w'), r)
    end.

(** The operations after the snapshot: from the application, then from the log. *)
Definition copy_operations (c : CopyPreparation) : engine (gmap Z Operation) :=
  let boundary := ba_replication_boundary_lsn (cp_authority c) in
  let! operations :=
    (if boundary <? cp_highest c then
       let! stream := storage (get_replication_operations (i64_wrap (boundary + 1)) (cp_highest c)) in
       m_lift (collect_operations boundary (cp_highest c) stream ∅)
     else m_ret ∅) in
  m_lift (collect_operations boundary (cp_highest c) (map Ok (cp_retained c)) operations).

(** The second part, under the effect lock again: nothing was fenced, no gap. *)
Definition check_prepared_copy (c : CopyPreparation) (operations : gmap Z Operation) : engine unit :=
  check_delivery_generation (cp_generation c) ;!
  let! e := get_engine in
  fail_if ((rl_epoch (en_log e) != epoch_default)
           && (rl_epoch (en_log e) != cd_epoch (ba_current_configuration (cp_authority c))))
    (engine_mismatch "build authority was fenced during preparation") ;!
  let boundary := ba_replication_boundary_lsn (cp_authority c) in
  fail_if ((boundary <? cp_highest c)
           && existsb (fun lsn => is_none (operations !! lsn))
                (lsn_range (boundary + 1) (cp_highest c)))
    (InvalidReplication "retained operations do not close the post-snapshot gap").

(** ** The task that produces the stream *)

Record ProducerTask := {
  pt_authority : BuildAuthority;
  pt_operations : gmap Z Operation;
  pt_stream : nat;
  pt_generation : Z;
}.

(** Where the task stands.  [ProduceSend] awaits the send of an item it has recorded;
    [ProduceError], its build gone, awaits the send of its error. *)
Inductive Producer :=
| ProduceSend (item : CopyItem) (next : Producer)
| ProduceSnapshot (chunks : list (result Bytes)) (sequence : Z)
| ProduceBoundary (sequence : Z)
| ProduceFinal (sequence : Z) (catch_up : Lsn)
| ProduceOperations (operations : list Operation)
| ProducePending
| ProduceDone
| ProduceError (error : RuntimeError)
| ProduceFailed.

Definition finish_prepare_copy (context : list (result Bytes)) (c : CopyPreparation)
    : engine (ProducerTask * Producer) :=
  let b := cp_authority c in
  or_drop_build (ba_build_id b) (cp_generation c) (
    let! operations := copy_operations c in
    check_prepared_copy c operations ;!
    let! chunks := provider (get_copy_state (ba_replication_boundary_lsn b) context) in
    m_ret ({| pt_authority := b; pt_operations := operations; pt_stream := cp_stream c;
              pt_generation := cp_generation c |},
           ProduceSnapshot chunks 1)).

Section task.
Variable t : ProducerTask.
#[local] Abbreviation id := (ba_build_id (pt_authority t)).

(** [cancellation.changed()]: the receiver of the stream was dropped. *)
Definition check_cancelled : engine unit :=
  let! e := get_engine in
  fail_if (negb (is_some_and cs_open (en_copy_streams e !! pt_stream t))) OperationCancelled.

Definition check_copy_producer : engine unit :=
  check_cancelled ;! check_delivery_generation (pt_generation t).

Definition send_copy_item (item : CopyItem) : engine unit :=
  send_on_stream (pt_stream t) (Ok item) OperationCancelled.

(** [state.outbound_builds.get_mut(&authority.build_id)] of this generation *)
Definition own_build : engine OutboundBuild :=
  let! e := get_engine in
  let! b := m_lift (ok_or (en_outbound_builds e !! id) OperationCancelled) in
  fail_if (ob_generation b != pt_generation t)
    (engine_mismatch "copy stream belongs to a fenced generation") ;!
  m_ret b.

Definition put_build (b : OutboundBuild) : engine unit :=
  modify_engine (fun e => e <| en_outbound_builds := <[id := b]> (en_outbound_builds e) |>).

Definition record_emitted_copy_item (item : CopyItem) : engine unit :=
  let! b := own_build in
  put_build (b <| ob_next_sequence := Z.max (ob_next_sequence b) (u64_next (ci_sequence item)) |>
               <| ob_emitted := <[ci_sequence item :=
                    {| ebi_lsn := ci_lsn item; ebi_final_item := ci_final_item item;
                       ebi_snapshot_chunk := ci_snapshot_chunk item |}]> (ob_emitted b) |>).

(** The operation is numbered, and then sent, unless the stream carries it already. *)
Definition emit_copy_operation (o : Operation) (next : Producer) : engine Producer :=
  check_delivery_generation (pt_generation t) ;!
  let! b := own_build in
  if emitted_operation b (op_lsn o) then m_ret next
  else
    let sequence := ob_next_sequence b in
    put_build (b <| ob_next_sequence := u64_next sequence |>
                 <| ob_emitted := <[sequence :=
                      {| ebi_lsn := op_lsn o; ebi_final_item := false;
                         ebi_snapshot_chunk := false |}]> (ob_emitted b) |>) ;!
    m_ret (ProduceSend (copy_operation_item (pt_authority t) sequence o) next).

(** The [while] loop of [freeze_build_catch_up_boundary]: every LSN from
    [expected] to the boundary is available.  Every round removes an LSN, so the
    number of LSNs bounds the rounds. *)
Fixpoint closes_boundary (fuel : nat) (expected : option Lsn) (boundary : Lsn) (available : gset Z)
    : bool :=
  match expected with
  | Some lsn =>
      if lsn <=? boundary then
        if decide (lsn ∈ available) then
          match fuel with
          | O => false
          | S fuel => closes_boundary fuel (i64_checked_add lsn 1) boundary (available ∖ {[lsn]})
          end
        else false
      else true
  | None => true
  end.

Definition same_build (message : string) : engine OutboundBuild :=
  let! e := get_engine in
  let! b := m_lift (ok_or (en_outbound_builds e !! id) OperationCancelled) in
  fail_if ((ob_generation b != pt_generation t) || (bp_authority (ob_progress b) != pt_authority t))
    (engine_mismatch message) ;!
  m_ret b.

(** The boundary a build freezes: the frozen one, or all that was written so far. *)
Definition catch_up_boundary (b : OutboundBuild) (e : Engine) : Lsn :=
  default (Z.max (Z.max (en_current_progress e) (ba_replication_boundary_lsn (pt_authority t)))
             (default 0 (last (keys (pt_operations t)))))
    (bp_catch_up_boundary_lsn (ob_progress b)).

Definition freeze_build_catch_up_boundary : engine Lsn :=
  check_copy_producer ;!
  let! b := same_build "catch-up boundary belongs to a different build generation" in
  let! e := get_engine in
  let boundary := catch_up_boundary b e in
  let from := ba_replication_boundary_lsn (pt_authority t) in
  let available := filter (fun lsn => from < lsn <= boundary)
                     (dom (pt_operations t) ∪ dom (ob_pending_operations b)) in
  fail_if (negb (closes_boundary (size available) (i64_checked_add from 1) boundary available))
    (InvalidReplication "post-enumeration operations do not close the catch-up boundary") ;!
  let! b := same_build "catch-up boundary belongs to a different build generation" in
  fail_if (is_some_and (fun existing => existing != boundary)
             (bp_catch_up_boundary_lsn (ob_progress b)))
    (engine_mismatch "catch-up boundary changed for an immutable build") ;!
  let p := (ob_progress b) <| bp_catch_up_boundary_lsn := Some boundary |> in
  store_write (record_build_progress p None) ;!
  check_copy_producer ;!
  let! b := same_build "build changed before catch-up boundary persistence" in
  put_build (b <| ob_progress := p |>) ;!
  m_ret boundary.

(** One step of [produce_copy_stream_inner], and the send that ends
    [produce_copy_stream]. *)
Definition producer_step (p : Producer) : engine Producer :=
  match p with
  | ProduceSend item next => send_copy_item item ;! m_ret next
  | ProduceSnapshot (chunk :: chunks) sequence =>
      check_cancelled ;!
      check_delivery_generation (pt_generation t) ;!
      let! data := m_lift chunk in
      let item := copy_snapshot_item (pt_authority t) sequence data in
      record_emitted_copy_item item ;!
      m_ret (ProduceSend item (ProduceSnapshot chunks (u64_next sequence)))
  | ProduceSnapshot [] sequence =>
      check_cancelled ;! m_ret (ProduceBoundary sequence)
  | ProduceBoundary sequence =>
      let! boundary := freeze_build_catch_up_boundary in
      m_ret (ProduceFinal sequence boundary)
  | ProduceFinal sequence boundary =>
      let item := copy_final_item (pt_authority t) sequence boundary in
      let! b := own_build in
      put_build (b <| ob_final_sequence := Some sequence |>
                   <| ob_next_sequence := u64_next sequence |>
                   <| ob_emitted := <[sequence :=
                        {| ebi_lsn := ci_lsn item; ebi_final_item := true;
                           ebi_snapshot_chunk := false |}]> (ob_emitted b) |>) ;!
      m_ret (ProduceSend item (ProduceOperations (values (pt_operations t))))
  | ProduceOperations (o :: operations) =>
      emit_copy_operation o (ProduceOperations operations)
  | ProduceOperations [] => m_ret ProducePending
  | ProducePending =>
      let! b := own_build in
      if decide (ob_pending_operations b = ∅) then
        put_build (b <| ob_catching_up := false |>) ;! m_ret ProduceDone
      else
        put_build (b <| ob_pending_operations := ∅ |>) ;!
        m_ret (ProduceOperations (values (ob_pending_operations b)))
  | ProduceDone => m_ret ProduceDone
  | ProduceError error => fun w =>
      (fst (send_on_stream (pt_stream t) (Err error) Closed w), Ok ProduceFailed)
  | ProduceFailed => m_ret ProduceFailed
  end.

(** The task waits for a free slot of its channel. *)
Definition send_waits (p : Producer) (e : Engine) : bool :=
  match p with
  | ProduceSend _ _ | ProduceError _ => is_some_and stream_waits (en_copy_streams e !! pt_stream t)
  | _ => false
  end.

(** [produce_copy_stream]: an error drops the build of this generation, then ends
    the stream. *)
Definition produce_step (p : Producer) (w : World) : World * Producer :=
  if send_waits p (fst w) then (w, p)
  else
    match producer_step p w with
    | (w', Ok p') => (w', p')
    | (w', Err error) => (fst (drop_build id (pt_generation t) w'), ProduceError error)
    | (w', Panic) => (w', ProduceFailed)
    end.

End task.

(** ** Acknowledgements of the target *)

Definition check_copy_acknowledgement (k : CopyAck) (b : OutboundBuild) : result unit :=
  let a := bp_authority (ob_progress b) in
  reject ((ca_sender k != ba_source a) || (ca_receiver k != ba_target a)
          || (ca_epoch k != cd_epoch (ba_current_configuration a))
          || (ca_current_configuration_id k != cd_configuration_id (ba_current_configuration a))
          || (ca_replication_boundary_lsn k != ba_replication_boundary_lsn a))
    (engine_mismatch "copy acknowledgement does not match the active build") ;?
  reject ((ca_final_item k != is_some (ca_catch_up_boundary_lsn k))
          || (ca_catch_up_boundary_lsn k
              != (if ca_final_item k then bp_catch_up_boundary_lsn (ob_progress b) else None)))
    (engine_mismatch "copy acknowledgement has different catch-up authority") ;?
  let? emitted := ok_or (ob_emitted b !! ca_sequence k)
                    (InvalidReplication "copy acknowledgement does not match an emitted item") in
  reject ((ca_final_item k != ebi_final_item emitted)
          || (ca_snapshot_chunk k != ebi_snapshot_chunk emitted)
          || (ca_final_item k != (ob_final_sequence b == Some (ca_sequence k))))
    (InvalidReplication "copy acknowledgement does not match an emitted item") ;?
  let highest := map_fold (fun _ i highest =>
                   Some (match highest with Some h => Z.max h (ebi_lsn i) | None => ebi_lsn i end))
                   None (ob_emitted b) in
  reject ((negb (ca_final_item k) && (ca_durable_lsn k <? ebi_lsn emitted))
          || (default 0 highest <? ca_durable_lsn k))
    (InvalidReplication "copy acknowledgement exceeds emitted durable progress").

Definition acknowledged_progress (k : CopyAck) (p : DurableBuildProgress) : DurableBuildProgress :=
  p <| bp_last_sequence := Z.max (bp_last_sequence p) (ca_sequence k) |>
    <| bp_durable_lsn := Z.max (bp_durable_lsn p) (ca_durable_lsn k) |>
    <| bp_completed := bp_completed p || ca_final_item k |>.

Definition accept_copy_acknowledgement (k : CopyAck) : engine unit :=
  let! e := get_engine in
  let generation := en_fence_generation e in
  let! b := m_lift (ok_or (en_outbound_builds e !! ca_build_id k) AuthorityNotAdmitted) in
  fail_if (ob_generation b != generation)
    (engine_mismatch "build acknowledgement belongs to a fenced generation") ;!
  fail_if ((rl_epoch (en_log e) != epoch_default)
           && (rl_epoch (en_log e)
               != cd_epoch (ba_current_configuration (bp_authority (ob_progress b)))))
    (engine_mismatch "build acknowledgement belongs to a fenced epoch") ;!
  m_lift (check_copy_acknowledgement k b) ;!
  let p := acknowledged_progress k (ob_progress b) in
  store_write (record_build_progress p None) ;!
  check_delivery_generation generation ;!
  let! e := get_engine in
  let! current := m_lift (ok_or (en_outbound_builds e !! ca_build_id k) AuthorityNotAdmitted) in
  fail_if (bp_authority (ob_progress current) != bp_authority p)
    (engine_mismatch "build authority changed before progress persistence") ;!
  modify_engine (fun e => e <| en_outbound_builds :=
    <[ca_build_id k := current <| ob_progress := p |>]> (en_outbound_builds e) |>).

(** ** Receiving a copy *)

(** An operation handed to the service, with its answer. *)
Definition service_deliver (m : OperationMetadata) (data : Bytes) : engine DurableApplicationProgress :=
  open_streams ;! m_zoom snd (fun s w => (fst w, s)) (deliver m data).

Definition copied_operation (i : CopyItem) : Operation :=
  {| op_lsn := ci_lsn i; op_committed_lsn := ci_committed_lsn i; op_data := ci_data i |}.

(** The item is admitted by the build that is both installed and durable. *)
Definition check_copy_item (i : CopyItem) : engine DurableBuildProgress :=
  let! e := get_engine in
  check_aborted ;!
  fail_if (negb (en_open e)) NotOpen ;!
  fail_if (en_role e != IdleSecondary) (engine_mismatch "copy target must be an Idle Secondary") ;!
  let! p := m_lift (ok_or (en_builds e !! ci_build_id i) AuthorityNotAdmitted) in
  let! generation := m_lift (ok_or (en_inbound_build_generations e !! ci_build_id i)
                               AuthorityNotAdmitted) in
  fail_if (generation != en_fence_generation e)
    (engine_mismatch "copy item belongs to a fenced build generation") ;!
  let! stored := store_read (fun s => Ok (load_build (ci_build_id i) s)) in
  let! a := m_lift (ok_or stored AuthorityNotAdmitted) in
  fail_if (a != bp_authority p)
    (engine_mismatch "durable build authority differs from runtime authority") ;!
  validated_by (validate_build_authority a) ;!
  contract_check (validate_build_envelope a i) ;!
  fail_if ((rl_epoch (en_log e) != epoch_default) && (rl_epoch (en_log e) != ci_epoch i))
    (engine_mismatch "copy item belongs to a fenced epoch") ;!
  let operation := negb (ci_snapshot_chunk i) && negb (ci_final_item i) in
  fail_if ((bp_last_sequence p <? ci_sequence i)
           && ((negb (bp_completed p) && operation) || (bp_completed p && negb operation)))
    (InvalidReplication "copy item kind does not match the current build phase") ;!
  fail_if (u64_next (bp_last_sequence p) <? ci_sequence i) (InvalidReplication "copy sequence gap") ;!
  m_ret p.

(** An item that was received before, whose contents must be the same. *)
Definition duplicate_copy_item (i : CopyItem) (p : DurableBuildProgress) : engine Lsn :=
  if ci_snapshot_chunk i then
    let! same := storage (verify_copy_chunk (ci_build_id i) (ci_sequence i) (ci_data i)) in
    fail_if (negb same)
      (InvalidReplication "duplicate snapshot chunk has conflicting durable contents") ;!
    m_ret 0
  else if ci_final_item i then
    fail_if (negb (bp_completed p))
      (InvalidReplication "duplicate final copy marker preceded completion") ;!
    fail_if (bp_catch_up_boundary_lsn p != ci_catch_up_boundary_lsn i)
      (engine_mismatch "duplicate final marker changed the catch-up boundary") ;!
    m_ret (ci_replication_boundary_lsn i)
  else
    let! same := storage (verify_applied (copied_operation i)) in
    fail_if (negb same)
      (InvalidReplication "duplicate copy item has conflicting durable contents") ;!
    m_ret (bp_durable_lsn p).

(** Make the new progress of the build durable, then visible. *)
Definition record_copy_progress (generation : Z) (id : OperationId) (p : DurableBuildProgress)
    (k : option DurableApplicationProgress) : engine unit :=
  check_delivery_generation generation ;!
  store_write (record_build_progress p None) ;!
  check_delivery_generation generation ;!
  modify_engine (fun e =>
    let e := e <| en_builds := <[id := p]> (en_builds e) |> in
    match k with
    | Some k =>
        e <| en_current_progress := Z.max (en_current_progress e) (dap_applied_lsn k) |>
          <| en_committed_lsn := Z.max (en_committed_lsn e) (dap_committed_lsn k) |>
    | None => e
    end).

Definition receive_snapshot_chunk (generation : Z) (i : CopyItem) (p : DurableBuildProgress)
    : engine Lsn :=
  service_deliver (MetaCopy (ci_build_id i) (ci_sequence i)) (ci_data i) ;!
  record_copy_progress generation (ci_build_id i)
    (p <| bp_last_sequence := ci_sequence i |> <| bp_completed := false |>) None ;!
  m_ret (bp_durable_lsn p).

Definition receive_final_item (generation : Z) (i : CopyItem) (p : DurableBuildProgress)
    : engine Lsn :=
  let boundary := ci_replication_boundary_lsn i in
  let! catch_up := m_lift (ok_or (ci_catch_up_boundary_lsn i)
                     (engine_mismatch "final copy marker omitted the catch-up boundary")) in
  fail_if (is_some_and (fun existing => existing != catch_up) (bp_catch_up_boundary_lsn p))
    (engine_mismatch "final copy marker changed the catch-up boundary") ;!
  let! k := service_deliver (MetaCopyComplete (ci_build_id i) boundary (ci_committed_lsn i)) [] in
  fail_if ((dap_applied_lsn k <? boundary) || (dap_committed_lsn k <? ci_committed_lsn i)
           || (dap_applied_lsn k <? dap_committed_lsn k))
    (application_error "application lost the durable copy boundary") ;!
  record_copy_progress generation (ci_build_id i)
    {| bp_authority := bp_authority p; bp_last_sequence := ci_sequence i;
       bp_durable_lsn := boundary; bp_completed := true;
       bp_catch_up_boundary_lsn := ci_catch_up_boundary_lsn i |} (Some k) ;!
  m_ret boundary.

(** The service's answer to an operation after the snapshot, or the check of an
    operation the application already has. *)
Definition apply_copied_operation (i : CopyItem) : engine DurableApplicationProgress :=
  let! application := storage durable_progress in
  if ci_lsn i <=? dap_applied_lsn application then
    let! same := storage (verify_applied (copied_operation i)) in
    fail_if (negb same)
      (InvalidReplication "copy item conflicts with durable application state") ;!
    m_ret application
  else
    let expected := i64_wrap (dap_applied_lsn application + 1) in
    fail_if (expected != ci_lsn i)
      (InvalidReplication ("copy application gap: expected LSN " +:+ pretty expected
         +:+ ", observed " +:+ pretty (ci_lsn i))) ;!
    let! k := service_deliver (MetaReplication (ci_lsn i) (ci_committed_lsn i)) (ci_data i) in
    m_lift (validate_durable_ack (ci_lsn i) (ci_committed_lsn i) k) ;!
    m_ret k.

Definition receive_copied_operation (generation : Z) (i : CopyItem) (p : DurableBuildProgress)
    : engine Lsn :=
  fail_if (negb (bp_completed p))
    (InvalidReplication "live build replication arrived before snapshot completion") ;!
  fail_if (is_none (bp_catch_up_boundary_lsn p))
    (engine_mismatch "live build replication lacks a frozen catch-up boundary") ;!
  let expected := i64_wrap (bp_durable_lsn p + 1) in
  fail_if (ci_lsn i != expected)
    (InvalidReplication ("copy LSN gap: expected " +:+ pretty expected
       +:+ ", observed " +:+ pretty (ci_lsn i))) ;!
  let! k := apply_copied_operation i in
  record_copy_progress generation (ci_build_id i)
    (p <| bp_last_sequence := ci_sequence i |> <| bp_durable_lsn := ci_lsn i |>) (Some k) ;!
  m_ret (ci_lsn i).

Definition receive_new_item (generation : Z) (i : CopyItem) (p : DurableBuildProgress) : engine Lsn :=
  let expected := u64_next (bp_last_sequence p) in
  fail_if (ci_sequence i != expected)
    (InvalidReplication ("copy sequence gap: expected " +:+ pretty expected
       +:+ ", observed " +:+ pretty (ci_sequence i))) ;!
  if ci_snapshot_chunk i then receive_snapshot_chunk generation i p
  else if ci_final_item i then receive_final_item generation i p
  else receive_copied_operation generation i p.

Definition receive_copy_item (i : CopyItem) : engine CopyAck :=
  let! e := get_engine in
  let generation := en_fence_generation e in
  let! p := check_copy_item i in
  let! durable := (if ci_sequence i <=? bp_last_sequence p then duplicate_copy_item i p
                   else receive_new_item generation i p) in
  check_delivery_generation generation ;!
  m_ret {| ca_build_id := ci_build_id i; ca_sender := ci_sender i; ca_receiver := ci_receiver i;
           ca_epoch := ci_epoch i; ca_current_configuration_id := ci_current_configuration_id i;
           ca_sequence := ci_sequence i; ca_durable_lsn := durable;
           ca_replication_boundary_lsn := ci_replication_boundary_lsn i;
           ca_catch_up_boundary_lsn := ci_catch_up_boundary_lsn i;
           ca_final_item := ci_final_item i; ca_snapshot_chunk := ci_snapshot_chunk i |}.

(** ** Waiting

    [wait_for_build] and [wait_for_quorum] capture what they wait under, then check
    on every change of the engine whether the wait is over, off, or goes on. *)

Definition start_wait_for_build (replica : ReplicaIdentity) (id : OperationId)
    : engine (Z * option AuthorityFence) :=
  require_primary ;!
  let! e := get_engine in
  fail_if (replica == en_identity e) (InvalidReplication "cannot build the local replica") ;!
  modify_engine (fun e =>
    e <| en_removed_replicas := en_removed_replicas e ∖ {[replica_id replica]} |>
      <| en_cancelled_outbound_builds := en_cancelled_outbound_builds e ∖ {[id]} |>) ;!
  m_ret (en_fence_generation e, mr_fence <$> en_authority e).

(** The build that ends the wait: completed, with the catch-up boundary durable at
    the target. *)
Definition build_ready (replica : ReplicaIdentity) (id : OperationId) (generation : Z) (e : Engine)
    (b : OutboundBuild) : bool :=
  let p := ob_progress b in
  (ba_build_id (bp_authority p) == id) && (ba_target (bp_authority p) == replica)
  && (ob_generation b == generation) && bp_completed p
  && is_some_and (fun boundary => boundary <=? bp_durable_lsn p) (bp_catch_up_boundary_lsn p)
  && is_none_or (fun a => ba_current_configuration (bp_authority p) == mr_current_configuration a)
       (en_authority e).

Definition poll_wait_for_build (replica : ReplicaIdentity) (id : OperationId) (generation : Z)
    (fence : option AuthorityFence) : engine bool :=
  require_primary ;!
  let! e := get_engine in
  fail_if (en_fence_generation e != generation)
    (engine_mismatch "epoch changed during replica build") ;!
  fail_if (bool_decide (replica_id replica ∈ en_removed_replicas e))
    (ReplicaRemoved (replica_id replica)) ;!
  fail_if (bool_decide (id ∈ en_cancelled_outbound_builds e)) OperationCancelled ;!
  fail_if ((mr_fence <$> en_authority e) != fence)
    (engine_mismatch "authority changed during replica build") ;!
  m_ret (existsb (build_ready replica id generation e) (map snd (map_to_list (en_outbound_builds e)))).

Inductive ReplicaSetQuorumMode := WriteQuorum | AllReplicas.

Definition start_wait_for_quorum : engine (Z * AuthorityFence * Lsn) :=
  require_primary ;!
  let! e := get_engine in
  let! a := m_lift (ok_or (en_authority e) AuthorityNotAdmitted) in
  m_ret (en_fence_generation e, mr_fence a, current_progress (en_log e)).

Definition poll_wait_for_quorum (mode : ReplicaSetQuorumMode) (generation : Z) (fence : AuthorityFence)
    (boundary : Lsn) : engine bool :=
  require_primary ;!
  let! e := get_engine in
  fail_if (en_fence_generation e != generation) OperationCancelled ;!
  fail_if ((mr_fence <$> en_authority e) != Some fence)
    (engine_mismatch "authority changed during catch-up wait") ;!
  fail_if (rl_epoch (en_log e) != fence_epoch fence)
    (engine_mismatch "epoch changed during catch-up wait") ;!
  match mode with
  | WriteQuorum => m_lift (catch_up_complete (rl_quorum (en_log e)))
  | AllReplicas => m_ret (all_caught_up (rl_quorum (en_log e)) boundary)
  end.

End copy.

(** ** Runs of the task's operations *)

Section task_runs.
Context `{Sha256} {St : Type} `{!DurableApplication St}.
Variable t : ProducerTask.
#[local] Abbreviation b := (pt_authority t).
#[local] Abbreviation id := (ba_build_id (pt_authority t)).
Implicit Types w : World (St := St).

Lemma own_build_inv w w' ob :
  own_build t w = (w', Ok ob) ->
  w' = w /\ en_outbound_builds (fst w) !! id = Some ob /\ ob_generation ob = pt_generation t.
Proof. unfold own_build. intros Hrun. e_inv. guards. done. Qed.

Lemma same_build_inv message w w' ob :
  same_build t message w = (w', Ok ob) ->
  w' = w /\ en_outbound_builds (fst w) !! id = Some ob /\ ob_generation ob = pt_generation t /\
  bp_authority (ob_progress ob) = b.
Proof. unfold same_build. intros Hrun. e_inv. guards. done. Qed.

Lemma put_build_inv ob w w' u :
  put_build t ob w = (w', Ok u) ->
  w' = ((fst w) <| en_outbound_builds := <[id := ob]> (en_outbound_builds (fst w)) |>, snd w).
Proof. unfold put_build. by intros ->%modify_engine_inv. Qed.

Lemma send_inv n item error w w' u :
  send_on_stream n item error w = (w', Ok u) ->
  exists s, en_copy_streams (fst w) !! n = Some s /\
    w' = ((fst w) <| en_copy_streams :=
            <[n := push_item item (if stream_waits s then take_item s else s)]>
              (en_copy_streams (fst w)) |>, snd w).
Proof. unfold send_on_stream. intros Hrun. e_inv. eauto. Qed.

Lemma check_cancelled_inv w w' u : check_cancelled t w = (w', Ok u) -> w' = w.
Proof. unfold check_cancelled. intros Hrun. by e_inv. Qed.

Lemma producer_check_inv w w' u : check_copy_producer t w = (w', Ok u) -> w' = w.
Proof.
  unfold check_copy_producer. intros Hrun. e_inv.
  rename select (check_cancelled _ _ = _) into Hc. apply check_cancelled_inv in Hc as ->.
  by apply check_generation_inv in Hrun as [-> _].
Qed.

End task_runs.

Ltac task_inv := e_inv;
  repeat match goal with
  | H : check_cancelled _ _ = _ |- _ => apply check_cancelled_inv in H as ->
  | H : check_copy_producer _ _ = _ |- _ => apply producer_check_inv in H as ->
  | H : check_delivery_generation _ _ = _ |- _ => apply check_generation_inv in H as [-> _]
  | H : own_build _ _ = _ |- _ => apply own_build_inv in H as (-> & ? & ?)
  | H : same_build _ _ _ = _ |- _ => apply same_build_inv in H as (-> & ? & ? & ?)
  | H : put_build _ _ _ = _ |- _ => apply put_build_inv in H as ->
  | H : send_copy_item _ _ _ = _ |- _ => apply send_inv in H as (? & ? & ->)
  end; cbn [fst snd] in *.
