(* ===== verification/EngineSteps.v ===== *)
(** * The engine as a state machine

    Every operation of the engine, the host's transactions on the stores they
    share, crashes and restarts, as one step relation, and the invariants of its
    runs: the journal has at most one unresolved write and the open engine knows
    it; what the stores recorded stays recorded; and a client is told that its
    write succeeded only after the application has committed it. *)

From S2P Require Import Prelude Digest Types Intents Commands Validation Quorums ScaleDown ScaleUp.
From S2P Require Import ManagedConfiguration Quorum QuorumSafety Log LogAnswers Authority AuthorityStore.
From S2P Require Import Engine EngineWrites EngineConfiguration EngineRemoval EngineReplication EngineCopy.
From stdpp Require Import base gmap strings list sorting relations.
From Stdlib Require Import ZArith Lia.
Local Open Scope Z_scope.

(** ** How an operation changes the world *)

Section worlds.
Context `{Sha256} {St : Type} `{!DurableApplication St, !ApplicationLaws St, !CommitLaws St}.
Implicit Types w : World (St := St).

#[local] Abbreviation tracker_of w := (rl_quorum (en_log (fst w))).
#[local] Abbreviation answers_of w := (sent (qt_channels (tracker_of w))).

(** The application has committed whatever the log counts as committed, and every
    write a client was told about. *)
Record covered w : Prop := {
  cv_log : log_ok (en_log (fst w));
  cv_nonnegative : 0 <= app_committed (snd w);
  cv_committed : qt_committed_lsn (tracker_of w) <= app_committed (snd w);
  cv_answers : forall ch lsn, (ch, Ok lsn) ∈ answers_of w -> lsn <= app_committed (snd w);
}.

(** While a build catches up, the operations that wait for its stream are bounded. *)
Definition modest (ob : OutboundBuild) : Prop :=
  ob_catching_up ob = true -> (size (ob_pending_operations ob) <= MAX_BUILD_PENDING_OPERATIONS)%nat.
Definition bounded (builds : gmap string OutboundBuild) : Prop := map_Forall (fun _ => modest) builds.

Record progresses w w' : Prop := {
  pg_identity : en_identity (fst w') = en_identity (fst w);
  pg_store : remembers [] (en_store (fst w)) (en_store (fst w'));
  pg_covered : covered w -> covered w' /\ answers_of w `prefix_of` answers_of w';
  pg_committed : app_committed (snd w) <= app_committed (snd w');
  pg_builds : bounded (en_outbound_builds (fst w)) -> bounded (en_outbound_builds (fst w'));
}.

#[export] Instance progresses_preorder : PreOrder progresses.
Proof.
  split.
  - intros w. split; [done|done|done|lia|done].
  - intros w1 w2 w3 [Hi1 Hs1 Hc1 Ha1 Hb1] [Hi2 Hs2 Hc2 Ha2 Hb2].
    split; [congruence|by etrans| |lia|auto].
    intros Hw1. destruct (Hc1 Hw1) as [Hw2 Hp1]. destruct (Hc2 Hw2) as [Hw3 Hp2].
    split; [done|by etrans].
Qed.

(** Changes of the engine outside the stores and the log. *)
Definition aside (e e' : Engine) : Prop :=
  en_identity e' = en_identity e /\ en_store e' = en_store e /\ en_log e' = en_log e /\
  (bounded (en_outbound_builds e) -> bounded (en_outbound_builds e')).

Lemma aside_progresses e e' st : aside e e' -> progresses (e, st) (e', st).
Proof.
  intros (Hi & Hs & Hl & Hb). split; simpl; [done|by rewrite Hs| |lia|done].
  intros [Ho Hn Hc Ha]. split; [split|]; simpl in *; by rewrite ?Hl.
Qed.

Lemma modify_progresses f : (forall e, aside e (f e)) -> evolves progresses (modify_engine (St := St) f).
Proof. intros Hf [e st]. apply aside_progresses, Hf. Qed.

Lemma get_engine_progresses : evolves progresses (get_engine (St := St)).
Proof. intros w. done. Qed.
Lemma fail_if_progresses b err : evolves progresses (fail_if (St := St) b err).
Proof. intros w. done. Qed.

(** The log may answer up to what the application has committed. *)
Lemma replicator_at {A} (m : log A) w :
  orderly (app_committed (snd w)) (en_log (fst w)) (fst (m (en_log (fst w)))) ->
  progresses w (fst (replicator m w)).
Proof.
  intros Hm. destruct (replicator m w) as [w' r] eqn:E. apply replicator_inv in E as (l & Hl & ->).
  rewrite Hl in Hm. split; simpl; [done|done| |lia|done]. intros [Ho Hn Hc Ha].
  destruct (Hm Ho) as [Hl' (answers & Hs & Hw)]. destruct (Hw Hc) as [Hc' Hans]. simpl in *.
  split; [split; simpl; [done|done|done|]|by eexists].
  intros ch lsn. rewrite Hs. intros [Hin|Hin]%elem_of_app; eauto.
Qed.

Lemma replicator_progresses {A} (m : log A) :
  (forall c, evolves (orderly c) m) -> evolves progresses (replicator (St := St) m).
Proof. intros Hm w. apply replicator_at, Hm. Qed.

Lemma transaction_progresses {A} (f : AuthorityStore -> contract (AuthorityStore * A)) :
  (forall s s' a, f s = Ok (s', a) -> remembers [] s s') ->
  evolves progresses (transaction (St := St) f).
Proof.
  intros Hf w. destruct (transaction_cases f w) as [(s & a & faults & Hok & ->)|(r & faults & _ & ->)].
  - apply Hf in Hok. split; simpl; [done|done| |lia|done]. intros [Ho Hn Hc Ha]. by split; [split|].
  - destruct w as [e st]. by apply aside_progresses.
Qed.

Lemma store_write_progresses f :
  (forall s s', f s = Ok s' -> remembers [] s s') -> evolves progresses (store_write (St := St) f).
Proof. intros Hf. apply transaction_progresses. intros s s' [] Hok. ok_inv. by apply Hf. Qed.

Lemma store_read_progresses {A} (f : AuthorityStore -> contract A) :
  evolves progresses (store_read (St := St) f).
Proof. apply transaction_progresses. intros s s' a Hok. by ok_inv. Qed.

Lemma app_progresses {A} (m : M St RuntimeError A) :
  retains m -> evolves progresses (m_zoom (@snd Engine St) (fun s w => (fst w, s)) m).
Proof.
  intros Hm [e st]. specialize (Hm st). unfold m_zoom. simpl. destruct (m st) as [st' r]. simpl in *.
  split; simpl; [done|done| |done|done]. intros [Ho Hn Hc Ha]. simpl in *.
  split; [split; simpl; [done|lia|lia|]|done]. intros ch lsn Hin%Ha. lia.
Qed.

(** The transactions of the engine. *)
Ltac remember_row lem := apply store_write_progresses; intros s s'; apply lem.
Lemma write_row_progresses d : evolves progresses (store_write (St := St) (record_local_write d)).
Proof. remember_row write_remembers. Qed.
Lemma progress_row_progresses p :
  evolves progresses (store_write (St := St) (record_replication_progress p)).
Proof. remember_row progress_remembers. Qed.
Lemma admit_build_progresses b : evolves progresses (store_write (St := St) (admit_build b)).
Proof. remember_row admit_build_remembers. Qed.
Lemma build_row_progresses p x :
  evolves progresses (store_write (St := St) (record_build_progress p x)).
Proof. remember_row build_progress_remembers. Qed.
Lemma preparation_row_progresses p :
  evolves progresses (store_write (St := St) (record_secondary_removal p)).
Proof. remember_row preparation_remembers. Qed.
Lemma started_row_progresses r :
  evolves progresses (store_write (St := St) (record_retirement_started r)).
Proof. remember_row started_remembers. Qed.
Lemma commit_row_progresses c :
  evolves progresses (store_write (St := St) (record_secondary_removal_commit c)).
Proof. remember_row commit_remembers. Qed.
Lemma retired_row_progresses r : evolves progresses (store_write (St := St) (retire_authority r)).
Proof. remember_row retire_remembers. Qed.

(** Builds that go, and a build that starts. *)
Lemma bounded_empty : bounded ∅.
Proof. apply map_Forall_empty. Qed.
Lemma bounded_delete id builds : bounded builds -> bounded (delete id builds).
Proof. apply map_Forall_delete. Qed.
Lemma bounded_filter P `{!forall x, Decision (P x)} builds :
  bounded builds -> bounded (filter P builds).
Proof. intros Hb id ob [Hob _]%map_lookup_filter_Some. by apply (Hb id). Qed.
Lemma bounded_start id ob builds :
  ob_pending_operations ob = ∅ -> bounded builds -> bounded (<[id := ob]> builds).
Proof.
  intros Hp Hb. apply map_Forall_insert_2; [|done]. intros _. rewrite Hp, map_size_empty. lia.
Qed.

End worlds.
#[export] Hint Resolve get_engine_progresses fail_if_progresses replicator_progresses
  store_read_progresses app_progresses : evolves.
#[export] Hint Resolve retains_progress retains_apply retains_verify retains_commit retains_chunk
  retains_history retains_copy retains_deliver retains_update_epoch retains_last_committed : evolves.
#[export] Hint Resolve write_row_progresses progress_row_progresses admit_build_progresses
  build_row_progresses preparation_row_progresses started_row_progresses commit_row_progresses
  retired_row_progresses : evolves.

(** Changes of the engine outside the stores, the log and the record of writes. *)
Ltac trim := first [done|apply bounded_delete|apply bounded_filter|by apply bounded_start|intros _; apply bounded_empty].
Ltac set_aside := split_and!; [reflexivity|reflexivity|reflexivity|trim].
Ltac apart := apply modify_progresses; intros ?; set_aside.

(** ** The write path *)

Section write_path.
Context `{Sha256} {St : Type} `{!DurableApplication St, !ApplicationLaws St, !CommitLaws St}.
Implicit Types w : World (St := St).

(** A chain whose first operation progresses. *)
Lemma progresses_bind_at {A B} (m : engine (St := St) A) (k : A -> engine B) w :
  progresses w (fst (m w)) ->
  (forall w' a, m w = (w', Ok a) -> progresses w' (fst (k a w'))) ->
  progresses w (fst (m_bind m k w)).
Proof.
  intros Hw' Hk. apply m_bind_ends.
  - intros w' r Heq _. by rewrite Heq in Hw'.
  - intros w' a Heq. rewrite Heq in Hw'. etrans; [exact Hw'|by apply Hk].
Qed.

Lemma progresses_bind {A B} (m : engine (St := St) A) (k : A -> engine B) w :
  evolves progresses m ->
  (forall w' a, m w = (w', Ok a) -> progresses w' (fst (k a w'))) ->
  progresses w (fst (m_bind m k w)).
Proof. intros Hm. apply progresses_bind_at, Hm. Qed.

Lemma storage_progresses {A} (m : M St RuntimeError A) : retains m -> evolves progresses (storage m).
Proof. intros Hm. unfold storage. evolve. Qed.
Lemma provider_progresses {A} (m : M St RuntimeError A) : retains m -> evolves progresses (provider m).
Proof. intros Hm. unfold provider. evolve. Qed.
Hint Resolve storage_progresses provider_progresses : evolves.

Lemma check_aborted_progresses : evolves progresses (check_aborted (St := St)).
Proof. unfold check_aborted. evolve. Qed.
Hint Resolve check_aborted_progresses : evolves.

Lemma verify_progress_progresses lsn :
  evolves progresses (verify_local_write_progress (St := St) lsn).
Proof. unfold verify_local_write_progress. evolve. apart. Qed.
Hint Resolve verify_progress_progresses : evolves.

(** Transactions do not touch the application. *)
Lemma record_all_app ws w w' r :
  m_for_each (fun v => store_write (record_local_write v)) ws w = (w', r) -> snd w' = snd w.
Proof.
  revert w. induction ws as [|v ws IH]; intros w; simpl; [by intros [= <- _]|].
  unfold m_bind. destruct (store_write_cases (record_local_write v) w)
    as [(s & faults & _ & ->)|(r' & faults & Hr' & ->)]; [by intros ->%IH|].
  destruct r' as [u| |]; [by destruct (Hr' u)|..]; by intros [= <- _].
Qed.

(** Committing: the application first, the journal, then the clients. *)
Lemma finalize_progresses : evolves progresses (finalize_ready_commit_locked (St := St)).
Proof.
  intros w. unfold finalize_ready_commit_locked.
  apply progresses_bind; [auto with evolves|]. intros w1 e Hget. e_inv.
  destruct (ready_commit_lsn _) as [ready|]; [|done].
  apply progresses_bind; [auto with evolves|]. intros w1 p Hcommit.
  apply storage_inv in Hcommit as (st & Hcommit & ->). apply commit_law in Hcommit as (_ & -> & _).
  apply progresses_bind; [auto with evolves|]. intros w2 [] Hguard. e_inv. guards.
  apply progresses_bind; [auto with evolves|]. intros w2 e Hget. e_inv.
  apply progresses_bind.
  { apply evolves_for_each; [apply _|]. auto with evolves. }
  intros w2 [] Hrun. apply record_all_app in Hrun as Hst. cbn [fst snd] in *.
  apply progresses_bind_at.
  - apply replicator_at, log_finalize_commit_orderly. unfold app_committed. by rewrite Hst.
  - intros w3 [] _. apply (evolves_bind progresses); [apart|]. intros []. apart.
Qed.
Hint Resolve finalize_progresses : evolves.

(** Answering a write that is committed. *)
Lemma complete_committed_progresses a k w :
  dlw_lsn (wa_durable a) <= app_committed (snd w) ->
  progresses w (fst (complete_committed a k w)).
Proof.
  intros Hlsn. unfold complete_committed.
  apply progresses_bind_at; [by apply replicator_at, restore_committed_write_orderly|].
  intros w1 [] (l & _ & ->)%replicator_inv.
  apply progresses_bind; [apart|]. intros w2 [] ->%modify_engine_inv.
  apply progresses_bind_at; [by apply replicator_at, answered_orderly|done].
Qed.

Lemma verify_progress_app lsn w w' u :
  verify_local_write_progress lsn w = (w', Ok u) -> snd w' = snd w.
Proof.
  unfold verify_local_write_progress. intros Hrun. e_inv. destruct (_ == _) in Hrun; by e_inv.
Qed.

Lemma resume_committed_progresses a : evolves progresses (resume_committed (St := St) a).
Proof.
  intros w. unfold resume_committed.
  apply progresses_bind; [auto with evolves|]. intros w1 p (st & Hp & ->)%storage_inv.
  apply progress_law in Hp as (_ & Hst & ->).
  apply progresses_bind; [auto with evolves|]. intros w2 [] Hack.
  unfold validate_durable_ack in Hack. e_inv. guards.
  apply progresses_bind; [auto with evolves|]. intros w2 [] Hver%verify_progress_app.
  apply complete_committed_progresses. rewrite Hver. unfold app_committed. simpl. by rewrite Hst.
Qed.
Hint Resolve resume_committed_progresses : evolves.

Lemma load_or_reserve_progresses write recovering :
  evolves progresses (load_or_reserve (St := St) write recovering).
Proof.
  unfold load_or_reserve. evolve. destruct a as [d|]; evolve. apart.
Qed.
Lemma check_write_progresses write recovering :
  evolves progresses (check_write (St := St) write recovering).
Proof. unfold check_write. evolve. destruct (List.find _ _); auto with evolves typeclass_instances. Qed.
Hint Resolve load_or_reserve_progresses check_write_progresses : evolves.

Lemma prepare_write_progresses write recovering :
  evolves progresses (prepare_write (St := St) write recovering).
Proof. unfold prepare_write. evolve. Qed.
Lemma apply_write_progresses a : evolves progresses (apply_write (St := St) a).
Proof. unfold apply_write. evolve. Qed.

Lemma apply_write_committed a w w' p k :
  apply_write a w = (w', Ok (p, k)) -> k = app_progress (snd w').
Proof.
  unfold apply_write. intros Hrun. e_inv. apply progress_law in Hm as (_ & Hst & ->).
  destruct (_ <=? _) in Hrun; e_inv.
  - guards. subst. rename select (verify_applied _ _ = _) into Hsame.
    apply verify_law in Hsame as (_ & Hv & _). simpl. congruence.
  - rename select (apply_operation _ _ = _) into Ha. by apply apply_law in Ha as [_ ->].
Qed.

Lemma send_on_stream_progresses stream item error :
  evolves progresses (send_on_stream (St := St) stream item error).
Proof. unfold send_on_stream. evolve. apart. Qed.
Hint Resolve send_on_stream_progresses : evolves.

(** *** Back pressure: a write is refused while the backlog of a build is full. *)

Definition roomy (builds : gmap string OutboundBuild) : Prop :=
  map_Forall (fun _ ob => ob_catching_up ob = true ->
    (size (ob_pending_operations ob) < MAX_BUILD_PENDING_OPERATIONS)%nat) builds.

Lemma offer_modest o ob :
  modest ob ->
  (ob_catching_up ob = true -> (size (ob_pending_operations ob) < MAX_BUILD_PENDING_OPERATIONS)%nat) ->
  modest (fst (offer_to_build o ob)).
Proof.
  intros Hob Hroom. unfold offer_to_build. destruct (_ || _); [done|].
  destruct (_ || _); [|done]. intros Hc. simpl in *. rewrite map_size_insert.
  specialize (Hroom Hc). destruct (_ !! _); simpl; lia.
Qed.

Lemma offer_to_builds_progresses o w :
  roomy (en_outbound_builds (fst w)) -> progresses w (fst (offer_to_builds o w)).
Proof.
  intros Hroom. unfold offer_to_builds, record_offer. apply progresses_bind_at.
  2: intros w1 items _; apply (evolves_for_each progresses); intros [stream item];
    auto with evolves typeclass_instances.
  apply progresses_bind; [auto with evolves|]. intros w1 e Hget. e_inv.
  apply progresses_bind_at.
  - destruct w as [e st]. apply aside_progresses. split_and!; [done..|]. simpl. intros Hb id ob.
    rewrite !lookup_fmap. intros (x & (ob0 & Hob0 & ->)%fmap_Some & ->)%fmap_Some.
    apply offer_modest; [by apply (Hb id)|by apply (Hroom id)].
  - done.
Qed.

(** The rest of a write leaves the builds alone. *)
Definition same_builds w w' : Prop := en_outbound_builds (fst w') = en_outbound_builds (fst w).
#[export] Instance same_builds_preorder : PreOrder same_builds.
Proof. split; [by intros w|]. intros w1 w2 w3. unfold same_builds. congruence. Qed.

Lemma get_same : evolves same_builds (get_engine (St := St)).
Proof. intros w. done. Qed.
Lemma fail_same b err : evolves same_builds (fail_if (St := St) b err).
Proof. intros w. done. Qed.
Lemma modify_same f :
  (forall e, en_outbound_builds (f e) = en_outbound_builds e) ->
  evolves same_builds (modify_engine (St := St) f).
Proof. intros Hf [e st]. apply Hf. Qed.
Lemma replicator_same {A} (m : log A) : evolves same_builds (replicator (St := St) m).
Proof.
  intros w. destruct (replicator m w) as [w' r] eqn:E. by apply replicator_inv in E as (l & _ & ->).
Qed.
Lemma transaction_same {A} (f : AuthorityStore -> contract (AuthorityStore * A)) :
  evolves same_builds (transaction (St := St) f).
Proof.
  intros w. by destruct (transaction_cases f w) as [(s & a & faults & _ & ->)|(r & faults & _ & ->)].
Qed.
Lemma store_write_same f : evolves same_builds (store_write (St := St) f).
Proof. apply transaction_same. Qed.
Lemma store_read_same {A} (f : AuthorityStore -> contract A) :
  evolves same_builds (store_read (St := St) f).
Proof. apply transaction_same. Qed.
Lemma app_same {A} (m : M St RuntimeError A) :
  evolves same_builds (m_zoom (@snd Engine St) (fun s w => (fst w, s)) m).
Proof. intros w. unfold m_zoom, same_builds. by destruct (m (snd w)). Qed.
Hint Resolve get_same fail_same modify_same replicator_same store_write_same store_read_same app_same
  : evolves.

Lemma storage_same {A} (m : M St RuntimeError A) : evolves same_builds (storage (St := St) m).
Proof. unfold storage. evolve. Qed.
Hint Resolve storage_same : evolves.
Lemma verify_progress_same lsn : evolves same_builds (verify_local_write_progress (St := St) lsn).
Proof. unfold verify_local_write_progress. evolve. Qed.
Lemma finalize_same : evolves same_builds (finalize_ready_commit_locked (St := St)).
Proof.
  unfold finalize_ready_commit_locked. evolve. destruct (ready_commit_lsn _); evolve.
Qed.
Lemma load_or_reserve_same write recovering :
  evolves same_builds (load_or_reserve (St := St) write recovering).
Proof. unfold load_or_reserve. evolve. destruct a as [d|]; evolve. Qed.
Lemma apply_write_same a : evolves same_builds (apply_write (St := St) a).
Proof. unfold apply_write. evolve. Qed.
Hint Resolve verify_progress_same finalize_same load_or_reserve_same apply_write_same : evolves.

Lemma same_builds_run {A} (m : engine (St := St) A) w w' r :
  evolves same_builds m -> m w = (w', r) -> en_outbound_builds (fst w') = en_outbound_builds (fst w).
Proof. intros Hm Hrun. specialize (Hm w). by rewrite Hrun in Hm. Qed.

Lemma check_write_roomy write recovering w w' u :
  check_write write recovering w = (w', Ok u) ->
  roomy (en_outbound_builds (fst w)) /\ w' = w.
Proof.
  unfold check_write. intros Hrun. e_inv.
  rename select (check_aborted _ = _) into Ha. unfold check_aborted in Ha. e_inv.
  destruct (List.find _ _) in Hrun; e_inv. split; [|done]. intros id ob Hob Hc.
  rename select (existsb _ _ = false) into Hfull. apply Nat.nle_gt. intros Hle.
  apply not_true_iff_false in Hfull. apply Hfull, existsb_exists. exists (id, ob).
  split; [by apply list_elem_of_In, elem_of_map_to_list|]. rewrite Hc. by apply Nat.leb_le.
Qed.

Lemma prepare_write_roomy write recovering w w' a :
  prepare_write write recovering w = (w', Ok a) -> roomy (en_outbound_builds (fst w')).
Proof.
  unfold prepare_write. intros Hrun. e_inv.
  rename select (check_write _ _ _ = _) into Hc. apply check_write_roomy in Hc as [Hroom ->].
  rename select (load_or_reserve _ _ _ = _) into Hl.
  by rewrite (same_builds_run _ _ _ _ (load_or_reserve_same _ _) Hl).
Qed.

Lemma register_attempt_progresses a k w :
  roomy (en_outbound_builds (fst w)) -> progresses w (fst (register_write_attempt a k w)).
Proof.
  intros Hroom. unfold register_write_attempt.
  apply progresses_bind; [auto with evolves|]. intros w1 [] Hw1.
  apply (same_builds_run _ _ _ _ (store_write_same _)) in Hw1.
  apply progresses_bind; [apart|]. intros w2 [] ->%modify_engine_inv.
  apply progresses_bind; [evolve|]. intros w3 [] Hw3.
  apply same_builds_run in Hw3; [|evolve].
  apply progresses_bind; [auto with evolves|]. intros w4 prepared Hw4.
  apply (same_builds_run _ _ _ _ (replicator_same _)) in Hw4.
  apply progresses_bind; [auto with evolves|]. intros w5 [] Hw5.
  apply (same_builds_run _ _ _ _ finalize_same) in Hw5.
  apply progresses_bind; [auto with evolves|]. intros w6 e Hget. e_inv.
  apply progresses_bind; [auto with evolves|]. intros w6 [] Hguard. e_inv.
  apply progresses_bind; [apart|]. intros w6 [] ->%modify_engine_inv.
  apply progresses_bind_at; [|done]. apply offer_to_builds_progresses. simpl in *.
  by rewrite Hw5, Hw4, Hw3, Hw1.
Qed.

Lemma finish_write_progresses a p k w :
  roomy (en_outbound_builds (fst w)) -> dap_committed_lsn k <= app_committed (snd w) ->
  progresses w (fst (finish_write a p k w)).
Proof.
  intros Hroom Hk. unfold finish_write.
  apply progresses_bind; [auto with evolves|]. intros w1 e Hget. e_inv.
  do 2 (apply progresses_bind; [auto with evolves|]; intros ? [] ?; e_inv).
  apply progresses_bind; [auto with evolves|]. intros w1 [] Hrun.
  pose proof (same_builds_run _ _ _ _ (verify_progress_same _) Hrun) as Hb.
  apply verify_progress_app in Hrun as Hver.
  destruct (_ <=? _) eqn:E; [|apply register_attempt_progresses; by rewrite Hb]. guards.
  apply progresses_bind; [auto with evolves|]. intros w2 [] (s & faults & _ & ->)%store_write_inv.
  apply complete_committed_progresses. simpl. rewrite Hver. lia.
Qed.

Lemma begin_write_locked_progresses write recovering :
  evolves progresses (begin_write_locked (St := St) write recovering).
Proof.
  intros w. unfold begin_write_locked.
  apply progresses_bind; [apply prepare_write_progresses|]. intros w1 a Hroom%prepare_write_roomy.
  destruct (_ == _); [apply resume_committed_progresses|].
  apply progresses_bind; [apply apply_write_progresses|]. intros w2 [p k] Hrun.
  apply (same_builds_run _ _ _ _ (apply_write_same _)) in Hrun as Hb.
  apply apply_write_committed in Hrun as ->. apply finish_write_progresses; [by rewrite Hb|done].
Qed.

End write_path.
#[export] Hint Resolve get_same fail_same modify_same replicator_same store_write_same store_read_same
  app_same : evolves.
#[export] Hint Resolve storage_progresses provider_progresses check_aborted_progresses
  verify_progress_progresses finalize_progresses send_on_stream_progresses begin_write_locked_progresses : evolves.

(** ** The other operations *)

(** An operation keeps the unresolved writes tracked and lets the world progress. *)
Definition advances `{Sha256, ApplicationLaws St} (w w' : World (St := St)) : Prop :=
  keeps tracks w w' /\ progresses w w'.
#[export] Instance advances_preorder `{Sha256, ApplicationLaws St} : PreOrder (advances (St := St)).
Proof. split; [by intros w|]. intros w1 w2 w3 [] []. split; by etrans. Qed.

Lemma advances_of `{Sha256, ApplicationLaws St} {A} (m : engine (St := St) A) :
  evolves (keeps tracks) m -> evolves progresses m -> evolves advances m.
Proof. intros Ht Hp w. split; [apply Ht|apply Hp]. Qed.
#[export] Hint Resolve advances_of : evolves.

Lemma advances_progresses `{Sha256, ApplicationLaws St} {A} (m : engine (St := St) A) :
  evolves advances m -> evolves progresses m.
Proof. intros Hm w. apply Hm. Qed.
Lemma advances_tracks `{Sha256, ApplicationLaws St} {A} (m : engine (St := St) A) :
  evolves advances m -> evolves (keeps tracks) m.
Proof. intros Hm w. apply Hm. Qed.

Section operations.
Context `{Sha256} {St : Type} `{!DurableApplication St, !ApplicationLaws St, !CommitLaws St}.
Implicit Types w : World (St := St).

(** Changes outside the stores, the log and the record of writes, that do not
    open the engine. *)
Definition neutral (e e' : Engine) : Prop := untracked e e' /\ aside e e'.
Lemma modify_advances f : (forall e, neutral e (f e)) -> evolves advances (modify_engine (St := St) f).
Proof.
  intros Hf. apply advances_of; [apply modify_tracks|apply modify_progresses]; intros e; apply Hf.
Qed.

(** Go through the binds, branches and loops of an operation. *)
Ltac neutral := apply modify_advances; intros ?; repeat case_match; (split; [by repeat split|set_aside]).
Ltac run :=
  repeat match goal with
  | |- evolves _ (m_bind _ _) => apply evolves_bind; [apply _| |intros ?]
  | |- evolves _ (if _ then _ else _) => apply evolves_if; intros ?
  | |- evolves _ (match ?x with _ => _ end) => destruct x
  | |- evolves _ (m_for_each _ _) => apply evolves_for_each; [apply _|intros ?]
  end;
  auto with evolves typeclass_instances; try neutral.

Lemma load_configuration_advances : evolves advances (load_configuration (St := St)).
Proof. unfold load_configuration. auto with evolves. Qed.
Lemma no_pending_advances : evolves advances (check_no_pending_configuration (St := St)).
Proof. unfold check_no_pending_configuration. evolve. Qed.
Lemma check_delivery_generation_advances g : evolves advances (check_delivery_generation (St := St) g).
Proof. unfold check_delivery_generation. evolve. Qed.
Lemma check_aborted_advances : evolves advances (check_aborted (St := St)).
Proof. auto with evolves. Qed.
Hint Resolve load_configuration_advances no_pending_advances check_delivery_generation_advances
  check_aborted_advances : evolves.
Lemma require_primary_advances : evolves advances (require_primary (St := St)).
Proof. unfold require_primary. evolve. Qed.
Hint Resolve require_primary_advances : evolves.
Lemma same_authority_advances message : evolves advances (same_durable_authority (St := St) message).
Proof. unfold same_durable_authority. evolve. Qed.
Hint Resolve same_authority_advances : evolves.

(** *** Control *)

Lemma attach_interfaces_advances primary : evolves advances (attach_interfaces (St := St) primary).
Proof. unfold attach_interfaces. run. Qed.
Lemma install_provider_advances : evolves advances (install_provider (St := St)).
Proof. unfold install_provider. run. Qed.
Lemma control_open_advances committed : evolves advances (control_open (St := St) committed).
Proof. unfold control_open. run. Qed.
Lemma control_change_role_advances epoch role :
  evolves advances (control_change_role (St := St) epoch role).
Proof. unfold control_change_role. run. Qed.
Lemma control_update_epoch_advances epoch : evolves advances (control_update_epoch (St := St) epoch).
Proof. unfold control_update_epoch. run. Qed.
Lemma control_close_advances : evolves advances (control_close (St := St)).
Proof. unfold control_close. run. Qed.
Lemma fence_writes_advances : evolves advances (fence_writes (St := St)).
Proof. unfold fence_writes. run. Qed.
Hint Resolve control_update_epoch_advances : evolves.

(** Opening reads the unresolved writes back from the journal. *)
Definition opened (e : Engine) : Engine :=
  e <| en_open := true |> <| en_local_writes :=
    list_to_map (map (fun d => (dlw_operation_id d, d)) (load_local_writes (en_store e))) |>.

Lemma opened_tracks e : writes_ok e -> writes_ok (opened e).
Proof.
  intros [Hok Ht Hr Hs]. split; simpl; [done| | |done].
  - intros _ id (d & Hd & Hp). apply not_eq_None_Some. rewrite <-not_elem_of_list_to_map.
    intros Hn. apply Hn. rewrite <-list_fmap_compose. apply list_elem_of_fmap.
    exists d. pose proof (ok_writes _ Hok _ _ Hd) as Hid. split; [done|].
    apply elem_of_load_local_writes; [done|]. by rewrite Hid.
  - intros id v (d & [= -> ->] & Hd)%elem_of_list_to_map_2%list_elem_of_fmap.
    apply elem_of_load_local_writes in Hd as [Hd _]; [|done]. split; [done|]. exists d.
    split; [done|]. by repeat split.
Qed.

Lemma complete_open_advances address : evolves advances (complete_open (St := St) address).
Proof.
  apply advances_of.
  - intros w Hw. unfold complete_open.
    apply tracks_bind; [auto with evolves|done|]. intros w1 e _ Hw1.
    apply tracks_bind; [run|done|]. intros w2 p _ Hw2.
    apply tracks_bind; [auto with evolves|done|].
    intros w3 writes ([= <-] & faults & ->)%store_read_inv Hw3. simpl in *.
    eapply untracked_ok; [|apply (opened_tracks _ Hw3)]. by repeat split.
  - unfold complete_open. run. apart.
Qed.

(** *** Writes and acknowledgements *)

Lemma begin_write_locked_advances write recovering :
  evolves advances (begin_write_locked (St := St) write recovering).
Proof. auto with evolves. Qed.
Hint Resolve begin_write_locked_advances : evolves.

Lemma begin_write_advances write : evolves advances (begin_write (St := St) write).
Proof. unfold begin_write. run. Qed.
Lemma resume_local_write_advances write : evolves advances (resume_local_write (St := St) write).
Proof. unfold resume_local_write. run. Qed.
Lemma accept_acknowledgement_advances k : evolves advances (accept_acknowledgement (St := St) k).
Proof. unfold accept_acknowledgement. run. Qed.
Lemma observe_ack_advances k session :
  evolves advances (observe_replication_ack_instruction (St := St) k session).
Proof. unfold observe_replication_ack_instruction. run. Qed.
Lemma control_progress_advances : evolves advances (control_progress (St := St)).
Proof. unfold control_progress. run. Qed.
Hint Resolve resume_local_write_advances control_progress_advances : evolves.
Lemma refresh_advances : evolves advances (refresh_application_progress_instruction (St := St)).
Proof. unfold refresh_application_progress_instruction. run. Qed.
Lemma send_outbound_advances o : evolves advances (send_outbound (St := St) o).
Proof. unfold send_outbound. run. Qed.
Hint Resolve send_outbound_advances : evolves.
Lemma publish_replication_advances p : evolves advances (publish_replication (St := St) p).
Proof. unfold publish_replication. run. Qed.
Hint Resolve publish_replication_advances : evolves.
Lemma recover_local_write_advances d : evolves advances (recover_local_write (St := St) d).
Proof. unfold recover_local_write. run. Qed.
Hint Resolve recover_local_write_advances : evolves.
Lemma managed_advances {A} closed retiring (m : engine (St := St) A) :
  evolves advances m -> evolves advances (execute_managed_operation closed retiring m).
Proof. intros Hm. unfold execute_managed_operation. run. Qed.
Hint Resolve managed_advances : evolves.

(** *** Configurations *)

Lemma configure_replicas_advances current previous :
  evolves advances (configure_replicas (St := St) current previous).
Proof. unfold configure_replicas. run. Qed.
Hint Resolve configure_replicas_advances : evolves.
Lemma configure_admitted_advances a p preserve completed :
  evolves advances (configure_admitted_authority (St := St) a p preserve completed).
Proof. unfold configure_admitted_authority. run. Qed.
Lemma completed_handoffs_advances a : evolves advances (load_completed_build_handoffs (St := St) a).
Proof. unfold load_completed_build_handoffs. run. Qed.
Lemma load_progress_advances f : evolves advances (load_replication_progress (St := St) f).
Proof. unfold load_replication_progress. auto with evolves. Qed.
Hint Resolve configure_admitted_advances completed_handoffs_advances load_progress_advances : evolves.
Lemma progress_with_handoff_advances a :
  evolves advances (load_replication_progress_with_handoff (St := St) a).
Proof.
  unfold load_replication_progress_with_handoff, scale_up_target_prefix, same_primary_prefix,
    switchover_prefix. run.
Qed.
Lemma validate_candidate_advances recovering a :
  evolves advances (validate_managed_configuration_candidate (St := St) recovering a).
Proof. unfold validate_managed_configuration_candidate, check_reduction. run. Qed.
Hint Resolve progress_with_handoff_advances validate_candidate_advances : evolves.
Lemma prepare_configuration_advances recovering a host_generation :
  evolves advances (prepare_replica_configuration (St := St) recovering a host_generation).
Proof. unfold prepare_replica_configuration. run. Qed.
Lemma interface_update_epoch_advances epoch :
  evolves advances (control_interface_update_epoch (St := St) epoch).
Proof. unfold control_interface_update_epoch. run. Qed.
Hint Resolve prepare_configuration_advances interface_update_epoch_advances : evolves.
Lemma install_configuration_advances p : evolves advances (install_managed_configuration (St := St) p).
Proof. unfold install_managed_configuration. run. Qed.
Hint Resolve install_configuration_advances : evolves.
Lemma commit_prepared_advances recovering p :
  evolves advances (commit_prepared (St := St) recovering p).
Proof. unfold commit_prepared. run. Qed.

Lemma neutral_advances e e' st : neutral e e' -> advances (e, st) (e', st).
Proof. intros [Hu Ha]. split; [intros ?; by eapply untracked_ok|by apply aside_progresses]. Qed.

Lemma drop_preparation_neutral p e : neutral e (drop_preparation p e).
Proof. unfold drop_preparation. case_match; (split; [by repeat split|set_aside]). Qed.

Lemma commit_configuration_advances recovering p :
  evolves advances (commit_replica_configuration (St := St) recovering p).
Proof.
  intros w. unfold commit_replica_configuration. pose proof (commit_prepared_advances recovering p w) as Hw.
  destruct (commit_prepared recovering p w) as [[e st] r]. simpl in *. etrans; [exact Hw|].
  apply neutral_advances, drop_preparation_neutral.
Qed.
Hint Resolve commit_configuration_advances : evolves.
Lemma synchronize_advances generation :
  evolves advances (synchronize_replica_configuration (St := St) generation).
Proof. unfold synchronize_replica_configuration. run. Qed.
Lemma cancel_configuration_advances : evolves advances (cancel_configuration_work (St := St)).
Proof. unfold cancel_configuration_work. run. Qed.

(** *** Access and prefixes *)

Lemma start_access_advances write : evolves advances (start_access (St := St) write).
Proof. unfold start_access, validate_removal_write_grant. run. Qed.
Lemma finish_access_advances generation read write :
  evolves advances (finish_access (St := St) generation read write).
Proof. unfold finish_access. run. Qed.
Lemma publish_access_advances p : evolves advances (publish_access (St := St) p).
Proof. unfold publish_access. run. Qed.
Lemma authorize_prefix_advances safe :
  evolves advances (authorize_failover_prefix_instruction (St := St) safe).
Proof. unfold authorize_failover_prefix_instruction. run. Qed.
Hint Resolve authorize_prefix_advances : evolves.
Lemma authorize_failover_advances boundary :
  evolves advances (authorize_failover_prefix (St := St) boundary).
Proof. unfold authorize_failover_prefix, certified_prefix_outcome. run. Qed.
Lemma prepare_switchover_advances generation request source target id epoch :
  evolves advances (prepare_switchover (St := St) generation request source target id epoch).
Proof. unfold prepare_switchover, prepare_switchover_instruction. run. Qed.

(** Settling a prefix commits it in the application first. *)
Lemma settle_prefix_advances : evolves advances (settle_primary_prefix (St := St)).
Proof.
  assert (Hv : forall p, evolves advances (settled_verified_lsn (St := St) p)).
  { intros p. unfold settled_verified_lsn. run. }
  apply advances_of; [unfold settle_primary_prefix; run; [intros w; apply Hv|unrelated]|].
  intros w. unfold settle_primary_prefix.
  apply progresses_bind; [auto with evolves|]. intros w1 [] _.
  apply progresses_bind; [auto with evolves|]. intros w2 e _.
  apply progresses_bind; [auto with evolves|]. intros w3 [] _.
  apply progresses_bind; [auto with evolves|]. intros w4 durable _.
  apply progresses_bind; [intros w'; apply Hv|]. intros w5 verified _.
  apply progresses_bind; [auto with evolves|]. intros w6 [] _.
  apply progresses_bind; [auto with evolves|].
  intros w7 p (st & (_ & -> & _)%commit_law & ->)%storage_inv.
  apply progresses_bind; [auto with evolves|]. intros w8 [] Hguard. e_inv. guards.
  apply progresses_bind_at.
  - apply replicator_at, restore_committed_prefix_orderly. unfold app_committed. simpl. lia.
  - intros w9 [] _. apply (evolves_bind progresses); [apart|]. intros []. run.
Qed.

(** *** Removal and retirement *)

(** The transactions of the engine leave the journal alone. *)
Tactic Notation "journal_apart" constr(lem) reference(def) :=
  apply store_write_tracks; intros s s' Hok; split; [|by eapply lem];
  unfold def in Hok; repeat (case_match || ok_step || guards); by simplify_eq.

Lemma preparation_row_tracks p :
  evolves (keeps tracks) (store_write (St := St) (record_secondary_removal p)).
Proof. journal_apart preparation_row_ok record_secondary_removal. Qed.
Lemma started_row_tracks r :
  evolves (keeps tracks) (store_write (St := St) (record_retirement_started r)).
Proof. journal_apart started_ok record_retirement_started. Qed.
Lemma commit_row_tracks c :
  evolves (keeps tracks) (store_write (St := St) (record_secondary_removal_commit c)).
Proof. journal_apart commit_ok record_secondary_removal_commit. Qed.
Lemma retired_row_tracks r : evolves (keeps tracks) (store_write (St := St) (retire_authority r)).
Proof. journal_apart retire_ok retire_authority. Qed.
Lemma admit_build_tracks b : evolves (keeps tracks) (store_write (St := St) (admit_build b)).
Proof. journal_apart admit_build_ok admit_build. Qed.
Lemma build_row_tracks p x :
  evolves (keeps tracks) (store_write (St := St) (record_build_progress p x)).
Proof. journal_apart build_progress_ok record_build_progress. Qed.
Hint Resolve preparation_row_tracks started_row_tracks commit_row_tracks retired_row_tracks
  admit_build_tracks build_row_tracks : evolves.

Lemma prepare_removal_advances intent session sequence :
  evolves advances (prepare_secondary_removal_instruction (St := St) intent session sequence).
Proof.
  unfold prepare_secondary_removal_instruction, reconcile_preparation, freeze_boundary,
    validated_by. run.
Qed.

Lemma peer_session_advances i session :
  evolves advances (register_peer_session_instruction (St := St) i session).
Proof. unfold register_peer_session_instruction. run. Qed.
Lemma removal_witness_advances v :
  evolves advances (observe_secondary_removal_witness_instruction (St := St) v).
Proof. unfold observe_secondary_removal_witness_instruction. run. Qed.
Lemma removal_progress_advances v c :
  evolves advances (observe_secondary_removal_progress_instruction (St := St) v c).
Proof. unfold observe_secondary_removal_progress_instruction. run. Qed.

Lemma accept_commit_advances c :
  evolves advances (accept_secondary_removal_commit_instruction (St := St) c).
Proof. unfold accept_secondary_removal_commit_instruction, validated_by. run. Qed.
Lemma accept_historical_advances k :
  evolves advances (accept_historical_secondary_removal_commit_instruction (St := St) k).
Proof. unfold accept_historical_secondary_removal_commit_instruction, validated_by. run. Qed.

Lemma fence_retirement_advances r : evolves advances (fence_retirement_instruction (St := St) r).
Proof. unfold fence_retirement_instruction, contract_check. run. Qed.
Lemma complete_retirement_advances r :
  evolves advances (complete_retirement_instruction (St := St) r).
Proof. unfold complete_retirement_instruction, contract_check. run. Qed.

Lemma restore_authority_advances authority generation :
  evolves advances (restore_authority (St := St) authority generation).
Proof. unfold restore_authority, validated_by. run. Qed.

(** *** Builds *)

Lemma admit_build_authority_advances b :
  evolves advances (admit_build_authority_instruction (St := St) b).
Proof. unfold admit_build_authority_instruction, validated_by. run. Qed.
Lemma retire_build_advances id : evolves advances (retire_build_instruction (St := St) id).
Proof. unfold retire_build_instruction. run. Qed.
Lemma cancel_build_advances id : evolves advances (cancel_outbound_build (St := St) id).
Proof. unfold cancel_outbound_build. run. Qed.
(** A build that is changed and keeps its backlog. *)
Lemma put_progresses id ob ob' w :
  en_outbound_builds (fst w) !! id = Some ob -> (modest ob -> modest ob') ->
  progresses w (fst (modify_engine (fun e =>
    e <| en_outbound_builds := <[id := ob']> (en_outbound_builds e) |>) w)).
Proof.
  intros Hob Hmodest. destruct w as [e st]. apply aside_progresses. split_and!; [done..|]. simpl.
  intros Hb. apply map_Forall_insert_2; [|done]. apply Hmodest. by apply (Hb id).
Qed.

Lemma detach_build_advances id : evolves advances (detach_outbound_build_stream (St := St) id).
Proof.
  apply advances_of; [unfold detach_outbound_build_stream; run; unrelated|].
  intros w. unfold detach_outbound_build_stream.
  apply progresses_bind; [evolve|]. intros w1 e Hget. e_inv.
  apply progresses_bind; [evolve|]. intros w1 b Hb. e_inv.
  apply progresses_bind; [evolve|]. intros w1 [] Hguard. e_inv.
  eapply put_progresses; [done|done].
Qed.
Lemma remove_replica_advances id : evolves advances (remove_replica (St := St) id).
Proof. unfold remove_replica. run. Qed.

Lemma begin_prepare_copy_advances id target :
  evolves advances (begin_prepare_copy (St := St) id target).
Proof. unfold begin_prepare_copy, requested_build, start_build, validated_by. run. Qed.

Lemma drop_build_advances id generation : evolves advances (drop_build (St := St) id generation).
Proof. unfold drop_build. run. Qed.
Lemma or_drop_advances {A} id generation (m : engine (St := St) A) :
  evolves advances m -> evolves advances (or_drop_build id generation m).
Proof.
  intros Hm w. unfold or_drop_build. specialize (Hm w).
  destruct (m w) as [w' []]; [done|etrans; [exact Hm|apply drop_build_advances]..].
Qed.

Lemma finish_prepare_copy_advances context c :
  evolves advances (finish_prepare_copy (St := St) context c).
Proof. apply or_drop_advances. unfold copy_operations, check_prepared_copy. run. Qed.

Lemma send_on_stream_advances stream item error :
  evolves advances (send_on_stream (St := St) stream item error).
Proof. unfold send_on_stream. run. Qed.
Hint Resolve send_on_stream_advances : evolves.

Lemma own_build_advances t : evolves advances (own_build (St := St) t).
Proof. unfold own_build. run. Qed.
Lemma same_build_advances t message : evolves advances (same_build (St := St) t message).
Proof. unfold same_build. run. Qed.
Lemma put_build_tracks t b : evolves (keeps tracks) (put_build (St := St) t b).
Proof. unfold put_build. unrelated. Qed.
Lemma put_build_progresses t ob ob' w :
  en_outbound_builds (fst w) !! ba_build_id (pt_authority t) = Some ob -> (modest ob -> modest ob') ->
  progresses w (fst (put_build t ob' w)).
Proof. apply put_progresses. Qed.
Lemma check_producer_advances t : evolves advances (check_copy_producer (St := St) t).
Proof. unfold check_copy_producer, check_cancelled. run. Qed.
Lemma send_copy_item_advances t item : evolves advances (send_copy_item (St := St) t item).
Proof. apply send_on_stream_advances. Qed.
Hint Resolve own_build_advances same_build_advances put_build_tracks check_producer_advances
  send_copy_item_advances : evolves.

(** The operations of the task change only its build, which keeps its backlog until
    the task takes it over. *)
Ltac next := apply progresses_bind; [apply advances_progresses; by run|intros ? ? ?].

Lemma freeze_progresses t : evolves progresses (freeze_build_catch_up_boundary (St := St) t).
Proof.
  intros w. unfold freeze_build_catch_up_boundary. do 9 next. task_inv.
  apply progresses_bind_at; [|done]. eapply put_build_progresses; [done|done].
Qed.

Lemma emit_progresses t o p : evolves progresses (emit_copy_operation (St := St) t o p).
Proof.
  intros w. unfold emit_copy_operation. do 2 next. task_inv. destruct (emitted_operation _ _); [done|].
  apply progresses_bind_at; [|done]. eapply put_build_progresses; [done|done].
Qed.

Lemma record_emitted_progresses t item : evolves progresses (record_emitted_copy_item (St := St) t item).
Proof.
  intros w. unfold record_emitted_copy_item. next. task_inv.
  eapply put_build_progresses; [done|done].
Qed.

Lemma pending_progresses t : evolves progresses (producer_step (St := St) t ProducePending).
Proof.
  intros w. unfold producer_step. next. task_inv. destruct (decide _) as [Hnone|_].
  all: apply progresses_bind_at; [|done]; eapply put_build_progresses; [done|]; intros _ Hc.
  - done.
  - simpl. rewrite map_size_empty. lia.
Qed.

Lemma final_progresses t sequence boundary :
  evolves progresses (producer_step (St := St) t (ProduceFinal sequence boundary)).
Proof.
  intros w. unfold producer_step. next. task_inv. apply progresses_bind_at.
  - by eapply put_build_progresses.
  - done.
Qed.
Hint Resolve freeze_progresses emit_progresses record_emitted_progresses pending_progresses
  final_progresses : evolves.

Lemma producer_step_advances t p : evolves advances (producer_step (St := St) t p).
Proof.
  assert ((exists error, p = ProduceError error) \/ forall error, p <> ProduceError error)
    as [[error ->]|Hp] by (destruct p; eauto).
  { intros w. apply (send_on_stream_advances _ (Err error) _ w). }
  apply advances_of.
  - unfold producer_step, freeze_build_catch_up_boundary, emit_copy_operation, record_emitted_copy_item,
      check_copy_producer, check_cancelled, check_delivery_generation, own_build, same_build, send_copy_item,
      send_on_stream. destruct p; try by destruct (Hp error). all: run; unrelated.
  - destruct p as [|[|chunk chunks]| | |[|o operations]| | |error|]; auto with evolves;
      try by destruct (Hp error).
    all: unfold producer_step, check_cancelled, check_delivery_generation, send_copy_item; by run.
Qed.

Lemma produce_step_advances t p w : advances w (fst (produce_step t p w)).
Proof.
  unfold produce_step. destruct (send_waits _ _ _); [done|].
  pose proof (producer_step_advances t p w) as Hw.
  destruct (producer_step t p w) as [w' [p'|error|]]; [done| |done]. simpl in *.
  etrans; [exact Hw|apply drop_build_advances].
Qed.

Lemma accept_copy_ack_advances k : evolves advances (accept_copy_acknowledgement (St := St) k).
Proof.
  apply advances_of; [unfold accept_copy_acknowledgement, check_delivery_generation; run; unrelated|].
  intros w. unfold accept_copy_acknowledgement. do 10 next. e_inv.
  eapply put_progresses; [done|done].
Qed.

Lemma open_streams_advances : evolves advances (open_streams (St := St)).
Proof. unfold open_streams. run. Qed.
Hint Resolve open_streams_advances : evolves.

Lemma receive_copy_item_advances i : evolves advances (receive_copy_item (St := St) i).
Proof.
  unfold receive_copy_item, check_copy_item, duplicate_copy_item, receive_new_item,
    receive_snapshot_chunk, receive_final_item, receive_copied_operation, apply_copied_operation,
    record_copy_progress, service_deliver, validated_by, contract_check. run.
Qed.

(** *** Replication *)

Lemma receive_replication_advances i : evolves advances (receive_replication (St := St) i).
Proof. unfold receive_replication, check_delivery. run. Qed.
Lemma complete_delivery_advances d : evolves advances (complete_replication_delivery (St := St) d).
Proof. unfold complete_replication_delivery, service_answer, check_unchanged. run. Qed.

Lemma send_history_advances a peer history expected :
  evolves advances (send_history (St := St) a peer history expected).
Proof. revert expected. induction history as [|r history IH]; intros expected; simpl; run. Qed.
Hint Resolve send_history_advances : evolves.
Lemma send_repair_advances a peer from current :
  evolves advances (send_repair (St := St) a peer from current).
Proof. unfold send_repair. run. Qed.

Lemma repair_peer_advances peer progress :
  evolves advances (repair_peer_from_history (St := St) peer progress).
Proof.
  unfold repair_peer_from_history. run. intros w.
  pose proof (send_repair_advances a1 peer progress (en_current_progress a0) w) as Hw.
  destruct (send_repair _ _ _ _ w) as [[e st] []]; [done|..];
    (etrans; [exact Hw|]; by apply neutral_advances; repeat split).
Qed.

Lemma start_wait_for_build_advances replica id :
  evolves advances (start_wait_for_build (St := St) replica id).
Proof. unfold start_wait_for_build. run. Qed.

(** *** Data loss *)

Lemma reset_unresolved c s id : ~ unresolved (reset_local_writes_after_data_loss c s) id.
Proof. intros (d & [_ [Hd _]]%map_lookup_filter_Some & Hp). done. Qed.

Lemma reset_tracks current committed :
  evolves (keeps tracks) (reset_after_data_loss_locked (St := St) current committed).
Proof.
  intros w Hw. unfold reset_after_data_loss_locked.
  apply tracks_bind; [unrelated|done|]. intros w1 [] _ Hw1.
  apply m_bind_ends; [intros ? ? Hrun Hr; by eapply store_write_fails|].
  intros w2 [] (s & faults & [= <-] & ->)%store_write_inv. simpl.
  destruct Hw1 as [Hok Ht Hr Hs]. split; simpl.
  - by apply reset_ok.
  - intros _ id Hid. by apply reset_unresolved in Hid.
  - intros id v. by rewrite lookup_empty.
  - intros id id' Hid. by apply reset_unresolved in Hid.
Qed.

Lemma data_loss_tracks : evolves (keeps tracks) (control_on_data_loss (St := St)).
Proof.
  unfold control_on_data_loss, fence_for_data_loss, require_primary.
  evolve; [unrelated|apply reset_tracks].
Qed.

Lemma data_loss_builds : evolves same_builds (control_on_data_loss (St := St)).
Proof.
  unfold control_on_data_loss, fence_for_data_loss, reset_after_data_loss_locked, require_primary,
    check_aborted, provider. evolve.
Qed.

End operations.

(** ** Runs *)

Section runs.
Context `{Sha256} {St : Type} `{!DurableApplication St, !ApplicationLaws St, !CommitLaws St}.
Implicit Types w : World (St := St).

(** The operations of the engine. *)
Inductive operation : forall {A : Type}, engine (St := St) A -> Prop :=
| OpAttach primary : operation (attach_interfaces primary)
| OpInstallProvider : operation install_provider
| OpOpen committed : operation (control_open committed)
| OpCompleteOpen address : operation (complete_open address)
| OpChangeRole epoch role : operation (control_change_role epoch role)
| OpUpdateEpoch epoch : operation (control_update_epoch epoch)
| OpClose : operation control_close
| OpFenceWrites : operation fence_writes
| OpBeginWrite write : operation (begin_write write)
| OpResumeWrite write : operation (resume_local_write write)
| OpRecoverWrite d : operation (recover_local_write d)
| OpPublish p : operation (publish_replication p)
| OpAcknowledge k : operation (accept_acknowledgement k)
| OpObserveAck k session : operation (execute_managed_operation false false
    (observe_replication_ack_instruction k session))
| OpRefresh : operation (execute_managed_operation false false
    refresh_application_progress_instruction)
| OpConfigureReplicas current previous : operation (configure_replicas current previous)
| OpPrepareConfiguration recovering a generation :
    operation (prepare_replica_configuration recovering a generation)
| OpCommitConfiguration recovering p : operation (commit_replica_configuration recovering p)
| OpSynchronize generation : operation (synchronize_replica_configuration generation)
| OpCancelConfiguration : operation cancel_configuration_work
| OpRestoreAuthority a generation : operation (restore_authority a generation)
| OpStartAccess write : operation (start_access write)
| OpFinishAccess generation read write : operation (finish_access generation read write)
| OpPublishAccess p : operation (publish_access p)
| OpSettlePrefix : operation settle_primary_prefix
| OpAuthorizePrefix boundary : operation (authorize_failover_prefix boundary)
| OpSwitchover generation request source target id epoch :
    operation (prepare_switchover generation request source target id epoch)
| OpPrepareRemoval intent session sequence : operation (execute_managed_operation false false
    (prepare_secondary_removal_instruction intent session sequence))
| OpPeerSession i session : operation (execute_managed_operation false false
    (register_peer_session_instruction i session))
| OpRemovalWitness v : operation (execute_managed_operation false false
    (observe_secondary_removal_witness_instruction v))
| OpRemovalProgress v c : operation (execute_managed_operation false false
    (observe_secondary_removal_progress_instruction v c))
| OpAcceptCommit c : operation (execute_managed_operation false false
    (accept_secondary_removal_commit_instruction c))
| OpAcceptHistorical k : operation (execute_managed_operation false false
    (accept_historical_secondary_removal_commit_instruction k))
| OpFenceRetirement r : operation (execute_managed_operation false true
    (fence_retirement_instruction r))
| OpCompleteRetirement r : operation (execute_managed_operation true true
    (complete_retirement_instruction r))
| OpAdmitBuild b : operation (execute_managed_operation false false
    (admit_build_authority_instruction b))
| OpRetireBuild id : operation (execute_managed_operation false false
    (retire_build_instruction id))
| OpCancelBuild id : operation (cancel_outbound_build id)
| OpDetachBuild id : operation (detach_outbound_build_stream id)
| OpRemoveReplica id : operation (remove_replica id)
| OpBeginPrepareCopy id target : operation (begin_prepare_copy id target)
| OpFinishPrepareCopy context c : operation (finish_prepare_copy context c)
| OpCopyAcknowledge k : operation (accept_copy_acknowledgement k)
| OpReceiveCopy i : operation (receive_copy_item i)
| OpWaitForBuild replica id : operation (start_wait_for_build replica id)
| OpReceive i : operation (receive_replication i)
| OpCompleteDelivery d : operation (complete_replication_delivery d)
| OpRepair peer progress : operation (repair_peer_from_history peer progress).

Lemma operation_advances {A} (m : engine (St := St) A) : operation m -> evolves advances m.
Proof.
  destruct 1;
    [ apply attach_interfaces_advances | apply install_provider_advances
     | apply control_open_advances | apply complete_open_advances
     | apply control_change_role_advances | apply control_update_epoch_advances
     | apply control_close_advances | apply fence_writes_advances
     | apply begin_write_advances | apply resume_local_write_advances
     | apply recover_local_write_advances | apply publish_replication_advances
     | apply accept_acknowledgement_advances | apply managed_advances, observe_ack_advances
     | apply managed_advances, refresh_advances | apply configure_replicas_advances
     | apply prepare_configuration_advances | apply commit_configuration_advances
     | apply synchronize_advances | apply cancel_configuration_advances
     | apply restore_authority_advances | apply start_access_advances
     | apply finish_access_advances | apply publish_access_advances
     | apply settle_prefix_advances | apply authorize_failover_advances
     | apply prepare_switchover_advances | apply managed_advances, prepare_removal_advances
     | apply managed_advances, peer_session_advances
     | apply managed_advances, removal_witness_advances
     | apply managed_advances, removal_progress_advances
     | apply managed_advances, accept_commit_advances
     | apply managed_advances, accept_historical_advances
     | apply managed_advances, fence_retirement_advances
     | apply managed_advances, complete_retirement_advances
     | apply managed_advances, admit_build_authority_advances
     | apply managed_advances, retire_build_advances | apply cancel_build_advances
     | apply detach_build_advances | apply remove_replica_advances
     | apply begin_prepare_copy_advances | apply finish_prepare_copy_advances
     | apply accept_copy_ack_advances | apply receive_copy_item_advances
     | apply start_wait_for_build_advances | apply receive_replication_advances
     | apply complete_delivery_advances | apply repair_peer_advances ].
Qed.

(** The transactions of the host on the stores it shares with the engine. *)
Inductive host_step (s : AuthorityStore) : AuthorityStore -> Prop :=
| HostAdmit a s' : admit_authority a s = Ok s' -> host_step s s'
| HostSelect b s' x : select_build b s = Ok (s', x) -> host_step s s'
| HostInstall a : host_step s (install_authority a s)
| HostRow v : row_follows (as_state s) v -> host_step s (s <| as_state := v |>).

(** One step: an operation of the engine, whatever its outcome; the parts that run
    without its locks; the host; the service; the failure of transactions to come;
    or a crash, after which a new engine starts on what was durable. *)
Inductive engine_step : World (St := St) -> World (St := St) -> Prop :=
| StepOperation {A} (m : engine A) w : operation m -> engine_step w (fst (m w))
| StepAbort log_free streams_free state_free e st :
    engine_step (e, st) (control_abort log_free streams_free state_free e, st)
| StepDropPreparation p e st : engine_step (e, st) (drop_preparation p e, st)
| StepProduce t p w : engine_step w (fst (produce_step t p w))
| StepReceiverGone n e st : engine_step (e, st) (close_stream n e, st)
| StepReceiverTakes n e st : engine_step (e, st) (receive_from_stream n e, st)
| StepFaults faults e st : engine_step (e, st) (e <| en_faults := faults |>, st)
| StepHost s e st : host_step (en_store e) s -> engine_step (e, st) (e <| en_store := s |>, st)
| StepService e st st' : app_committed st <= app_committed st' -> engine_step (e, st) (e, st')
| StepRestart session e st :
    engine_step (e, st) (new_engine (en_identity e) session (en_store e), st).

(** Data loss lets the application forget. *)
Inductive lossy_step w : World (St := St) -> Prop :=
| LossyStep w' : engine_step w w' -> lossy_step w w'
| LossyDataLoss : lossy_step w (fst (control_on_data_loss w)).

Lemma host_step_ok s s' :
  host_step s s' -> as_local_writes s' = as_local_writes s /\ (store_ok s -> store_ok s').
Proof.
  destruct 1 as [a s' Hok|b s' x Hok|a|v Hv].
  - split; [by destruct (admit_cases _ _ _ Hok) as [->|[-> _]]|by eapply admit_ok].
  - split; [|by eapply select_ok].
    by apply select_cases in Hok as (_ & _ & _ & [[-> _]|(_ & _ & ->)]).
  - split; [done|apply install_ok].
  - split; [done|by apply row_ok].
Qed.

Lemma abort_neutral log_free streams_free state_free e :
  let e' := control_abort log_free streams_free state_free e in
  untracked e e' /\ en_identity e' = en_identity e /\ en_store e' = en_store e /\
  (en_log e' = en_log e \/ en_log e' = abort_log (en_log e)) /\
  (bounded (en_outbound_builds e) -> bounded (en_outbound_builds e')).
Proof.
  unfold control_abort. destruct log_free, streams_free, state_free; simpl;
    (split; [by repeat split|split_and!; [done|done|auto|trim]]).
Qed.

Lemma abort_advances log_free streams_free state_free e st :
  advances (e, st) (control_abort log_free streams_free state_free e, st).
Proof.
  destruct (abort_neutral log_free streams_free state_free e) as (Hu & Hi & Hs & Hl & Hb).
  split; [intros ?; by eapply untracked_ok|]. split; simpl; [done|by rewrite Hs| |lia|done].
  intros [Ho Hn Hc Ha]. simpl in *. destruct Hl as [Hl|Hl]; simpl in *.
  - by split; [split|]; simpl; rewrite ?Hl.
  - destruct (abort_orderly (app_committed st) _ Ho) as [Ho' (answers & Hs' & Hw)].
    destruct (Hw Hc) as [Hc' Hans]. split; [split|]; simpl; rewrite ?Hl; [done..| |by eexists].
    intros ch lsn. rewrite Hs'. intros [Hin|Hin]%elem_of_app; eauto.
Qed.

Lemma engine_step_tracks w w' : engine_step w w' -> tracks w -> tracks w'.
Proof.
  destruct 1 as [A m w Hm|log_free streams_free state_free e st|p e st|t p w|n e st|n e st|faults e st|s e st Hs
                |e st st' _|session e st].
  - by apply (operation_advances m Hm w).
  - by apply abort_advances.
  - intros Ht. eapply untracked_ok; [apply drop_preparation_neutral|exact Ht].
  - by apply (produce_step_advances t p w).
  - intros Ht. by eapply untracked_ok; [|exact Ht].
  - intros Ht. by eapply untracked_ok; [|exact Ht].
  - intros Ht. by eapply untracked_ok; [|exact Ht].
  - apply host_step_ok in Hs as [Hl Hs]. intros [Hok Ht Hr Hsg]. split; simpl in *.
    + auto.
    + unfold unresolved in *. simpl. by rewrite Hl.
    + by rewrite Hl.
    + unfold unresolved in *. by rewrite Hl.
  - done.
  - intros [Hok _ _ Hs]. split; simpl; [done|done| |done]. intros id v. by rewrite lookup_empty.
Qed.

Lemma lossy_step_tracks w w' : lossy_step w w' -> tracks w -> tracks w'.
Proof. destruct 1; [by eapply engine_step_tracks|apply data_loss_tracks]. Qed.

(** What a step keeps while no data is lost. *)
Record continues w w' : Prop := {
  ct_identity : en_identity (fst w') = en_identity (fst w);
  ct_writes : forall id d, as_local_writes (en_store (fst w)) !! id = Some d ->
    exists d', as_local_writes (en_store (fst w')) !! id = Some d' /\ write_advances d d';
  ct_covered : covered w -> covered w';
  ct_committed : app_committed (snd w) <= app_committed (snd w');
  ct_builds : bounded (en_outbound_builds (fst w)) -> bounded (en_outbound_builds (fst w'));
}.
#[export] Instance continues_preorder : PreOrder continues.
Proof.
  split; [intros w; split; eauto using write_advances_refl; lia|].
  intros w1 w2 w3 [I1 W1 C1 A1 B1] [I2 W2 C2 A2 B2]. split; [congruence| |auto|lia|auto].
  intros id d (d' & Hd' & Hadv)%W1. destruct (W2 _ _ Hd') as (d'' & Hd'' & Hadv').
  eauto using write_advances_trans.
Qed.

Lemma remembers_writes s s' id d :
  remembers [] s s' -> as_local_writes s !! id = Some d ->
  exists d', as_local_writes s' !! id = Some d' /\ write_advances d d'.
Proof. intros Hr Hd. apply (rem_writes _ _ _ Hr _ _ Hd). by intros c ?%elem_of_nil. Qed.

Lemma progresses_continues w w' : progresses w w' -> continues w w'.
Proof.
  intros [Hi Hs Hc Ha Hb].
  split; [done|intros id d; by apply remembers_writes|intros Hw; by apply Hc|done|done].
Qed.

Lemma engine_step_continues w w' : engine_step w w' -> continues w w'.
Proof.
  destruct 1 as [A m w Hm|log_free streams_free state_free e st|p e st|t p w|n e st|n e st|faults e st|s e st Hs
                |e st st' Hle|session e st].
  - by apply progresses_continues, (operation_advances m Hm w).
  - by apply progresses_continues, abort_advances.
  - by apply progresses_continues, aside_progresses, drop_preparation_neutral.
  - by apply progresses_continues, (produce_step_advances t p w).
  - by apply progresses_continues, aside_progresses.
  - by apply progresses_continues, aside_progresses.
  - by apply progresses_continues, aside_progresses.
  - apply host_step_ok in Hs as [Hl _]. split; simpl; [done|rewrite Hl; eauto using write_advances_refl| |lia|done].
    by intros [].
  - split; simpl; [done|eauto using write_advances_refl| |done|done]. intros [Ho Hn Hc Ha]. simpl in *.
    split; simpl; [done|lia|lia|]. intros ch lsn Hin%Ha. lia.
  - split; simpl; [done|eauto using write_advances_refl| |lia|trim]. intros [_ Hn _ _]. split; simpl; [|done..|].
    + apply log_reachable_ok with (en_identity e). by apply rtc_refl.
    + by intros ch lsn ?%elem_of_nil.
Qed.

Lemma engine_steps_continue w w' : rtc engine_step w w' -> continues w w'.
Proof. induction 1; [done|]. etrans; [by apply engine_step_continues|done]. Qed.

(** A replica on empty stores, before it opens. *)
Definition fresh_world (identity : ReplicaIdentity) (resource session : string) (st : St) : World :=
  (new_engine identity session (new_store identity resource), st).

Lemma fresh_tracks identity resource session st : tracks (fresh_world identity resource session st).
Proof.
  split; simpl; [apply new_store_ok|done|..].
  - intros id v. by rewrite lookup_empty.
  - intros id id' (d & Hd & _). simpl in Hd. by rewrite lookup_empty in Hd.
Qed.

Lemma fresh_covered identity resource session st :
  0 <= app_committed st -> covered (fresh_world identity resource session st).
Proof.
  intros Hst. split; simpl; [|done..|].
  - apply log_reachable_ok with identity. by apply rtc_refl.
  - by intros ch lsn ?%elem_of_nil.
Qed.

Lemma lossy_steps_bounded w w' :
  rtc lossy_step w w' -> bounded (en_outbound_builds (fst w)) -> bounded (en_outbound_builds (fst w')).
Proof.
  induction 1 as [|w1 w2 w3 Hstep _ IH]; [done|]. intros Hb. apply IH.
  destruct Hstep as [w2 Hstep|]; [by apply (ct_builds _ _ (engine_step_continues _ _ Hstep))|].
  by rewrite (data_loss_builds w1).
Qed.

(** A committed write that is offered again is answered from the journal. *)
Lemma resume_committed_cases a w w' p :
  resume_committed a w = (w', Ok p) ->
  contents (snd w') = contents (snd w) /\ pend_lsn p = dlw_lsn (wa_durable a) /\
  pend_items p = [] /\ (pend_completion p, Ok (dlw_lsn (wa_durable a))) ∈
    sent (qt_channels (rl_quorum (en_log (fst w')))).
Proof.
  unfold resume_committed, complete_committed. intros Hrun. e_inv.
  rename select (durable_progress _ = _) into Hp. apply progress_law in Hp as (Hc & _ & _).
  rename select (verify_local_write_progress _ _ = _) into Hv. apply verify_progress_app in Hv.
  rename select (quorum (answered_channel _) _ = _) into Hans.
  unfold quorum, m_zoom, answered_channel in Hans. simpl in Hans. simplify_eq. simpl in *.
  split_and!; [congruence|done|done|]. apply elem_of_app. right. set_solver.
Qed.

(** [C25] The journal of a replica has at most one unresolved write, and while the
    engine is open it knows that write, with the LSN and the bytes it was journaled
    with.  This holds in every run from empty stores: through errors of any
    operation and of the stores, aborts, crashes and restarts, and data loss. *)
Theorem unresolved_write_is_known identity resource session st w :
  rtc lossy_step (fresh_world identity resource session st) w ->
  (forall id id', unresolved (en_store (fst w)) id -> unresolved (en_store (fst w)) id' -> id = id') /\
  (en_open (fst w) = true -> forall id, unresolved (en_store (fst w)) id ->
   exists v d, en_local_writes (fst w) !! id = Some v /\ journaled (fst w) id = Some d /\
     dlw_operation_id v = id /\ dlw_lsn v = dlw_lsn d /\ dlw_data v = dlw_data d).
Proof.
  intros Hrun. assert (Hw : tracks w).
  { pose proof (fresh_tracks identity resource session st) as Hf. revert Hf.
    induction Hrun as [|w1 w2 w3 Hstep _ IH]; [done|]. intros Hw1. by apply IH, (lossy_step_tracks w1). }
  destruct Hw as [_ Ht Hr Hs]. split; [done|]. intros Ho id Hid. destruct (Ht Ho id Hid) as [v Hv].
  destruct (Hr id v Hv) as (Hvid & d & Hd & (Hlsn & _ & Hdata & _)). eauto 10.
Qed.

(** [C28] The operations that wait for a build to catch up are bounded in every run,
    whatever the order of writes, copies, acknowledgements and failures: the
    primary refuses a write rather than let the backlog of a build grow past the
    limit. *)
Theorem build_backlog_is_bounded identity resource session st w id ob :
  rtc lossy_step (fresh_world identity resource session st) w ->
  en_outbound_builds (fst w) !! id = Some ob -> ob_catching_up ob = true ->
  (size (ob_pending_operations ob) <= MAX_BUILD_PENDING_OPERATIONS)%nat.
Proof.
  intros Hrun. apply (lossy_steps_bounded _ _ Hrun). apply bounded_empty.
Qed.

(** [C1] A client that is told that its write succeeded can rely on it: the application
    has committed the write, and it stays committed in every continuation of the
    run, through errors, aborts, crashes and restarts, until data is lost. *)
Theorem answered_write_stays_committed identity resource session st w w' ch lsn :
  0 <= app_committed st -> rtc engine_step (fresh_world identity resource session st) w ->
  (ch, Ok lsn) ∈ sent (qt_channels (rl_quorum (en_log (fst w)))) -> rtc engine_step w w' ->
  lsn <= app_committed (snd w').
Proof.
  intros Hst Hrun Hin Hrun'. pose proof (fresh_covered identity resource session st Hst) as Hw.
  apply (ct_covered _ _ (engine_steps_continue _ _ Hrun)) in Hw.
  pose proof (ct_committed _ _ (engine_steps_continue _ _ Hrun')). apply (cv_answers _ Hw) in Hin. lia.
Qed.

(** [C14] A write takes effect once: when it has been journaled as committed, then
    after any further steps, a crash and a restart among them, a client that offers
    it again under the same operation id must offer the same bytes, gets the LSN
    the write has had, and is answered with success, and neither the application
    nor the peers see the write again. *)
Theorem committed_write_is_not_repeated write d w w' w'' p :
  journaled (fst w) (cw_operation_id write) = Some d -> dlw_phase d = Committed ->
  rtc engine_step w w' -> begin_write write w' = (w'', Ok p) ->
  cw_data write = dlw_data d /\ pend_lsn p = dlw_lsn d /\ pend_items p = [] /\
  contents (snd w'') = contents (snd w') /\
  (pend_completion p, Ok (dlw_lsn d)) ∈ sent (qt_channels (rl_quorum (en_log (fst w'')))).
Proof.
  intros Hd Hphase Hrun Hwrite.
  destruct (ct_writes _ _ (engine_steps_continue _ _ Hrun) _ _ Hd)
    as (d' & Hd' & Hlsn & _ & Hdata & Htag).
  assert (dlw_phase d' = Committed) as Hphase'.
  { rewrite Hphase in Htag. by destruct (dlw_phase d'). }
  unfold begin_write, check_no_pending_configuration, begin_write_locked in Hwrite. e_inv.
  rename select (prepare_write _ _ _ = _) into Hprep.
  apply prepare_write_cases in Hprep as (_ & _ & _ & Hload).
  apply load_or_reserve_cases in Hload as (Hst & Hbytes & _ & Hrow). unfold journaled in Hrow.
  rewrite Hd' in Hrow. destruct Hrow as [Hrow _]. rewrite Hrow, Hphase' in Hwrite. simpl in Hwrite.
  apply resume_committed_cases in Hwrite as (Hc & Hl & Hi & Ha).
  rewrite Hrow, Hlsn in *. split_and!; congruence.
Qed.

End runs.
