(* ===== verification/EngineRuns.v ===== *)
(** * A run of the engine

    A replica starts on empty stores, becomes the primary of three members, accepts
    a write, hears from a member, crashes after it has answered its client, and
    starts again. *)

From S2P Require Import Prelude Digest Types Intents Commands Validation Quorums ScaleDown ScaleUp.
From S2P Require Import ManagedConfiguration Quorum QuorumSafety Log LogAnswers Authority AuthorityStore.
From S2P Require Import Engine EngineWrites EngineConfiguration EngineRemoval EngineReplication EngineCopy.
From S2P Require Import LogApplication EngineSteps.
From stdpp Require Import base gmap strings list sorting relations.
From Stdlib Require Import ZArith Lia Strings.Byte.
Local Open Scope Z_scope.

#[local] Existing Instance padding_sha256.

Module Session.

#[local] Abbreviation World := (World (St := AppLog)).

Definition admitted (identity : ReplicaIdentity) : AdmittedAuthority :=
  {| aa_local_identity := identity; aa_transition_kind := None;
     aa_previous_configuration := None; aa_current_configuration := Sample.previous;
     aa_switchover_handoff := None; aa_secondary_removal := None; aa_scale_up := None |}.
Definition authority (identity : ReplicaIdentity) : ManagedReplicaConfiguration :=
  managed_configuration (admitted identity).
Definition epoch : Epoch := cd_epoch Sample.previous.

(** The host admits the authority. *)
Definition admission (w : World) : World :=
  let s := en_store (fst w) in
  ((fst w) <| en_store :=
     Stores.after (admit_authority (admitted (en_identity (fst w))) s) s |>, snd w).

(** The start of an engine, up to its role. *)
Definition boot (role : ReplicaRole) (w : World) : World :=
  let w := fst (install_provider w) in
  let w := fst (attach_interfaces true w) in
  let w := fst (control_open 0 w) in
  let w := fst (complete_open "address" w) in
  let w := admission w in
  let w := fst (restore_authority (Some (authority (en_identity (fst w)))) 1 w) in
  fst (control_change_role epoch role w).

(** Access is granted under the fence that is in force. *)
Definition grant (w : World) : World :=
  match finish_access (en_fence_generation (fst w)) Granted Granted w with
  | (w, Ok access) => fst (publish_access access w)
  | (w, _) => w
  end.

Lemma admit_step w : rtc engine_step w (admission w).
Proof.
  destruct w as [e st]. unfold admission. simpl.
  destruct (admit_authority _ _) as [s| |] eqn:E; simpl.
  - apply rtc_once. apply StepHost. by eapply HostAdmit.
  - by destruct e.
  - by destruct e.
Qed.

Lemma boot_steps role w : rtc engine_step w (boot role w).
Proof.
  unfold boot. cbv zeta.
  eapply rtc_r; [|exact (StepOperation (control_change_role epoch role) _ (OpChangeRole _ _))].
  eapply rtc_r; [|exact (StepOperation (restore_authority _ 1) _ (OpRestoreAuthority _ _))].
  etrans; [|apply admit_step].
  eapply rtc_r; [|exact (StepOperation (complete_open "address") _ (OpCompleteOpen _))].
  eapply rtc_r; [|exact (StepOperation (control_open 0) _ (OpOpen _))].
  eapply rtc_r; [|exact (StepOperation (attach_interfaces true) _ (OpAttach _))].
  exact (rtc_once _ _ (StepOperation install_provider w OpInstallProvider)).
Qed.

Lemma grant_steps w : rtc engine_step w (grant w).
Proof.
  unfold grant. destruct (finish_access _ _ _ w) as [w1 r] eqn:E.
  assert (rtc engine_step w w1) as Hw.
  { apply rtc_once. replace w1 with (fst (finish_access (en_fence_generation (fst w)) Granted Granted w))
      by (by rewrite E). apply StepOperation, OpFinishAccess. }
  destruct r; [|done..]. etrans; [exact Hw|]. apply rtc_once, StepOperation, OpPublishAccess.
Qed.

Definition fresh : World := fresh_world (Sample.identity 1 "a") "resource" "first" (al_of [] 0).
Definition primary : World := grant (boot Primary fresh).
Definition write : ClientWrite := {| cw_operation_id := "op"; cw_data := [x2a] |}.
Definition written : World := fst (begin_write write primary).

(** A member receives the operation. *)
Definition secondary : World :=
  boot ActiveSecondary (fresh_world (Sample.identity 2 "b") "resource" "second" (al_of [] 0)).
Definition item : ReplicationItem :=
  {| item_sender := Sample.identity 1 "a"; item_receiver := Sample.identity 2 "b";
     item_epoch := epoch; item_previous_configuration_id := None;
     item_current_configuration_id := cd_configuration_id Sample.previous;
     item_lsn := 1; item_committed_lsn := 0; item_data := [x2a] |}.
Definition received : World := fst (receive_replication item secondary).
Definition delivery : Delivery :=
  {| dv_generation := en_fence_generation (fst secondary);
     dv_authority := authority (Sample.identity 2 "b"); dv_item := item;
     dv_application := {| dap_applied_lsn := 0; dap_committed_lsn := 0 |}; dv_enqueued := true;
     dv_progress := {| rp_fence := mr_fence (authority (Sample.identity 2 "b"));
                       rp_verified_lsn := 0 |} |}.
Definition delivered : World := fst (complete_replication_delivery delivery received).

(** Its acknowledgement lets the primary answer its client; then the primary
    crashes and starts again. *)
Definition ack : ReplicationAck :=
  {| ack_sender := Sample.identity 1 "a"; ack_receiver := Sample.identity 2 "b";
     ack_epoch := epoch; ack_previous_configuration_id := None;
     ack_current_configuration_id := cd_configuration_id Sample.previous;
     ack_received_lsn := 1; ack_applied_lsn := 1; ack_committed_lsn := 0 |}.
Definition answered : World := fst (accept_acknowledgement ack written).
Definition restarted : World :=
  (new_engine (en_identity (fst answered)) "third" (en_store (fst answered)), snd answered).
Definition primary_again : World := grant (boot Primary restarted).
Definition repeated : World := fst (begin_write write primary_again).

(** The primary builds a new member; a second write waits for the copy. *)
Definition admitted_build : World :=
  fst (execute_managed_operation false false (admit_build_authority_instruction Stores.first_build) answered).
Definition copying : World := fst (begin_prepare_copy "build" (Sample.identity 4 "d") admitted_build).
Definition second_write : ClientWrite := {| cw_operation_id := "second"; cw_data := [x2b] |}.
Definition behind : World := fst (begin_write second_write copying).
Definition behind_build : OutboundBuild :=
  default (Build_OutboundBuild (no_build_progress Stores.first_build) None 0 ∅ ∅ false None 0)
    (en_outbound_builds (fst behind) !! "build").

Lemma started_steps role w : rtc engine_step w (grant (boot role w)).
Proof. etrans; [apply boot_steps|apply grant_steps]. Qed.

Lemma operation_steps {A} (m : engine A) w w' :
  rtc engine_step w w' -> operation m -> rtc engine_step w (fst (m w')).
Proof. intros Hw Hm. eapply rtc_r; [exact Hw|by apply StepOperation]. Qed.

Lemma restart_steps role session w w' :
  rtc engine_step w w' ->
  rtc engine_step w
    (grant (boot role (new_engine (en_identity (fst w')) session (en_store (fst w')), snd w'))).
Proof.
  intros Hw. etrans; [exact Hw|]. destruct w' as [e st].
  eapply rtc_l; [apply StepRestart|apply started_steps].
Qed.

Lemma primary_steps : rtc engine_step fresh primary.
Proof. unfold primary. apply started_steps. Qed.

Lemma written_steps : rtc engine_step fresh written.
Proof. unfold written. apply operation_steps; [apply primary_steps|apply OpBeginWrite]. Qed.

Lemma answered_steps : rtc engine_step fresh answered.
Proof. unfold answered. apply operation_steps; [apply written_steps|apply OpAcknowledge]. Qed.

Lemma again_steps : rtc engine_step answered primary_again.
Proof. unfold primary_again, restarted. by apply restart_steps. Qed.

Lemma behind_steps : rtc engine_step fresh behind.
Proof.
  unfold behind. apply operation_steps; [|apply OpBeginWrite].
  unfold copying. apply operation_steps; [|apply OpBeginPrepareCopy].
  unfold admitted_build. apply operation_steps; [apply answered_steps|apply OpAdmitBuild].
Qed.

End Session.

Lemma run_eq {A} (m : engine (St := AppLog) A) w r : snd (m w) = r -> m w = (fst (m w), r).
Proof. intros <-. apply surjective_pairing. Qed.

Lemma lossy_steps w w' : rtc (engine_step (St := AppLog)) w w' -> rtc lossy_step w w'.
Proof. intros Hw. eapply rtc_subrel; [|exact Hw]. intros ? ?. apply LossyStep. Qed.

Lemma unresolved_write_is_known_witness :
  exists v, en_local_writes (fst Session.written) !! "op" = Some v /\ dlw_lsn v = 1.
Proof.
  destruct (unresolved_write_is_known (Sample.identity 1 "a") "resource" "first" (al_of [] 0)
              Session.written) as [_ Hknown].
  - pose proof (lossy_steps _ _ Session.written_steps) as Hw. unfold Session.fresh in Hw. exact Hw.
  - destruct (Hknown ltac:(vm_compute; reflexivity) "op") as (v & d & Hv & Hd & _ & Hlsn & _).
    + exists {| dlw_operation_id := "op"; dlw_lsn := 1; dlw_committed_lsn := 0; dlw_data := [x2a];
                dlw_phase := Registered |}. split; [vm_compute; reflexivity|done].
    + exists v. split; [exact Hv|]. rewrite Hlsn.
      assert (Hj : dlw_lsn <$> journaled (fst Session.written) "op" = Some 1)
        by (vm_compute; reflexivity).
      rewrite Hd in Hj. by injection Hj.
Defined.

Lemma answered_write_stays_committed_witness : 1 <= app_committed (snd Session.primary_again).
Proof.
  eapply (answered_write_stays_committed (Sample.identity 1 "a") "resource" "first" (al_of [] 0)
            Session.answered Session.primary_again 0%nat 1).
  - vm_compute. discriminate.
  - pose proof Session.answered_steps as Hw. unfold Session.fresh in Hw. exact Hw.
  - replace (sent (qt_channels (rl_quorum (en_log (fst Session.answered)))))
      with [(0%nat, Ok 1 : result Lsn)] by (vm_compute; reflexivity).
    apply list_elem_of_singleton. done.
  - apply Session.again_steps.
Defined.

Lemma committed_write_is_not_repeated_witness :
  contents (snd Session.repeated) = contents (snd Session.primary_again).
Proof.
  destruct (committed_write_is_not_repeated Session.write
    {| dlw_operation_id := "op"; dlw_lsn := 1; dlw_committed_lsn := 0; dlw_data := [x2a];
       dlw_phase := Committed |} Session.answered Session.primary_again Session.repeated
    {| pend_lsn := 1; pend_items := []; pend_completion := 0%nat |}) as (_ & _ & _ & Hc & _).
  - vm_compute. reflexivity.
  - reflexivity.
  - apply Session.again_steps.
  - unfold Session.repeated. apply run_eq. vm_compute. reflexivity.
  - exact Hc.
Defined.

Lemma writes_are_journaled_first_witness :
  snd (fst (prepare_write Session.write false Session.primary)) = snd Session.primary.
Proof.
  destruct (writes_are_journaled_first Session.write false Session.primary
    (fst (prepare_write Session.write false Session.primary))
    {| wa_write := Session.write;
       wa_durable := {| dlw_operation_id := "op"; dlw_lsn := 1; dlw_committed_lsn := 0;
                        dlw_data := [x2a]; dlw_phase := Reserved |};
       wa_generation := 0 |}) as (Hst & _).
  - apply run_eq. vm_compute. reflexivity.
  - exact Hst.
Defined.

Lemma acknowledged_delivery_is_durable_witness :
  contents (snd Session.delivered) !! 1 = Some [x2a].
Proof.
  destruct (acknowledged_delivery_is_durable Session.item Session.secondary Session.received
    Session.delivery Session.received Session.delivered Session.ack) as (Hin & _).
  - unfold Session.received. apply run_eq. vm_compute. reflexivity.
  - unfold Session.delivered. apply run_eq. vm_compute. reflexivity.
  - vm_compute. split; [discriminate|reflexivity].
  - exact Hin.
Defined.

Lemma build_backlog_is_bounded_witness :
  size (ob_pending_operations Session.behind_build) = 1%nat /\
  (size (ob_pending_operations Session.behind_build) <= MAX_BUILD_PENDING_OPERATIONS)%nat.
Proof.
  split; [vm_compute; reflexivity|].
  apply (build_backlog_is_bounded (Sample.identity 1 "a") "resource" "first" (al_of [] 0)
           Session.behind "build").
  - pose proof (lossy_steps _ _ Session.behind_steps) as Hw. unfold Session.fresh in Hw. exact Hw.
  - vm_compute. reflexivity.
  - vm_compute. reflexivity.
Defined.
