(* ===== verification/CopySafety.v ===== *)
(** * What a copy stream carries

    [CopyLog] is the abstract contents of a copy stream: the chunks, the final
    marker, the operations after the snapshot.  The task that produces the stream
    sends exactly the items of such a log, whatever the engine does in between,
    and the target's progress is always that of a prefix of it. *)

From S2P Require Import Prelude Digest Types Intents Commands Validation Quorums ScaleDown ScaleUp.
From S2P Require Import ManagedConfiguration Quorum QuorumSafety Log Authority AuthorityStore Engine.
From S2P Require Import EngineWrites EngineConfiguration EngineRemoval EngineReplication EngineCopy.
From stdpp Require Import base gmap strings list sorting relations pretty.
From Stdlib Require Import ZArith Lia.
Local Open Scope Z_scope.

(** ** The contents of a stream *)

Record CopyLog := {
  cl_chunks : list Bytes;
  cl_catch_up : option Lsn;
  cl_operations : list Operation;
}.

Section logs.
Variable b : BuildAuthority.

Definition chunk_items (chunks : list Bytes) : list CopyItem :=
  imap (fun n data => copy_snapshot_item b (Z.of_nat n + 1) data) chunks.
Definition operation_items (first : Z) (operations : list Operation) : list CopyItem :=
  imap (fun n o => copy_operation_item b (first + Z.of_nat n) o) operations.

Definition items_of (c : CopyLog) : list CopyItem :=
  let n := Z.of_nat (length (cl_chunks c)) in
  chunk_items (cl_chunks c)
  ++ match cl_catch_up c with
     | None => []
     | Some catch_up =>
         copy_final_item b (n + 1) catch_up :: operation_items (n + 2) (cl_operations c)
     end.

(** The highest LSN on the stream. *)
Definition top_lsn (c : CopyLog) : Lsn :=
  ba_replication_boundary_lsn b + Z.of_nat (length (cl_operations c)).

(** The operations are those of the history [H] right after the snapshot. *)
Record log_ok (H : gmap Z Bytes) (c : CopyLog) : Prop := {
  lo_phase : cl_catch_up c = None -> cl_operations c = [];
  lo_contiguous n o : cl_operations c !! n = Some o ->
    op_lsn o = ba_replication_boundary_lsn b + 1 + Z.of_nat n;
  lo_history o : o ∈ cl_operations c -> H !! op_lsn o = Some (op_data o);
}.

(** The emitted items as the build records them. *)
Definition emitted_entry (i : CopyItem) : EmittedBuildItem :=
  {| ebi_lsn := ci_lsn i; ebi_final_item := ci_final_item i;
     ebi_snapshot_chunk := ci_snapshot_chunk i |}.
Definition emitted_items (items : list CopyItem) : gmap Z EmittedBuildItem :=
  list_to_map (map (fun i => (ci_sequence i, emitted_entry i)) items).

Lemma length_items c :
  length (items_of c) =
    match cl_catch_up c with
    | None => length (cl_chunks c)
    | Some _ => S (length (cl_chunks c) + length (cl_operations c))
    end.
Proof.
  unfold items_of, chunk_items, operation_items. rewrite length_app, length_imap.
  destruct (cl_catch_up c); simpl; rewrite ?length_imap; lia.
Qed.

(** Item [n] carries sequence number [n + 1]. *)
Lemma items_sequence c n i : items_of c !! n = Some i -> ci_sequence i = Z.of_nat n + 1.
Proof.
  unfold items_of, chunk_items, operation_items.
  intros [Hi|[Hn Hi]]%lookup_app_Some.
  - rewrite list_lookup_imap in Hi. by apply fmap_Some in Hi as (d & _ & ->).
  - rewrite length_imap in *. destruct (cl_catch_up c) as [x|]; [|done].
    apply lookup_cons_Some in Hi as [[Hz <-]|[Hz Hi]]; simpl; [lia|].
    rewrite list_lookup_imap in Hi. apply fmap_Some in Hi as (o & _ & ->). simpl. lia.
Qed.

Lemma items_chunk c data :
  cl_catch_up c = None ->
  items_of {| cl_chunks := cl_chunks c ++ [data]; cl_catch_up := None; cl_operations := [] |}
  = items_of c ++ [copy_snapshot_item b (Z.of_nat (length (items_of c)) + 1) data].
Proof.
  intros Hc. rewrite length_items. unfold items_of, chunk_items. simpl. rewrite Hc, !app_nil_r, imap_app.
  simpl. by rewrite Nat.add_0_r.
Qed.

Lemma items_final c catch_up :
  cl_catch_up c = None ->
  items_of {| cl_chunks := cl_chunks c; cl_catch_up := Some catch_up; cl_operations := [] |}
  = items_of c ++ [copy_final_item b (Z.of_nat (length (items_of c)) + 1) catch_up].
Proof. intros Hc. rewrite length_items. unfold items_of. simpl. by rewrite Hc, app_nil_r. Qed.

Lemma items_operation c catch_up o :
  cl_catch_up c = Some catch_up ->
  items_of {| cl_chunks := cl_chunks c; cl_catch_up := Some catch_up;
              cl_operations := cl_operations c ++ [o] |}
  = items_of c ++ [copy_operation_item b (Z.of_nat (length (items_of c)) + 1) o].
Proof.
  intros Hc. rewrite length_items. unfold items_of, operation_items. simpl. rewrite Hc, imap_app.
  rewrite <-app_assoc. simpl. do 3 f_equal. f_equal. unfold compose. f_equal. lia.
Qed.

Lemma emitted_snoc items i :
  (forall j, j ∈ items -> ci_sequence j <> ci_sequence i) ->
  emitted_items (items ++ [i]) = <[ci_sequence i := emitted_entry i]> (emitted_items items).
Proof.
  intros Hfresh. unfold emitted_items. rewrite map_app. simpl. apply list_to_map_snoc.
  rewrite <-list_fmap_compose. intros (j & Heq & Hj)%list_elem_of_fmap. by apply (Hfresh j).
Qed.

Lemma emitted_next c i :
  ci_sequence i = Z.of_nat (length (items_of c)) + 1 ->
  emitted_items (items_of c ++ [i]) = <[ci_sequence i := emitted_entry i]> (emitted_items (items_of c)).
Proof.
  intros Hi. apply emitted_snoc. intros j (n & Hj)%list_elem_of_lookup.
  rewrite (items_sequence c n j Hj), Hi. apply lookup_lt_Some in Hj. lia.
Qed.

Lemma log_ok_start H chunks catch_up :
  log_ok H {| cl_chunks := chunks; cl_catch_up := catch_up; cl_operations := [] |}.
Proof. by split; simpl; [|intros n o; rewrite lookup_nil|intros o ?%elem_of_nil]. Qed.

Lemma NoDup_sequences c : NoDup (map (fun i => (ci_sequence i, emitted_entry i)) (items_of c)).*1.
Proof.
  rewrite <-list_fmap_compose. apply NoDup_alt. intros n m x Hn Hm.
  rewrite list_lookup_fmap in Hn, Hm.
  apply fmap_Some in Hn as (i & Hi & ->). apply fmap_Some in Hm as (j & Hj & Heq). simpl in Heq.
  rewrite (items_sequence c _ _ Hi), (items_sequence c _ _ Hj) in Heq. lia.
Qed.

Lemma emitted_operation_items c ob lsn :
  ob_emitted ob = emitted_items (items_of c) ->
  emitted_operation ob lsn = true <->
  is_Some (cl_catch_up c) /\ exists o, o ∈ cl_operations c /\ op_lsn o = lsn.
Proof.
  intros Hob. unfold emitted_operation. rewrite existsb_exists. setoid_rewrite <-list_elem_of_In.
  transitivity (exists i, i ∈ items_of c /\ ci_snapshot_chunk i = false /\ ci_final_item i = false /\
                          ci_lsn i = lsn).
  - rewrite Hob. split.
    + intros (x & Hx & Hc). rewrite list_elem_of_fmap in Hx. destruct Hx as ([sq y] & -> & Hx).
      rewrite elem_of_map_to_list in Hx. apply elem_of_list_to_map_2 in Hx.
      apply list_elem_of_fmap in Hx as (i & [= -> ->] & Hi). simpl in Hc.
      exists i. autorewrite with bools in Hc. naive_solver.
    + intros (i & Hi & Hc & Hf & Hl). exists (emitted_entry i). split.
      * apply list_elem_of_fmap. exists (ci_sequence i, emitted_entry i). split; [done|].
        rewrite elem_of_map_to_list. apply elem_of_list_to_map_1; [apply NoDup_sequences|].
        apply list_elem_of_fmap. eauto.
      * simpl. rewrite Hc, Hf, Hl. by rewrite bool_decide_eq_true_2.
  - unfold items_of, chunk_items, operation_items. split.
    + intros (i & Hi & Hc & Hf & Hl). apply elem_of_app in Hi as [Hi|Hi].
      { apply elem_of_lookup_imap in Hi as (n & d & -> & _). done. }
      destruct (cl_catch_up c); [|by apply elem_of_nil in Hi].
      apply elem_of_cons in Hi as [->|Hi]; [done|].
      apply elem_of_lookup_imap in Hi as (n & o & -> & Ho). split; [done|].
      exists o. split; [by eapply list_elem_of_lookup_2|done].
    + intros ([x Hx] & o & Ho & Hl). apply list_elem_of_lookup in Ho as (n & Ho).
      rewrite Hx. eexists. split.
      * apply elem_of_app. right. apply elem_of_cons. right. apply elem_of_lookup_imap. eauto.
      * done.
Qed.

End logs.

(** ** The frozen boundary *)

Lemma i64_next l : i64_range l ->
  i64_checked_add l 1 = if l <? i64_max then Some (l + 1) else None.
Proof.
  unfold i64_range, i64_checked_add, i64_min, i64_max. intros Hl.
  destruct (l <? _) eqn:E; [|destruct (_ && _) eqn:F; [|done]]; guards; [|lia].
  by rewrite !Zle_imp_le_bool by lia.
Qed.

(** The loop ends, and accepts exactly when no LSN is missing. *)
Lemma closes_boundary_spec fuel l high X :
  i64_range l -> high <= i64_max -> (size X <= fuel)%nat ->
  closes_boundary fuel (Some l) high X = true <-> forall k, l <= k <= high -> k ∈ X.
Proof.
  revert l X. induction fuel as [|fuel IH]; intros l X Hl Hhigh Hsize; simpl.
  all: destruct (l <=? high) eqn:E; guards; [|split; [lia|done]].
  all: destruct (decide (l ∈ X)) as [Hin|Hout];
    [|split; [done|]; intros Hall; exfalso; apply Hout, Hall; lia].
  - exfalso. assert (size X = 0)%nat as Hempty%size_empty_inv by lia. set_solver.
  - rewrite i64_next by done.
    assert (forall k, l <= k <= high -> k = l \/ l + 1 <= k <= high) as Hcases by lia.
    destruct (l <? i64_max) eqn:Emax; guards.
    + rewrite IH; unfold i64_range, i64_max in *; [|lia..|rewrite size_difference, size_singleton by set_solver; lia].
      split; intros Hall k Hk.
      * destruct (Hcases k Hk) as [->|Hk']; [done|]. specialize (Hall k Hk'). set_solver.
      * assert (k <> l) by lia. apply elem_of_difference. split; [apply Hall; lia|set_solver].
    + split; [|by destruct fuel]. intros _ k Hk. assert (k = l) as -> by lia. done.
Qed.

(** ** Values in order *)

Lemma length_omap_le {A B} (f : A -> option B) l : (length (omap f l) <= length l)%nat.
Proof. induction l as [|x l IH]; csimpl; [done|]. destruct (f x); csimpl; lia. Qed.

Lemma elem_of_values {V} (m : gmap Z V) v : v ∈ values m <-> exists l, m !! l = Some v.
Proof.
  unfold values. rewrite list_elem_of_omap. setoid_rewrite elem_of_keys. split.
  - naive_solver.
  - intros (l & Hl). eauto.
Qed.

Lemma values_sorted (m : gmap Z Operation) :
  map_Forall (fun l o => op_lsn o = l) m ->
  StronglySorted (fun x y => op_lsn x <= op_lsn y) (values m).
Proof.
  intros Hm. unfold values. generalize (keys_sorted m).
  induction 1 as [|l ls Hs IH Hall]; simpl; [constructor|].
  destruct (m !! l) as [o|] eqn:Hl; [|done]. constructor; [done|].
  rewrite Forall_forall in Hall. rewrite Forall_forall. intros o' (l' & Hl' & Ho')%list_elem_of_omap.
  rewrite (Hm _ _ Hl), (Hm _ _ Ho'). by apply Hall.
Qed.

(** ** The build and everything around it

    The state of one build: the engine, the task that produces its stream, the
    highest LSN the primary has assigned, and the items that a write has numbered
    and still sends.  Besides the task, client writes are offered to the build,
    acknowledgements arrive, the receiver takes items or goes away, and anything else
    can happen that leaves the build and its stream alone or drops the build. *)

Record Writes := { wr_highest : Lsn; wr_sends : list (nat * CopyItem) }.
Definition no_writes (highest : Lsn) : Writes := {| wr_highest := highest; wr_sends := [] |}.

Section producer.
Context `{Sha256} {St : Type} `{!DurableApplication St}.
Variable t : ProducerTask.
(** The data of every operation the primary ever assigns an LSN to. *)
Variable history : gmap Z Bytes.
(** What the state provider enumerated. *)
Variable snapshot : list (result Bytes).
(** The acknowledgements that may arrive. *)
Variable acknowledged : CopyAck -> Prop.
(** Whether a write may end with items unsent: the receiver of some build is gone, or
    the client has given up. *)
Variable lossy : bool.

#[local] Abbreviation b := (pt_authority t).
#[local] Abbreviation id := (ba_build_id (pt_authority t)).
#[local] Abbreviation boundary := (ba_replication_boundary_lsn (pt_authority t)).
Implicit Types w : World (St := St).

(** No other build holds the stream. *)
Definition alone w : Prop :=
  forall id' ob, id' <> id -> en_outbound_builds (fst w) !! id' = Some ob ->
    ob_stream ob <> Some (pt_stream t).

(** The machine integers are in range, the sequence numbers before the end of [u64]. *)
Record room w : Prop := {
  room_sequences ob : en_outbound_builds (fst w) !! id = Some ob -> ob_next_sequence ob < 2 ^ 64 - 1;
  room_progress : en_current_progress (fst w) <= i64_max;
  room_boundary ob l : en_outbound_builds (fst w) !! id = Some ob ->
    bp_catch_up_boundary_lsn (ob_progress ob) = Some l -> l <= i64_max;
}.

(** What happens besides the task.  A write numbers its items for all builds at once,
    then sends them one by one: each send returns when the channel has a slot, and
    the first receiver that is gone ends the write. *)
Inductive env_step : World (St := St) * Writes -> World (St := St) * Writes -> Prop :=
| StepOffer o live_items w w' highest :
    room w -> history !! op_lsn o = Some (op_data o) -> op_lsn o <= highest + 1 ->
    record_offer o w = (w', Ok live_items) ->
    env_step (w, no_writes highest)
      (w', {| wr_highest := Z.max highest (op_lsn o); wr_sends := live_items |})
| StepSend n i rest w w' highest :
    is_some_and stream_waits (en_copy_streams (fst w) !! n) = false ->
    send_on_stream n (Ok i) Closed w = (w', Ok tt) ->
    env_step (w, {| wr_highest := highest; wr_sends := (n, i) :: rest |})
      (w', {| wr_highest := highest; wr_sends := rest |})
| StepRefused n i rest w w' error highest :
    lossy = true -> send_on_stream n (Ok i) Closed w = (w', Err error) ->
    env_step (w, {| wr_highest := highest; wr_sends := (n, i) :: rest |}) (w', no_writes highest)
| StepGivenUp w writes :
    lossy = true -> env_step (w, writes) (w, no_writes (wr_highest writes))
| StepAck k w writes :
    acknowledged k -> env_step (w, writes) (fst (accept_copy_acknowledgement k w), writes)
| StepTake w writes :
    env_step (w, writes) ((receive_from_stream (pt_stream t) (fst w), snd w), writes)
| StepClose w writes :
    env_step (w, writes) ((close_stream (pt_stream t) (fst w), snd w), writes)
| StepOther w w' writes :
    en_outbound_builds (fst w') !! id = en_outbound_builds (fst w) !! id
    \/ en_outbound_builds (fst w') !! id = None ->
    en_copy_streams (fst w') !! pt_stream t = en_copy_streams (fst w) !! pt_stream t ->
    alone w' -> env_step (w, writes) (w', writes).

(** A write that still sends holds the effect lock, which the task needs to freeze
    its boundary. *)
Definition lock_free (p : Producer) (writes : Writes) : Prop :=
  match p with ProduceBoundary _ => wr_sends writes = [] | _ => True end.

Inductive copy_step : World (St := St) * Producer * Writes -> World (St := St) * Producer * Writes -> Prop :=
| StepProduce w p writes :
    room w -> lock_free p writes -> copy_step (w, p, writes) (produce_step t p w, writes)
| StepEnvironment w w' p writes writes' :
    env_step (w, writes) (w', writes') -> copy_step (w, p, writes) (w', p, writes').

(** The operations the task has in hand. *)
Fixpoint rest_of (p : Producer) : list Operation :=
  match p with
  | ProduceSend _ next => rest_of next
  | ProduceSnapshot _ _ | ProduceBoundary _ | ProduceFinal _ _ => values (pt_operations t)
  | ProduceOperations operations => operations
  | ProducePending | ProduceDone | ProduceError _ | ProduceFailed => []
  end.

(** The item it has recorded and not yet sent. *)
Definition in_flight (p : Producer) : list CopyItem :=
  match p with ProduceSend i _ => [i] | _ => [] end.
Definition failing (p : Producer) : bool :=
  match p with ProduceError _ | ProduceFailed => true | _ => false end.

(** The items of a write that go to the task's stream. *)
Definition sent_to (sends : list (nat * CopyItem)) : list CopyItem :=
  omap (fun x => if decide (x.1 = pt_stream t) then Some x.2 else None) sends.

(** Everything from [low] on is in hand or waits behind it. *)
Definition covered (low highest : Lsn) (rest : list Operation) (pending : gmap Z Operation) : Prop :=
  exists middle, low <= middle <= highest /\
    StronglySorted (fun x y => op_lsn x <= op_lsn y) rest /\
    (forall o, o ∈ rest -> op_lsn o <= middle) /\
    (forall l, low < l <= middle -> exists o, o ∈ rest /\ op_lsn o = l) /\
    (forall l, is_Some (pending !! l) -> l <= highest) /\
    (forall l, middle < l <= highest -> is_Some (pending !! l)).

Definition from_history (o : Operation) : Prop :=
  boundary < op_lsn o /\ history !! op_lsn o = Some (op_data o).

Fixpoint phase_ok (c : CopyLog) (ob : OutboundBuild) (highest : Lsn) (p : Producer) : Prop :=
  match p with
  | ProduceSend _ next => phase_ok c ob highest next
  | ProduceSnapshot _ sequence | ProduceBoundary sequence =>
      cl_catch_up c = None /\ sequence = Z.of_nat (length (items_of b c)) + 1 /\
      ob_catching_up ob = true
  | ProduceFinal sequence catch_up =>
      cl_catch_up c = None /\ sequence = Z.of_nat (length (items_of b c)) + 1 /\
      ob_catching_up ob = true /\ bp_catch_up_boundary_lsn (ob_progress ob) = Some catch_up /\
      catch_up <= highest
  | ProduceOperations _ | ProducePending =>
      is_Some (cl_catch_up c) /\ ob_catching_up ob = true /\
      bp_catch_up_boundary_lsn (ob_progress ob) = cl_catch_up c
  | ProduceDone =>
      is_Some (cl_catch_up c) /\ ob_catching_up ob = false /\ ob_pending_operations ob = ∅ /\
      bp_catch_up_boundary_lsn (ob_progress ob) = cl_catch_up c
  | ProduceError _ | ProduceFailed => False
  end.

Lemma phase_grow c ob ob' highest highest' p :
  ob_catching_up ob' = ob_catching_up ob ->
  (ob_catching_up ob = false -> ob_pending_operations ob' = ob_pending_operations ob) ->
  bp_catch_up_boundary_lsn (ob_progress ob') = bp_catch_up_boundary_lsn (ob_progress ob) ->
  highest <= highest' -> phase_ok c ob highest p -> phase_ok c ob' highest' p.
Proof.
  intros Hc Hp Hb Hh. induction p; simpl; rewrite ?Hc, ?Hb; try done.
  - intros (? & ? & ? & ? & ?). split_and!; try done. lia.
  - intros (? & ? & ? & ?). split_and!; try done. by rewrite Hp.
Qed.

(** The chunks are those of the snapshot, all of them once the final item is there. *)
Definition chunks_ok (c : CopyLog) (p : Producer) : Prop :=
  match p with
  | ProduceSnapshot rest _ | ProduceSend _ (ProduceSnapshot rest _) =>
      cl_catch_up c = None /\ map Ok (cl_chunks c) ++ rest = snapshot
  | ProduceSend _ (ProduceOperations _) => map Ok (cl_chunks c) = snapshot
  | ProduceSend _ _ => False
  | ProduceError _ | ProduceFailed => map Ok (cl_chunks c) `prefix_of` snapshot /\
      (is_Some (cl_catch_up c) -> map Ok (cl_chunks c) = snapshot)
  | _ => map Ok (cl_chunks c) = snapshot
  end.

Lemma phase_done c ob highest p :
  phase_ok c ob highest p -> chunks_ok c p -> ob_catching_up ob = false -> p = ProduceDone.
Proof.
  destruct p as [i [| | | | | | | |]| | | | | | | |]; simpl; intros Hph Hc Hcu; destruct_and?; congruence || done.
Qed.

Record build_ok (c : CopyLog) (p : Producer) (highest : Lsn) (ob : OutboundBuild) : Prop := {
  bo_generation : ob_generation ob = pt_generation t;
  bo_authority : bp_authority (ob_progress ob) = b;
  bo_stream : ob_stream ob = Some (pt_stream t);
  bo_next : ob_next_sequence ob = Z.of_nat (length (items_of b c)) + 1;
  bo_emitted : ob_emitted ob = emitted_items (items_of b c);
  bo_final : ob_final_sequence ob =
    (fun _ => Z.of_nat (length (cl_chunks c)) + 1) <$> cl_catch_up c;
  bo_pending : map_Forall (fun l o => op_lsn o = l /\ from_history o) (ob_pending_operations ob);
  bo_rest : Forall from_history (rest_of p);
  bo_phase : phase_ok c ob highest p;
  bo_covered : covered (top_lsn b c) highest (rest_of p) (ob_pending_operations ob);
}.

(** What was sent: items of the log in their order, and an error after a failure;
    every item of the log when no write ends early. *)
Definition stream_ok (c : CopyLog) (p : Producer) (sends : list (nat * CopyItem))
    (sent : list (result CopyItem)) : Prop :=
  exists items errors, sent = map Ok items ++ errors /\
    Forall (fun r => exists error, r = Err error) errors /\ (failing p = false -> errors = []) /\
    items ++ in_flight p ++ sent_to sends `sublist_of` items_of b c /\
    (lossy = false -> items `prefix_of` items_of b c) /\
    (lossy = false -> failing p = false -> items ++ in_flight p ++ sent_to sends = items_of b c).

Record producing (c : CopyLog) (x : World (St := St) * Producer * Writes) : Prop := {
  pr_alone : alone x.1.1;
  pr_failed : failing x.1.2 = true -> en_outbound_builds (fst x.1.1) !! id = None;
  pr_sends : x.1.2 <> ProduceDone -> sent_to (wr_sends x.2) = [];
  pr_log : exists s, en_copy_streams (fst x.1.1) !! pt_stream t = Some s /\
    log_ok b history c /\ chunks_ok c x.1.2 /\ stream_ok c x.1.2 (wr_sends x.2) (cs_sent s) /\
    is_none_or (fun catch_up => catch_up <=? wr_highest x.2) (cl_catch_up c) = true /\
    Z.of_nat (length (items_of b c)) < 2 ^ 64 - 1 /\
    forall ob, en_outbound_builds (fst x.1.1) !! id = Some ob -> build_ok c x.1.2 (wr_highest x.2) ob;
}.

(** The log only grows. *)
Definition continues (c : CopyLog) (x : World (St := St) * Producer * Writes) : Prop :=
  exists c', items_of b c `prefix_of` items_of b c' /\ producing c' x.

Lemma same_log c x : producing c x -> continues c x.
Proof. intros Hx. by exists c. Qed.

(** The stream after a send, or after its receiver has taken an item. *)
Lemma take_sent s : cs_sent (take_item s) = cs_sent s.
Proof. unfold cs_sent, take_item. destruct (cs_queue s) eqn:E; simpl; [by rewrite E|by rewrite <-app_assoc]. Qed.
Lemma push_sent item s : cs_sent (push_item item (if stream_waits s then take_item s else s)) = cs_sent s ++ [item].
Proof.
  transitivity (cs_sent (if stream_waits s then take_item s else s) ++ [item]).
  - unfold cs_sent, push_item. simpl. by rewrite app_assoc.
  - by destruct (stream_waits s); rewrite ?take_sent.
Qed.

Lemma u64_next_id z : 0 <= z < 2 ^ 64 - 1 -> u64_next z = z + 1.
Proof. intros Hz. unfold u64_next. apply Z.mod_small. lia. Qed.

(** *** Progress of the task *)

(** Only the build changed, and nothing is in flight before or after. *)
Lemma quiet_ok w w' p p' writes ob s c :
  producing c (w, p, writes) -> en_copy_streams (fst w) !! pt_stream t = Some s ->
  log_ok b history c -> chunks_ok c p' -> stream_ok c p (wr_sends writes) (cs_sent s) ->
  in_flight p = [] -> in_flight p' = [] -> failing p = false -> failing p' = false ->
  p <> ProduceDone ->
  is_none_or (fun catch_up => catch_up <=? wr_highest writes) (cl_catch_up c) = true ->
  Z.of_nat (length (items_of b c)) < 2 ^ 64 - 1 -> build_ok c p' (wr_highest writes) ob ->
  en_outbound_builds (fst w') = <[id := ob]> (en_outbound_builds (fst w)) ->
  en_copy_streams (fst w') = en_copy_streams (fst w) ->
  continues c (w', p', writes).
Proof.
  intros [Halone _ Hsends _] Hs Hlog Hchunks Hsent Hp Hp' Hf Hf' Hdone Hcatch Hlen Hob Hbuilds Hstreams.
  simpl in *. apply same_log. split; simpl; [|congruence|by intros _; apply Hsends|].
  - intros id' ob' Hid. rewrite Hbuilds, lookup_insert_ne by done. by apply Halone.
  - exists s. rewrite Hbuilds, Hstreams, lookup_insert_eq. split_and!; try done.
    + unfold stream_ok in *. rewrite Hp', Hf'. by rewrite Hp, Hf in Hsent.
    + by intros ? [= <-].
Qed.

(** The build has recorded the next item, which is now in flight. *)
Lemma item_recorded_ok w w' p next writes ob s c c' i :
  producing c (w, p, writes) -> en_copy_streams (fst w) !! pt_stream t = Some s ->
  stream_ok c p (wr_sends writes) (cs_sent s) -> in_flight p = [] -> failing p = false ->
  p <> ProduceDone -> items_of b c' = items_of b c ++ [i] ->
  log_ok b history c' -> chunks_ok c' (ProduceSend i next) ->
  is_none_or (fun catch_up => catch_up <=? wr_highest writes) (cl_catch_up c') = true ->
  Z.of_nat (length (items_of b c)) + 1 < 2 ^ 64 - 1 ->
  build_ok c' (ProduceSend i next) (wr_highest writes) ob ->
  en_outbound_builds (fst w') = <[id := ob]> (en_outbound_builds (fst w)) ->
  en_copy_streams (fst w') = en_copy_streams (fst w) ->
  continues c (w', ProduceSend i next, writes).
Proof.
  intros [Halone _ Hsends _] Hs Hsent Hp Hf Hdone Hitems Hlog Hchunks Hcatch Hlen Hob Hbuilds Hstreams.
  specialize (Hsends Hdone). simpl in *. exists c'. split; [rewrite Hitems; by apply prefix_app_r|].
  split; simpl; [|done|done|].
  - intros id' ob' Hid. rewrite Hbuilds, lookup_insert_ne by done. by apply Halone.
  - exists s. rewrite Hbuilds, Hstreams, lookup_insert_eq. split_and!; try done.
    + destruct Hsent as (items & errors & -> & Herr & Hnone & Hsub & Hpre & Heq). exists items, errors.
      rewrite Hsends, Hp, ?app_nil_r in *. simpl. rewrite Hitems. split_and!; try done.
      * auto.
      * by apply sublist_app.
      * intros Hl. by apply prefix_app_r, Hpre.
      * intros Hl _. by rewrite Heq.
    + rewrite Hitems, length_app. simpl. lia.
    + by intros ? [= <-].
Qed.

(** The item in flight is on the stream. *)
Lemma sent_ok c w w' i next writes s s' :
  producing c (w, ProduceSend i next, writes) -> en_copy_streams (fst w) !! pt_stream t = Some s ->
  en_copy_streams (fst w') !! pt_stream t = Some s' -> cs_sent s' = cs_sent s ++ [Ok i] ->
  en_outbound_builds (fst w') = en_outbound_builds (fst w) -> producing c (w', next, writes).
Proof.
  intros [Halone _ Hsends (s0 & Hs0 & Hlog & Hchunks & Hsent & Hcatch & Hlen & Hb)] Hs Hs' Heq Hbuilds.
  simpl in *. rewrite Hs in Hs0. injection Hs0 as <-. specialize (Hsends ltac:(done)).
  assert (failing next = false /\ in_flight next = [] /\ chunks_ok c next) as (Hf & Hi & Hc).
  { by destruct next. }
  split; simpl; [by intros id'; rewrite Hbuilds; apply Halone|congruence|done|].
  exists s'. rewrite Hbuilds. split_and!; try done.
  - destruct Hsent as (items & errors & Hsent & Herr & Hnone & Hsub & Hpre & Hall). specialize (Hnone eq_refl).
    simpl in *. rewrite Heq, Hsent, Hnone, app_nil_r. exists (items ++ [i]), []. unfold in_flight in *.
    rewrite Hi, Hsends, map_app, ?app_nil_r in *. split_and!; try done.
    + intros Hl. by rewrite Hall.
    + intros Hl _. by apply Hall.
  - intros ob Hob. by destruct (Hb ob Hob).
Qed.

Hypothesis boundary_range : i64_range boundary.
Hypothesis history_range : forall l, is_Some (history !! l) -> l <= i64_max.
Hypothesis task_operations :
  map_Forall (fun l o => op_lsn o = l /\ from_history o) (pt_operations t).

(** The number of the next item is in range. *)
Lemma next_sequence w c p highest ob :
  room w -> en_outbound_builds (fst w) !! id = Some ob -> build_ok c p highest ob ->
  Z.of_nat (length (items_of b c)) + 1 < 2 ^ 64 - 1 /\
  u64_next (Z.of_nat (length (items_of b c)) + 1) = Z.of_nat (length (items_of b c)) + 1 + 1.
Proof.
  intros Hroom Hob Hb. pose proof (room_sequences w Hroom ob Hob) as Hn.
  rewrite (bo_next _ _ _ _ Hb) in Hn. split; [done|]. apply u64_next_id. lia.
Qed.

Lemma snapshot_step chunk chunks sequence c w w' p' writes :
  producing c (w, ProduceSnapshot (chunk :: chunks) sequence, writes) -> room w ->
  producer_step t (ProduceSnapshot (chunk :: chunks) sequence) w = (w', Ok p') ->
  continues c (w', p', writes).
Proof.
  intros Hok Hroom Hrun. pose proof Hok as [_ _ _ (s & Hs & Hlog & [_ Hchunks] & Hsent & _ & _ & Hbuild)].
  simpl in *. unfold record_emitted_copy_item in Hrun. task_inv.
  rename a1 into data. rename select (_ !! id = _) into Hob. rename select OutboundBuild into ob.
  destruct (next_sequence _ _ _ _ _ Hroom Hob (Hbuild ob Hob)) as [Hfit Hu].
  destruct (Hbuild ob Hob) as [Hgen Hauth Hstr Hnext Hem Hfin Hpend Hrest (Hcatch & -> & Hcu) Hcov].
  pose proof (items_chunk b c data Hcatch) as Hitems.
  eapply (item_recorded_ok w _ _ _ writes _ s c _ _ Hok Hs Hsent eq_refl eq_refl ltac:(done) Hitems);
    [apply log_ok_start|by simpl; rewrite map_app, <-app_assoc|done|done| |done|done].
  pose proof (f_equal length Hitems) as Hlen. rewrite length_app in Hlen. simpl in Hlen.
  split; simpl in *; try done.
  - rewrite Hnext, Hu, Hlen. lia.
  - rewrite Hitems, emitted_next by done. by rewrite Hem.
  - by rewrite Hfin, Hcatch.
  - rewrite Hu, Hlen. split_and!; [done|lia|done].
  - unfold top_lsn in *. by rewrite (lo_phase b history c Hlog Hcatch) in Hcov.
Qed.

(** A frozen boundary is closed by operations the primary has assigned. *)
Lemma frozen_boundary c p highest ob catch_up :
  build_ok c p highest ob -> cl_catch_up c = None -> cl_operations c = [] -> catch_up <= i64_max ->
  rest_of p = values (pt_operations t) ->
  closes_boundary (size (filter (fun l => boundary < l <= catch_up)
      (dom (pt_operations t) ∪ dom (ob_pending_operations ob))))
    (i64_checked_add boundary 1) catch_up
    (filter (fun l => boundary < l <= catch_up)
       (dom (pt_operations t) ∪ dom (ob_pending_operations ob))) = true ->
  catch_up <= highest.
Proof.
  intros Hb Hc Hops Hmax Hrest Hcloses. destruct (bo_covered _ _ _ _ Hb) as (m & Hm & _ & Hr & _ & Hp & _).
  unfold top_lsn in Hm. rewrite Hops in Hm. simpl in Hm.
  destruct (decide (catch_up <= boundary)) as [Hle|Hgt]; [lia|].
  rewrite i64_next in Hcloses by done.
  assert ((boundary <? i64_max) = true) as Hlt by (apply Z.ltb_lt; lia). rewrite Hlt in Hcloses.
  apply closes_boundary_spec with (k := catch_up) in Hcloses;
    [|unfold i64_range, i64_max in *; lia|done|lia|lia].
  apply elem_of_filter in Hcloses as [_ [Hin|Hin]%elem_of_union]; apply elem_of_dom in Hin.
  - destruct Hin as [o Ho]. destruct (task_operations _ _ Ho) as [<- _].
    assert (op_lsn o <= m); [|lia]. apply Hr. rewrite Hrest. apply elem_of_values. eauto.
  - by apply Hp.
Qed.

Lemma catch_up_range w ob :
  room w -> en_outbound_builds (fst w) !! id = Some ob -> catch_up_boundary t ob (fst w) <= i64_max.
Proof.
  intros Hroom Hob. unfold catch_up_boundary.
  destruct (bp_catch_up_boundary_lsn _) as [l|] eqn:E; simpl; [by eapply room_boundary|].
  pose proof (room_progress w Hroom). unfold i64_range, i64_max in *.
  destruct (last _) as [l|] eqn:El; simpl; [|lia].
  apply last_Some_elem_of in El. apply elem_of_keys in El as [o Ho].
  destruct (task_operations _ _ Ho) as [<- [_ Hh]]. specialize (history_range (op_lsn o)).
  rewrite Hh in history_range. specialize (history_range (mk_is_Some _ _ eq_refl)). lia.
Qed.

Lemma boundary_step sequence c w w' p' writes :
  producing c (w, ProduceBoundary sequence, writes) -> room w ->
  producer_step t (ProduceBoundary sequence) w = (w', Ok p') -> continues c (w', p', writes).
Proof.
  intros Hok Hroom Hrun. pose proof Hok as [_ _ _ (s & Hs & Hlog & Hchunks & Hsent & Hc & Hlen & Hbuild)].
  simpl in *. unfold freeze_build_catch_up_boundary in Hrun. task_inv. simpl in *. simplify_eq.
  rename select (_ !! id = _) into Hob. rename a1 into ob. pose proof (Hbuild ob Hob) as Hbo.
  rename select (negb _ = false) into Hcloses. apply negb_false_iff in Hcloses.
  destruct (bo_phase _ _ _ _ Hbo) as (Hnone & Hseq & Hcu).
  pose proof (frozen_boundary c _ _ ob _ Hbo Hnone (lo_phase _ _ _ Hlog Hnone)
    (catch_up_range w ob Hroom Hob) eq_refl Hcloses) as Hle.
  eapply (quiet_ok w _ _ _ writes _ s c Hok Hs Hlog); [done..| |done|done].
  destruct Hbo. by split.
Qed.

Lemma final_step sequence catch_up c w w' p' writes :
  producing c (w, ProduceFinal sequence catch_up, writes) -> room w ->
  producer_step t (ProduceFinal sequence catch_up) w = (w', Ok p') -> continues c (w', p', writes).
Proof.
  intros Hok Hroom Hrun. pose proof Hok as [_ _ _ (s & Hs & Hlog & Hchunks & Hsent & _ & _ & Hbuild)].
  simpl in *. task_inv. rename select (_ !! id = _) into Hob.
  destruct (next_sequence _ _ _ _ _ Hroom Hob (Hbuild _ Hob)) as [Hfit Hu].
  destruct (Hbuild _ Hob) as [Hgen Hauth Hstr Hnext Hem Hfin Hpend Hrest (Hnone & -> & Hcu & Hfrozen & Hle) Hcov].
  pose proof (items_final b c catch_up Hnone) as Hitems.
  pose proof (f_equal length Hitems) as Hlen. rewrite length_app in Hlen. simpl in Hlen.
  eapply (item_recorded_ok w _ _ _ writes _ s c _ _ Hok Hs Hsent eq_refl eq_refl ltac:(done) Hitems);
    [apply log_ok_start|done|by apply Z.leb_le|done| |done|done].
  split; simpl; try done.
  - rewrite Hu, Hlen. lia.
  - rewrite Hitems, emitted_next by done. by rewrite Hem.
  - f_equal. by rewrite length_items, Hnone.
  - unfold top_lsn in *. by rewrite (lo_phase b history c Hlog Hnone) in Hcov.
Qed.

(** *** What is still to come *)

Lemma covered_next low highest o rest pending :
  covered low highest (o :: rest) pending -> low < op_lsn o ->
  op_lsn o = low + 1 /\ covered (low + 1) highest rest pending.
Proof.
  intros (m & Hm & [Hs Hall]%StronglySorted_inv & Hle & Hin & Hp) Hlow.
  rewrite Forall_forall in Hall. pose proof (Hle o (list_elem_of_here _ _)) as Ho.
  assert (op_lsn o = low + 1) as Heq.
  { destruct (Hin (low + 1)) as (o' & [->|Hin']%elem_of_cons & Hl); [lia|done|].
    specialize (Hall o' Hin'). lia. }
  split; [done|]. exists m. split_and!; [lia|lia|done|set_solver| |apply Hp|apply Hp].
  intros l Hl. destruct (Hin l) as (o' & [->|Hin']%elem_of_cons & Hl'); [lia|lia|eauto].
Qed.

Lemma covered_skip low highest o rest pending :
  covered low highest (o :: rest) pending -> op_lsn o <= low -> covered low highest rest pending.
Proof.
  intros (m & Hm & [Hs _]%StronglySorted_inv & Hle & Hin & Hp) Hlow. exists m.
  split_and!; [lia|lia|done|set_solver| |apply Hp|apply Hp].
  intros l Hl. destruct (Hin l) as (o' & [->|Hin']%elem_of_cons & Hl'); [lia|lia|eauto].
Qed.

Lemma covered_done low highest : covered low highest [] ∅ -> low = highest.
Proof.
  intros (m & Hm & _ & _ & Hin & _ & Hp).
  destruct (decide (low < m)); [destruct (Hin m) as (? & ?%elem_of_nil & _); by lia|].
  destruct (decide (m < highest)); [|lia]. destruct (Hp highest) as [o Ho]; [lia|].
  by rewrite lookup_empty in Ho.
Qed.

Lemma covered_drain low highest pending :
  map_Forall (fun l o => op_lsn o = l /\ from_history o) pending ->
  covered low highest [] pending -> covered low highest (values pending) ∅.
Proof.
  intros Hpend (m & Hm & _ & _ & Hin & Hle & Hp). exists highest.
  assert (low = m) as <-.
  { destruct (decide (low < m)); [destruct (Hin m) as (? & ?%elem_of_nil & _); by lia|lia]. }
  split_and!; [lia|lia|apply values_sorted|..].
  - by intros l o [? _]%Hpend.
  - intros o (l & Hl)%elem_of_values. destruct (Hpend _ _ Hl) as [-> _]. apply Hle. eauto.
  - intros l (o & Ho)%Hp. exists o. rewrite elem_of_values. destruct (Hpend _ _ Ho). eauto.
  - intros l [o Ho]. by rewrite lookup_empty in Ho.
  - lia.
Qed.

Lemma covered_offer low highest rest pending o :
  covered low highest rest pending -> op_lsn o <= highest + 1 ->
  covered low (Z.max highest (op_lsn o)) rest (<[op_lsn o := o]> pending).
Proof.
  intros (m & Hm & Hs & Hle & Hin & Hp & Hmore) Ho. exists m. split_and!; try done; [lia..| |].
  - intros l. rewrite lookup_insert_is_Some. intros [<-|[_ Hl%Hp]]; lia.
  - intros l Hl. rewrite lookup_insert_is_Some. destruct (decide (op_lsn o = l)); [by left|].
    right. split; [done|]. apply Hmore. lia.
Qed.

(** The emitted operations are the LSNs up to the top of the stream. *)
Lemma emitted_iff c ob l :
  log_ok b history c -> ob_emitted ob = emitted_items (items_of b c) ->
  emitted_operation ob l = true <-> boundary < l <= top_lsn b c.
Proof.
  intros Hlog Hob. rewrite (emitted_operation_items b c ob l Hob). unfold top_lsn. split.
  - intros (_ & o & (n & Ho)%list_elem_of_lookup & <-).
    rewrite (lo_contiguous _ _ _ Hlog n o Ho). apply lookup_lt_Some in Ho. lia.
  - intros Hl. destruct (cl_catch_up c) as [x|] eqn:Hc.
    + split; [done|]. destruct (lookup_lt_is_Some_2 (cl_operations c) (Z.to_nat (l - boundary - 1)))
        as [o Ho]; [lia|]. exists o. split; [by eapply list_elem_of_lookup_2|].
      rewrite (lo_contiguous _ _ _ Hlog _ _ Ho). lia.
    + rewrite (lo_phase _ _ _ Hlog Hc) in Hl. simpl in Hl. lia.
Qed.

(** The log with its next operation. *)
Lemma log_ok_next c catch_up o :
  log_ok b history c -> cl_catch_up c = Some catch_up -> op_lsn o = top_lsn b c + 1 ->
  history !! op_lsn o = Some (op_data o) ->
  log_ok b history {| cl_chunks := cl_chunks c; cl_catch_up := Some catch_up;
                      cl_operations := cl_operations c ++ [o] |}.
Proof.
  intros [Hph Hcon Hhist] Hc Ho Hdata. unfold top_lsn in Ho. split; simpl; [done| |].
  - intros n o' [Hn|[Hn Hz]]%lookup_app_Some; [by apply Hcon|].
    apply list_lookup_singleton_Some in Hz as [Hz <-]. lia.
  - intros o' [Hin| ->%list_elem_of_singleton]%elem_of_app; auto.
Qed.

Lemma top_lsn_next c chunks catch_up o :
  top_lsn b {| cl_chunks := chunks; cl_catch_up := catch_up; cl_operations := cl_operations c ++ [o] |}
  = top_lsn b c + 1.
Proof. unfold top_lsn. simpl. rewrite length_app. simpl. lia. Qed.

(** The build once the next operation is numbered. *)
Lemma numbered_ok c c' p p' highest highest' catch_up o ob :
  build_ok c p highest ob -> cl_catch_up c = Some catch_up ->
  u64_next (Z.of_nat (length (items_of b c)) + 1) = Z.of_nat (length (items_of b c)) + 1 + 1 ->
  c' = {| cl_chunks := cl_chunks c; cl_catch_up := Some catch_up;
          cl_operations := cl_operations c ++ [o] |} ->
  Forall from_history (rest_of p') -> phase_ok c' ob highest' p' ->
  covered (top_lsn b c') highest' (rest_of p') (ob_pending_operations ob) ->
  build_ok c' p' highest'
    (ob <| ob_next_sequence := u64_next (ob_next_sequence ob) |>
        <| ob_emitted := <[ob_next_sequence ob :=
             {| ebi_lsn := op_lsn o; ebi_final_item := false; ebi_snapshot_chunk := false |}]>
             (ob_emitted ob) |>).
Proof.
  intros [Hgen Hauth Hstr Hnext Hem Hfin Hpend Hrest Hph Hcov] Hc Hu -> Hrest' Hph' Hcov'.
  pose proof (items_operation b c catch_up o Hc) as Hitems.
  pose proof (f_equal length Hitems) as Hlen. rewrite length_app in Hlen. simpl in Hlen.
  split; simpl; try done.
  - rewrite Hnext, Hu, Hlen. lia.
  - rewrite Hitems, emitted_next by done. by rewrite Hem, Hnext.
  - by rewrite Hfin, Hc.
  - eapply phase_grow; [| | | |exact Hph']; done.
Qed.

Lemma operation_step o operations c w w' p' writes :
  producing c (w, ProduceOperations (o :: operations), writes) -> room w ->
  producer_step t (ProduceOperations (o :: operations)) w = (w', Ok p') -> continues c (w', p', writes).
Proof.
  intros Hok Hroom Hrun. pose proof Hok as [_ _ _ (s & Hs & Hlog & Hchunks & Hsent & Hle & Hlen & Hbuild)].
  simpl in *. unfold emit_copy_operation in Hrun. task_inv.
  rename select (_ !! id = Some _) into Hob. match type of Hob with _ = Some ?x => rename x into ob end.
  pose proof (Hbuild _ Hob) as Hbo.
  destruct (next_sequence _ _ _ _ _ Hroom Hob Hbo) as [Hfit Hu].
  destruct Hbo as [Hgen Hauth Hstr Hnext Hem Hfin Hpend Hrest ([x Hx] & Hcu & Hfrozen) Hcov].
  apply Forall_cons in Hrest as [[Hlow Hhist] Hrest].
  destruct (emitted_operation ob (op_lsn o)) eqn:Hdup; task_inv; cbn [fst snd] in *.
  - rewrite (emitted_iff c ob _ Hlog Hem) in Hdup.
    apply same_log. destruct Hok as [Halone _ Hsends _]. split; simpl; [done|done|by intros _; apply Hsends|].
    exists s. split_and!; try done.
    rewrite Hob. intros ? [= <-]. split; try done. eapply covered_skip; [done|lia].
  - assert (~ op_lsn o <= top_lsn b c) as Hnew.
    { intros ?. cut (emitted_operation ob (op_lsn o) = true); [congruence|].
      apply (emitted_iff c ob _ Hlog Hem). lia. }
    destruct (covered_next _ _ _ _ _ Hcov) as [Hlsn Hcov']; [lia|]. rewrite Hnext.
    eapply (item_recorded_ok w _ _ _ writes _ s c _ _ Hok Hs Hsent eq_refl eq_refl ltac:(done)
              (items_operation b c x o Hx));
      [by apply log_ok_next|done|by rewrite Hx in Hle|done| |by rewrite <-Hnext|done].
    eapply numbered_ok; [by apply Hbuild|done|done|done|done| |by rewrite top_lsn_next].
    simpl. split_and!; [done|done|]. by rewrite Hfrozen, Hx.
Qed.

Lemma pending_step c w w' p' writes :
  producing c (w, ProducePending, writes) ->
  producer_step t ProducePending w = (w', Ok p') -> continues c (w', p', writes).
Proof.
  intros Hok Hrun. pose proof Hok as [_ _ _ (s & Hs & Hlog & Hchunks & Hsent & Hle & Hlen & Hbuild)].
  simpl in *. task_inv. rename a into ob. rename select (_ !! id = _) into Hob.
  destruct (Hbuild _ Hob) as [Hgen Hauth Hstr Hnext Hem Hfin Hpend _ (Hc & Hcu & Hfrozen) Hcov].
  destruct (decide (ob_pending_operations ob = ∅)) as [Hempty|_]; task_inv.
  - eapply (quiet_ok w _ _ _ writes _ s c Hok Hs Hlog); [done..| |done|done]. by split.
  - eapply (quiet_ok w _ _ _ writes _ s c Hok Hs Hlog); [done..| |done|done].
    split; simpl; try done.
    + apply Forall_forall. intros o (l & Hl)%elem_of_values. by apply Hpend in Hl as [_ ?].
    + by apply covered_drain.
Qed.

(** The send the task waited for. *)
Lemma send_step i next c w w' p' writes :
  producing c (w, ProduceSend i next, writes) ->
  producer_step t (ProduceSend i next) w = (w', Ok p') -> continues c (w', p', writes).
Proof.
  intros Hok Hrun. simpl in Hrun. task_inv. rename select (_ !! pt_stream t = Some _) into Hs.
  eapply same_log, sent_ok; [exact Hok|exact Hs| |apply push_sent|done].
  simpl. by rewrite list_lookup_insert_eq by (by eapply lookup_lt_Some).
Qed.

(** *** A step that fails

    It has sent nothing, and touched no build but its own. *)

Record task_local w w' : Prop := {
  tl_others id' : id' <> id -> en_outbound_builds (fst w') !! id' = en_outbound_builds (fst w) !! id';
  tl_streams : en_copy_streams (fst w') = en_copy_streams (fst w);
  tl_generation : (forall ob, en_outbound_builds (fst w) !! id = Some ob ->
                     ob_generation ob = pt_generation t) ->
                  forall ob, en_outbound_builds (fst w') !! id = Some ob ->
                     ob_generation ob = pt_generation t;
}.
#[local] Instance task_local_preorder : PreOrder task_local.
Proof.
  split; [by split|]. intros w1 w2 w3 [Ho Hs Hg] [Ho' Hs' Hg']. split; [|congruence|eauto].
  intros id' Hid. by rewrite Ho', Ho.
Qed.

Definition fails_local {A} (m : engine (St := St) A) : Prop :=
  forall w w' r, m w = (w', r) -> (forall a, r <> Ok a) -> task_local w w'.

Lemma reads_local {A} (m : engine (St := St) A) : reads m -> evolves task_local m.
Proof. intros Hm w. by rewrite (Hm w). Qed.
Lemma local_fails {A} (m : engine (St := St) A) : evolves task_local m -> fails_local m.
Proof. intros Hm w w' r Hrun _. specialize (Hm w). by rewrite Hrun in Hm. Qed.
(** Every result of the operation satisfies [Q]. *)
Definition yields {A} (m : engine (St := St) A) (Q : A -> Prop) : Prop :=
  forall w w' a, m w = (w', Ok a) -> Q a.
Lemma bind_local {A B} Q (m : engine (St := St) A) (k : A -> engine B) :
  evolves task_local m -> yields m Q -> (forall a, Q a -> evolves task_local (k a)) ->
  evolves task_local (m_bind m k).
Proof.
  intros Hm Hq Hk w. unfold m_bind. specialize (Hm w).
  destruct (m w) as [w1 [a|err|]] eqn:E; simpl in *; [|done..].
  etrans; [done|]. eapply Hk, Hq, E.
Qed.
Lemma bind_fails {A B} Q (m : engine (St := St) A) (k : A -> engine B) :
  evolves task_local m -> yields m Q -> (forall a, Q a -> fails_local (k a)) ->
  fails_local (m_bind m k).
Proof.
  intros Hm Hq Hk w w' r. unfold m_bind. specialize (Hm w).
  destruct (m w) as [w1 [a|err|]] eqn:E; simpl in *; [|by intros [= <- _]..].
  intros Hrun Hr. etrans; [done|]. by eapply Hk; [eapply Hq|..].
Qed.
Lemma read_fails {A B} (m : engine (St := St) A) (k : A -> engine B) :
  reads m -> (forall a, fails_local (k a)) -> fails_local (m_bind m k).
Proof. intros Hm Hk. by apply (bind_fails (fun _ => True)); [apply reads_local|..]. Qed.
Lemma last_fails {A B} (m : engine (St := St) A) (f : A -> B) :
  fails_local m -> fails_local (m_bind m (fun a => m_ret (f a))).
Proof.
  intros Hm w w' r. unfold m_bind, m_ret. destruct (m w) as [w1 [x|err|]] eqn:E; intros [= <- <-] Hr;
    [by destruct (Hr (f x))|by eapply Hm..].
Qed.

Definition own (ob : OutboundBuild) : Prop := ob_generation ob = pt_generation t.

Lemma own_build_yields : yields (own_build t) own.
Proof. by intros w w' ob (_ & _ & Hgen)%own_build_inv. Qed.
Lemma same_build_yields message : yields (same_build t message) own.
Proof. by intros w w' ob (_ & _ & Hgen & _)%same_build_inv. Qed.
Lemma own_build_local : evolves task_local (own_build (St := St) t).
Proof. apply reads_local. unfold own_build. auto 6 with reads. Qed.
Lemma same_build_local message : evolves task_local (same_build (St := St) t message).
Proof. apply reads_local. unfold same_build. auto 6 with reads. Qed.

Lemma put_local ob : own ob -> evolves task_local (put_build (St := St) t ob).
Proof.
  intros Hgen w. split; simpl; [|done|].
  - intros id' Hid. by rewrite lookup_insert_ne.
  - intros _ ob'. rewrite lookup_insert_eq. by intros [= <-].
Qed.

Lemma store_local_task {A} (f : AuthorityStore -> contract (AuthorityStore * A)) :
  evolves task_local (transaction (St := St) f).
Proof.
  intros w. destruct (transaction_cases f w) as [(s & a & faults & _ & ->)|(r & faults & _ & ->)];
    by split.
Qed.

Lemma send_fails n item error : fails_local (send_on_stream (St := St) n item error).
Proof.
  unfold send_on_stream. do 3 (apply read_fails; [auto with reads|intros ?]).
  intros w w' r [= <- <-] Hr. by destruct (Hr tt).
Qed.

Lemma reads_check_cancelled : reads (St := St) (check_cancelled t).
Proof. unfold check_cancelled. auto with reads. Qed.
Hint Resolve reads_check_cancelled : reads.

Lemma freeze_fails : fails_local (freeze_build_catch_up_boundary (St := St) t).
Proof.
  assert (reads (St := St) (check_copy_producer t)) as Hc by (unfold check_copy_producer; auto with reads).
  assert (forall message, reads (St := St) (same_build t message)) as Hsame
    by (intros message; unfold same_build; auto 6 with reads).
  unfold freeze_build_catch_up_boundary.
  do 6 (apply read_fails; [auto with reads|intros ?]).
  apply (bind_fails (fun _ => True)); [apply store_local_task|done|intros _ _].
  apply read_fails; [done|intros _].
  apply (bind_fails own); [apply same_build_local|apply same_build_yields|intros ob Hob].
  eapply (last_fails _ (fun _ => _)), local_fails, put_local. done.
Qed.

Lemma producer_fails p : fails_local (producer_step (St := St) t p).
Proof.
  assert (forall ob (k : engine (St := St) Producer), own ob -> fails_local k ->
            fails_local (m_bind (put_build t ob) (fun _ => k))) as Hput.
  { intros ob k Hob Hk. apply (bind_fails (fun _ => True)); [by apply put_local|done|done]. }
  destruct p as [i next|[|chunk chunks] sequence|sequence|sequence catch_up|[|o operations]| | |error|]; simpl.
  - apply (last_fails _ (fun _ => next)), send_fails.
  - apply (last_fails _ (fun _ => ProduceBoundary sequence)), local_fails, reads_local. auto with reads.
  - do 3 (apply read_fails; [auto with reads|intros ?]).
    apply (last_fails _ (fun _ => _)), local_fails.
    apply (bind_local own); [apply own_build_local|apply own_build_yields|intros ob Hob].
    by apply put_local.
  - apply (last_fails _ (fun boundary => ProduceFinal sequence boundary)), freeze_fails.
  - apply (bind_fails own); [apply own_build_local|apply own_build_yields|intros ob Hob].
    apply Hput; [done|]. apply local_fails, reads_local. auto with reads.
  - apply local_fails, reads_local. auto with reads.
  - unfold emit_copy_operation. apply read_fails; [auto with reads|intros _].
    apply (bind_fails own); [apply own_build_local|apply own_build_yields|intros ob Hob].
    destruct (emitted_operation _ _); [apply local_fails, reads_local; auto with reads|].
    apply Hput; [done|]. apply local_fails, reads_local. auto with reads.
  - apply (bind_fails own); [apply own_build_local|apply own_build_yields|intros ob Hob].
    destruct (decide _); (apply Hput; [done|]); apply local_fails, reads_local; auto with reads.
  - apply local_fails, reads_local. auto with reads.
  - intros w w' r [= <- <-] Hr. by destruct (Hr ProduceFailed).
  - apply local_fails, reads_local. auto with reads.
Qed.

(** *** A step never panics *)

Lemma fail_if_calm c error : calm (fail_if (St := St) c error).
Proof. apply calm_lift, reject_no_panic. Qed.
Lemma ok_or_calm {A} (o : option A) error :
  calm (m_lift (ok_or o error) : engine (St := St) A).
Proof. apply calm_lift, ok_or_no_panic. Qed.
Lemma get_engine_calm : calm (get_engine (St := St)).
Proof. done. Qed.
Lemma modify_engine_calm f : calm (modify_engine (St := St) f).
Proof. done. Qed.
Hint Resolve fail_if_calm ok_or_calm get_engine_calm modify_engine_calm : calm.

Lemma generation_calm g : calm (check_delivery_generation (St := St) g).
Proof. unfold check_delivery_generation, check_aborted. auto 6 with calm. Qed.
Lemma own_build_calm : calm (own_build (St := St) t).
Proof. unfold own_build. auto 6 with calm. Qed.
Lemma same_build_calm message : calm (same_build (St := St) t message).
Proof. unfold same_build. auto 6 with calm. Qed.
Lemma put_build_calm ob : calm (put_build (St := St) t ob).
Proof. done. Qed.
Lemma send_calm n item error : calm (send_on_stream (St := St) n item error).
Proof. unfold send_on_stream. auto 6 with calm. Qed.
Lemma check_cancelled_calm : calm (check_cancelled (St := St) t).
Proof. unfold check_cancelled. auto with calm. Qed.
Hint Resolve generation_calm own_build_calm same_build_calm put_build_calm send_calm
  check_cancelled_calm : calm.

Lemma transaction_calm {A} (f : AuthorityStore -> contract (AuthorityStore * A)) :
  (forall s, f s <> Panic) -> calm (transaction (St := St) f).
Proof.
  intros Hf w. unfold transaction. destruct (en_faults (fst w)) as [|[m|] fs]; simpl; [|done|];
    (destruct (f _) as [[]|c|] eqn:E; [done|done|by apply Hf in E]).
Qed.
Lemma record_progress_calm p selection : calm (store_write (St := St) (record_build_progress p selection)).
Proof. apply transaction_calm. intros s. unfold record_build_progress. no_panic; auto with no_panic. Qed.
Hint Resolve record_progress_calm : calm.

Hypothesis snapshot_results : Forall (fun r => r <> Panic) snapshot.

Lemma producer_calm c w p writes :
  producing c (w, p, writes) -> snd (producer_step t p w) <> Panic.
Proof.
  intros [_ _ _ (s & _ & _ & Hchunks & _)]. simpl in Hchunks. revert w.
  change (calm (producer_step (St := St) t p)).
  destruct p as [i next|[|chunk chunks] sequence|sequence|sequence catch_up|[|o operations]| | |error|];
    simpl in *; auto 6 with calm.
  - unfold send_copy_item. auto with calm.
  - apply calm_bind; [auto with calm|intros _]. apply calm_bind; [auto with calm|intros _].
    apply calm_bind; [|intros data; apply calm_bind; [|done]; unfold record_emitted_copy_item; auto with calm].
    apply calm_lift. destruct Hchunks as [_ Hchunks]. rewrite <-Hchunks in snapshot_results.
    apply Forall_app in snapshot_results as [_ Hrest]. by apply Forall_cons in Hrest as [? _].
  - apply calm_bind; [|auto with calm]. unfold freeze_build_catch_up_boundary, check_copy_producer.
    auto 20 with calm.
  - unfold emit_copy_operation. auto 10 with calm.
  - apply calm_bind; [auto with calm|intros ob]. destruct (decide _); auto with calm.
  - done.
Qed.

(** *** The task's step *)

Lemma chunks_fail c p error : chunks_ok c p -> chunks_ok c (ProduceError error).
Proof.
  assert (forall rest, cl_catch_up c = None /\ map Ok (cl_chunks c) ++ rest = snapshot ->
            chunks_ok c (ProduceError error)) as Hpre.
  { intros rest [Hc Hall]. split; [rewrite <-Hall; by apply prefix_app_r|]. rewrite Hc. by intros []. }
  assert (map Ok (cl_chunks c) = snapshot -> chunks_ok c (ProduceError error)) as Heq.
  { intros Heq. split; [|done]. by rewrite Heq. }
  destruct p as [i [| | | | | | | |]| | | | | | | |]; simpl in *; eauto; done.
Qed.

(** What failed to be sent is not on the stream. *)
Lemma stream_fails c p error sends sent :
  stream_ok c p sends sent -> sent_to sends = [] -> failing p = false ->
  stream_ok c (ProduceError error) sends sent.
Proof.
  intros (items & errors & Hsent & Herr & Hnone & Hsub & Hpre & _) Hsends Hp.
  exists items, errors. simpl. rewrite Hsends, app_nil_r in *. split_and!; try done.
  etrans; [|exact Hsub]. by apply sublist_inserts_r.
Qed.

Lemma send_error_streams error w :
  let w' := fst (send_on_stream (pt_stream t) (Err error) Closed w) in
  en_outbound_builds (fst w') = en_outbound_builds (fst w) /\
  forall s, en_copy_streams (fst w) !! pt_stream t = Some s ->
    exists s' errors, en_copy_streams (fst w') !! pt_stream t = Some s' /\
      cs_sent s' = cs_sent s ++ errors /\ Forall (fun r => exists e, r = Err e) errors.
Proof.
  unfold send_on_stream, m_bind, get_engine, m_lift. simpl.
  destruct (en_copy_streams (fst w) !! pt_stream t) as [s|] eqn:Hs; simpl; [|done].
  destruct (cs_open s) eqn:Hopen; simpl.
  - split; [done|]. intros ? [= <-]. rewrite list_lookup_insert_eq by (by eapply lookup_lt_Some).
    eexists _, [Err error]. split_and!; [done|apply push_sent|]. repeat constructor. eauto.
  - split; [done|]. intros ? [= <-]. exists s, []. rewrite app_nil_r. by split_and!.
Qed.

Lemma failed_ok c w w' p writes error :
  producing c (w, p, writes) -> failing p = false -> p <> ProduceDone -> task_local w w' ->
  producing c (fst (drop_build id (pt_generation t) w'), ProduceError error, writes).
Proof.
  intros [Halone _ Hsends (s & Hs & Hlog & Hchunks & Hsent & Hle & Hlen & Hb)] Hp Hdone
    [Hothers Hstreams Hgen].
  cbn [fst snd] in *. set (w1 := fst (drop_build id (pt_generation t) w')).
  assert (en_outbound_builds (fst w1) = delete id (en_outbound_builds (fst w')) /\
          en_copy_streams (fst w1) = en_copy_streams (fst w)) as [Hdrop Hw1].
  { subst w1. simpl. destruct (en_outbound_builds (fst w') !! id) as [ob|] eqn:E; simpl.
    - rewrite bool_decide_eq_true_2; [done|]. apply Hgen; [|done]. intros ob0 Hob0. apply (Hb ob0 Hob0).
    - by rewrite delete_id. }
  split; cbn [fst snd].
  - intros id' ob Hid. rewrite Hdrop, lookup_delete_ne, Hothers by done. by apply Halone.
  - intros _. by rewrite Hdrop, lookup_delete_eq.
  - intros _. by apply Hsends.
  - exists s. rewrite Hw1, Hdrop, lookup_delete_eq.
    split_and!; [done|done|by eapply chunks_fail|by eapply stream_fails; [|apply Hsends|]|done|done|done].
Qed.

(** The error is sent, or the receiver is gone. *)
Lemma reported_ok c w error writes :
  producing c (w, ProduceError error, writes) ->
  producing c (fst (send_on_stream (pt_stream t) (Err error) Closed w), ProduceFailed, writes).
Proof.
  intros [Halone Hfailed Hsends (s & Hs & Hlog & Hchunks & Hsent & Hle & Hlen & _)].
  destruct (send_error_streams error w) as [Hbuilds Hsend]. cbn [fst snd] in *.
  destruct (Hsend s Hs) as (s' & errors & Hs' & Hsent' & Herrors).
  specialize (Hfailed eq_refl). specialize (Hsends ltac:(done)).
  split; cbn [fst snd]; [by intros id'; rewrite Hbuilds; apply Halone|by rewrite Hbuilds|done|].
  exists s'. rewrite Hbuilds, Hfailed, Hsent'. split_and!; try done.
  destruct Hsent as (items & errors0 & -> & Herr & _ & Hsub & Hpre & _).
  exists items, (errors0 ++ errors). rewrite <-app_assoc. split_and!; try done. by apply Forall_app.
Qed.

Lemma produce_ok c w p writes :
  producing c (w, p, writes) -> room w -> continues c (produce_step t p w, writes).
Proof.
  intros Hok Hroom. unfold produce_step. destruct (send_waits _ _ _); [by apply same_log|].
  pose proof (producer_calm c w p writes Hok) as Hcalm.
  destruct (producer_step t p w) as [w' [p'|error|]] eqn:Hrun; simpl in Hcalm; [|clear Hcalm|done].
  - destruct p as [i next|[|chunk chunks] sequence|sequence|sequence catch_up|[|o operations]| | |error|].
    + by eapply send_step.
    + simpl in Hrun. task_inv.
      destruct Hok as [Halone _ Hsends (s & Hs & Hlog & [Hcu Hchunks] & Hsent & Hle & Hlen & Hb)].
      apply same_log. split; [done|done|by intros _; apply Hsends|]. exists s. simpl in *. rewrite app_nil_r in Hchunks.
      split_and!; try done. intros ob Hob. by destruct (Hb ob Hob).
    + by eapply snapshot_step.
    + by eapply boundary_step.
    + by eapply final_step.
    + simpl in Hrun. task_inv.
      destruct Hok as [Halone _ Hsends (s & Hs & Hlog & Hchunks & Hsent & Hle & Hlen & Hb)].
      apply same_log. split; [done|done|by intros _; apply Hsends|]. exists s. split_and!; try done.
      intros ob Hob. by destruct (Hb ob Hob).
    + by eapply operation_step.
    + by eapply pending_step.
    + simpl in Hrun. task_inv. by apply same_log.
    + injection Hrun as <- <-. by apply same_log, reported_ok.
    + simpl in Hrun. task_inv. by apply same_log.
  - assert (task_local w w') by (by eapply (producer_fails p); [exact Hrun|]).
    eapply same_log, failed_ok; [done|by destruct p; simplify_eq/=|by intros ->|done].
Qed.

(** *** Writes offered to the build *)

Lemma send_refused n item error e w w' : send_on_stream n item error w = (w', Err e) -> w' = w.
Proof.
  unfold send_on_stream, m_bind, get_engine, m_lift, fail_if. simpl.
  destruct (_ !! n) as [s|]; simpl; [|by intros [= <-]]. destruct (cs_open s); simpl; by intros [= <-].
Qed.

Lemma sent_to_cons n i sends :
  sent_to ((n, i) :: sends) = (if decide (n = pt_stream t) then [i] else []) ++ sent_to sends.
Proof. unfold sent_to. cbn. by destruct (decide _). Qed.

Definition live (offers : list (string * (OutboundBuild * option (nat * CopyItem)))) :=
  omap (fun x => snd (snd x)) offers.

Lemma live_cons id' ob item offers :
  sent_to (live ((id', (ob, item)) :: offers))
  = match item with Some (n, i) => if decide (n = pt_stream t) then [i] else [] | None => [] end
    ++ sent_to (live offers).
Proof. unfold live. cbn. destruct item as [[n i]|]; [apply sent_to_cons|done]. Qed.

Lemma live_nil offers :
  (forall id' ob n i, (id', (ob, Some (n, i))) ∈ offers -> n <> pt_stream t) -> sent_to (live offers) = [].
Proof.
  induction offers as [|[id' [ob item]] offers IH]; intros Hall; [done|]. rewrite live_cons.
  rewrite IH by (intros; eapply Hall; by right). rewrite app_nil_r.
  destruct item as [[n i]|]; [|done]. rewrite decide_False; [done|]. eapply Hall. by left.
Qed.

Lemma live_perm offers offers' : offers ≡ₚ offers' -> sent_to (live offers) ≡ₚ sent_to (live offers').
Proof. intros Hp. unfold sent_to, live. by rewrite Hp. Qed.

(** Only the task's own build sends on its stream. *)
Lemma sent_to_own (offers : gmap string (OutboundBuild * option (nat * CopyItem))) :
  (forall id' x n i, id' <> id -> offers !! id' = Some x -> x.2 = Some (n, i) -> n <> pt_stream t) ->
  sent_to (live (in_key_order offers)) =
    match offers !! id with
    | Some (_, Some (n, i)) => if decide (n = pt_stream t) then [i] else []
    | _ => []
    end.
Proof.
  intros Hothers. set (x := offers !! id).
  assert (sent_to (live (map_to_list (delete id offers))) = []) as Hrest.
  { apply live_nil. intros id' ob n i. rewrite elem_of_map_to_list.
    intros (Hid & Hl)%lookup_delete_Some. by eapply Hothers. }
  assert (sent_to (live (in_key_order offers)) ≡ₚ
            sent_to (live (match x with Some y => [(id, y)] | None => [] end))) as Hperm.
  { transitivity (sent_to (live (map_to_list offers))); [apply live_perm, merge_sort_Permutation|].
    subst x. destruct (offers !! id) as [[ob item]|] eqn:E.
    - rewrite <-(insert_delete_id offers id _ E) at 1.
      rewrite (live_perm _ _ (map_to_list_insert _ _ _ (lookup_delete_eq _ _))).
      by rewrite !live_cons, Hrest.
    - rewrite <-(delete_id offers id E) at 1. by rewrite Hrest. }
  destruct x as [[ob [[n i]|]]|]; [|by apply Permutation_nil_r in Hperm..].
  rewrite live_cons, app_nil_r in Hperm. destruct (decide (n = pt_stream t)).
  - by apply Permutation_singleton_r in Hperm.
  - by apply Permutation_nil_r in Hperm.
Qed.

Lemma offer_stream o ob : ob_stream (fst (offer_to_build o ob)) = ob_stream ob.
Proof. unfold offer_to_build, number_operation. do 2 (destruct (_ || _); [done|]). done. Qed.
Lemma offer_item o ob n i : snd (offer_to_build o ob) = Some (n, i) -> ob_stream ob = Some n.
Proof.
  unfold offer_to_build, number_operation. do 2 (destruct (_ || _); [done|]). simpl.
  destruct (ob_stream ob); simpl; congruence.
Qed.

(** The offer as the task's build sees it: passed over, queued, or sent. *)
Lemma offer_cases c p highest ob o :
  build_ok c p highest ob -> log_ok b history c -> chunks_ok c p -> op_lsn o <= highest + 1 ->
  history !! op_lsn o = Some (op_data o) ->
  u64_next (Z.of_nat (length (items_of b c)) + 1) = Z.of_nat (length (items_of b c)) + 1 + 1 ->
  let highest' := Z.max highest (op_lsn o) in
  (snd (offer_to_build o ob) = None /\ build_ok c p highest' (fst (offer_to_build o ob))) \/
  (exists catch_up i c', cl_catch_up c = Some catch_up /\ p = ProduceDone /\
     snd (offer_to_build o ob) = Some (pt_stream t, i) /\
     c' = {| cl_chunks := cl_chunks c; cl_catch_up := Some catch_up;
             cl_operations := cl_operations c ++ [o] |} /\
     items_of b c' = items_of b c ++ [i] /\ log_ok b history c' /\
     build_ok c' p highest' (fst (offer_to_build o ob))).
Proof.
  intros Hbo Hlog Hchunks Ho Hdata Hu highest'.
  pose proof Hbo as [Hgen Hauth Hstr Hnext Hem Hfin Hpend Hrest Hph Hcov].
  assert (top_lsn b c <= highest) as Htop by (destruct Hcov as (m & ? & _); lia).
  assert (boundary <= top_lsn b c) as Hbt by (unfold top_lsn; lia).
  unfold offer_to_build. rewrite Hauth.
  destruct ((op_lsn o <=? boundary) || emitted_operation ob (op_lsn o)) eqn:Hskip; simpl.
  { left. split; [done|]. assert (op_lsn o <= top_lsn b c) as Hle.
    { apply orb_true_iff in Hskip as [?%Z.leb_le|?%(emitted_iff c ob _ Hlog Hem)]; lia. }
    subst highest'. by rewrite Z.max_l by lia. }
  apply orb_false_iff in Hskip as [Hlow%Z.leb_gt Hnew].
  destruct (is_none (ob_final_sequence ob) || ob_catching_up ob) eqn:Hqueue; simpl.
  - left. split; [done|]. split; simpl; try done.
    + by apply map_Forall_insert_2.
    + eapply phase_grow; [..|exact Hph]; [done| |done|subst highest'; lia].
      intros Hcu. rewrite (phase_done c ob highest p) in Hph by done. destruct Hph as ([x Hx] & _).
      rewrite Hfin, Hx, Hcu in Hqueue. done.
    + by apply covered_offer.
  - right. apply orb_false_iff in Hqueue as [_ Hqueue].
    assert (p = ProduceDone) as -> by (by eapply phase_done).
    destruct Hph as ([x Hx] & Hcu & Hempty & Hfrozen). simpl in Hcov. rewrite Hempty in Hcov.
    apply covered_done in Hcov as Hhigh.
    assert (op_lsn o = top_lsn b c + 1) as Hlsn.
    { assert (~ op_lsn o <= top_lsn b c); [|lia]. intros ?.
      cut (emitted_operation ob (op_lsn o) = true); [congruence|].
      apply (emitted_iff c ob _ Hlog Hem). lia. }
    rewrite Hstr, Hnext, Hauth. simpl. eexists x, _, _. split_and!; try done.
    + by rewrite items_operation.
    + by apply log_ok_next.
    + rewrite <-Hnext, <-Hstr.
      apply (numbered_ok c _ _ ProduceDone highest highest' x o ob Hbo); [done|done|done|done| |].
      * simpl. rewrite Hfrozen, Hx. by split_and!.
      * simpl. rewrite top_lsn_next, Hempty. subst highest'. rewrite Z.max_r by lia. rewrite Hlsn.
        exists (top_lsn b c + 1). split_and!; try lia; [constructor|by intros ? ?%elem_of_nil|].
        intros l [? Hl]. by rewrite lookup_empty in Hl.
Qed.

(** What the task sees of an offer: its own build, and its own items. *)
Lemma offer_builds o w w' items id' :
  record_offer o w = (w', Ok items) ->
  en_outbound_builds (fst w') !! id'
    = (fun ob => fst (offer_to_build o ob)) <$> en_outbound_builds (fst w) !! id'.
Proof.
  unfold record_offer. intros Hrun. e_inv. simpl. by rewrite !lookup_fmap, <-option_fmap_compose.
Qed.

Lemma offer_effect o w w' items :
  record_offer o w = (w', Ok items) -> alone w ->
  alone w' /\ en_copy_streams (fst w') = en_copy_streams (fst w) /\
  en_outbound_builds (fst w') !! id
    = (fun ob => fst (offer_to_build o ob)) <$> en_outbound_builds (fst w) !! id /\
  sent_to items =
    match en_outbound_builds (fst w) !! id ≫= (fun ob => snd (offer_to_build o ob)) with
    | Some (n, i) => if decide (n = pt_stream t) then [i] else []
    | None => []
    end.
Proof.
  intros Hrun Halone. pose proof (fun id' => offer_builds o w w' items id' Hrun) as Hw'.
  unfold record_offer in Hrun. e_inv. cbn [fst snd en_outbound_builds en_copy_streams] in *.
  split_and!; [|done|done|].
  - intros id' ob Hid. rewrite Hw'. intros (ob0 & Hob0 & ->)%fmap_Some. rewrite offer_stream.
    by apply (Halone id').
  - fold (live (in_key_order (offer_to_build o <$> en_outbound_builds (fst w)))). rewrite sent_to_own.
    + rewrite lookup_fmap. destruct (en_outbound_builds (fst w) !! id) as [ob|]; simpl; [|done].
      by destruct (offer_to_build o ob) as [ob' [[n i]|]].
    + intros id' [ob' x] n i Hid Hl Hx. rewrite lookup_fmap in Hl.
      apply fmap_Some in Hl as (ob & Hob & Heq). simpl in Hx. subst x. intros ->.
      eapply (Halone id' ob Hid Hob), (offer_item o ob _ i). by rewrite <-Heq.
Qed.

(** The stream with an item of a write still to be sent on it. *)
Lemma stream_offer c c' sends i sent :
  stream_ok c ProduceDone [] sent -> items_of b c' = items_of b c ++ [i] -> sent_to sends = [i] ->
  stream_ok c' ProduceDone sends sent.
Proof.
  intros (items & errors & Hsent & Herr & Hnone & Hsub & Hpre & Heq) Hitems Hsends.
  exists items, errors. simpl in *. rewrite app_nil_r in *. rewrite Hsends, Hitems. split_and!; try done.
  - by apply sublist_app.
  - intros Hl. by apply prefix_app_r, Hpre.
  - intros Hl _. by rewrite Heq.
Qed.

Lemma stream_sends c p sends sends' sent :
  sent_to sends' = sent_to sends -> stream_ok c p sends sent -> stream_ok c p sends' sent.
Proof. unfold stream_ok. by intros ->. Qed.

Lemma offer_ok c o w w' p items highest :
  producing c (w, p, no_writes highest) -> room w -> history !! op_lsn o = Some (op_data o) ->
  op_lsn o <= highest + 1 -> record_offer o w = (w', Ok items) ->
  continues c (w', p, {| wr_highest := Z.max highest (op_lsn o); wr_sends := items |}).
Proof.
  intros Hok Hroom Hdata Ho Hrun.
  pose proof Hok as [Halone Hfailed _ (s & Hs & Hlog & Hchunks & Hsent & Hle & Hlen & Hb)].
  destruct (offer_effect o w w' items Hrun Halone) as (Halone' & Hs' & Hw' & Hitems).
  assert (is_none_or (fun catch_up => catch_up <=? Z.max highest (op_lsn o)) (cl_catch_up c) = true) as Hle'.
  { destruct (cl_catch_up c); simpl in *; [|done]. apply Z.leb_le in Hle. apply Z.leb_le. lia. }
  cbn [fst snd wr_highest wr_sends no_writes] in *. rewrite <-Hs' in Hs.
  destruct (en_outbound_builds (fst w) !! id) as [ob|] eqn:Hob; simpl in Hitems, Hw'.
  - pose proof (next_sequence _ _ _ _ _ Hroom Hob (Hb ob eq_refl)) as [Hfit Hu].
    destruct (offer_cases c p highest ob o (Hb ob eq_refl) Hlog Hchunks Ho Hdata Hu)
      as [[Hitem Hob']|(x & i & c' & Hx & -> & Hitem & Hc' & Hnew & Hlog' & Hob')];
      rewrite Hitem in Hitems; cbn [fst snd] in Hitems.
    + apply same_log. split; [done|by intros Hp%Hfailed|done|]. exists s. cbn [fst snd wr_highest wr_sends].
      rewrite Hw'. split_and!; try done; [by apply (stream_sends c p [])|]. by intros ? [= <-].
    + rewrite decide_True in Hitems by done. exists c'. split; [rewrite Hnew; by apply prefix_app_r|].
      split; [done|done|done|]. exists s.
      cbn [fst snd wr_highest wr_sends]. rewrite Hw'. subst c'. rewrite Hx in Hle'. split_and!; try done.
      * by eapply stream_offer.
      * rewrite Hnew, length_app. simpl. lia.
      * by intros ? [= <-].
  - apply same_log. split; cbn [fst snd wr_highest wr_sends]; [done|by intros _; rewrite Hw'|done|].
    exists s. rewrite Hw'. split_and!; try done. by apply (stream_sends c p []).
Qed.

(** A send of the write, on this stream or another. *)
Lemma live_send_ok c n i rest w w' p highest :
  producing c (w, p, {| wr_highest := highest; wr_sends := (n, i) :: rest |}) ->
  send_on_stream n (Ok i) Closed w = (w', Ok tt) ->
  producing c (w', p, {| wr_highest := highest; wr_sends := rest |}).
Proof.
  intros [Halone Hfailed Hsends (s & Hs & Hlog & Hchunks & Hsent & Hle & Hlen & Hb)]
    (s1 & Hs1 & ->)%send_inv.
  cbn [fst snd wr_highest wr_sends] in *. rewrite sent_to_cons in Hsends.
  destruct (decide (n = pt_stream t)) as [->|Hne].
  - assert (p = ProduceDone) as -> by (destruct p; done || by specialize (Hsends ltac:(done))).
    rewrite Hs in Hs1. injection Hs1 as <-. split; cbn [fst snd wr_highest wr_sends]; [done..|].
    eexists. cbn [en_copy_streams en_outbound_builds]. simpl.
    rewrite list_lookup_insert_eq by (by eapply lookup_lt_Some). split_and!; try done.
    destruct Hsent as (items & errors & Hsent & Herr & Hnone & Hsub & Hpre & Heq). specialize (Hnone eq_refl).
    subst errors. rewrite sent_to_cons, decide_True in * by done. simpl in *.
    exists (items ++ [i]), []. rewrite push_sent, Hsent, map_app, !app_nil_r, <-app_assoc. simpl.
    split_and!; try done. intros Hl. rewrite <-Heq by done. exists (sent_to rest). by rewrite <-app_assoc.
  - split; cbn [fst snd wr_highest wr_sends]; [done..|]. exists s. simpl.
    rewrite list_lookup_insert_ne by done. split_and!; try done.
    eapply stream_sends; [|exact Hsent]. by rewrite sent_to_cons, decide_False.
Qed.

(** The write ends with items unsent. *)
Lemma given_up_ok c w w' p writes :
  lossy = true -> producing c (w, p, writes) -> fst w' = fst w ->
  producing c (w', p, no_writes (wr_highest writes)).
Proof.
  intros Hl [Halone Hfailed Hsends (s & Hs & Hlog & Hchunks & Hsent & Hle & Hlen & Hb)] Heq.
  unfold alone in *. cbn [fst snd] in *. split; unfold alone; cbn [fst snd]; rewrite ?Heq; try done.
  exists s. cbn [wr_highest wr_sends no_writes]. split_and!; try done.
  destruct Hsent as (items & errors & Hsent & Herr & Hnone & Hsub & Hpre & _).
  exists items, errors. rewrite Hl. split_and!; try done.
  etrans; [|exact Hsub]. apply sublist_app; [done|]. apply sublist_app; [done|]. apply sublist_nil_l.
Qed.

(** *** Acknowledgements *)

(** What an acknowledgement leaves of a build: all but the acknowledged part of
    its progress. *)
Record acknowledges k w w' : Prop := {
  ak_streams : en_copy_streams (fst w') = en_copy_streams (fst w);
  ak_builds id' : en_outbound_builds (fst w') !! id' = en_outbound_builds (fst w) !! id' \/
    exists ob, id' = ca_build_id k /\ en_outbound_builds (fst w) !! id' = Some ob /\
      en_outbound_builds (fst w')
        !! id' = Some (ob <| ob_progress := acknowledged_progress k (ob_progress ob) |>);
}.

Lemma store_write_builds f w w' r :
  store_write f w = (w', r) ->
  en_copy_streams (fst w') = en_copy_streams (fst w) /\
  en_outbound_builds (fst w') = en_outbound_builds (fst w).
Proof.
  unfold store_write. match goal with |- transaction ?g w = _ -> _ =>
    destruct (transaction_cases g w) as [(x & a & faults & _ & ->)|(r' & faults & _ & ->)] end;
    by intros [= <- _].
Qed.

Lemma acknowledgement_builds k w : acknowledges k w (fst (accept_copy_acknowledgement k w)).
Proof.
  assert (acknowledges k w w) as Hrefl by (split; [done|by left]).
  unfold accept_copy_acknowledgement. apply reads_bind; [auto with reads|done|]. intros e [= <-].
  apply reads_bind; [auto with reads|done|]. intros ob [= Hob]. apply ok_or_ok in Hob.
  do 3 (apply reads_bind; [auto with reads|done|]; intros [] _).
  apply m_bind_ends.
  { intros w1 r [Hs Hb]%store_write_builds _. split; [done|]. left. by rewrite Hb. }
  intros w1 [] [Hs Hb]%store_write_builds.
  assert (acknowledges k w w1) as Hw1 by (split; [done|left; by rewrite Hb]).
  apply reads_bind; [auto with reads|done|]. intros [] _.
  apply reads_bind; [auto with reads|done|]. intros e [= <-].
  apply reads_bind; [auto with reads|done|]. intros ob' [= Hob']. apply ok_or_ok in Hob'.
  rewrite Hb, Hob in Hob'. injection Hob' as <-.
  apply reads_bind; [auto with reads|done|]. intros [] _. split; simpl; [done|]. intros id'.
  destruct (decide (id' = ca_build_id k)) as [->|Hid].
  - right. rewrite lookup_insert_eq. by eexists ob.
  - left. by rewrite lookup_insert_ne, Hb.
Qed.

Lemma acknowledgement_ok c k w p writes :
  producing c (w, p, writes) -> producing c (fst (accept_copy_acknowledgement k w), p, writes).
Proof.
  destruct (acknowledgement_builds k w) as [Hstreams Hbuilds].
  intros [Halone Hfailed Hsends (s & Hs & Hlog & Hchunks & Hsent & Hle & Hlen & Hb)]. cbn [fst snd] in *.
  split; cbn [fst snd]; [| |done|].
  - intros id' ob Hid Hob. destruct (Hbuilds id') as [Heq|(ob0 & _ & Hob0 & Heq)];
      rewrite Heq in Hob; [by eapply Halone|]. injection Hob as <-. simpl. by eapply Halone.
  - intros Hp%Hfailed. destruct (Hbuilds id) as [->|(ob0 & _ & Hob0 & _)]; [done|congruence].
  - exists s. rewrite Hstreams. split_and!; try done. intros ob Hob.
    destruct (Hbuilds id) as [Heq|(ob0 & _ & Hob0 & Heq)]; rewrite Heq in Hob; [by apply Hb|].
    injection Hob as <-. pose proof (Hb ob0 Hob0) as Hob0'. destruct Hob0'. split; try done.
    by eapply (phase_grow c ob0); [..|apply (Hb ob0 Hob0)].
Qed.

(** *** The receiver *)

Definition on_stream (f : CopyStream -> CopyStream) w : World :=
  ((fst w) <| en_copy_streams := alter f (pt_stream t) (en_copy_streams (fst w)) |>, snd w).

Lemma receiver_ok c f w p writes :
  (forall s, cs_sent (f s) = cs_sent s) -> producing c (w, p, writes) -> producing c (on_stream f w, p, writes).
Proof.
  intros Hf [Halone Hfailed Hsends (s & Hs & Hlog & Hchunks & Hsent & Hle & Hlen & Hb)].
  cbn [fst snd] in *. split; [done..|]. exists (f s). cbn [fst snd]. simpl.
  rewrite list_lookup_alter, decide_True, Hs, Hf by done. by split_and!.
Qed.

Lemma receive_sent s : cs_sent (if cs_open s then take_item s else s) = cs_sent s.
Proof. destruct (cs_open s); [apply take_sent|done]. Qed.

(** *** Whatever happens *)

Lemma copy_step_ok c x y : producing c x -> copy_step x y -> continues c y.
Proof.
  intros Hok Hstep. destruct Hstep as [w p writes Hroom _|w w' p writes writes' Hstep];
    [by apply produce_ok|].
  inversion Hstep as [o items ? ? highest Hroom Hdata Ho Hrun|n i rest ? ? highest _ Hrun
    |n i rest ? ? error highest Hl Hrun|? ? Hl|k ? ? _|? ?|? ?|? ? ? Hb Hs Halone]; subst; clear Hstep.
  - by eapply offer_ok.
  - by eapply same_log, live_send_ok.
  - apply send_refused in Hrun as ->. by eapply same_log, (given_up_ok c w w p _ Hl Hok).
  - by eapply same_log, given_up_ok.
  - by apply same_log, acknowledgement_ok.
  - by apply same_log, receiver_ok; [apply receive_sent|].
  - by apply same_log, receiver_ok.
  - destruct Hok as [_ Hfailed Hsends (s0 & Hs0 & Hlog & Hchunks & Hsent & Hle & Hlen & Hbuild)].
    cbn [fst snd] in *. apply same_log. split; cbn [fst snd]; [done|intros Hp; destruct Hb as [->| ->]; auto|done|].
    exists s0. rewrite Hs. split_and!; try done. intros ob Hob.
    destruct Hb as [Heq|Heq]; rewrite Heq in Hob; [by apply Hbuild|done].
Qed.

(** The offer of a write as a whole, when the channels have room for it: it goes
    through the steps above, and ends early at a receiver that is gone. *)
Lemma sends_steps items w w' r highest :
  m_for_each (fun '(stream, item) => send_on_stream stream (Ok item) Closed) items w = (w', r) ->
  (forall n s, en_copy_streams (fst w) !! n = Some s ->
     (length (cs_queue s) + length items <= COPY_STREAM_CAPACITY)%nat) ->
  (r = Ok tt \/ lossy = true) -> r <> Panic ->
  rtc env_step (w, {| wr_highest := highest; wr_sends := items |}) (w', no_writes highest).
Proof.
  revert w. induction items as [|[n i] items IH]; intros w Hrun Hroom Hr Hpanic.
  { injection Hrun as <- _. apply rtc_refl. }
  cbn [m_for_each] in Hrun. unfold m_bind in Hrun.
  destruct (send_on_stream n (Ok i) Closed w) as [w1 [[]|e|]] eqn:Hsend; simplify_eq.
  - pose proof (send_inv _ _ _ _ _ _ Hsend) as (s & Hs & ->).
    assert (stream_waits s = false) as Hwaits.
    { unfold stream_waits. destruct (cs_open s); [|done]. apply Nat.leb_gt. specialize (Hroom n s Hs). simpl in Hroom. lia. }
    eapply rtc_l; [apply StepSend; [by rewrite Hs|exact Hsend]|].
    apply IH; [done| |done|done]. rewrite Hwaits. intros m s'. simpl.
    intros [(<- & <- & _)|[_ Hs']]%list_lookup_insert_Some.
    + specialize (Hroom n s Hs). simpl in *. rewrite length_app. simpl. lia.
    + specialize (Hroom m s' Hs'). simpl in Hroom. lia.
  - destruct Hr as [|Hl]; [done|]. by eapply rtc_l; [eapply StepRefused|].
Qed.

Lemma offer_steps o w w' r highest :
  room w -> history !! op_lsn o = Some (op_data o) -> op_lsn o <= highest + 1 ->
  offer_to_builds o w = (w', r) -> (r = Ok tt \/ lossy = true) -> r <> Panic ->
  (forall n s, en_copy_streams (fst w) !! n = Some s ->
     (length (cs_queue s) + size (en_outbound_builds (fst w)) <= COPY_STREAM_CAPACITY)%nat) ->
  rtc env_step (w, no_writes highest) (w', no_writes (Z.max highest (op_lsn o))).
Proof.
  intros Hroom Hdata Ho Hrun Hr Hpanic Hcap. unfold offer_to_builds in Hrun.
  unfold m_bind in Hrun. destruct (record_offer o w) as [w1 [items|e|]] eqn:Hoffer;
    [|by unfold record_offer in Hoffer; simplify_eq/=..].
  eapply rtc_l; [by eapply StepOffer|]. eapply sends_steps; [done| |done|done].
  intros n s Hs. unfold record_offer in Hoffer. e_inv. specialize (Hcap n s Hs).
  assert (length (live (in_key_order (offer_to_build o <$> en_outbound_builds (fst w)))) <= size (en_outbound_builds (fst w)))%nat; [|unfold live in *; lia].
  unfold live, in_key_order. etrans; [apply length_omap_le|].
  rewrite (Permutation_length (merge_sort_Permutation _ _)), length_map_to_list. by rewrite map_size_fmap.
Qed.

Lemma copy_steps_ok c x y : producing c x -> rtc copy_step x y -> continues c y.
Proof.
  intros Hx Hsteps. revert c Hx. induction Hsteps as [x|x y z Hstep _ IH]; intros c Hx; [by apply same_log|].
  destruct (copy_step_ok c x y Hx Hstep) as (c1 & Hpre & (c2 & Hpre' & Hz)%IH). exists c2. split; [by etrans|done].
Qed.

End producer.
(** ** Preparing the build

    Between the two parts of [prepare_copy] the engine is free: writes queue
    behind the build that [begin_prepare_copy] has registered. *)

Section preparation.
Context `{Sha256} {St : Type} `{!DurableApplication St}.
Variable history : gmap Z Bytes.
Variable acknowledged : CopyAck -> Prop.
Variable lossy : bool.
Variable cp : CopyPreparation.
Implicit Types w : World (St := St).

#[local] Abbreviation b := (cp_authority cp).
#[local] Abbreviation boundary := (ba_replication_boundary_lsn (cp_authority cp)).

(** The task that [finish_prepare_copy] starts, for its operations. *)
Definition task_of (operations : gmap Z Operation) : ProducerTask :=
  {| pt_authority := b; pt_operations := operations; pt_stream := cp_stream cp;
     pt_generation := cp_generation cp |}.
#[local] Abbreviation t0 := (task_of ∅).

Record fresh_build (highest : Lsn) (ob : OutboundBuild) : Prop := {
  fb_generation : ob_generation ob = cp_generation cp;
  fb_authority : bp_authority (ob_progress ob) = b;
  fb_stream : ob_stream ob = Some (cp_stream cp);
  fb_next : ob_next_sequence ob = 1;
  fb_emitted : ob_emitted ob = ∅;
  fb_final : ob_final_sequence ob = None;
  fb_catching_up : ob_catching_up ob = true;
  fb_pending : map_Forall (fun l o => op_lsn o = l /\ from_history t0 history o)
                 (ob_pending_operations ob);
  fb_highest l : is_Some (ob_pending_operations ob !! l) -> l <= highest;
  fb_covered l : cp_highest cp < l <= highest -> is_Some (ob_pending_operations ob !! l);
}.

Record waiting (x : World (St := St) * Writes) : Prop := {
  wt_alone : alone t0 x.1;
  wt_range : boundary <= cp_highest cp <= wr_highest x.2;
  wt_sends : sent_to t0 (wr_sends x.2) = [];
  wt_stream : exists s, en_copy_streams (fst x.1) !! cp_stream cp = Some s /\ cs_sent s = [];
  wt_build ob : en_outbound_builds (fst x.1) !! ba_build_id b = Some ob -> fresh_build (wr_highest x.2) ob;
}.

Lemma fresh_offer highest ob o :
  fresh_build highest ob -> boundary <= highest -> op_lsn o <= highest + 1 ->
  history !! op_lsn o = Some (op_data o) ->
  snd (offer_to_build o ob) = None /\
  fresh_build (Z.max highest (op_lsn o)) (fst (offer_to_build o ob)).
Proof.
  intros [Hgen Hauth Hstr Hnext Hem Hfin Hcu Hpend Hhigh Hcov] Hrange Ho Hdata.
  unfold offer_to_build. rewrite Hauth, Hfin.
  assert (emitted_operation ob (op_lsn o) = false) as ->.
  { unfold emitted_operation. by rewrite Hem, map_to_list_empty. }
  rewrite orb_false_r. destruct (op_lsn o <=? boundary) eqn:Hlow; guards; simpl; (split; [done|]).
  - rewrite Z.max_l by lia. by split.
  - split; simpl; try done.
    + by apply map_Forall_insert_2.
    + intros l. rewrite lookup_insert_is_Some. intros [<-|[_ Hl%Hhigh]]; lia.
    + intros l Hl. rewrite lookup_insert_is_Some. destruct (decide (op_lsn o = l)); [by left|].
      right. split; [done|]. apply Hcov. lia.
Qed.

Lemma waiting_offer o items w w' highest :
  waiting (w, no_writes highest) -> history !! op_lsn o = Some (op_data o) -> op_lsn o <= highest + 1 ->
  record_offer o w = (w', Ok items) ->
  waiting (w', {| wr_highest := Z.max highest (op_lsn o); wr_sends := items |}).
Proof.
  intros [Halone Hrange _ Hstream Hb] Hdata Ho Hrun.
  destruct (offer_effect t0 o w w' items Hrun Halone) as (Halone' & Hs' & Hw' & Hitems).
  cbn [fst snd wr_highest wr_sends no_writes] in *. simpl in Hw', Hitems. rewrite <-Hs' in Hstream.
  destruct (en_outbound_builds (fst w) !! ba_build_id b) as [ob|] eqn:Hob; simpl in Hw', Hitems.
  - destruct (fresh_offer highest ob o (Hb ob eq_refl)) as [Hitem Hob']; [lia|done|done|].
    rewrite Hitem in Hitems. split; cbn [fst snd wr_highest wr_sends]; [done|lia|done|done|].
    rewrite Hw'. by intros ? [= <-].
  - split; cbn [fst snd wr_highest wr_sends]; [done|lia|done|done|]. by rewrite Hw'.
Qed.

(** A step that changes neither the builds nor what was sent on the stream. *)
Lemma waiting_same w w' writes writes' :
  waiting (w, writes) -> en_outbound_builds (fst w') = en_outbound_builds (fst w) ->
  (forall s, en_copy_streams (fst w) !! cp_stream cp = Some s ->
     exists s', en_copy_streams (fst w') !! cp_stream cp = Some s' /\ cs_sent s' = cs_sent s) ->
  wr_highest writes' = wr_highest writes -> sent_to t0 (wr_sends writes') = [] -> waiting (w', writes').
Proof.
  intros [Halone Hrange _ (s & Hs & Hsent) Hb] Hbuilds Hstreams Hh Hsends. unfold alone in *.
  cbn [fst snd] in *. split; unfold alone; cbn [fst snd]; rewrite ?Hbuilds, ?Hh; try done.
  destruct (Hstreams s Hs) as (s' & Hs' & Heq). exists s'. by rewrite Heq.
Qed.

Lemma waiting_step x y : waiting x -> env_step t0 history acknowledged lossy x y -> waiting y.
Proof.
  intros Hok Hstep. pose proof Hok as [Halone Hrange Hsends Hstream Hb].
  inversion Hstep as [o items w w' highest Hroom Hdata Ho Hrun|n i rest w w' highest _ Hrun
    |n i rest w w' error highest Hl Hrun|w writes Hl|k w writes _|w writes|w writes
    |w w' writes Hbuild Hs' Halone']; subst; cbn [fst snd] in *.
  - by eapply waiting_offer.
  - apply send_inv in Hrun as (s1 & Hs1 & ->). cbn [wr_sends] in Hsends.
    rewrite sent_to_cons in Hsends. change (pt_stream t0) with (cp_stream cp) in Hsends.
    assert (n <> cp_stream cp) as Hne by (intros ->; by rewrite decide_True in Hsends).
    rewrite decide_False in Hsends by done. eapply waiting_same; [done|done| |done|done]. intros s Hs.
    exists s. simpl. by rewrite list_lookup_insert_ne.
  - apply send_refused in Hrun as ->. eapply waiting_same; [done|done|eauto|done|done].
  - eapply waiting_same; [done|done|eauto|done|done].
  - destruct (acknowledgement_builds t0 k w) as [Hstreams Hbuilds]. split; cbn [fst snd]; [|done|done|by rewrite Hstreams|].
    + intros id' ob Hid Hob. destruct (Hbuilds id') as [Heq|(ob0 & _ & Hob0 & Heq)];
        rewrite Heq in Hob; [by eapply Halone|]. injection Hob as <-. simpl. by eapply Halone.
    + intros ob Hob. destruct (Hbuilds (ba_build_id b)) as [Heq|(ob0 & _ & Hob0 & Heq)];
        rewrite Heq in Hob; [by apply Hb|]. injection Hob as <-.
      by destruct (Hb ob0 Hob0).
  - eapply waiting_same; [done|done| |done|done]. intros s Hs. eexists. simpl.
    rewrite list_lookup_alter, decide_True, Hs by done. split; [done|apply receive_sent].
  - eapply waiting_same; [done|done| |done|done]. intros s Hs. eexists. simpl.
    by rewrite list_lookup_alter, decide_True, Hs by done.
  - split; cbn [fst snd]; [done|done|done|simpl in Hs'; by rewrite Hs'|].
    simpl in Hbuild. intros ob Hob. destruct Hbuild as [Heq|Heq]; rewrite Heq in Hob; [by apply Hb|done].
Qed.

Lemma waiting_steps x y : waiting x -> rtc (env_step t0 history acknowledged lossy) x y -> waiting y.
Proof. intros Hx Hsteps. induction Hsteps; eauto using waiting_step. Qed.

Lemma begin_prepare_waiting id target w0 w1 :
  begin_prepare_copy id target w0 = (w1, Ok cp) ->
  (forall id' ob n, en_outbound_builds (fst w0) !! id' = Some ob -> ob_stream ob = Some n ->
     (n < length (en_copy_streams (fst w0)))%nat) ->
  waiting (w1, no_writes (cp_highest cp)).
Proof.
  unfold begin_prepare_copy, requested_build, start_build, validated_by. intros Hrun Hstreams. e_inv.
  guards. rename select (_ = cp) into Hcp. simpl in Hcp. pose proof (f_equal cp_authority Hcp) as Ha.
  pose proof (f_equal cp_highest Hcp) as Hh. pose proof (f_equal cp_stream Hcp) as Hst.
  pose proof (f_equal cp_generation Hcp) as Hgen. clear Hcp. simpl in *. subst a9.
  split; simpl; rewrite <-?Hh, <-?Hst.
  - intros id' ob Hid. simpl in *. rewrite lookup_insert_ne by done. intros Hob [= Hn].
    specialize (Hstreams _ _ _ Hob Hn). lia.
  - lia.
  - done.
  - eexists. rewrite lookup_app_r, Nat.sub_diag by done. done.
  - rewrite lookup_insert_eq. intros ? [= <-]. split; simpl; try done; try lia.
    + by rewrite Hst.
    + intros l [? Hl]. by rewrite lookup_empty in Hl.
Qed.

(** *** The collected operations *)

(** An operation of the history in the range of the copy. *)
Definition in_copy (highest : Lsn) (l : Z) (o : Operation) : Prop :=
  op_lsn o = l /\ boundary < l <= highest /\ history !! l = Some (op_data o).

Lemma collect_ok highest stream operations operations' :
  (forall o, Ok o ∈ stream -> history !! op_lsn o = Some (op_data o)) ->
  map_Forall (in_copy highest) operations ->
  collect_operations boundary highest stream operations = Ok operations' ->
  map_Forall (in_copy highest) operations'.
Proof.
  revert operations. induction stream as [|r stream IH]; intros operations Hall Hops Hrun; simpl in Hrun.
  { by simplify_eq. }
  assert (forall o, Ok o ∈ stream -> history !! op_lsn o = Some (op_data o)) as Hrest
    by (intros o Ho; apply Hall; by right).
  destruct r as [o| |]; simpl in Hrun; [|done..].
  destruct (_ && _) eqn:Hin in Hrun; [|by eapply IH]. apply bind_ok in Hrun as (operations1 & Hins & Hrun).
  eapply IH; [done| |exact Hrun]. unfold insert_copy_operation in Hins. guards.
  specialize (Hall _ (list_elem_of_here _ _)).
  destruct (operations !! _) as [existing|] eqn:He; guards; simplify_eq; apply map_Forall_insert_2; try done.
  destruct (Hops _ _ He) as (Hl & Hr & Hd). by split_and!.
Qed.

Lemma provider_inv {A} (m : M St RuntimeError A) w w' a :
  provider m w = (w', Ok a) -> fst w' = fst w /\ exists s', m (snd w) = (s', Ok a).
Proof. unfold provider. intros Hrun. e_inv. apply m_zoom_inv in Hrun as (st & Hm & ->). eauto. Qed.

Lemma finish_prepare_inv context w w' t p :
  finish_prepare_copy context cp w = (w', Ok (t, p)) ->
  exists operations chunks w1 st, copy_operations cp w = (w1, Ok operations) /\
    get_copy_state boundary context (snd w1) = (st, Ok chunks) /\
    t = task_of operations /\ p = ProduceSnapshot chunks 1 /\ fst w' = fst w /\
    forall l, boundary < l <= cp_highest cp -> is_Some (operations !! l).
Proof.
  unfold finish_prepare_copy, or_drop_build.
  match goal with |- match ?x with _ => _ end = _ -> _ => destruct x as [w1 [[t' p']|err|]] eqn:Hrun end;
    [|done..]. intros [= <- <- <-]. e_inv. rename select (copy_operations _ _ = _) into Hops.
  rename select (provider _ _ = _) into Hprov. apply provider_inv in Hprov as [Hprov (st' & Hcopy)].
  rename select (check_prepared_copy _ _ _ = _) into Hcheck. unfold check_prepared_copy in Hcheck. e_inv.
  rename select (check_delivery_generation _ _ = _) into Hg. apply check_generation_inv in Hg as [-> _].
  eexists _, _, _, _. split_and!; [done|done|done|done| |].
  - rewrite Hprov. clear -Hops. unfold copy_operations in Hops. e_inv.
    destruct (_ <? _) in Hm; e_inv; done.
  - intros l Hl. apply andb_false_iff in Hcheck as [Hlt%Z.ltb_ge|Hex]; [lia|].
    destruct (_ !! l) eqn:E; [done|]. exfalso. rewrite existsb_false in Hex.
    specialize (Hex l). rewrite E in Hex. cut (true = false); [done|]. apply Hex.
    unfold lsn_range. apply elem_of_seqZ. lia.
Qed.

End preparation.

(** ** The stream from preparation on *)

Section streams.
Context `{Sha256} {St : Type} `{!DurableApplication St, !ApplicationLaws St}.
Variable history : gmap Z Bytes.
Variable acknowledged : CopyAck -> Prop.
Variable lossy : bool.
Implicit Types w : World (St := St).

Lemma copy_operations_ok cp w w' operations :
  copy_operations cp w = (w', Ok operations) ->
  contents (snd w) ⊆ history ->
  (forall o, o ∈ cp_retained cp -> history !! op_lsn o = Some (op_data o)) ->
  map_Forall (in_copy history cp (cp_highest cp)) operations.
Proof.
  intros Hrun Hcontents Hretained. unfold copy_operations in Hrun. e_inv.
  eapply collect_ok; [|clear Hrun|exact Hrun].
  - intros o (x & [= <-] & Hx)%list_elem_of_fmap. by apply Hretained.
  - destruct (_ <? _) in Hm; e_inv; [|apply map_Forall_empty].
    eapply collect_ok; [|apply map_Forall_empty|done].
    intros o Ho. eapply lookup_weaken; [|exact Hcontents]. by eapply history_law.
Qed.

Lemma prepared_producing context cp w w' t p writes :
  waiting history cp (w, writes) ->
  finish_prepare_copy context cp w = (w', Ok (t, p)) ->
  contents (snd w) ⊆ history ->
  (forall o, o ∈ cp_retained cp -> history !! op_lsn o = Some (op_data o)) ->
  exists chunks, p = ProduceSnapshot chunks 1 /\ pt_authority t = cp_authority cp /\
    Forall (fun r => r <> Panic) chunks /\
    map_Forall (fun l o => op_lsn o = l /\ from_history t history o) (pt_operations t) /\
    producing t history chunks lossy {| cl_chunks := []; cl_catch_up := None; cl_operations := [] |}
      (w', p, writes).
Proof.
  intros [Halone Hrange Hsends (s & Hs & Hsent) Hb] Hrun Hcontents Hretained.
  apply finish_prepare_inv in Hrun as (operations & chunks & w1 & st & Hops & Hcopy & -> & -> & Hw' & Hgap).
  eapply copy_operations_ok in Hops; [|done|done].
  assert (map_Forall (fun l o => op_lsn o = l /\ from_history (task_of cp operations) history o) operations)
    as Htask.
  { intros l o (<- & Hl & Ho)%Hops. split; [done|]. split; [|done]. simpl. lia. }
  exists chunks. split_and!; [done|done|by eapply copy_law|done|]. cbn [fst snd] in *.
  split; cbn [fst snd].
  - intros id' ob Hid. rewrite Hw'. by apply Halone.
  - done.
  - by intros _.
  - exists s. rewrite Hw'. simpl.
    split_and!; try done; [apply log_ok_start| |].
    { exists [], []. rewrite Hsent. split_and!; try done. by rewrite (Hsends : sent_to (task_of cp operations) _ = []). }
    intros ob Hob. destruct (Hb ob Hob). split; simpl; try done.
    + apply Forall_forall. intros o (l & Hl)%elem_of_values. by apply Htask in Hl as [_ ?].
    + exists (cp_highest cp). unfold top_lsn. simpl. split_and!; try lia; try done.
      * apply values_sorted. by intros l o (? & _)%Hops.
      * intros o (l & Hl)%elem_of_values. destruct (Hops _ _ Hl) as (-> & ? & _). lia.
      * intros l Hl. destruct (Hgap l) as [o Ho]; [lia|]. exists o. rewrite elem_of_values.
        destruct (Hops _ _ Ho). eauto.
Qed.


End streams.
