(* ===== verification/CopyLiveness.v ===== *)
(** * Progress of a replica build

    The task that produces a copy stream ends: it sends the snapshot, freezes the
    boundary, sends the final item and the operations after the snapshot, and stops
    when nothing waits any more.  Nothing but a fence, the loss of the build or of
    its receiver, an error of the snapshot, or a failing store keeps it from that. *)

From S2P Require Import Prelude Digest Types Intents Commands Validation Quorums ScaleDown ScaleUp.
From S2P Require Import ManagedConfiguration Quorum QuorumSafety Log Authority AuthorityStore Engine.
From S2P Require Import EngineWrites EngineConfiguration EngineRemoval EngineReplication EngineCopy CopySafety.
From stdpp Require Import base gmap strings list sorting relations.
From Stdlib Require Import ZArith Lia.
Local Open Scope Z_scope.

Lemma length_values {V} (m : gmap Z V) : (length (values m) <= size m)%nat.
Proof.
  unfold values, keys. etransitivity; [apply length_omap_le|].
  rewrite (Permutation_length (merge_sort_Permutation _ _)). by rewrite <- size_dom.
Qed.

Section liveness.
Context `{Sha256} {St : Type} `{!DurableApplication St}.
Variable t : ProducerTask.
#[local] Abbreviation b := (pt_authority t).
#[local] Abbreviation id := (ba_build_id (pt_authority t)).
#[local] Abbreviation boundary := (ba_replication_boundary_lsn (pt_authority t)).
Implicit Types w : World (St := St).

(** The task may go on: no fence was raised, its build is there, the receiver
    listens, and the stores work. *)
Record healthy w (ob : OutboundBuild) (s : CopyStream) : Prop := {
  he_running : en_aborted (fst w) || en_closed (fst w) = false;
  he_fence : en_fence_generation (fst w) = pt_generation t;
  he_faults : en_faults (fst w) = [];
  he_build : en_outbound_builds (fst w) !! id = Some ob;
  he_generation : ob_generation ob = pt_generation t;
  he_authority : bp_authority (ob_progress ob) = b;
  he_stream : en_copy_streams (fst w) !! pt_stream t = Some s;
  he_open : cs_open s = true;
}.

Definition frozen_progress w (ob : OutboundBuild) : DurableBuildProgress :=
  (ob_progress ob) <| bp_catch_up_boundary_lsn := Some (catch_up_boundary t ob (fst w)) |>.

(** The boundary can be frozen: every operation up to it is at hand, and the store
    takes the progress of the build. *)
Record freezable w (ob : OutboundBuild) : Prop := {
  fz_range : i64_range boundary /\ catch_up_boundary t ob (fst w) <= i64_max;
  fz_closed : forall l, boundary < l <= catch_up_boundary t ob (fst w) ->
    l ∈ dom (pt_operations t) ∪ dom (ob_pending_operations ob);
  fz_alive : dead_build (en_store (fst w)) id = false;
  fz_admitted : as_builds (en_store (fst w)) !! id = Some b;
  fz_advances : forall existing, as_build_progress (en_store (fst w)) !! id = Some existing ->
    build_regressed (frozen_progress w ob) existing = false;
}.

(** What the rest of the task needs of its build. *)
Fixpoint prepared w (ob : OutboundBuild) (p : Producer) : Prop :=
  match p with
  | ProduceSend _ next => prepared w ob next
  | ProduceSnapshot chunks _ => freezable w ob /\ Forall (fun r => exists data, r = Ok data) chunks
  | ProduceBoundary _ => freezable w ob
  | ProduceFinal _ _ | ProduceOperations _ | ProducePending => True
  | ProduceDone => ob_pending_operations ob = ∅ /\ ob_catching_up ob = false
  | ProduceError _ | ProduceFailed => False
  end.
Definition undisturbed w (p : Producer) : Prop := exists ob s, healthy w ob s /\ prepared w ob p.

(** How many steps are left. *)
Definition waiting_operations w : nat :=
  match en_outbound_builds (fst w) !! id with
  | Some ob => size (ob_pending_operations ob)
  | None => 0%nat
  end.
Fixpoint steps_left w (p : Producer) : nat :=
  let last := (2 + 5 * waiting_operations w)%nat in
  let final := (4 + 3 * size (pt_operations t) + last)%nat in
  match p with
  | ProduceSend _ next => 2 + steps_left w next
  | ProduceSnapshot chunks _ => 3 * length chunks + 2 + final
  | ProduceBoundary _ => 1 + final
  | ProduceFinal _ _ => final
  | ProduceOperations operations => 3 * length operations + 1 + last
  | ProducePending => last
  | ProduceError _ => 1
  | ProduceDone | ProduceFailed => 0
  end%nat.

Lemma steps_same w w' p :
  waiting_operations w' = waiting_operations w -> steps_left w' p = steps_left w p.
Proof. intros Hw. induction p; cbn [steps_left]; rewrite ?IHp, ?Hw; done. Qed.

(** ** The runs of its operations *)

Lemma own_build_run w ob s : healthy w ob s -> own_build t w = (w, Ok ob).
Proof.
  intros []. unfold own_build, m_bind, get_engine, m_lift, fail_if, m_ret. simpl.
  rewrite he_build0. simpl. by rewrite he_generation0, bool_decide_true.
Qed.

Lemma same_build_run message w ob s : healthy w ob s -> same_build t message w = (w, Ok ob).
Proof.
  intros []. unfold same_build, m_bind, get_engine, m_lift, fail_if, m_ret. simpl.
  rewrite he_build0. simpl. by rewrite he_generation0, he_authority0, !bool_decide_true.
Qed.

Lemma cancelled_run w ob s : healthy w ob s -> check_cancelled t w = (w, Ok tt).
Proof.
  intros []. unfold check_cancelled, m_bind, get_engine, fail_if, m_lift. simpl.
  rewrite he_stream0. unfold is_some_and. by rewrite he_open0.
Qed.

Lemma generation_run w ob s : healthy w ob s -> check_delivery_generation (pt_generation t) w = (w, Ok tt).
Proof.
  intros []. unfold check_delivery_generation, check_aborted, m_bind, get_engine, fail_if, m_lift. simpl.
  by rewrite he_fence0, bool_decide_true, he_running0.
Qed.

Lemma producer_check_run w ob s : healthy w ob s -> check_copy_producer t w = (w, Ok tt).
Proof.
  intros Hw. unfold check_copy_producer. m_run ltac:(by eapply cancelled_run). by eapply generation_run.
Qed.

(** The build changes, or an item is sent. *)
Definition with_build w (ob : OutboundBuild) : World :=
  ((fst w) <| en_outbound_builds := <[id := ob]> (en_outbound_builds (fst w)) |>, snd w).
Definition with_stream w (s : CopyStream) : World :=
  ((fst w) <| en_copy_streams := <[pt_stream t := s]> (en_copy_streams (fst w)) |>, snd w).

Lemma with_build_healthy w ob ob' s :
  healthy w ob s -> ob_generation ob' = ob_generation ob ->
  bp_authority (ob_progress ob') = bp_authority (ob_progress ob) -> healthy (with_build w ob') ob' s.
Proof. intros [] Hg Ha. split; simpl; try done; [by rewrite lookup_insert_eq|congruence..]. Qed.

Lemma with_stream_healthy w ob s s' :
  healthy w ob s -> cs_open s' = true -> healthy (with_stream w s') ob s'.
Proof.
  intros [] Hopen. split; simpl; try done. apply list_lookup_insert_eq. by eapply lookup_lt_Some.
Qed.

Lemma send_run w ob s item : healthy w ob s -> stream_waits s = false ->
  send_copy_item t item w = (with_stream w (push_item (Ok item) s), Ok tt).
Proof.
  intros [] Hwaits. unfold send_copy_item, send_on_stream, m_bind, get_engine, m_lift, fail_if. simpl.
  rewrite he_stream0. simpl. rewrite he_open0. simpl. by rewrite Hwaits.
Qed.

Lemma put_run w ob : put_build t ob w = (with_build w ob, Ok tt).
Proof. done. Qed.

Lemma waiting_build w ob : waiting_operations (with_build w ob) = size (ob_pending_operations ob).
Proof. unfold waiting_operations. simpl. by rewrite lookup_insert_eq. Qed.
Lemma waiting_healthy w ob s : healthy w ob s -> waiting_operations w = size (ob_pending_operations ob).
Proof. intros []. unfold waiting_operations. by rewrite he_build0. Qed.

Definition recorded (ob : OutboundBuild) (item : CopyItem) : OutboundBuild :=
  ob <| ob_next_sequence := Z.max (ob_next_sequence ob) (u64_next (ci_sequence item)) |>
     <| ob_emitted := <[ci_sequence item :=
          {| ebi_lsn := ci_lsn item; ebi_final_item := ci_final_item item;
             ebi_snapshot_chunk := ci_snapshot_chunk item |}]> (ob_emitted ob) |>.

Lemma record_run w ob s item :
  healthy w ob s -> record_emitted_copy_item t item w = (with_build w (recorded ob item), Ok tt).
Proof. intros Hw. unfold record_emitted_copy_item. by m_run ltac:(by eapply own_build_run). Qed.

(** What a step promises. *)
Definition proceeds w (p : Producer) : Prop :=
  exists w' p', producer_step t p w = (w', Ok p') /\ undisturbed w' p' /\
    (steps_left w' p' < steps_left w p)%nat.

Lemma snapshot_proceeds chunks sequence w : undisturbed w (ProduceSnapshot chunks sequence) ->
  proceeds w (ProduceSnapshot chunks sequence).
Proof.
  intros (ob & s & Hw & Hfreeze & Hchunks). destruct chunks as [|chunk chunks].
  - eexists _, _. split; [cbn [producer_step]; m_run ltac:(by eapply cancelled_run); done|].
    split; [by exists ob, s|simpl; lia].
  - apply Forall_cons in Hchunks as [[data ->] Hchunks].
    eexists _, _. split.
    { cbn [producer_step]. m_run ltac:(by eapply cancelled_run). m_run ltac:(by eapply generation_run).
      m_run ltac:(done). by m_run ltac:(by eapply record_run). }
    split.
    + eexists _, _. split; [by eapply with_build_healthy|]. split; [|done]. destruct Hfreeze. by split.
    + cbn [steps_left]. rewrite waiting_build, (waiting_healthy w ob s) by done. simpl. lia.
Qed.

Lemma freezable_closes w ob from X :
  freezable w ob -> from = boundary ->
  X = filter (fun lsn => from < lsn <= catch_up_boundary t ob (fst w))
        (dom (pt_operations t) ∪ dom (ob_pending_operations ob)) ->
  closes_boundary (size X) (i64_checked_add from 1) (catch_up_boundary t ob (fst w)) X = true.
Proof.
  intros [[Hrange Hmax] Hclosed] -> ->. rewrite i64_next by done.
  destruct (_ <? _) eqn:E; guards; [|by destruct (size _)].
  apply closes_boundary_spec; [unfold i64_range, i64_max in *; lia|done|done|].
  intros k Hk. apply elem_of_filter. split; [lia|]. apply Hclosed. lia.
Qed.

(** The store takes the frozen boundary. *)
Definition stored w (p : DurableBuildProgress) : World :=
  let s := en_store (fst w) in
  ((fst w) <| en_faults := [] |>
     <| en_store := s <| as_build_progress := <[id := p]> (as_build_progress s) |>
          <| as_state := (as_state s)
               <| av_build_progress := <[id := p]> (av_build_progress (as_state s)) |> |> |>, snd w).

Lemma freeze_store_run w ob s : healthy w ob s -> freezable w ob ->
  store_write (record_build_progress (frozen_progress w ob) None) w = (stored w (frozen_progress w ob), Ok tt).
Proof.
  intros Hw [_ _ Halive Hadmitted Hadvances].
  unfold store_write, transaction, record_build_progress. rewrite (he_faults _ _ _ Hw). simpl.
  rewrite (he_authority _ _ _ Hw), Halive, Hadmitted, bool_decide_true by done. simpl.
  destruct (as_build_progress _ !! _) as [existing|] eqn:E; [|done].
  simpl. by rewrite Hadvances.
Qed.

Lemma stored_healthy w ob s p : healthy w ob s -> healthy (stored w p) ob s.
Proof. intros []. by split. Qed.

Lemma freeze_run w ob s : healthy w ob s -> freezable w ob ->
  freeze_build_catch_up_boundary t w =
    (with_build (stored w (frozen_progress w ob)) (ob <| ob_progress := frozen_progress w ob |>),
     Ok (catch_up_boundary t ob (fst w))).
Proof.
  intros Hw Hf. unfold freeze_build_catch_up_boundary.
  m_run ltac:(by eapply producer_check_run). m_run ltac:(by eapply same_build_run).
  m_run ltac:(done). erewrite freezable_closes by done. m_run ltac:(done).
  m_run ltac:(by eapply same_build_run).
  m_run ltac:(unfold catch_up_boundary; destruct (bp_catch_up_boundary_lsn _); simpl;
              [rewrite bool_decide_true by done|]; done).
  m_run ltac:(by eapply freeze_store_run).
  m_run ltac:(by eapply producer_check_run, stored_healthy).
  m_run ltac:(by eapply same_build_run, stored_healthy). by m_run ltac:(apply put_run).
Qed.

Lemma boundary_proceeds sequence w : undisturbed w (ProduceBoundary sequence) ->
  proceeds w (ProduceBoundary sequence).
Proof.
  intros (ob & s & Hw & Hf). eexists _, _.
  split; [cbn [producer_step]; by m_run ltac:(by eapply freeze_run)|]. split.
  - eexists _, _. split; [|done]. by eapply with_build_healthy; [apply stored_healthy|..].
  - cbn [steps_left]. rewrite waiting_build, (waiting_healthy w ob s) by done. simpl. lia.
Qed.

Lemma final_proceeds sequence catch_up w : undisturbed w (ProduceFinal sequence catch_up) ->
  proceeds w (ProduceFinal sequence catch_up).
Proof.
  intros (ob & s & Hw & _). eexists _, _. split.
  { cbn [producer_step]. m_run ltac:(by eapply own_build_run). by m_run ltac:(apply put_run). }
  split.
  - eexists _, _. split; [|done]. by eapply with_build_healthy.
  - cbn [steps_left]. rewrite waiting_build, (waiting_healthy w ob s) by done.
    pose proof (length_values (pt_operations t)). simpl. lia.
Qed.

Lemma operations_proceed operations w : undisturbed w (ProduceOperations operations) ->
  proceeds w (ProduceOperations operations).
Proof.
  intros (ob & s & Hw & _). destruct operations as [|o operations].
  - exists w, ProducePending. split; [done|]. split; [by exists ob, s|simpl; lia].
  - destruct (emitted_operation ob (op_lsn o)) eqn:E; eexists _, _.
    all: split; [cbn [producer_step]; unfold emit_copy_operation;
      m_run ltac:(by eapply generation_run); m_run ltac:(by eapply own_build_run); rewrite E|].
    + done.
    + split; [by exists ob, s|simpl; lia].
    + by m_run ltac:(apply put_run).
    + split.
      * eexists _, _. split; [|done]. by eapply with_build_healthy.
      * cbn [steps_left]. rewrite waiting_build, (waiting_healthy w ob s) by done. simpl. lia.
Qed.

Lemma pending_proceeds w : undisturbed w ProducePending -> proceeds w ProducePending.
Proof.
  intros (ob & s & Hw & _). destruct (decide (ob_pending_operations ob = ∅)) as [Hnone|Hsome].
  all: eexists _, _; split; [cbn [producer_step]; m_run ltac:(by eapply own_build_run);
    first [rewrite decide_True by done|rewrite decide_False by done]; by m_run ltac:(apply put_run)|].
  - split; [|simpl; lia]. eexists _, _. split; [by eapply with_build_healthy|done].
  - split; [eexists _, _; split; [|done]; by eapply with_build_healthy|].
    cbn [steps_left]. rewrite waiting_build, (waiting_healthy w ob s) by done. simpl.
    rewrite map_size_empty. pose proof (length_values (ob_pending_operations ob)).
    enough (size (ob_pending_operations ob) <> 0%nat) by lia. by rewrite map_size_non_empty_iff.
Qed.

Lemma prepared_same w w' ob p :
  fst w' = (fst w) <| en_copy_streams := en_copy_streams (fst w') |> -> prepared w ob p -> prepared w' ob p.
Proof.
  intros Heq. assert (freezable w ob -> freezable w' ob) as Hf.
  { intros [Hr Hc Ha Had Hadv]. unfold frozen_progress in *.
    assert (catch_up_boundary t ob (fst w') = catch_up_boundary t ob (fst w)) as Hcu by (by rewrite Heq).
    assert (en_store (fst w') = en_store (fst w)) as Hst by (by rewrite Heq).
    split; unfold frozen_progress; rewrite ?Hcu, ?Hst; auto. }
  induction p; simpl; naive_solver.
Qed.

Lemma send_proceeds i next w :
  undisturbed w (ProduceSend i next) -> send_waits t (ProduceSend i next) (fst w) = false ->
  proceeds w (ProduceSend i next).
Proof.
  intros (ob & s & Hw & Hp) Hwaits. simpl in Hwaits. rewrite (he_stream _ _ _ Hw) in Hwaits.
  eexists _, _. split; [cbn [producer_step]; by m_run ltac:(by eapply send_run)|]. split.
  - eexists _, _. split; [eapply with_stream_healthy; [done|]; apply (he_open _ _ _ Hw)|].
    by eapply prepared_same.
  - cbn [steps_left]. rewrite (steps_same w) by done. lia.
Qed.

Lemma undisturbed_proceeds w p :
  undisturbed w p -> p <> ProduceDone -> send_waits t p (fst w) = false -> proceeds w p.
Proof.
  intros Hw Hp Hwaits. destruct p; [by apply send_proceeds|by apply snapshot_proceeds|by apply boundary_proceeds
    |by apply final_proceeds|by apply operations_proceed|by apply pending_proceeds|done|..];
    by destruct Hw as (ob & s & _ & []).
Qed.

(** ** The task and its receiver *)

Definition ended (p : Producer) : Prop := p = ProduceDone \/ p = ProduceFailed.

Definition queued w : nat :=
  match en_copy_streams (fst w) !! pt_stream t with Some s => length (cs_queue s) | None => 0%nat end.

(** The task takes a step, unless it waits for a slot of the channel; or the receiver
    takes an item. *)
Inductive pump : World (St := St) * Producer -> World (St := St) * Producer -> Prop :=
| PumpTask w p :
    ~ ended p -> send_waits t p (fst w) = false -> pump (w, p) (produce_step t p w)
| PumpReceiver w p s :
    en_copy_streams (fst w) !! pt_stream t = Some s -> cs_open s = true -> cs_queue s <> [] ->
    pump (w, p) ((receive_from_stream (pt_stream t) (fst w), snd w), p).

Definition pump_bound w (p : Producer) : nat := (2 * steps_left w p + queued w)%nat.

Lemma not_ended w p : ~ ended p -> (0 < steps_left w p)%nat.
Proof. unfold ended. destruct p; simpl; [lia..|naive_solver|lia|naive_solver]. Qed.
Lemma error_shrinks w p : ~ ended p -> (forall e, p <> ProduceError e) -> (1 < steps_left w p)%nat.
Proof. unfold ended. intros Hp He. destruct p; simpl; [lia..|naive_solver|by destruct (He error)|naive_solver]. Qed.

(** The task ends from any state, whatever the store, the fences and its receiver
    do: every step leaves fewer of them. *)
Lemma step_shrinks w p w' p' :
  produce_step t p w = (w', p') -> send_waits t p (fst w) = false -> ~ ended p ->
  (steps_left w' p' < steps_left w p)%nat.
Proof.
  unfold produce_step. intros Hstep Hwaits Hp. rewrite Hwaits in Hstep.
  destruct (producer_step t p w) as [w1 [p1|e|]] eqn:Hrun; injection Hstep as <- <-.
  2: apply error_shrinks; [done|intros e' ->; by simplify_eq/=].
  2: by apply not_ended.
  destruct p as [i next|[|chunk chunks] sequence|sequence|sequence catch_up|[|o operations]| | |error|];
    cbn [producer_step] in Hrun; try by (destruct Hp; unfold ended; auto).
  all: unfold record_emitted_copy_item, freeze_build_catch_up_boundary, emit_copy_operation in Hrun.
  all: task_inv; cbn [steps_left].
  - rewrite (steps_same w) by done. lia.
  - simpl. lia.
  - unfold waiting_operations. simplify_map_eq. simpl. lia.
  - unfold waiting_operations. simpl. simplify_map_eq. simpl. lia.
  - unfold waiting_operations. simplify_map_eq. simpl. pose proof (length_values (pt_operations t)). lia.
  - lia.
  - destruct (emitted_operation _ _); task_inv; cbn [steps_left]; unfold waiting_operations; simpl; simplify_map_eq; simpl; lia.
  - destruct (decide _); task_inv; cbn [steps_left]; unfold waiting_operations; simpl; simplify_map_eq; [lia|].
    pose proof (length_values (ob_pending_operations a)). rewrite map_size_empty.
    enough (size (ob_pending_operations a) <> 0%nat) by lia. by rewrite map_size_non_empty_iff.
  - injection Hrun as <- <-. simpl. lia.
Qed.

(** A step sends at most one item. *)
Lemma send_queues item error w w' r :
  send_on_stream (pt_stream t) item error w = (w', r) ->
  is_some_and stream_waits (en_copy_streams (fst w) !! pt_stream t) = false ->
  (queued w' <= S (queued w))%nat.
Proof.
  destruct r as [u|e|].
  - intros (s & Hs & ->)%send_inv. unfold queued. rewrite Hs. cbn [is_some_and]. intros ->. simpl.
    rewrite list_lookup_insert_eq by (by eapply lookup_lt_Some). simpl. rewrite length_app. simpl. lia.
  - intros ->%send_refused. lia.
  - intros Hrun. pose proof (send_calm (pt_stream t) item error w) as Hcalm. by rewrite Hrun in Hcalm.
Qed.

Lemma step_queues w p w' p' :
  produce_step t p w = (w', p') -> send_waits t p (fst w) = false -> (queued w' <= S (queued w))%nat.
Proof.
  unfold produce_step. intros Hstep Hwaits. rewrite Hwaits in Hstep.
  destruct (producer_step t p w) as [w1 [p1|e|]] eqn:Hrun; injection Hstep as <- <-.
  - destruct p as [i next|[|chunk chunks] sequence|sequence|sequence catch_up|[|o operations]| | |error|];
      cbn [producer_step] in Hrun.
    { e_inv. by eapply send_queues. }
    9: { injection Hrun as <- <-. by eapply send_queues; [apply surjective_pairing|]. }
    all: unfold record_emitted_copy_item, freeze_build_catch_up_boundary, emit_copy_operation in Hrun.
    all: task_inv; try (destruct (emitted_operation _ _)); try (destruct (decide _)); task_inv;
      unfold queued; simpl; lia.
  - assert (task_local t w w1) as [_ Hs _] by (by eapply (producer_fails t p); [exact Hrun|]).
    unfold queued. simpl. destruct (is_some_and _ _); simpl; rewrite Hs; lia.
  - assert (task_local t w w1) as [_ Hs _] by (by eapply (producer_fails t p); [exact Hrun|]).
    unfold queued. rewrite Hs. lia.
Qed.

Lemma receiver_queued w s :
  en_copy_streams (fst w) !! pt_stream t = Some s -> cs_open s = true -> cs_queue s <> [] ->
  queued w = S (queued (receive_from_stream (pt_stream t) (fst w), snd w)).
Proof.
  intros Hs Ho Hq. unfold queued. simpl. rewrite list_lookup_alter, decide_True, Hs by done. simpl.
  rewrite Ho. unfold take_item. by destruct (cs_queue s).
Qed.

Lemma pump_shrinks x y : pump x y -> (pump_bound y.1 y.2 < pump_bound x.1 x.2)%nat.
Proof.
  unfold pump_bound. destruct 1 as [w p Hp Hwaits|w p s Hs Ho Hq]; simpl.
  - destruct (produce_step t p w) as [w' p'] eqn:Hstep. simpl.
    pose proof (step_shrinks w p w' p' Hstep Hwaits Hp). pose proof (step_queues w p w' p' Hstep Hwaits). lia.
  - rewrite (receiver_queued w s), (steps_same w) by done. lia.
Qed.

(** As long as the task has not ended, it or its receiver has something to do. *)
Lemma pump_progress w p : ~ ended p -> exists y, pump (w, p) y.
Proof.
  intros Hp. destruct (send_waits t p (fst w)) eqn:Hwaits; [|eauto using pump].
  assert (is_some_and stream_waits (en_copy_streams (fst w) !! pt_stream t) = true) as Hfull by (by destruct p).
  destruct (_ !! pt_stream t) as [s|] eqn:Hs; [|done]. simpl in Hfull. unfold stream_waits in Hfull.
  apply andb_true_iff in Hfull as [Ho Hq]. eexists. eapply PumpReceiver; [done|done|].
  intros Hnil. by rewrite Hnil in Hq.
Qed.

Lemma pump_steps n x y :
  nsteps pump n x y -> (n + pump_bound y.1 y.2 <= pump_bound x.1 x.2)%nat.
Proof. induction 1 as [|n x y z Hstep _ IH]; [lia|]. apply pump_shrinks in Hstep. lia. Qed.

Lemma pump_undisturbed x y : pump x y -> undisturbed x.1 x.2 -> undisturbed y.1 y.2.
Proof.
  destruct 1 as [w p Hp Hwaits|w p s Hs Ho Hq]; intros Hw; simpl in *.
  - destruct (undisturbed_proceeds w p Hw) as (w' & p' & Hrun & Hw' & _); [by intros ->; destruct Hp; left|done|].
    unfold produce_step. by rewrite Hwaits, Hrun.
  - destruct Hw as (ob & s0 & Hw & Hready). assert (s0 = s) as -> by (pose proof (he_stream _ _ _ Hw); congruence).
    exists ob, (take_item s). split; [|by eapply prepared_same].
    destruct Hw. split; simpl; try done.
    + rewrite list_lookup_alter, decide_True, he_stream0 by done. simpl. by rewrite Ho.
    + unfold take_item. by destruct (cs_queue s).
Qed.

Lemma pump_steps_undisturbed n x y : nsteps pump n x y -> undisturbed x.1 x.2 -> undisturbed y.1 y.2.
Proof. induction 1; eauto using pump_undisturbed. Qed.

Lemma ended_dec p : ended p \/ ~ ended p.
Proof. unfold ended. destruct p; naive_solver. Qed.

(** ** The task among the other operations *)

Variable history : gmap Z Bytes.
Variable acknowledged : CopyAck -> Prop.
Variable lossy : bool.

(** The task takes [n] steps and everything else [m], in some order. *)
Inductive interleaved (x : World (St := St) * Producer * Writes)
    : nat -> nat -> World (St := St) * Producer * Writes -> Prop :=
| RunNone : interleaved x 0 0 x
| RunTask n m w p writes :
    interleaved x n m (w, p, writes) -> ~ ended p -> send_waits t p (fst w) = false ->
    lock_free p writes -> interleaved x (S n) m (produce_step t p w, writes)
| RunOther n m w p writes w' writes' :
    interleaved x n m (w, p, writes) ->
    env_step t history acknowledged lossy (w, writes) (w', writes') ->
    interleaved x n (S m) (w', p, writes').

Lemma offer_pending o ob :
  (size (ob_pending_operations (fst (offer_to_build o ob))) <= S (size (ob_pending_operations ob)))%nat.
Proof.
  unfold offer_to_build. destruct (_ || _); simpl; [lia|]. destruct (_ || _); simpl; [|lia].
  rewrite map_size_insert. destruct (_ !! _); simpl; lia.
Qed.

(** One write can leave one more operation to send. *)
Lemma other_waiting w writes w' writes' :
  env_step t history acknowledged lossy (w, writes) (w', writes') ->
  (waiting_operations w' <= S (waiting_operations w))%nat.
Proof.
  unfold waiting_operations. intros Hstep. inversion Hstep; subst.
  - erewrite offer_builds by done. destruct (_ !! id); simpl; [|lia]. apply offer_pending.
  - rename select (send_on_stream _ _ _ _ = _) into Hs. apply send_inv in Hs as (s & _ & ->). simpl. lia.
  - rename select (send_on_stream _ _ _ _ = _) into Hs. apply send_refused in Hs as ->. lia.
  - lia.
  - destruct (ak_builds _ _ _ (acknowledgement_builds t k w) id) as [-> |(ob & _ & -> & ->)]; simpl; lia.
  - simpl. lia.
  - simpl. lia.
  - match goal with Hb : _ \/ _ |- _ => destruct Hb as [-> | ->] end; lia.
Qed.

Lemma other_steps w writes w' writes' p :
  env_step t history acknowledged lossy (w, writes) (w', writes') ->
  (steps_left w' p <= steps_left w p + 5)%nat.
Proof. intros Hw%other_waiting. induction p; cbn [steps_left]; lia. Qed.



End liveness.
