(* ===== verification/CopyTarget.v ===== *)
(** * What a copy target holds

    The progress of an inbound build is that of a prefix of the copy stream, and
    the application holds every operation of that prefix, however the items are
    repeated, reordered, lost or refused on the way.  Together with [CopySafety.v]
    this is what a completed build means: the target has the history of the source
    up to the acknowledged LSN. *)

From S2P Require Import Prelude Digest Types Intents Commands Validation Quorums ScaleDown ScaleUp.
From S2P Require Import ManagedConfiguration Quorum QuorumSafety Log Authority AuthorityStore Engine.
From S2P Require Import EngineWrites EngineConfiguration EngineRemoval EngineReplication EngineCopy CopySafety.
From stdpp Require Import base gmap strings list sorting relations pretty.
From Stdlib Require Import ZArith Lia.
Local Open Scope Z_scope.

(** ** The progress an item makes *)

Definition is_operation (i : CopyItem) : bool := negb (ci_snapshot_chunk i) && negb (ci_final_item i).

Definition accept (p : DurableBuildProgress) (i : CopyItem) : DurableBuildProgress :=
  if ci_snapshot_chunk i
  then p <| bp_last_sequence := ci_sequence i |> <| bp_completed := false |>
  else if ci_final_item i
  then {| bp_authority := bp_authority p; bp_last_sequence := ci_sequence i;
          bp_durable_lsn := ci_replication_boundary_lsn i; bp_completed := true;
          bp_catch_up_boundary_lsn := ci_catch_up_boundary_lsn i |}
  else p <| bp_last_sequence := ci_sequence i |> <| bp_durable_lsn := ci_lsn i |>.

Definition progress_of (b : BuildAuthority) (items : list CopyItem) : DurableBuildProgress :=
  fold_left accept items (no_build_progress b).

Section target.
Context `{Sha256} {St : Type} `{!DurableApplication St, !ApplicationLaws St}.
Implicit Types w : World (St := St).

(** The builds are as before, durable or not, and the [good] operations still there. *)
Record undisturbed (good : Z -> Bytes -> Prop) w w' : Prop := {
  un_builds : en_builds (fst w') = en_builds (fst w);
  un_stored : as_build_progress (en_store (fst w')) = as_build_progress (en_store (fst w));
  un_contents l d : good l d -> contents (snd w) !! l = Some d -> contents (snd w') !! l = Some d;
}.
#[local] Instance undisturbed_preorder good : PreOrder (undisturbed good).
Proof. split; [by split|]. intros w1 w2 w3 [Hb Hs Hc] [Hb' Hs' Hc']. split; [congruence..|eauto]. Qed.

Section good.
Variable good : Z -> Bytes -> Prop.

Lemma reads_undisturbed {A} (m : engine (St := St) A) : reads m -> evolves (undisturbed good) m.
Proof. intros Hm w. by rewrite (Hm w). Qed.

Lemma store_read_undisturbed {A} (f : AuthorityStore -> contract A) :
  evolves (undisturbed good) (store_read (St := St) f).
Proof.
  intros w. unfold store_read. match goal with |- undisturbed _ _ (fst (transaction ?g w)) =>
    destruct (transaction_cases g w) as [(s & a & faults & Hf & ->)|(r & faults & _ & ->)] end; [|by split].
  apply bind_ok in Hf as (? & _ & [= <- <-]). by split.
Qed.

Lemma app_undisturbed {A} (m : M St RuntimeError A) :
  (forall s l d, good l d -> contents s !! l = Some d -> contents (fst (m s)) !! l = Some d) ->
  evolves (undisturbed good) (m_zoom (@snd Engine St) (fun s w => (fst w, s)) m).
Proof.
  intros Hm w. unfold m_zoom. specialize (Hm (snd w)). destruct (m (snd w)) as [s r]. by split.
Qed.

Lemma storage_undisturbed {A} (m : M St RuntimeError A) :
  (forall s, contents s ⊆ contents (fst (m s))) -> evolves (undisturbed good) (storage m).
Proof.
  intros Hm. unfold storage. apply evolves_bind; [apply _|apply reads_undisturbed; auto with reads|intros e].
  apply evolves_bind; [apply _|apply reads_undisturbed; auto with reads|intros _].
  apply app_undisturbed. intros s l d _ Hl. by eapply lookup_weaken.
Qed.

Lemma deliver_undisturbed m data :
  (forall s l d, good l d -> contents s !! l = Some d -> contents (fst (deliver m data s)) !! l = Some d) ->
  evolves (undisturbed good) (service_deliver m data).
Proof.
  intros Hm. unfold service_deliver, open_streams.
  apply evolves_bind; [apply _|apply reads_undisturbed; auto with reads|intros _]. by apply app_undisturbed.
Qed.

End good.

#[local] Hint Resolve reads_undisturbed store_read_undisturbed storage_undisturbed
  progress_keeps verify_keeps commit_keeps chunk_keeps : evolves.
#[local] Hint Extern 1 (reads _) => progress auto with reads : evolves.

(** *** The parts of a receipt *)

Lemma check_copy_item_inv i w w' p :
  check_copy_item i w = (w', Ok p) ->
  (forall good, undisturbed good w w') /\
  en_builds (fst w) !! ci_build_id i = Some p /\
  validate_build_envelope (bp_authority p) i = Ok tt /\
  (bp_last_sequence p < ci_sequence i -> bp_completed p = is_operation i).
Proof.
  unfold check_copy_item, check_aborted, validated_by, contract_check, is_operation.
  intros Hrun. e_inv. guards. subst. split_and!; [by split|done|done|].
  intros Hlt%Z.ltb_lt. rename select ((_ <? _) && _ = false) into Hkind. rewrite Hlt in Hkind.
  simpl in Hkind. by destruct (bp_completed p), (ci_snapshot_chunk i), (ci_final_item i).
Qed.

Lemma check_copy_item_undisturbed good i : evolves (undisturbed good) (check_copy_item i).
Proof.
  unfold check_copy_item, validated_by, contract_check.
  repeat (apply evolves_bind; [apply _|first [apply reads_undisturbed; by auto with reads
    |apply store_read_undisturbed]|intros ?]).
  apply reads_undisturbed. auto with reads.
Qed.

Lemma duplicate_undisturbed good i p : evolves (undisturbed good) (duplicate_copy_item i p).
Proof.
  unfold duplicate_copy_item. apply evolves_if; intros _; [evolve|].
  apply evolves_if; intros _; [apply reads_undisturbed; auto with reads|evolve].
Qed.

(** The progress is durable, and visible unless the delivery was fenced meanwhile. *)
Record recorded (p : DurableBuildProgress) id w w' : Prop := {
  rec_stored : as_build_progress (en_store (fst w'))
    = <[ba_build_id (bp_authority p) := p]> (as_build_progress (en_store (fst w)));
  rec_builds : en_builds (fst w') = en_builds (fst w) \/
    en_builds (fst w') = <[id := p]> (en_builds (fst w));
  rec_application : snd w' = snd w;
}.

Definition record_exit good p id w w' : Prop := undisturbed good w w' \/ recorded p id w w'.

Lemma record_cases good generation id p k w :
  record_exit good p id w (fst (record_copy_progress generation id p k w)).
Proof.
  unfold record_copy_progress.
  apply reads_bind; [auto with reads|by left|intros [] _]. apply m_bind_ends.
  { intros w1 r Hrun Hr. left.
    destruct (store_write_cases (record_build_progress p None) w) as [(s & faults & _ & Heq)|(r' & faults & _ & Heq)];
      rewrite Heq in Hrun; simplify_eq; [by destruct (Hr tt)|by split]. }
  intros w1 [] (s & faults & Hrec & ->)%store_write_inv.
  assert (as_build_progress s = <[ba_build_id (bp_authority p) := p]> (as_build_progress (en_store (fst w)))) as Hs.
  { unfold record_build_progress in Hrec. by guards. }
  apply reads_bind; [auto with reads|right; split; auto|intros [] _].
  right. destruct k; split; simpl; auto.
Qed.

(** *** The effect of a new item *)

(** The operations that a new item leaves alone: none while the snapshot is
    installed, then all but a different one at the same LSN. *)
Definition untouched_by (i : CopyItem) (p : DurableBuildProgress) (l : Z) (d : Bytes) : Prop :=
  bp_completed p = true /\ (l = ci_lsn i -> d = ci_data i).

Record advanced (i : CopyItem) (p : DurableBuildProgress) w w' : Prop := {
  ad_builds : en_builds (fst w') = en_builds (fst w) \/
    en_builds (fst w') = <[ci_build_id i := accept p i]> (en_builds (fst w));
  ad_contents l d : untouched_by i p l d -> contents (snd w) !! l = Some d ->
    contents (snd w') !! l = Some d;
  ad_stored : as_build_progress (en_store (fst w'))
    = <[ba_build_id (bp_authority p) := accept p i]> (as_build_progress (en_store (fst w)));
  ad_operation : is_operation i = true ->
    contents (snd w') !! ci_lsn i = Some (ci_data i) /\ ci_lsn i = i64_wrap (bp_durable_lsn p + 1);
  ad_sequence : ci_sequence i = u64_next (bp_last_sequence p);
}.

Definition new_exit i p w w' : Prop := undisturbed (untouched_by i p) w w' \/ advanced i p w w'.

Lemma accept_authority p i : bp_authority (accept p i) = bp_authority p.
Proof. unfold accept. by repeat case_match. Qed.

(** A delivery, then the record of the progress. *)
Lemma recorded_advances i p w w1 w' :
  undisturbed (untouched_by i p) w w1 -> ci_sequence i = u64_next (bp_last_sequence p) ->
  (is_operation i = true ->
     contents (snd w1) !! ci_lsn i = Some (ci_data i) /\ ci_lsn i = i64_wrap (bp_durable_lsn p + 1)) ->
  record_exit (untouched_by i p) (accept p i) (ci_build_id i) w1 w' -> new_exit i p w w'.
Proof.
  intros Hun Hseq Hop [Hun'|[Hrec Hb Hst]]; [left; by etrans|right].
  destruct Hun as [Hb' Hs' Hc']. rewrite accept_authority in Hrec. rewrite Hb' in Hb. rewrite Hs' in Hrec.
  split; [done|rewrite Hst; apply Hc'|done|rewrite Hst; done|done].
Qed.

(** An operation that answers after it, and changes nothing more. *)
Lemma exit_ret {A B} (P : World (St := St) -> Prop) (m : engine (St := St) A) (f : A -> B) w :
  P (fst (m w)) -> P (fst (m_bind m (fun a => m_ret (f a)) w)).
Proof. unfold m_bind. by destruct (m w) as [w' [a|e|]]. Qed.

Lemma evolves_exit {A B} i p (m : engine (St := St) A) (k : A -> engine B) w0 w :
  undisturbed (untouched_by i p) w0 w -> evolves (undisturbed (untouched_by i p)) m ->
  (forall w1 a, m w = (w1, Ok a) -> undisturbed (untouched_by i p) w0 w1 ->
     new_exit i p w0 (fst (k a w1))) ->
  new_exit i p w0 (fst (m_bind m k w)).
Proof.
  intros Hw Hm Hk. specialize (Hm w). apply m_bind_ends.
  - intros w1 r Hrun _. rewrite Hrun in Hm. left. by etrans.
  - intros w1 a Hrun. rewrite Hrun in Hm. apply (Hk w1 a Hrun). by etrans.
Qed.

Lemma snapshot_exit generation i p w :
  ci_snapshot_chunk i = true -> bp_completed p = false -> ci_sequence i = u64_next (bp_last_sequence p) ->
  new_exit i p w (fst (receive_snapshot_chunk generation i p w)).
Proof.
  intros Hc Hp Hseq. unfold receive_snapshot_chunk. apply evolves_exit; [done|apply deliver_undisturbed|].
  { intros s l d [Hp' _]. congruence. }
  intros w1 _ _ Hw1.
  apply (exit_ret (new_exit i p w) _ (fun _ => bp_durable_lsn p)).
  eapply recorded_advances; [done|done| |].
  { unfold is_operation. by rewrite Hc. }
  assert (accept p i = p <| bp_last_sequence := ci_sequence i |> <| bp_completed := false |>) as <-
    by (unfold accept; by rewrite Hc).
  apply record_cases.
Qed.

Lemma final_exit generation i p w :
  ci_snapshot_chunk i = false -> ci_final_item i = true -> bp_completed p = false ->
  ci_sequence i = u64_next (bp_last_sequence p) ->
  new_exit i p w (fst (receive_final_item generation i p w)).
Proof.
  intros Hc Hf Hp Hseq. unfold receive_final_item.
  do 2 (apply evolves_exit; [done|apply reads_undisturbed; auto with reads|intros ? ? _ ?]).
  apply evolves_exit; [done|apply deliver_undisturbed|].
  { intros s l d [Hp' _]. congruence. }
  intros w3 k _ Hw3. apply evolves_exit; [done|apply reads_undisturbed; auto with reads|].
  intros w4 [] _ Hw4. apply (exit_ret (new_exit i p w) _ (fun _ => ci_replication_boundary_lsn i)).
  eapply recorded_advances; [done|done| |].
  { unfold is_operation. by rewrite Hc, Hf. }
  assert (accept p i = {| bp_authority := bp_authority p; bp_last_sequence := ci_sequence i;
    bp_durable_lsn := ci_replication_boundary_lsn i; bp_completed := true;
    bp_catch_up_boundary_lsn := ci_catch_up_boundary_lsn i |}) as <- by (unfold accept; by rewrite Hc, Hf).
  apply record_cases.
Qed.

(** The operation is in the application once the service has answered. *)
Lemma applied_operation i w w' k :
  apply_copied_operation i w = (w', Ok k) -> contents (snd w') !! ci_lsn i = Some (ci_data i).
Proof.
  unfold apply_copied_operation, service_deliver, open_streams. intros Hrun. e_inv.
  rename select (durable_progress _ = _) into Hp. apply progress_law in Hp as (Hcont & _).
  destruct (_ <=? _) in Hrun; e_inv.
  - destruct a0; [|done]. rename select (verify_applied _ _ = _) into Hv.
    apply verify_law in Hv as (-> & _ & Hin). done.
  - rename select (m_zoom _ _ _ _ = _) into Hd. apply app_inv in Hd as [Hd _].
    apply deliver_law in Hd as [-> _]. by rewrite lookup_insert_eq.
Qed.

Lemma apply_undisturbed i p : evolves (undisturbed (untouched_by i p)) (apply_copied_operation i).
Proof.
  unfold apply_copied_operation. evolve. apply deliver_undisturbed. intros s l d [_ Hl] Hd.
  destruct (deliver_keeps (ci_lsn i) (ci_committed_lsn i) (ci_data i) s) as [-> | ->]; [done|].
  destruct (decide (l = ci_lsn i)) as [->|Hne]; [|by rewrite lookup_insert_ne].
  by rewrite lookup_insert_eq, Hl.
Qed.

Lemma operation_exit generation i p w :
  is_operation i = true -> ci_sequence i = u64_next (bp_last_sequence p) ->
  new_exit i p w (fst (receive_copied_operation generation i p w)).
Proof.
  intros Hop Hseq. unfold receive_copied_operation.
  do 2 (apply evolves_exit; [done|apply reads_undisturbed; auto with reads|intros ? ? _ ?]).
  apply evolves_exit; [done|apply reads_undisturbed; auto with reads|].
  intros w3 [] [-> Hlsn]%fail_if_inv Hw3. guards.
  apply evolves_exit; [done|apply apply_undisturbed|]. intros w4 k Hk%applied_operation Hw4.
  apply (exit_ret (new_exit i p w) _ (fun _ => ci_lsn i)).
  eapply recorded_advances; [done|done|done|].
  assert (accept p i = p <| bp_last_sequence := ci_sequence i |> <| bp_durable_lsn := ci_lsn i |>) as <-.
  { unfold accept, is_operation in *. by destruct (ci_snapshot_chunk i), (ci_final_item i). }
  apply record_cases.
Qed.

(** *** A new item that is acknowledged *)

Lemma record_ok generation id p k w w' u :
  record_copy_progress generation id p k w = (w', Ok u) ->
  as_build_progress (en_store (fst w')) !! ba_build_id (bp_authority p) = Some p.
Proof.
  unfold record_copy_progress. intros Hrun. e_inv.
  repeat match goal with
  | H : check_delivery_generation _ _ = _ |- _ => apply check_generation_inv in H as [? _]; subst
  end.
  rename select (record_build_progress _ _ _ = _) into Hrec. unfold record_build_progress in Hrec. guards.
  destruct k; simpl; by rewrite lookup_insert_eq.
Qed.

Lemma new_item_ok generation i p w w' d :
  receive_new_item generation i p w = (w', Ok d) ->
  as_build_progress (en_store (fst w')) !! ba_build_id (bp_authority p) = Some (accept p i) /\
  d = bp_durable_lsn (accept p i).
Proof.
  unfold receive_new_item, receive_snapshot_chunk, receive_final_item, receive_copied_operation, accept.
  intros Hrun. e_inv. destruct (ci_snapshot_chunk i); [|destruct (ci_final_item i)]; e_inv;
    rename select (record_copy_progress _ _ _ _ _ = _) into Hrec; by apply record_ok in Hrec.
Qed.

(** *** A receipt, whatever its outcome *)

Lemma exit_reads {A B} (P : World (St := St) -> Prop) (m : engine (St := St) A) (k : A -> engine B) w :
  (forall a, reads (k a)) -> P (fst (m w)) -> P (fst (m_bind m k w)).
Proof. intros Hk. unfold m_bind. destruct (m w) as [w' [a|e|]]; [|done..]. by rewrite Hk. Qed.

Definition receipt i w w' : Prop :=
  (forall good, undisturbed good w w') \/
  exists p, en_builds (fst w) !! ci_build_id i = Some p /\
    validate_build_envelope (bp_authority p) i = Ok tt /\ bp_completed p = is_operation i /\
    bp_last_sequence p < ci_sequence i /\ new_exit i p w w'.

Lemma receive_exit i w : receipt i w (fst (receive_copy_item i w)).
Proof.
  unfold receive_copy_item. apply reads_bind; [auto with reads|by left|]. intros e [= <-].
  pose proof (fun good => check_copy_item_undisturbed good i w) as Hcheck.
  unfold m_bind at 1. destruct (check_copy_item i w) as [w1 [p|err|]] eqn:Hrun; [|by left..].
  apply check_copy_item_inv in Hrun as (_ & Hp & Henv & Hkind). apply exit_reads; [auto with reads|].
  destruct (ci_sequence i <=? bp_last_sequence p) eqn:Hseq; guards.
  { left. intros good. etrans; [apply Hcheck|apply duplicate_undisturbed]. }
  specialize (Hkind Hseq). right. exists p. split_and!; try done.
  assert (forall w', new_exit i p w1 w' -> new_exit i p w w') as Hfrom.
  { intros w' [Hun|Had]; [left; etrans; [apply Hcheck|done]|right].
    destruct (Hcheck (untouched_by i p)) as [Hb Hs Hc], Had. simpl in *. rewrite Hb, Hs in *. split; eauto. }
  unfold receive_new_item. apply evolves_exit; [apply Hcheck|apply reads_undisturbed; auto with reads|].
  intros w2 [] [-> Hnext]%fail_if_inv _. guards.
  destruct (ci_snapshot_chunk i) eqn:Hc; [apply Hfrom, snapshot_exit; try done|].
  { rewrite Hkind. unfold is_operation. by rewrite Hc. }
  destruct (ci_final_item i) eqn:Hf; [apply Hfrom, final_exit; try done|].
  { rewrite Hkind. unfold is_operation. by rewrite Hc, Hf. }
  apply Hfrom, operation_exit; [|done]. unfold is_operation. by rewrite Hc, Hf.
Qed.

End target.
(** ** The progress of a prefix *)

Section prefixes.
Variables (b : BuildAuthority) (c : CopyLog).
#[local] Abbreviation boundary := (ba_replication_boundary_lsn b).
#[local] Abbreviation chunks := (length (cl_chunks c)).

(** Where an item stands in the stream says what it is. *)
Lemma items_kind n i :
  items_of b c !! n = Some i ->
  ((n < chunks)%nat /\ ci_snapshot_chunk i = true) \/
  (n = chunks /\ is_Some (cl_catch_up c) /\ exists catch_up, cl_catch_up c = Some catch_up /\
     i = copy_final_item b (Z.of_nat n + 1) catch_up) \/
  ((chunks < n)%nat /\ is_Some (cl_catch_up c) /\
   exists o, cl_operations c !! (n - chunks - 1)%nat = Some o /\
     i = copy_operation_item b (Z.of_nat n + 1) o).
Proof.
  unfold items_of, chunk_items, operation_items. intros [Hi|[Hn Hi]]%lookup_app_Some.
  - left. split; [apply lookup_lt_Some in Hi; by rewrite length_imap in Hi|].
    rewrite list_lookup_imap in Hi. by apply fmap_Some in Hi as (d & _ & ->).
  - right. rewrite length_imap in *. destruct (cl_catch_up c) as [x|] eqn:Hc; [|done].
    apply lookup_cons_Some in Hi as [[Hz <-]|[Hz Hi]].
    + left. assert (n = chunks) as -> by lia. split_and!; [done|done|]. by exists x.
    + right. split_and!; [lia|done|]. rewrite list_lookup_imap in Hi. apply fmap_Some in Hi as (o & Ho & ->).
      exists o. split; [done|]. f_equal. lia.
Qed.

Record prefix_progress (n : nat) (p : DurableBuildProgress) : Prop := {
  pp_authority : bp_authority p = b;
  pp_sequence : bp_last_sequence p = Z.of_nat n;
  pp_completed : bp_completed p = true <-> (chunks < n)%nat;
  pp_durable : bp_durable_lsn p =
    if decide (chunks < n)%nat then boundary + Z.of_nat (n - chunks - 1) else 0;
  pp_catch_up : bp_catch_up_boundary_lsn p = if bp_completed p then cl_catch_up c else None;
}.

Hypothesis contiguous : forall n o, cl_operations c !! n = Some o ->
  op_lsn o = boundary + 1 + Z.of_nat n.

Lemma progress_take n :
  (n <= length (items_of b c))%nat -> prefix_progress n (progress_of b (take n (items_of b c))).
Proof.
  induction n as [|n IH]; intros Hn.
  { split; [done|done|split; [done|lia]|by rewrite decide_False by lia|done]. }
  destruct (lookup_lt_is_Some_2 (items_of b c) n) as [i Hi]; [lia|].
  unfold progress_of in *. rewrite (take_S_r _ _ _ Hi), fold_left_app. simpl.
  destruct IH as [Ha Hs Hc Hd Hcatch]; [lia|].
  pose proof (items_sequence b c n i Hi) as Hseq.
  set (p := fold_left accept (take n (items_of b c)) (no_build_progress b)) in *.
  destruct (items_kind n i Hi) as [[Hlt Hk]|[(-> & _ & x & Hx & ->)|(Hlt & _ & o & Ho & ->)]].
  - assert (bp_completed p = false) as Hf by (destruct (bp_completed p); [lia|done]).
    unfold accept. rewrite Hk. split; [done|simpl; lia|simpl; split; [done|lia]| |simpl; by rewrite Hcatch, Hf].
    rewrite decide_False in Hd by lia. by rewrite decide_False by lia.
  - split; [done|simpl; lia|simpl; split; [lia|done]| |done].
    rewrite decide_True by lia. replace (S chunks - chunks - 1)%nat with 0%nat by lia. simpl. lia.
  - assert (bp_completed p = true) as Ht by (apply Hc; lia).
    split; [done|simpl; lia|simpl; rewrite Ht; split; [lia|done]| |done].
    rewrite decide_True by lia. simpl. rewrite (contiguous _ _ Ho). lia.
Qed.

End prefixes.

(** ** The target *)

Section held.
Context `{Sha256} {St : Type} `{!DurableApplication St, !ApplicationLaws St}.
Variables (b : BuildAuthority) (c : CopyLog) (history : gmap Z Bytes).
Implicit Types w : World (St := St).

#[local] Abbreviation id := (ba_build_id b).
#[local] Abbreviation boundary := (ba_replication_boundary_lsn b).

(** The durable progress of the build. *)
Definition stored w : DurableBuildProgress :=
  default (no_build_progress b) (as_build_progress (en_store (fst w)) !! id).

(** The target receives items of the stream, in any order, any number of times and
    with any outcome; it can restart, when the build's progress is that of the
    store again; and anything else happens that leaves the build and the applied
    operations alone. *)
Record other_target_work w w' : Prop := {
  ow_stored : as_build_progress (en_store (fst w')) !! id = as_build_progress (en_store (fst w)) !! id;
  ow_build : en_builds (fst w') !! id = en_builds (fst w) !! id
    \/ en_builds (fst w') !! id = None \/ en_builds (fst w') !! id = Some (stored w);
  ow_contents l d : boundary < l -> contents (snd w) !! l = Some d -> contents (snd w') !! l = Some d;
}.

Inductive target_step : World (St := St) -> World (St := St) -> Prop :=
| TargetReceive i w : i ∈ items_of b c -> target_step w (fst (receive_copy_item i w))
| TargetOther w w' : other_target_work w w' -> target_step w w'.

(** The progress is that of a prefix whose operations the application holds. *)
Definition held (p : DurableBuildProgress) (st : St) : Prop :=
  exists n, (n <= length (items_of b c))%nat /\ p = progress_of b (take n (items_of b c)) /\
    forall j, j ∈ take n (items_of b c) -> is_operation j = true ->
      contents st !! ci_lsn j = Some (ci_data j).

Record target_ok w : Prop := {
  tk_build p : en_builds (fst w) !! id = Some p -> held p (snd w) /\
    bp_last_sequence p <= bp_last_sequence (stored w) <= bp_last_sequence p + 1;
  tk_stored : held (stored w) (snd w);
}.

Hypothesis contiguous : forall n o, cl_operations c !! n = Some o ->
  op_lsn o = boundary + 1 + Z.of_nat n.
Hypothesis sequences : Z.of_nat (length (items_of b c)) < 2 ^ 64 - 1.

Lemma held_mono p st st' :
  (forall l d, boundary < l -> contents st !! l = Some d -> contents st' !! l = Some d) ->
  held p st -> held p st'.
Proof.
  intros Hkeep (n & Hn & Hp & Hall). exists n. split_and!; [done|done|]. intros j Hj Hop.
  apply Hkeep; [|by apply Hall]. apply elem_of_take in Hj as (m & Hj & _).
  destruct (items_kind b c m j Hj) as [[_ Hk]|[(_ & _ & x & _ & ->)|(_ & _ & o & Ho & ->)]].
  - unfold is_operation in Hop. by rewrite Hk in Hop.
  - done.
  - simpl. rewrite (contiguous _ _ Ho). lia.
Qed.

(** A new item of the stream leaves what the target holds alone. *)
Lemma held_untouched p q i st st' :
  held p st -> held q st -> bp_last_sequence q <= bp_last_sequence p + 1 -> i ∈ items_of b c ->
  bp_completed p = is_operation i ->
  (forall l d, untouched_by i p l d -> contents st !! l = Some d -> contents st' !! l = Some d) ->
  held q st'.
Proof.
  intros (np & Hnp & -> & _) (n & Hn & -> & Hall) Hclose (m & Hi)%list_elem_of_lookup Hkind Hkeep.
  destruct (progress_take b c contiguous np Hnp) as [_ Hlast Hcomp _ _].
  destruct (progress_take b c contiguous n Hn) as [_ Hlast' _ _ _].
  exists n. split_and!; [done|done|]. intros j Hj Hop.
  apply Hkeep; [|by apply Hall]. apply elem_of_take in Hj as (k & Hj & Hk).
  destruct (items_kind b c k j Hj) as [[_ Hc]|[(_ & _ & x & _ & ->)|(Hlt & _ & o & Ho & ->)]];
    [unfold is_operation in Hop; by rewrite Hc in Hop|done|].
  assert (bp_completed (progress_of b (take np (items_of b c))) = true) as Hdone by (apply Hcomp; lia).
  split; [done|]. rewrite Hdone in Hkind.
  destruct (items_kind b c m i Hi) as [[_ Hc]|[(_ & _ & y & _ & ->)|(Hlt' & _ & o' & Ho' & ->)]];
    [unfold is_operation in Hkind; by rewrite Hc in Hkind|done|].
  simpl. rewrite (contiguous _ _ Ho), (contiguous _ _ Ho'). intros Heq.
  assert (k = m) as -> by lia. congruence.
Qed.

(** The item after the prefix extends it. *)
Lemma held_next p i st :
  held p st -> i ∈ items_of b c -> ci_sequence i = u64_next (bp_last_sequence p) ->
  (is_operation i = true -> contents st !! ci_lsn i = Some (ci_data i)) ->
  held (accept p i) st /\ bp_last_sequence (accept p i) = bp_last_sequence p + 1.
Proof.
  intros (n & Hn & -> & Hall) (m & Hi)%list_elem_of_lookup Hseq Hop.
  destruct (progress_take b c contiguous n Hn) as [_ Hlast _ _ _].
  rewrite (items_sequence b c m i Hi), Hlast, u64_next_id in Hseq by lia. assert (m = n) as -> by lia.
  pose proof (lookup_lt_Some _ _ _ Hi) as Hlt.
  assert (accept (progress_of b (take n (items_of b c))) i = progress_of b (take (S n) (items_of b c))) as Hacc.
  { unfold progress_of. by rewrite (take_S_r _ _ _ Hi), fold_left_app. }
  rewrite Hacc. split.
  - exists (S n). split_and!; [lia|done|].
    rewrite (take_S_r _ _ _ Hi). intros j [Hj| ->%list_elem_of_singleton]%elem_of_app; auto.
  - destruct (progress_take b c contiguous (S n)) as [_ -> _ _ _]; lia.
Qed.

Lemma items_fields i :
  i ∈ items_of b c -> ci_build_id i = id /\ ci_replication_boundary_lsn i = boundary /\
    (ci_snapshot_chunk i = true -> ci_final_item i = false).
Proof.
  unfold items_of, chunk_items, operation_items. intros [Hi|Hi]%elem_of_app.
  - by apply elem_of_lookup_imap in Hi as (? & ? & -> & _).
  - destruct (cl_catch_up c); [|by apply elem_of_nil in Hi].
    apply elem_of_cons in Hi as [->|Hi]; [done|]. by apply elem_of_lookup_imap in Hi as (? & ? & -> & _).
Qed.
Lemma items_build i : i ∈ items_of b c -> ci_build_id i = id.
Proof. by intros [? _]%items_fields. Qed.

Lemma held_authority p st : held p st -> bp_authority p = b.
Proof. intros (n & Hn & -> & _). by destruct (progress_take b c contiguous n Hn). Qed.

Lemma receive_ok i w : target_ok w -> i ∈ items_of b c -> target_ok (fst (receive_copy_item i w)).
Proof.
  intros [Hb Hs] Hi. unfold stored in *.
  destruct (receive_exit i w) as [Hun|(p & Hp & _ & Hkind & Hlt & Hexit)].
  { destruct (Hun (fun _ _ => True)) as [Hb' Hs' Hc]. split; unfold stored; rewrite ?Hb', ?Hs'.
    - intros p [Hp ?]%Hb. split; [|done]. eapply held_mono; [|done]. auto.
    - eapply held_mono; [|done]. auto. }
  rewrite (items_build i Hi) in Hp. destruct (Hb p Hp) as [Hheld Hclose].
  destruct Hexit as [[Hb' Hs' Hc]|[Hb' Hc Hs' Hop Hseq]].
  - split; unfold stored; rewrite ?Hb', ?Hs'.
    + intros q Hq. rewrite Hp in Hq. injection Hq as <-. split; [|done].
      eapply (held_untouched p p); eauto. lia.
    + eapply (held_untouched p); eauto. lia.
  - rewrite (items_build i Hi) in Hb'. rewrite (held_authority p _ Hheld) in Hs'.
    assert (held p (snd (fst (receive_copy_item i w)))) as Hheld'.
    { eapply (held_untouched p p); eauto. lia. }
    destruct (held_next p i _ Hheld' Hi Hseq) as [Hnext Hlast]; [by intros [? _]%Hop|].
    split; unfold stored; rewrite Hs', lookup_insert_eq; simpl; [|done].
    intros q Hq. destruct Hb' as [Hb'|Hb']; rewrite Hb', ?lookup_insert_eq in Hq; simplify_eq;
      (split; [done|lia]).
Qed.

Lemma other_work_ok w w' : target_ok w -> other_target_work w w' -> target_ok w'.
Proof.
  intros [Hbuild Hstored] [Hs Hb Hc].
  assert (stored w' = stored w) as Heq by (unfold stored; by rewrite Hs).
  split; rewrite ?Heq.
  - intros p Hp. destruct Hb as [Hb|[Hb|Hb]]; rewrite Hb in Hp; [|done|].
    + destruct (Hbuild p Hp). split; [|done]. by eapply held_mono.
    + injection Hp as <-. split; [by eapply held_mono|lia].
  - by eapply held_mono.
Qed.

Lemma target_step_ok w w' : target_ok w -> target_step w w' -> target_ok w'.
Proof.
  intros Hok Hstep. destruct Hstep; [by apply receive_ok|by eapply other_work_ok].
Qed.

(** *** What an acknowledgement means *)

(** The target's durable progress covers the acknowledgement. *)
Record covers_ack (k : CopyAck) w : Prop := {
  ca_durable : ca_durable_lsn k <= bp_durable_lsn (stored w);
  ca_completed : ca_final_item k = true -> bp_completed (stored w) = true;
}.

Hypothesis boundary_positive : 0 <= boundary.

(** More of the stream is more progress. *)
Lemma prefix_mono p q st st' :
  held p st -> held q st' -> bp_last_sequence p <= bp_last_sequence q ->
  0 <= bp_durable_lsn p <= bp_durable_lsn q /\ (bp_completed p = true -> bp_completed q = true) /\
  (bp_completed p = true -> boundary <= bp_durable_lsn p).
Proof.
  intros (n & Hn & -> & _) (m & Hm & -> & _).
  destruct (progress_take b c contiguous n Hn) as [_ -> -> -> _].
  destruct (progress_take b c contiguous m Hm) as [_ -> -> -> _]. intros Hle.
  repeat case_decide; lia.
Qed.

Lemma receive_acknowledges i w w' k :
  target_ok w -> i ∈ items_of b c -> receive_copy_item i w = (w', Ok k) -> covers_ack k w'.
Proof.
  intros Hok Hi Hrun. pose proof (receive_ok i w Hok Hi) as Hok'. rewrite Hrun in Hok'. simpl in Hok'.
  unfold receive_copy_item in Hrun. e_inv.
  rename select (check_copy_item _ _ = _) into Hcheck.
  apply check_copy_item_inv in Hcheck as (Hun & Hp & _ & Hkind). rewrite (items_build i Hi) in Hp.
  repeat match goal with
  | H : check_delivery_generation _ _ = _ |- _ => apply check_generation_inv in H as [? _]; subst
  end.
  destruct (tk_build w Hok _ Hp) as [Hheld Hclose].
  destruct (prefix_mono _ _ _ _ Hheld (tk_stored w Hok)) as (Hd & Hc & Hb); [lia|].
  destruct (items_fields i Hi) as (_ & Hrb & Hchunk).
  destruct (ci_sequence i <=? bp_last_sequence a0) eqn:Hseq.
  - assert (stored s1 = stored w) as Hs.
    { pose proof (duplicate_undisturbed (fun _ _ => True) i a0 s0) as Hdup. rewrite Hm1 in Hdup.
      simpl in Hdup. unfold stored. by rewrite (un_stored _ _ _ Hdup), (un_stored _ _ _ (Hun (fun _ _ => True))). }
    unfold duplicate_copy_item in Hm1.
    destruct (ci_snapshot_chunk i); [|destruct (ci_final_item i)]; e_inv; guards;
      split; simpl; rewrite ?Hs, ?Hrb; auto; try lia.
    + intros Hf. by rewrite Hchunk in Hf.
    + rename select (bp_completed a0 = true) into Hdone. specialize (Hb Hdone). lia.
  - apply new_item_ok in Hm1 as [Hrow ->]. rewrite (held_authority a0 _ Hheld) in Hrow.
    split; unfold stored; simpl; rewrite Hrow; simpl; [done|]. intros Hf.
    unfold accept. destruct (ci_snapshot_chunk i); [by rewrite Hchunk in Hf|]. by rewrite Hf.
Qed.

(** A completed prefix has the whole snapshot and the final marker. *)
Lemma held_snapshot p st :
  held p st -> bp_completed p = true ->
  is_Some (cl_catch_up c) /\ Z.of_nat (length (cl_chunks c)) + 1 <= bp_last_sequence p.
Proof.
  intros (n & Hn & -> & _) Hdone. destruct (progress_take b c contiguous n Hn) as [_ -> Hc _ _].
  apply Hc in Hdone. rewrite length_items in Hn. destruct (cl_catch_up c); [split; [done|lia]|lia].
Qed.

(** The prefix the target holds is the source's history after the snapshot. *)
Lemma held_history p st :
  held p st -> log_ok b history c -> bp_completed p = true ->
  forall l, boundary < l <= bp_durable_lsn p ->
    exists d, history !! l = Some d /\ contents st !! l = Some d.
Proof.
  intros (n & Hn & -> & Hall) Hlog Hdone l.
  destruct (progress_take b c contiguous n Hn) as [_ _ Hc -> _]. apply Hc in Hdone.
  rewrite decide_True by done. intros Hl. pose proof (length_items b c) as Hlen.
  destruct (lookup_lt_is_Some_2 (items_of b c) (length (cl_chunks c) + 1 + Z.to_nat (l - boundary - 1)))
    as [i Hi]; [lia|].
  destruct (items_kind b c _ i Hi) as [[? _]|[(? & _)|(_ & _ & o & Ho & ->)]]; [lia..|].
  pose proof (contiguous _ _ Ho) as Hlsn.
  assert (op_lsn o = l) as <- by lia. exists (op_data o). split.
  - apply (lo_history _ _ _ Hlog). by eapply list_elem_of_lookup_2.
  - assert (copy_operation_item b (Z.of_nat (length (cl_chunks c) + 1 + Z.to_nat (op_lsn o - boundary - 1)) + 1) o
            ∈ take n (items_of b c)) as Hin.
    { apply elem_of_take. eexists. split; [exact Hi|lia]. }
    exact (Hall _ Hin eq_refl).
Qed.

Lemma target_start w :
  as_build_progress (en_store (fst w)) !! id = None ->
  (forall p, en_builds (fst w) !! id = Some p -> p = no_build_progress b) -> target_ok w.
Proof.
  intros Hs Hb. assert (stored w = no_build_progress b) as Heq by (unfold stored; by rewrite Hs).
  assert (held (no_build_progress b) (snd w)) as Hheld.
  { exists 0%nat. split_and!; [lia|done|]. simpl. by intros ? ?%elem_of_nil. }
  split; rewrite Heq; [|done]. intros p ->%Hb. split; [done|simpl; lia].
Qed.

End held.
