(* ===== verification/CopyEndToEnd.v ===== *)
(** * A build from the source to the target

    The source with the task that produces the copy stream, the target, and the
    network between them: items of the stream arrive at the target in any order,
    repeatedly or never, and so do the acknowledgements at the source.  When the
    source considers the build done, the target holds the source's history. *)

From S2P Require Import Prelude Digest Types Intents Commands Validation Quorums ScaleDown ScaleUp.
From S2P Require Import ManagedConfiguration Quorum QuorumSafety Log Authority AuthorityStore Engine.
From S2P Require Import EngineWrites EngineConfiguration EngineRemoval EngineReplication EngineCopy CopySafety.
From S2P Require Import LogApplication CopyLiveness CopyTarget.
From stdpp Require Import base gmap strings list sorting relations pretty.
From Stdlib Require Import ZArith Lia Strings.Byte.
Local Open Scope Z_scope.

Section joint.
Context `{Sha256} {St : Type} `{!DurableApplication St, !ApplicationLaws St}.
Variable t : ProducerTask.
Variable history : gmap Z Bytes.
Variable snapshot : list (result Bytes).
Variable lossy : bool.

#[local] Abbreviation b := (pt_authority t).
#[local] Abbreviation id := (ba_build_id (pt_authority t)).
#[local] Abbreviation boundary := (ba_replication_boundary_lsn (pt_authority t)).
Implicit Types w : World (St := St).

Hypothesis boundary_range : i64_range boundary.
Hypothesis boundary_positive : 0 <= boundary.
Hypothesis history_range : forall l, is_Some (history !! l) -> l <= i64_max.
Hypothesis task_operations :
  map_Forall (fun l o => op_lsn o = l /\ from_history t history o) (pt_operations t).
Hypothesis snapshot_results : Forall (fun r => r <> Panic) snapshot.

(** ** What a step of the source changes *)

(** The acknowledged part of the build's progress is kept. *)
Definition keeps_acknowledged w w' : Prop :=
  forall ob', en_outbound_builds (fst w') !! id = Some ob' ->
    exists ob, en_outbound_builds (fst w) !! id = Some ob /\
      bp_durable_lsn (ob_progress ob') = bp_durable_lsn (ob_progress ob) /\
      bp_completed (ob_progress ob') = bp_completed (ob_progress ob).

Lemma keeps_put w w' ob ob' :
  en_outbound_builds (fst w) !! id = Some ob ->
  en_outbound_builds (fst w') = <[id := ob']> (en_outbound_builds (fst w)) ->
  bp_durable_lsn (ob_progress ob') = bp_durable_lsn (ob_progress ob) ->
  bp_completed (ob_progress ob') = bp_completed (ob_progress ob) -> keeps_acknowledged w w'.
Proof. intros Hob Heq Hd Hc x. rewrite Heq, lookup_insert_eq. intros [= <-]. eauto. Qed.

Lemma producer_changes p w w' p' :
  producer_step t p w = (w', Ok p') -> keeps_acknowledged w w'.
Proof.
  assert (forall w1, en_outbound_builds (fst w1) = en_outbound_builds (fst w) -> keeps_acknowledged w w1) as Hsame
    by (intros w1 Heq ob' Hob'; rewrite Heq in Hob'; eauto).
  destruct p as [i next|[|chunk chunks] sequence|sequence|sequence catch_up|[|o operations]| | |error|];
    cbn [producer_step];
    unfold record_emitted_copy_item, freeze_build_catch_up_boundary, emit_copy_operation; intros Hrun.
  10: { injection Hrun as <- _. apply Hsame, (send_error_streams t error w). }
  all: task_inv; try by apply Hsame.
  - by eapply keeps_put.
  - simpl in *. simplify_eq. by eapply keeps_put.
  - by eapply keeps_put.
  - destruct (emitted_operation _ _); task_inv; [by apply Hsame|by eapply keeps_put].
  - destruct (decide _); task_inv; by eapply keeps_put.
Qed.

(** A step of the source: the build's progress is kept or raised by an
    acknowledgement. *)
Definition source_changes (acknowledged : CopyAck -> Prop) w w' : Prop :=
  forall ob', en_outbound_builds (fst w') !! id = Some ob' ->
    exists ob, en_outbound_builds (fst w) !! id = Some ob /\
      ((bp_durable_lsn (ob_progress ob') = bp_durable_lsn (ob_progress ob) /\
        bp_completed (ob_progress ob') = bp_completed (ob_progress ob)) \/
       exists k, acknowledged k /\ ob_progress ob' = acknowledged_progress k (ob_progress ob)).

Lemma same_changes acknowledged w w' :
  en_outbound_builds (fst w') = en_outbound_builds (fst w) -> source_changes acknowledged w w'.
Proof. intros Heq ob'. rewrite Heq. eauto. Qed.

Lemma produce_changes acknowledged c p w writes :
  producing t history snapshot lossy c (w, p, writes) -> room t w ->
  source_changes acknowledged w (fst (produce_step t p w)).
Proof.
  intros Hok Hroom.
  destruct (produce_ok t history snapshot lossy boundary_range history_range task_operations snapshot_results
    c w p writes Hok Hroom) as (c' & _ & Hok').
  pose proof (producer_calm t history snapshot lossy snapshot_results c w p writes Hok) as Hcalm.
  unfold produce_step in *. destruct (send_waits _ _ _); [by apply same_changes|].
  destruct (producer_step t p w) as [w' [p'|error|]] eqn:Hrun; [| |done].
  - intros ob' (ob & Hob & Hsame)%(producer_changes p w w' p' Hrun). eauto.
  - destruct Hok' as [_ Hfailed _ _]. specialize (Hfailed eq_refl). cbn [fst snd] in *.
    intros ob'. by rewrite Hfailed.
Qed.

Lemma env_changes acknowledged w w' writes writes' :
  env_step t history acknowledged lossy (w, writes) (w', writes') -> source_changes acknowledged w w'.
Proof.
  intros Hstep.
  inversion Hstep as [o items ? ? highest Hroom Hdata Ho Hrun|n i rest ? ? highest _ Hrun
    |n i rest ? ? error highest Hl Hrun|? ? Hl|k ? ? Hk|? ?|? ?|? ? ? Hb Hs Halone]; subst; clear Hstep.
  - intros ob' Hob'. rewrite (offer_builds o w w' items id Hrun) in Hob'.
    destruct (en_outbound_builds (fst w) !! id) as [ob|]; [|done]. injection Hob' as <-.
    exists ob. split; [done|]. left. unfold offer_to_build, number_operation.
    by do 2 (destruct (_ || _); [done|]).
  - apply send_inv in Hrun as (s & _ & ->). by apply same_changes.
  - apply send_refused in Hrun as ->. by apply same_changes.
  - by apply same_changes.
  - destruct (acknowledgement_builds t k w) as [Hstreams Hbuilds].
    intros ob' Hob'. destruct (Hbuilds id) as [Heq|(ob & _ & Hob & Heq)]; rewrite Heq in Hob'; [by eauto|].
    injection Hob' as <-. exists ob. eauto.
  - by apply same_changes.
  - by apply same_changes.
  - intros ob' Hob'. destruct Hb as [Heq|Heq]; rewrite Heq in Hob'; [eauto|done].
Qed.

Lemma copy_changes acknowledged c w p writes w' p' writes' :
  producing t history snapshot lossy c (w, p, writes) ->
  copy_step t history acknowledged lossy (w, p, writes) (w', p', writes') ->
  source_changes acknowledged w w'.
Proof.
  intros Hok Hstep. inversion Hstep as [? ? ? Hroom Hlock|? ? ? ? ? Henv]; subst.
  - rename select (produce_step _ _ _ = _) into Heq. change w' with (fst (w', p')). rewrite <-Heq.
    by eapply produce_changes.
  - by eapply env_changes.
Qed.

(** ** The two ends and the network *)

Record Joint := {
  j_source : World (St := St);
  j_producer : Producer;
  j_writes : Writes;
  j_target : World (St := St);
  j_acks : list CopyAck;
}.

(** What the receiver has taken from the stream arrives at the target, in any order,
    repeatedly or never. *)
Inductive joint_step (j : Joint) : Joint -> Prop :=
| JointSource w p writes :
    copy_step t history (fun k => k ∈ j_acks j) lossy (j_source j, j_producer j, j_writes j) (w, p, writes) ->
    joint_step j {| j_source := w; j_producer := p; j_writes := writes; j_target := j_target j;
                    j_acks := j_acks j |}
| JointDeliver s i :
    en_copy_streams (fst (j_source j)) !! pt_stream t = Some s -> Ok i ∈ cs_received s ->
    joint_step j {| j_source := j_source j; j_producer := j_producer j; j_writes := j_writes j;
                    j_target := fst (receive_copy_item i (j_target j));
                    j_acks := match snd (receive_copy_item i (j_target j)) with
                              | Ok k => k :: j_acks j
                              | _ => j_acks j
                              end |}
| JointTarget w :
    other_target_work b (j_target j) w ->
    joint_step j {| j_source := j_source j; j_producer := j_producer j; j_writes := j_writes j;
                    j_target := w; j_acks := j_acks j |}.

(** The target is never behind what the source was told. *)
Record joint_ok (c : CopyLog) (j : Joint) : Prop := {
  jo_source : producing t history snapshot lossy c (j_source j, j_producer j, j_writes j);
  jo_target : target_ok b c (j_target j);
  jo_acks k : k ∈ j_acks j -> covers_ack b k (j_target j);
  jo_progress ob : en_outbound_builds (fst (j_source j)) !! id = Some ob ->
    bp_durable_lsn (ob_progress ob) <= bp_durable_lsn (stored b (j_target j)) /\
    (bp_completed (ob_progress ob) = true -> bp_completed (stored b (j_target j)) = true);
}.

(** Whatever is on the stream is an item of the log. *)
Lemma stream_items c p sends sent i :
  stream_ok t lossy c p sends sent -> Ok i ∈ sent -> i ∈ items_of b c.
Proof.
  intros (items & errors & -> & Herr & _ & Hsub & _) Hi. apply elem_of_app in Hi as [Hi|Hi].
  - apply list_elem_of_fmap in Hi as (j & [= <-] & Hj).
    eapply elem_of_sublist; [|exact Hsub]. apply elem_of_app. by left.
  - rewrite Forall_forall in Herr. by destruct (Herr _ Hi).
Qed.

Lemma held_extends c c' p (st : St) :
  items_of b c `prefix_of` items_of b c' -> held b c p st -> held b c' p st.
Proof.
  intros [rest Hrest] (n & Hn & Hp & Hall). exists n.
  assert (take n (items_of b c') = take n (items_of b c)) as Htake
    by (rewrite Hrest; by apply take_app_le).
  rewrite Htake. split_and!; [|done|done]. rewrite Hrest, length_app. lia.
Qed.

Lemma target_extends c c' w :
  items_of b c `prefix_of` items_of b c' -> target_ok b c w -> target_ok b c' w.
Proof.
  intros Hpre [Hb Hs]. split; [|by eapply held_extends]. intros p (Hp & ?)%Hb. split; [|done].
  by eapply held_extends.
Qed.

(** The target's durable progress never goes back. *)
Definition raises w w' : Prop :=
  bp_durable_lsn (stored b w) <= bp_durable_lsn (stored b w') /\
  (bp_completed (stored b w) = true -> bp_completed (stored b w') = true).

Lemma receive_raises c i w :
  log_ok b history c -> Z.of_nat (length (items_of b c)) < 2 ^ 64 - 1 ->
  target_ok b c w -> i ∈ items_of b c -> raises w (fst (receive_copy_item i w)).
Proof.
  intros Hlog Hlen Hok Hi. pose proof (lo_contiguous _ _ _ Hlog) as Hcon.
  pose proof (receive_ok b c Hcon Hlen i w Hok Hi) as Hok'.
  destruct (prefix_mono b c Hcon boundary_positive _ _ _ _ (tk_stored b c _ Hok) (tk_stored b c _ Hok'))
    as (Hd & Hc & _); [|by split; [lia|]].
  destruct (receive_exit i w) as [Hun|(p & Hp & _ & Hkind & Hlt & [[_ Hs _]|Had])].
  - unfold stored. by rewrite (un_stored _ _ _ (Hun (fun _ _ => True))).
  - unfold stored. by rewrite Hs.
  - rewrite (items_build b c i Hi) in Hp. destruct (tk_build b c w Hok p Hp) as [Hheld Hclose].
    destruct Had as [_ _ Hs _ Hseq]. rewrite (held_authority b c Hcon p _ Hheld) in Hs.
    unfold stored in *. rewrite Hs, lookup_insert_eq. simpl.
    assert (bp_last_sequence (accept p i) = ci_sequence i) as ->.
    { unfold accept. by destruct (ci_snapshot_chunk i), (ci_final_item i). }
    destruct Hheld as (n & Hn & -> & _). destruct (progress_take b c Hcon n Hn) as [_ Hlast _ _ _].
    rewrite Hlast in Hclose, Hseq. rewrite u64_next_id in Hseq by lia. lia.
Qed.

Lemma raises_acks k w w' : raises w w' -> covers_ack b k w -> covers_ack b k w'.
Proof. intros [Hd Hc] [Hk Hf]. split; [lia|auto]. Qed.

Lemma joint_step_ok c j j' :
  joint_ok c j -> joint_step j j' -> exists c', joint_ok c' j'.
Proof.
  intros [Hsrc Htarget Hacks Hprog] Hstep. pose proof Hsrc as [_ _ _ (s & Hs & Hlog & _ & Hsent & _ & Hlen & _)].
  pose proof (lo_contiguous _ _ _ Hlog) as Hcon. cbn [fst snd] in *.
  destruct Hstep as [w p writes Hstep|s0 i Hs0 Hi|w Hother].
  - pose proof (copy_changes _ _ _ _ _ _ _ _ Hsrc Hstep) as Hchange.
    destruct (copy_step_ok t history snapshot _ lossy boundary_range history_range task_operations
      snapshot_results c _ _ Hsrc Hstep) as (c' & Hpre & Hsrc').
    exists c'. split; cbn [j_source j_producer j_writes j_target j_acks]; [done|by eapply target_extends|done|].
    intros ob' Hob'. destruct (Hchange ob' Hob') as (ob & Hob & [[-> ->]|(k & Hk & ->)]); [by apply Hprog|].
    destruct (Hprog ob Hob) as [Hd Hc], (Hacks k Hk) as [Hkd Hkc]. simpl. split; [lia|].
    intros [?|?]%orb_true_iff; auto.
  - rewrite Hs in Hs0. injection Hs0 as <-.
    assert (i ∈ items_of b c) as Hi'.
    { eapply stream_items; [exact Hsent|]. unfold cs_sent. apply elem_of_app. by left. }
    pose proof (receive_raises c i _ Hlog Hlen Htarget Hi') as Hraises.
    exists c. split; cbn [j_source j_producer j_writes j_target j_acks]; [done|by apply receive_ok| |].
    + destruct (receive_copy_item i (j_target j)) as [w [k0|e|]] eqn:Hrun; cbn [fst snd] in *;
        [|by intros k Hk; eapply raises_acks, Hacks..].
      intros k [->|Hk]%elem_of_cons; [|by eapply raises_acks, Hacks].
      by eapply (receive_acknowledges b c).
    + intros ob Hob. destruct (Hprog ob Hob) as [Hd Hc], Hraises as [Hd' Hc']. split; [lia|auto].
  - assert (raises (j_target j) w) as Hraises.
    { destruct Hother as [Hst _ _]. unfold raises, stored. by rewrite Hst. }
    exists c. split; cbn [j_source j_producer j_writes j_target j_acks]; [done|by eapply other_work_ok| |].
    + intros k Hk. by eapply raises_acks, Hacks.
    + intros ob Hob. destruct (Hprog ob Hob) as [Hd Hc], Hraises as [Hd' Hc']. split; [lia|auto].
Qed.

End joint.

(** ** From preparation to completion *)

Section built.
Context `{Sha256} {St : Type} `{!DurableApplication St, !ApplicationLaws St}.
Variable history : gmap Z Bytes.
Variable lossy : bool.
Implicit Types w : World (St := St).

(** No acknowledgement can raise the progress of a build that has sent nothing. *)
Lemma waiting_progress cp w w' writes writes' :
  rtc (env_step (task_of cp ∅) history (fun _ => False) lossy) (w, writes) (w', writes') ->
  (forall ob, en_outbound_builds (fst w) !! ba_build_id (cp_authority cp) = Some ob ->
     bp_durable_lsn (ob_progress ob) = 0 /\ bp_completed (ob_progress ob) = false) ->
  forall ob, en_outbound_builds (fst w') !! ba_build_id (cp_authority cp) = Some ob ->
     bp_durable_lsn (ob_progress ob) = 0 /\ bp_completed (ob_progress ob) = false.
Proof.
  intros Hsteps. remember (w, writes) as x eqn:Hx. remember (w', writes') as y eqn:Hy.
  revert w writes Hx. induction Hsteps as [x|x [w1 h1] y Hstep Hsteps IH]; intros w writes Hx Hzero.
  { by simplify_eq. }
  subst x y. apply (IH eq_refl w1 h1 eq_refl).
  intros ob Hob. destruct (env_changes (task_of cp ∅) history _ _ _ _ _ _ Hstep ob Hob)
    as (ob0 & Hob0 & [[-> ->]|(k & [] & _)]). by apply Hzero.
Qed.

Lemma begin_progress id target w0 w1 cp :
  begin_prepare_copy id target w0 = (w1, Ok cp) ->
  as_build_progress (en_store (fst w0)) !! id = None ->
  forall ob, en_outbound_builds (fst w1) !! ba_build_id (cp_authority cp) = Some ob ->
    bp_durable_lsn (ob_progress ob) = 0 /\ bp_completed (ob_progress ob) = false.
Proof.
  unfold begin_prepare_copy, requested_build, start_build, validated_by. intros Hrun Hnone. e_inv.
  guards. simpl in *. rename select (_ !! _ = Some ob) into Hob. rename select (BuildAuthority) into b.
  assert (ba_build_id b = id) as Hid.
  { rename select (b = _) into Hb. by rewrite Hb. }
  rewrite lookup_insert_eq in Hob. injection Hob as <-. simpl. by rewrite Hid, Hnone.
Qed.

(** The two ends, right after the preparation. *)
Lemma joint_start context cp w2 w3 writes t p wt :
  waiting history cp (w2, writes) ->
  finish_prepare_copy context cp w2 = (w3, Ok (t, p)) ->
  contents (snd w2) ⊆ history ->
  (forall o, o ∈ cp_retained cp -> history !! op_lsn o = Some (op_data o)) ->
  (forall ob, en_outbound_builds (fst w2) !! ba_build_id (cp_authority cp) = Some ob ->
     bp_durable_lsn (ob_progress ob) = 0 /\ bp_completed (ob_progress ob) = false) ->
  as_build_progress (en_store (fst wt)) !! ba_build_id (cp_authority cp) = None ->
  (forall q, en_builds (fst wt) !! ba_build_id (cp_authority cp) = Some q ->
     q = no_build_progress (cp_authority cp)) ->
  exists chunks, p = ProduceSnapshot chunks 1 /\ pt_authority t = cp_authority cp /\
    Forall (fun r => r <> Panic) chunks /\
    map_Forall (fun l o => op_lsn o = l /\ from_history t history o) (pt_operations t) /\
    exists c, joint_ok t history chunks lossy c
      {| j_source := w3; j_producer := p; j_writes := writes; j_target := wt; j_acks := [] |}.
Proof.
  intros Hw2 Hfinish Hcontents Hretained Hzero Htnone Htbuild.
  destruct (prepared_producing history lossy context cp w2 w3 t p writes Hw2 Hfinish Hcontents Hretained)
    as (chunks & Hp & Ht & Hchunks & Hops & Hok).
  assert (fst w3 = fst w2) as Heq.
  { by apply finish_prepare_inv in Hfinish as (? & ? & ? & ? & _ & _ & _ & _ & ? & _). }
  exists chunks. split_and!; try done. eexists. rewrite <-Ht in *.
  split; cbn [j_source j_producer j_writes j_target j_acks]; [done|by apply target_start|by intros k ?%elem_of_nil|].
  rewrite Heq. intros ob0 Hob0. destruct (Hzero ob0 Hob0) as [-> ->]. unfold stored.
  by rewrite Htnone.
Qed.

(** [C2] A build that ends the source's wait is a real copy.  The source prepares, for
    the first time, the build of a replica that starts with nothing; what the
    receiver takes from the stream and the acknowledgements travel over a network
    that may lose, repeat and reorder them; both ends may restart, be fenced, or fail
    in the middle of any operation, and writes may end with items of this build
    unsent.  When the build is ready (completed, with the catch-up boundary
    acknowledged), the target has durably accepted every chunk of the snapshot that
    the state provider returned, and the final marker; and its application holds,
    byte for byte, every operation of the source after the snapshot's replication
    boundary up to the acknowledged LSN, which is at least the frozen catch-up
    boundary.  What the service restores from the chunks is not part of the model. *)
Theorem ready_build_holds_history id target context cp w0 w1 w2 writes w3 t p wt j ob generation :
  begin_prepare_copy id target w0 = (w1, Ok cp) ->
  (forall id' ob n, en_outbound_builds (fst w0) !! id' = Some ob -> ob_stream ob = Some n ->
     (n < length (en_copy_streams (fst w0)))%nat) ->
  as_build_progress (en_store (fst w0)) !! id = None ->
  rtc (env_step (task_of cp ∅) history (fun _ => False) lossy) (w1, no_writes (cp_highest cp)) (w2, writes) ->
  finish_prepare_copy context cp w2 = (w3, Ok (t, p)) ->
  contents (snd w2) ⊆ history ->
  (forall o, o ∈ cp_retained cp -> history !! op_lsn o = Some (op_data o)) ->
  (forall l, is_Some (history !! l) -> l <= i64_max) ->
  i64_range (ba_replication_boundary_lsn (cp_authority cp)) ->
  0 <= ba_replication_boundary_lsn (cp_authority cp) ->
  as_build_progress (en_store (fst wt)) !! ba_build_id (cp_authority cp) = None ->
  (forall q, en_builds (fst wt) !! ba_build_id (cp_authority cp) = Some q ->
     q = no_build_progress (cp_authority cp)) ->
  rtc (joint_step t history lossy)
    {| j_source := w3; j_producer := p; j_writes := writes; j_target := wt; j_acks := [] |} j ->
  en_outbound_builds (fst (j_source j)) !! ba_build_id (cp_authority cp) = Some ob ->
  build_ready target id generation (fst (j_source j)) ob = true ->
  exists chunks catch_up, p = ProduceSnapshot chunks 1 /\
    Z.of_nat (length chunks) + 1 <= bp_last_sequence (stored (cp_authority cp) (j_target j)) /\
    bp_completed (stored (cp_authority cp) (j_target j)) = true /\
    bp_catch_up_boundary_lsn (ob_progress ob) = Some catch_up /\
    catch_up <= bp_durable_lsn (ob_progress ob) /\
    forall l, ba_replication_boundary_lsn (cp_authority cp) < l <= bp_durable_lsn (ob_progress ob) ->
      exists d, history !! l = Some d /\ contents (snd (j_target j)) !! l = Some d.
Proof.
  intros Hbegin Hstreams Hnone Hwait Hfinish Hcontents Hretained Hrange Hboundary Hpos Htnone Htbuild
    Hsteps Hob Hready.
  pose proof (begin_prepare_waiting history cp id target w0 w1 Hbegin Hstreams) as Hw1.
  pose proof (waiting_progress cp w1 w2 _ _ Hwait (begin_progress _ _ _ _ _ Hbegin Hnone)) as Hzero.
  pose proof (waiting_steps history _ _ cp _ _ Hw1 Hwait) as Hw2.
  destruct (joint_start context cp w2 w3 writes t p wt Hw2 Hfinish Hcontents Hretained Hzero Htnone Htbuild)
    as (chunks & Hp & Ht & Hchunks & Hops & c0 & Hstart). rewrite <-Ht in *.
  assert (exists c, joint_ok t history chunks lossy c j) as (c & [Hsrc Htarget _ Hprog]).
  { clear -Hstart Hsteps Hboundary Hpos Hrange Hops Hchunks. revert c0 Hstart.
    induction Hsteps as [|x y z Hstep _ IH]; intros c0 Hstart; [by exists c0|].
    destruct (joint_step_ok t history chunks lossy Hboundary Hpos Hrange Hops Hchunks c0 x y Hstart Hstep)
      as (c1 & Hc1). by eapply IH. }
  unfold build_ready in Hready. guards. destruct (Hprog ob Hob) as [Hd Hc].
  destruct Hsrc as [_ _ _ (s & _ & Hlog & Hsnap & _)]. cbn [fst snd] in *.
  destruct (bp_catch_up_boundary_lsn (ob_progress ob)) as [catch_up|]; [|done]. simpl in *.
  exists chunks, catch_up. split_and!; [done| |by apply Hc|done|by guards|].
  - apply (chunks_fail chunks c _ Closed) in Hsnap as [_ Hall].
    destruct (held_snapshot (pt_authority t) c (lo_contiguous _ _ _ Hlog) _ _ (tk_stored _ _ _ Htarget))
      as [Hcu Hlast]; [by apply Hc|]. rewrite <-(Hall Hcu), length_map. done.
  - intros l Hl. eapply (held_history (pt_authority t) c history);
      [apply (lo_contiguous _ _ _ Hlog)|by apply tk_stored|done|by apply Hc|lia].
Qed.

End built.

(** ** A sample build *)

#[local] Existing Instance padding_sha256.

Module Building.

#[local] Abbreviation World := (World (St := AppLog)).

(** The primary has two operations, the first of them committed; it builds member 4
    from a snapshot at LSN 1. *)
Definition build : BuildAuthority := Stores.first_build.
Definition authority : ManagedReplicaConfiguration := Run.authority None Sample.previous.
Definition data : list Bytes := [[x01]; [x02]].
Definition history : gmap Z Bytes := al_operations (al_of data 1).

Definition source : World :=
  ((new_engine (Sample.identity 1 "a") "session" Stores.with_first)
     <| en_open := true |> <| en_role := Primary |> <| en_authority := Some authority |>
     <| en_bound := true |>, al_of data 1).

Definition target_store : AuthorityStore :=
  let s := new_store (Sample.identity 4 "d") "resource" in Stores.after (admit_build build s) s.
Definition target : World :=
  ((new_engine (Sample.identity 4 "d") "session" target_store)
     <| en_open := true |> <| en_role := IdleSecondary |> <| en_bound := true |>
     <| en_builds := {["build" := no_build_progress build]} |>
     <| en_inbound_build_generations := {["build" := 0]} |>, al_of [] 0).

Definition preparation : CopyPreparation :=
  {| cp_authority := build; cp_highest := 2; cp_retained := []; cp_stream := 0; cp_generation := 0 |}.
Definition prepared : World := fst (begin_prepare_copy "build" (Sample.identity 4 "d") source).
Definition task : ProducerTask :=
  {| pt_authority := build;
     pt_operations := {[2 := {| op_lsn := 2; op_committed_lsn := 0; op_data := [x02] |}]};
     pt_stream := 0; pt_generation := 0 |}.
Definition started : Joint :=
  {| j_source := fst (finish_prepare_copy [] preparation prepared);
     j_producer := ProduceSnapshot [Ok [x2a]] 1; j_writes := no_writes 2; j_target := target; j_acks := [] |}.

(** A schedule: the task steps, the receiver takes an item, item [n] of those it has
    taken arrives, acknowledgement [n] arrives (the latest first). *)
Inductive action := Produce | Take | Deliver (n : nat) | Acknowledge (n : nat).

Definition perform (a : action) (j : Joint (St := AppLog)) : option Joint :=
  match a with
  | Produce =>
      let '(w, p) := produce_step task (j_producer j) (j_source j) in
      Some {| j_source := w; j_producer := p; j_writes := j_writes j; j_target := j_target j;
              j_acks := j_acks j |}
  | Take =>
      Some {| j_source := (receive_from_stream 0 (fst (j_source j)), snd (j_source j));
              j_producer := j_producer j; j_writes := j_writes j; j_target := j_target j;
              j_acks := j_acks j |}
  | Deliver n =>
      match en_copy_streams (fst (j_source j)) !! 0%nat ≫= (fun s => cs_received s !! n) with
      | Some (Ok i) =>
          Some {| j_source := j_source j; j_producer := j_producer j; j_writes := j_writes j;
                  j_target := fst (receive_copy_item i (j_target j));
                  j_acks := match snd (receive_copy_item i (j_target j)) with
                            | Ok k => k :: j_acks j
                            | _ => j_acks j
                            end |}
      | _ => None
      end
  | Acknowledge n =>
      k ← j_acks j !! n;
      Some {| j_source := fst (accept_copy_acknowledgement k (j_source j));
              j_producer := j_producer j; j_writes := j_writes j; j_target := j_target j;
              j_acks := j_acks j |}
  end.

(** The integers are in range in every state of the schedule, and no write is under
    way. *)
Definition in_range (j : Joint (St := AppLog)) : bool :=
  (en_current_progress (fst (j_source j)) <=? i64_max)
  && match en_outbound_builds (fst (j_source j)) !! "build" with
     | Some ob => (ob_next_sequence ob <? 2 ^ 64 - 1)
                  && is_none_or (fun l => l <=? i64_max) (bp_catch_up_boundary_lsn (ob_progress ob))
     | None => true
     end
  && match wr_sends (j_writes j) with [] => true | _ => false end.

Fixpoint schedule (actions : list action) (j : Joint) : option Joint :=
  match actions with
  | [] => Some j
  | a :: actions => if in_range j then perform a j ≫= schedule actions else None
  end.

Lemma in_range_room j : in_range j = true -> room task (j_source j) /\ wr_sends (j_writes j) = [].
Proof.
  unfold in_range. intros [[Hp Hb]%andb_true_iff Hw]%andb_true_iff. split; [split|by destruct (wr_sends _)].
  - intros ob Hob. change (ba_build_id (pt_authority task)) with "build" in Hob. rewrite Hob in Hb.
    apply andb_true_iff in Hb as [Hb _]. by apply Z.ltb_lt in Hb.
  - by apply Z.leb_le in Hp.
  - intros ob l Hob Hl. change (ba_build_id (pt_authority task)) with "build" in Hob. rewrite Hob, Hl in Hb.
    apply andb_true_iff in Hb as [_ Hb]. by apply Z.leb_le in Hb.
Qed.

Lemma perform_step lossy a j j' :
  in_range j = true -> perform a j = Some j' -> joint_step task history lossy j j'.
Proof.
  intros Hrange. destruct (in_range_room j Hrange) as [Hroom Hsends]. destruct a as [| |n|n]; simpl.
  - destruct (produce_step task (j_producer j) (j_source j)) as [w p] eqn:E. intros [= <-].
    apply JointSource. rewrite <-E. apply StepProduce; [done|]. by destruct (j_producer j).
  - intros [= <-]. apply JointSource, StepEnvironment. apply (StepTake task).
  - destruct (_ !! 0%nat) as [s|] eqn:Hs; [|done]. simpl.
    destruct (cs_received s !! n) as [[i| |]|] eqn:Hi; [|done..]. intros [= <-].
    eapply JointDeliver; [exact Hs|by eapply list_elem_of_lookup_2].
  - destruct (j_acks j !! n) as [k|] eqn:Hk; [|done]. intros [= <-]. apply JointSource.
    apply StepEnvironment, StepAck. by eapply list_elem_of_lookup_2.
Qed.

Lemma schedule_steps lossy actions j j' :
  schedule actions j = Some j' -> rtc (joint_step task history lossy) j j'.
Proof.
  revert j. induction actions as [|a actions IH]; simpl; intros j Hrun; [by simplify_eq|].
  destruct (in_range j) eqn:Hr; [|done]. apply bind_Some in Hrun as (j1 & Hj1 & Hrun).
  eapply rtc_l; [by eapply perform_step|by apply IH].
Qed.

(** The task alone. *)
Fixpoint produce (n : nat) (x : World * Producer) : option (World * Producer) :=
  match n with
  | O => Some x
  | S n => if in_range {| j_source := fst x; j_producer := snd x; j_writes := no_writes 2;
                          j_target := target; j_acks := [] |}
           then produce n (produce_step task (snd x) (fst x)) else None
  end.

Lemma produce_steps lossy n w p w' p' :
  produce n (w, p) = Some (w', p') ->
  rtc (copy_step task history (fun _ => False) lossy) (w, p, no_writes 2) (w', p', no_writes 2).
Proof.
  revert w p. induction n as [|n IH]; intros w p Hrun; simpl in Hrun; [by simplify_eq|].
  destruct (in_range _) eqn:Hr; [|done]. apply in_range_room in Hr as [Hr _]. simpl in Hr.
  destruct (produce_step task p w) as [w1 p1] eqn:E.
  eapply rtc_l; [apply StepProduce; [done|by destruct p]|]. rewrite E. by apply IH.
Qed.

Definition produced : World * Producer :=
  default (j_source started, ProduceFailed) (produce 10 (j_source started, j_producer started)).

Lemma history_range l : is_Some (history !! l) -> l <= i64_max.
Proof.
  intros Hl. assert (l = 1 \/ l = 2) as [->| ->]; [|done..].
  assert (l ∈ dom history) as Hin by (by apply elem_of_dom).
  replace (dom history) with ({[1; 2]} : gset Z) in Hin by (vm_compute; reflexivity). set_solver.
Qed.

(** The items arrive twice and out of order; the acknowledgements in any order. *)
Definition actions : list action :=
  repeat Produce 10 ++ repeat Take 3 ++
  [Deliver 1; Deliver 0; Deliver 0; Deliver 2; Deliver 1; Deliver 2;
   Acknowledge 0; Acknowledge 2; Acknowledge 1].
Definition finished : Joint := default started (schedule actions started).
Definition finished_build : option OutboundBuild :=
  en_outbound_builds (fst (j_source finished)) !! "build".

End Building.

Lemma ready_build_holds_history_witness :
  contents (snd (j_target Building.finished)) !! 2 = Some [x02].
Proof.
  destruct (ready_build_holds_history Building.history true "build" (Sample.identity 4 "d") []
              Building.preparation Building.source Building.prepared Building.prepared (no_writes 2)
              (j_source Building.started) Building.task (j_producer Building.started)
              Building.target Building.finished
              (default (Build_OutboundBuild (no_build_progress Building.build) None 0 ∅ ∅ false None 0)
                 Building.finished_build) 0) as (chunks & catch_up & _ & _ & _ & _ & _ & Hall).
  - vm_compute. reflexivity.
  - vm_compute. discriminate.
  - vm_compute. reflexivity.
  - apply rtc_refl.
  - vm_compute. reflexivity.
  - replace (snd Building.prepared) with (al_of Building.data 1) by (vm_compute; reflexivity). done.
  - intros o Ho. by apply elem_of_nil in Ho.
  - apply Building.history_range.
  - done.
  - done.
  - vm_compute. reflexivity.
  - intros q Hq. vm_compute in Hq. by injection Hq as <-.
  - apply Building.schedule_steps with (actions := Building.actions). vm_compute. reflexivity.
  - vm_compute. reflexivity.
  - vm_compute. reflexivity.
  - destruct (Hall 2) as (d & Hd & Hc); [split; vm_compute; congruence|].
    transitivity (Building.history !! 2); [by rewrite Hc, Hd|vm_compute; reflexivity].
Defined.


(** The build as the task finds it. *)
Definition started_build : OutboundBuild :=
  default (Build_OutboundBuild (no_build_progress Building.build) None 0 ∅ ∅ false None 0)
    (en_outbound_builds (fst (j_source Building.started)) !! "build").


(** The task records the chunk of the snapshot, then its receiver goes away. *)
Definition recorded : World (St := AppLog) * Producer :=
  produce_step Building.task (j_producer Building.started) (j_source Building.started).
Definition interrupted : World (St := AppLog) :=
  (close_stream 0 (fst (fst recorded)), snd (fst recorded)).

Lemma step_then_close {St} `{!DurableApplication St} t history acknowledged lossy (w : World (St := St)) p writes :
  ~ ended p -> send_waits t p (fst w) = false -> lock_free p writes ->
  interleaved t history acknowledged lossy (w, p, writes) 1 1
    ((close_stream (pt_stream t) (fst (fst (produce_step t p w))), snd (fst (produce_step t p w))),
     snd (produce_step t p w), writes).
Proof.
  intros Hp Hs Hl. eapply RunOther; [|by apply StepClose].
  pose proof (RunTask t history acknowledged lossy _ 0 0 w p writes (RunNone _ _ _ _ _) Hp Hs Hl) as Hr.
  by destruct (produce_step t p w).
Qed.


(** ** A receiver that is gone and the other builds

    [begin_write_locked] records the new operation for every build, then sends the
    items in turn and returns at the first receiver that is gone. *)

Section refused.
Context `{Sha256} {St : Type} `{!DurableApplication St}.
Implicit Types w : World (St := St).

(** The second offer of an operation sends nothing. *)
Lemma offer_again o ob : snd (offer_to_build o (fst (offer_to_build o ob))) = None.
Proof.
  unfold offer_to_build at 2.
  destruct ((_ <=? _) || emitted_operation ob (op_lsn o)) eqn:Hskip; simpl.
  { unfold offer_to_build. by rewrite Hskip. }
  destruct (is_none _ || _) eqn:Hqueue; simpl.
  - unfold offer_to_build. cbn [fst snd]. simpl. destruct (_ || _); [done|]. by rewrite Hqueue.
  - unfold offer_to_build. simpl.
    assert (emitted_operation (fst (number_operation o ob)) (op_lsn o) = true) as Hem.
    { unfold emitted_operation. apply existsb_exists.
      exists {| ebi_lsn := op_lsn o; ebi_final_item := false; ebi_snapshot_chunk := false |}. split.
      - apply list_elem_of_In, list_elem_of_fmap. eexists (_, _). split; [done|].
        apply elem_of_map_to_list. simpl. by rewrite lookup_insert_eq.
      - simpl. by rewrite bool_decide_eq_true_2. }
    simpl in Hem. by rewrite Hem, orb_true_r.
Qed.

Lemma omap_none {A B} (f : A -> option B) l : (forall x, x ∈ l -> f x = None) -> omap f l = [].
Proof.
  induction l as [|x l IH]; intros Hall; [done|]. csimpl. rewrite (Hall x) by (by left).
  apply IH. intros y Hy. apply Hall. by right.
Qed.

Lemma sends_refused items w w' e :
  m_for_each (fun '(stream, item) => send_on_stream stream (Ok item) Closed) items w = (w', Err e) ->
  en_outbound_builds (fst w') = en_outbound_builds (fst w) /\
  exists sent n i lost, items = sent ++ (n, i) :: lost /\
    is_some_and cs_open (en_copy_streams (fst w') !! n) = false /\
    forall m, m ∉ sent.*1 -> en_copy_streams (fst w') !! m = en_copy_streams (fst w) !! m.
Proof.
  revert w. induction items as [|[n i] items IH]; intros w Hrun; [done|].
  cbn [m_for_each] in Hrun. unfold m_bind in Hrun.
  destruct (send_on_stream n (Ok i) Closed w) as [w1 [[]|e'|]] eqn:Hsend; [| |done].
  - apply send_inv in Hsend as (s & Hs & ->). apply IH in Hrun as [Hb (sent & m & j & lost & -> & Hc & Hall)].
    split; [done|]. exists ((n, i) :: sent), m, j, lost. split_and!; [done|done|].
    intros k [Hk Hk']%not_elem_of_cons. rewrite Hall by done. simpl. by rewrite list_lookup_insert_ne by done.
  - injection Hrun as <- ->. pose proof (send_refused _ _ _ _ _ _ Hsend) as ->. split; [done|].
    exists [], n, i, items. split_and!; [done| |done].
    unfold send_on_stream, m_bind, get_engine, m_lift, fail_if in Hsend. simpl in Hsend.
    destruct (_ !! n) as [s|]; [|done]. simpl in *. by destruct (cs_open s).
Qed.

(** [C37] A write that finds a receiver gone leaves the builds behind it without the
    operation: every build has recorded it, the items up to the closed stream are
    sent, no other stream has changed, and offering the operation again sends it to
    no build. *)
Theorem refused_write_loses_items o w w1 live_items w' e :
  record_offer o w = (w1, Ok live_items) -> offer_to_builds o w = (w', Err e) ->
  exists sent n i lost, live_items = sent ++ (n, i) :: lost /\
    is_some_and cs_open (en_copy_streams (fst w') !! n) = false /\
    (forall m, m ∉ sent.*1 -> en_copy_streams (fst w') !! m = en_copy_streams (fst w) !! m) /\
    (forall id, en_outbound_builds (fst w') !! id
       = (fun ob => fst (offer_to_build o ob)) <$> en_outbound_builds (fst w) !! id) /\
    forall w2 again, record_offer o w' = (w2, Ok again) -> again = [].
Proof.
  intros Hrecord Hoffer. unfold offer_to_builds, m_bind in Hoffer. rewrite Hrecord in Hoffer.
  apply sends_refused in Hoffer as [Hb (sent & n & i & lost & -> & Hc & Hall)].
  pose proof (fun id => offer_builds o w w1 _ id Hrecord) as Hbuilds.
  unfold record_offer in Hrecord. e_inv. exists sent, n, i, lost. split_and!; [done|done|done| |].
  - intros id. by rewrite Hb, Hbuilds.
  - unfold record_offer. intros w2 again Hagain. e_inv. apply omap_none. intros [id [ob x]] Hx.
    unfold in_key_order in Hx. rewrite merge_sort_Permutation, elem_of_map_to_list, lookup_fmap in Hx.
    apply fmap_Some in Hx as (ob1 & Hob1 & Heq). rewrite Hb, Hbuilds in Hob1.
    apply fmap_Some in Hob1 as (ob0 & _ & ->). simpl. pose proof (offer_again o ob0) as Hnone.
    by rewrite <-Heq in Hnone.
Qed.

End refused.

(** Two builds past their catch-up: the receiver of the first one's stream is gone. *)
Module ClosedStream.

Definition outbound (stream : nat) : OutboundBuild :=
  {| ob_progress := no_build_progress Building.build; ob_final_sequence := Some 1;
     ob_next_sequence := 2; ob_emitted := ∅; ob_pending_operations := ∅; ob_catching_up := false;
     ob_stream := Some stream; ob_generation := 0 |}.
Definition engine : World (St := AppLog) :=
  ((fst Building.source)
     <| en_outbound_builds := {["build" := outbound 0; "later" := outbound 1]} |>
     <| en_copy_streams := [new_stream <| cs_open := false |>; new_stream] |>,
   snd Building.source).
Definition write : Operation := {| op_lsn := 3; op_committed_lsn := 1; op_data := [x03] |}.

End ClosedStream.

Lemma refused_write_loses_items_witness :
  exists again, record_offer ClosedStream.write (fst (offer_to_builds ClosedStream.write ClosedStream.engine))
                = (again, Ok []).
Proof.
  pose (first := record_offer ClosedStream.write ClosedStream.engine).
  pose (items := match snd first with Ok items => items | _ => [] end).
  destruct (refused_write_loses_items ClosedStream.write ClosedStream.engine (fst first) items
    (fst (offer_to_builds ClosedStream.write ClosedStream.engine)) Closed)
    as (_ & _ & _ & _ & _ & _ & _ & _ & Hagain).
  - vm_compute. reflexivity.
  - vm_compute. reflexivity.
  - pose (second := record_offer ClosedStream.write
                      (fst (offer_to_builds ClosedStream.write ClosedStream.engine))).
    exists (fst second). destruct (snd second) as [again| |] eqn:E; [|vm_compute in E; discriminate E..].
    rewrite (surjective_pairing (record_offer _ _)). fold second. rewrite E.
    by rewrite (Hagain (fst second) again) by (rewrite <-E; apply surjective_pairing).
Defined.
