(* ===== verification/Effects.v ===== *)
(** * Durable effects of the agent ([effects.rs], [receipts.rs])

    A command to an agent becomes a sequence of effects on its runtime.  The
    agent journals the intent of each effect before it runs and the canonical
    outcome after it; [validate_for] says which outcome answers which effect. *)

From S2P Require Import Prelude Digest Types Intents Commands Validation Quorums ScaleDown ScaleUp.
From S2P Require Import ManagedConfiguration Quorum QuorumSafety Authority AuthorityStore.
From stdpp Require Import base gmap strings list.
From Stdlib Require Import ZArith Lia.
Local Open Scope Z_scope.

(** ** Receipts of the native engine ([receipts.rs]) *)

#[export] Instance ReplicationAck_eq_dec : EqDecision ReplicationAck.
Proof. solve_decision. Defined.

(** The exact engine an operation was issued to. *)
Record NativeOperationToken := {
  nt_authority : option AdmittedAuthority;
  nt_engine_session_id : string;
  nt_engine_generation : Z;
}.
#[export] Instance NativeOperationToken_eq_dec : EqDecision NativeOperationToken.
Proof. solve_decision. Defined.

Record CertifiedPrefixReceipt := {
  cpr_token : NativeOperationToken;
  cpr_verified_lsn : Lsn;
  cpr_settled_lsn : Lsn;
  cpr_committed_lsn : Lsn;
}.
#[export] Instance CertifiedPrefixReceipt_eq_dec : EqDecision CertifiedPrefixReceipt.
Proof. solve_decision. Defined.

Record SwitchoverReceipt := {
  swr_token : NativeOperationToken;
  swr_preparation_generation : Z;
  swr_request_id : SwitchoverRequestId;
  swr_source : ReplicaIdentity;
  swr_target : ReplicaIdentity;
  swr_starting_configuration_id : ConfigurationId;
  swr_starting_epoch : Epoch;
  swr_handoff_lsn : Lsn;
  swr_committed_lsn : Lsn;
}.
#[export] Instance SwitchoverReceipt_eq_dec : EqDecision SwitchoverReceipt.
Proof. solve_decision. Defined.

(** [receipts::SecondaryRemovalReceipt], not the receipt of [protocol/types.rs]. *)
Record NativeRemovalReceipt := {
  nrr_token : NativeOperationToken;
  nrr_preparation : option SecondaryRemovalPreparation;
  nrr_witness : option SecondaryRemovalWitness;
  nrr_accepted : option SecondaryScaleDownCleanup;
  nrr_verified_lsn : option Lsn;
  nrr_committed_lsn : Lsn;
}.
#[export] Instance NativeRemovalReceipt_eq_dec : EqDecision NativeRemovalReceipt.
Proof. solve_decision. Defined.

Record RetirementReceipt := {
  rtr_engine_session_id : string;
  rtr_engine_generation : Z;
  rtr_retired : RetiredAuthority;
  rtr_completed : bool;
}.
#[export] Instance RetirementReceipt_eq_dec : EqDecision RetirementReceipt.
Proof. solve_decision. Defined.

(** ** Effects ([effects.rs]) *)

Inductive OpenMode := OpenNew | OpenExisting.
#[export] Instance OpenMode_eq_dec : EqDecision OpenMode.
Proof. solve_decision. Defined.

Record RoleTransition := {
  rt_completed_role : ReplicaRole;
  rt_target_role : ReplicaRole;
  rt_replicator_completed : bool;
  rt_epoch_completed : bool;
  rt_application_completed : bool;
}.
#[export] Instance RoleTransition_eq_dec : EqDecision RoleTransition.
Proof. solve_decision. Defined.

Inductive RuntimeEffectAction :=
| ActOpen (mode : OpenMode)
| ActAdmitAuthority (authority : AdmittedAuthority)
| ActPrepareSecondaryRemoval (intent : SecondaryScaleDownIntent)
    (process_session_id : ProcessSessionId) (report_sequence : Z)
| ActRegisterPeerSession (identity : ReplicaIdentity) (session : ProcessSessionId)
| ActObserveSecondaryRemovalWitness (witness : SecondaryRemovalWitness)
| ActObserveSecondaryRemovalProgress (witness : SecondaryRemovalWitness)
    (committed : SecondaryScaleDownCleanup)
| ActObserveReplicationAck (acknowledgement : ReplicationAck) (session : ProcessSessionId)
| ActAcceptSecondaryRemovalCommit (committed : SecondaryScaleDownCleanup)
| ActAcceptHistoricalSecondaryRemovalCommit (command : AcceptSecondaryRemovalCommit)
| ActRetireReplica (retired : RetiredAuthority)
| ActFenceRetirement (retired : RetiredAuthority)
| ActCompleteRetirement (retired : RetiredAuthority)
| ActAuthorizeFailoverPrefix (boundary : Lsn)
| ActAdmitBuildAuthority (authority : BuildAuthority)
| ActChangeRole (role : ReplicaRole)
| ActChangeReplicatorRole (role : ReplicaRole)
| ActUpdateEpoch
| ActChangeApplicationRole (role : ReplicaRole)
| ActWaitForCatchup
| ActSetAccessStatus (read write : AccessStatus)
| ActSetReadStatus (status : AccessStatus)
| ActSetWriteStatus (status : AccessStatus)
| ActPrepareSwitchover (preparation_generation : Z) (request_id : SwitchoverRequestId)
    (source target : ReplicaIdentity) (starting_configuration_id : ConfigurationId)
    (starting_epoch : Epoch)
| ActRefreshApplicationProgress
| ActBuildReplica (build_id : OperationId) (target : ReplicaIdentity) (replication_address : string)
| ActRetireBuild (build_id : OperationId)
| ActClose
| ActAbort.
#[export] Instance RuntimeEffectAction_eq_dec : EqDecision RuntimeEffectAction.
Proof. solve_decision. Defined.

Record RuntimeEffect := {
  re_operation_id : OperationId;
  re_sequence : Z;
  re_action : RuntimeEffectAction;
}.
#[export] Instance RuntimeEffect_eq_dec : EqDecision RuntimeEffect.
Proof. solve_decision. Defined.
#[export] Instance RuntimeEffect_fields : Fields RuntimeEffect := fun e =>
  Build_RuntimeEffect (re_operation_id e) (re_sequence e) (re_action e).

(** ** Completions *)

Record BuildPostcondition := {
  bpc_authority : BuildAuthority;
  bpc_last_sequence : Z;
  bpc_durable_lsn : Lsn;
  bpc_completed : bool;
  bpc_catch_up_boundary_lsn : option Lsn;
}.
#[export] Instance BuildPostcondition_eq_dec : EqDecision BuildPostcondition.
Proof. solve_decision. Defined.

Record RoleCompletion := {
  rlc_role : ReplicaRole;
  rlc_role_transition : option RoleTransition;
}.
#[export] Instance RoleCompletion_eq_dec : EqDecision RoleCompletion.
Proof. solve_decision. Defined.

Record EpochCompletion := {
  epc_epoch : Epoch;
  epc_role_transition : option RoleTransition;
}.
#[export] Instance EpochCompletion_eq_dec : EqDecision EpochCompletion.
Proof. solve_decision. Defined.

Inductive AccessCompletionKind := AccessCombined | AccessRead | AccessWrite.
#[export] Instance AccessCompletionKind_eq_dec : EqDecision AccessCompletionKind.
Proof. solve_decision. Defined.

Record AccessCompletion := {
  acc_kind : AccessCompletionKind;
  acc_read_status : AccessStatus;
  acc_write_status : AccessStatus;
  acc_authority : option AdmittedAuthority;
  acc_role : ReplicaRole;
}.
#[export] Instance AccessCompletion_eq_dec : EqDecision AccessCompletion.
Proof. solve_decision. Defined.

Record CatchUpCompletion := {
  cuc_authority : option AdmittedAuthority;
  cuc_boundary_lsn : Lsn;
}.
#[export] Instance CatchUpCompletion_eq_dec : EqDecision CatchUpCompletion.
Proof. solve_decision. Defined.

Inductive BuildEffectState :=
| BuildDispatched
| BuildCompleted (build : BuildPostcondition)
| BuildAbandoned.
#[export] Instance BuildEffectState_eq_dec : EqDecision BuildEffectState.
Proof. solve_decision. Defined.

Record BuildCompletion := {
  bdc_build_id : OperationId;
  bdc_target : ReplicaIdentity;
  bdc_state : BuildEffectState;
}.
#[export] Instance BuildCompletion_eq_dec : EqDecision BuildCompletion.
Proof. solve_decision. Defined.

Definition is_dispatched (c : BuildCompletion) : bool :=
  match bdc_state c with BuildDispatched => true | _ => false end.

Record AuthorityCompletion := {
  auc_authority : AdmittedAuthority;
  auc_read_status : AccessStatus;
  auc_write_status : AccessStatus;
  auc_accepted_secondary_removal : option SecondaryScaleDownCleanup;
}.
#[export] Instance AuthorityCompletion_eq_dec : EqDecision AuthorityCompletion.
Proof. solve_decision. Defined.

Record SecondaryRemovalPreparationCompletion := {
  spc_prepared_secondary_removal : option SecondaryRemovalPreparation;
  spc_authority : option AdmittedAuthority;
  spc_role : ReplicaRole;
  spc_read_status : AccessStatus;
  spc_write_status : AccessStatus;
  spc_current_progress : Lsn;
  spc_verified_replication_lsn : option Lsn;
  spc_committed_lsn : Lsn;
  spc_receipt : option NativeRemovalReceipt;
}.
#[export] Instance SecondaryRemovalPreparationCompletion_eq_dec :
  EqDecision SecondaryRemovalPreparationCompletion.
Proof. solve_decision. Defined.

Record HistoricalSecondaryRemovalCompletion := {
  hrc_accepted_secondary_removal : SecondaryScaleDownCleanup;
  hrc_authority : option AdmittedAuthority;
  hrc_role : ReplicaRole;
  hrc_write_status : AccessStatus;
  hrc_role_transition_clear : bool;
  hrc_verified_replication_lsn : option Lsn;
  hrc_receipt : option NativeRemovalReceipt;
}.
#[export] Instance HistoricalSecondaryRemovalCompletion_eq_dec :
  EqDecision HistoricalSecondaryRemovalCompletion.
Proof. solve_decision. Defined.

Record SwitchoverCompletion := {
  swc_authority : option AdmittedAuthority;
  swc_role : ReplicaRole;
  swc_write_status : AccessStatus;
  swc_current_progress : Lsn;
  swc_committed_lsn : Lsn;
  swc_receipt : option SwitchoverReceipt;
}.
#[export] Instance SwitchoverCompletion_eq_dec : EqDecision SwitchoverCompletion.
Proof. solve_decision. Defined.

Record RetirementCompletion := {
  rtc_retired : RetiredAuthority;
  rtc_open : bool;
  rtc_role : ReplicaRole;
  rtc_read_status : AccessStatus;
  rtc_write_status : AccessStatus;
  rtc_authority : option AdmittedAuthority;
  rtc_role_transition_clear : bool;
  rtc_active_builds : bool;
  rtc_receipt : option RetirementReceipt;
}.
#[export] Instance RetirementCompletion_eq_dec : EqDecision RetirementCompletion.
Proof. solve_decision. Defined.

Record ProcessCompletion := {
  prc_open : bool;
  prc_role : ReplicaRole;
  prc_read_status : AccessStatus;
  prc_write_status : AccessStatus;
  prc_authority : option AdmittedAuthority;
}.
#[export] Instance ProcessCompletion_eq_dec : EqDecision ProcessCompletion.
Proof. solve_decision. Defined.

Inductive RuntimeEffectOutcome :=
| OutOpened
| OutAuthorityAdmitted (c : AuthorityCompletion)
| OutSecondaryRemovalPrepared (c : SecondaryRemovalPreparationCompletion)
| OutPeerSessionRegistered (identity : ReplicaIdentity) (session : ProcessSessionId)
| OutSecondaryRemovalWitnessObserved (witness : SecondaryRemovalWitness)
    (receipt : option NativeRemovalReceipt)
| OutSecondaryRemovalProgressObserved (witness : SecondaryRemovalWitness)
    (committed : SecondaryScaleDownCleanup) (receipt : option NativeRemovalReceipt)
| OutReplicationAckObserved (acknowledgement : ReplicationAck) (session : ProcessSessionId)
| OutSecondaryRemovalAccepted (committed : SecondaryScaleDownCleanup)
    (receipt : option NativeRemovalReceipt)
| OutHistoricalSecondaryRemovalAccepted (c : HistoricalSecondaryRemovalCompletion)
| OutReplicaRetired (c : RetirementCompletion)
| OutRetirementFenced (c : RetirementCompletion)
| OutRetirementCompleted (c : RetirementCompletion)
| OutFailoverPrefixAuthorized (boundary_lsn : Lsn) (receipt : option CertifiedPrefixReceipt)
| OutBuildAuthorityAdmitted (authority : BuildAuthority)
| OutRoleChanged (c : RoleCompletion)
| OutReplicatorRoleChanged (c : RoleCompletion)
| OutEpochUpdated (c : EpochCompletion)
| OutApplicationRoleChanged (c : RoleCompletion) (receipt : option CertifiedPrefixReceipt)
| OutCatchUpCompleted (c : CatchUpCompletion)
| OutAccessChanged (c : AccessCompletion)
| OutSwitchoverPrepared (c : SwitchoverCompletion)
| OutApplicationProgressRefreshed (current_progress : Lsn)
| OutBuildReplica (c : BuildCompletion)
| OutBuildRetired (build_id : OperationId) (active : bool)
| OutClosed (c : ProcessCompletion)
| OutAborted (c : ProcessCompletion).
#[export] Instance RuntimeEffectOutcome_eq_dec : EqDecision RuntimeEffectOutcome.
Proof. solve_decision. Defined.

Inductive RuntimeEffectFamily :=
| FamOpen | FamAuthority | FamSecondaryRemovalPreparation | FamPeerSession
| FamSecondaryRemovalWitness | FamSecondaryRemovalProgress | FamReplicationAck
| FamSecondaryRemovalAcceptance | FamHistoricalSecondaryRemovalAcceptance | FamReplicaRetirement
| FamRetirementFence | FamRetirementCompletion | FamFailoverPrefix | FamBuildAuthority | FamRole
| FamReplicatorRole | FamEpoch | FamApplicationRole | FamCatchUp | FamAccess | FamSwitchover
| FamApplicationProgress | FamBuild | FamBuildRetirement | FamClose | FamAbort.
#[export] Instance RuntimeEffectFamily_eq_dec : EqDecision RuntimeEffectFamily.
Proof. solve_decision. Defined.

Definition action_family (a : RuntimeEffectAction) : RuntimeEffectFamily :=
  match a with
  | ActOpen _ => FamOpen
  | ActAdmitAuthority _ => FamAuthority
  | ActPrepareSecondaryRemoval _ _ _ => FamSecondaryRemovalPreparation
  | ActRegisterPeerSession _ _ => FamPeerSession
  | ActObserveSecondaryRemovalWitness _ => FamSecondaryRemovalWitness
  | ActObserveSecondaryRemovalProgress _ _ => FamSecondaryRemovalProgress
  | ActObserveReplicationAck _ _ => FamReplicationAck
  | ActAcceptSecondaryRemovalCommit _ => FamSecondaryRemovalAcceptance
  | ActAcceptHistoricalSecondaryRemovalCommit _ => FamHistoricalSecondaryRemovalAcceptance
  | ActRetireReplica _ => FamReplicaRetirement
  | ActFenceRetirement _ => FamRetirementFence
  | ActCompleteRetirement _ => FamRetirementCompletion
  | ActAuthorizeFailoverPrefix _ => FamFailoverPrefix
  | ActAdmitBuildAuthority _ => FamBuildAuthority
  | ActChangeRole _ => FamRole
  | ActChangeReplicatorRole _ => FamReplicatorRole
  | ActUpdateEpoch => FamEpoch
  | ActChangeApplicationRole _ => FamApplicationRole
  | ActWaitForCatchup => FamCatchUp
  | ActSetAccessStatus _ _ | ActSetReadStatus _ | ActSetWriteStatus _ => FamAccess
  | ActPrepareSwitchover _ _ _ _ _ _ => FamSwitchover
  | ActRefreshApplicationProgress => FamApplicationProgress
  | ActBuildReplica _ _ _ => FamBuild
  | ActRetireBuild _ => FamBuildRetirement
  | ActClose => FamClose
  | ActAbort => FamAbort
  end.

Definition outcome_family (o : RuntimeEffectOutcome) : RuntimeEffectFamily :=
  match o with
  | OutOpened => FamOpen
  | OutAuthorityAdmitted _ => FamAuthority
  | OutSecondaryRemovalPrepared _ => FamSecondaryRemovalPreparation
  | OutPeerSessionRegistered _ _ => FamPeerSession
  | OutSecondaryRemovalWitnessObserved _ _ => FamSecondaryRemovalWitness
  | OutSecondaryRemovalProgressObserved _ _ _ => FamSecondaryRemovalProgress
  | OutReplicationAckObserved _ _ => FamReplicationAck
  | OutSecondaryRemovalAccepted _ _ => FamSecondaryRemovalAcceptance
  | OutHistoricalSecondaryRemovalAccepted _ => FamHistoricalSecondaryRemovalAcceptance
  | OutReplicaRetired _ => FamReplicaRetirement
  | OutRetirementFenced _ => FamRetirementFence
  | OutRetirementCompleted _ => FamRetirementCompletion
  | OutFailoverPrefixAuthorized _ _ => FamFailoverPrefix
  | OutBuildAuthorityAdmitted _ => FamBuildAuthority
  | OutRoleChanged _ => FamRole
  | OutReplicatorRoleChanged _ => FamReplicatorRole
  | OutEpochUpdated _ => FamEpoch
  | OutApplicationRoleChanged _ _ => FamApplicationRole
  | OutCatchUpCompleted _ => FamCatchUp
  | OutAccessChanged _ => FamAccess
  | OutSwitchoverPrepared _ => FamSwitchover
  | OutApplicationProgressRefreshed _ => FamApplicationProgress
  | OutBuildReplica _ => FamBuild
  | OutBuildRetired _ _ => FamBuildRetirement
  | OutClosed _ => FamClose
  | OutAborted _ => FamAbort
  end.

Record RuntimeEffectResult := {
  rer_operation_id : OperationId;
  rer_sequence : Z;
  rer_outcome : RuntimeEffectOutcome;
}.
#[export] Instance RuntimeEffectResult_eq_dec : EqDecision RuntimeEffectResult.
Proof. solve_decision. Defined.

Record RecordedEffect := { rec_effect : RuntimeEffect; rec_result : RuntimeEffectResult }.
#[export] Instance RecordedEffect_eq_dec : EqDecision RecordedEffect.
Proof. solve_decision. Defined.

(** ** Which outcome answers which action *)

(** The process is closed: not open, without a role and without access. *)
Definition process_closed (c : ProcessCompletion) : bool :=
  negb (prc_open c) && (prc_role c == RoleNone) && (prc_read_status c == NotPrimary)
  && (prc_write_status c == NotPrimary).

Definition outcome_matches (effect : RuntimeEffect) (o : RuntimeEffectOutcome) : bool :=
  match re_action effect, o with
  | ActOpen _, OutOpened => true
  | ActAdmitAuthority expected, OutAuthorityAdmitted c => auc_authority c == expected
  | ActPrepareSecondaryRemoval intent session sequence, OutSecondaryRemovalPrepared c =>
      is_some_and (fun prepared =>
        (srp_intent prepared == intent) && (srp_process_session_id prepared == session)
        && (srp_report_sequence prepared == sequence)
        && (srp_operation_id prepared == re_operation_id effect)) (spc_prepared_secondary_removal c)
  | ActRegisterPeerSession identity session, OutPeerSessionRegistered identity' session' =>
      (identity == identity') && (session == session')
  | ActObserveSecondaryRemovalWitness expected, OutSecondaryRemovalWitnessObserved witness _ =>
      expected == witness
  | ActObserveSecondaryRemovalProgress witness committed,
    OutSecondaryRemovalProgressObserved witness' committed' _ =>
      (witness == witness') && (committed == committed')
  | ActObserveReplicationAck k session, OutReplicationAckObserved k' session' =>
      (k == k') && (session == session')
  | ActAcceptSecondaryRemovalCommit expected, OutSecondaryRemovalAccepted committed _ =>
      expected == committed
  | ActAcceptHistoricalSecondaryRemovalCommit command, OutHistoricalSecondaryRemovalAccepted c =>
      hrc_accepted_secondary_removal c == arc_committed command
  | ActRetireReplica expected, OutReplicaRetired c
  | ActFenceRetirement expected, OutRetirementFenced c
  | ActCompleteRetirement expected, OutRetirementCompleted c => rtc_retired c == expected
  | ActAuthorizeFailoverPrefix expected, OutFailoverPrefixAuthorized boundary _ =>
      expected == boundary
  | ActAdmitBuildAuthority expected, OutBuildAuthorityAdmitted authority => expected == authority
  | ActChangeRole expected, OutRoleChanged c => rlc_role c == expected
  | ActChangeReplicatorRole expected, OutReplicatorRoleChanged c =>
      is_some_and (fun t => (rt_target_role t == expected) && rt_replicator_completed t)
        (rlc_role_transition c)
  | ActUpdateEpoch, OutEpochUpdated c =>
      is_some_and rt_epoch_completed (epc_role_transition c)
  | ActChangeApplicationRole expected, OutApplicationRoleChanged c _ =>
      (rlc_role c == expected) && is_none (rlc_role_transition c)
  | ActWaitForCatchup, OutCatchUpCompleted _ => true
  | ActSetAccessStatus read write, OutAccessChanged c =>
      (acc_kind c == AccessCombined) && (acc_read_status c == read) && (acc_write_status c == write)
  | ActSetReadStatus expected, OutAccessChanged c =>
      (acc_kind c == AccessRead) && (acc_read_status c == expected)
  | ActSetWriteStatus expected, OutAccessChanged c =>
      (acc_kind c == AccessWrite) && (acc_write_status c == expected)
  | ActPrepareSwitchover generation request source target id epoch, OutSwitchoverPrepared c =>
      is_none_or (fun r =>
        (swr_preparation_generation r == generation) && (swr_request_id r == request)
        && (swr_source r == source) && (swr_target r == target)
        && (swr_starting_configuration_id r == id) && (swr_starting_epoch r == epoch)) (swc_receipt c)
  | ActRefreshApplicationProgress, OutApplicationProgressRefreshed _ => true
  | ActBuildReplica build_id target _, OutBuildReplica c =>
      (bdc_build_id c == build_id) && (bdc_target c == target)
      && match bdc_state c with
         | BuildDispatched | BuildAbandoned => true
         | BuildCompleted b =>
             bpc_completed b && (ba_build_id (bpc_authority b) == build_id)
             && (ba_target (bpc_authority b) == target)
         end
  | ActRetireBuild expected, OutBuildRetired build_id active => (expected == build_id) && negb active
  | ActClose, OutClosed c | ActAbort, OutAborted c => process_closed c
  | _, _ => false
  end.

(** [RuntimeEffectResult::validate_for] *)
Definition validate_for (r : RuntimeEffectResult) (effect : RuntimeEffect) : res string unit :=
  reject ((rer_operation_id r != re_operation_id effect) || (rer_sequence r != re_sequence effect))
    "runtime returned a result for a different durable effect" ;?
  reject (action_family (re_action effect) != outcome_family (rer_outcome r))
    "runtime result belongs to a different effect family" ;?
  reject (negb (outcome_matches effect (rer_outcome r)))
    "runtime result does not match the durable effect action".

(** An outcome that matches an action is of the action's family: the second check of
    [validate_for] rejects nothing that the third accepts. *)
Lemma outcome_matches_family effect o :
  outcome_matches effect o = true -> action_family (re_action effect) = outcome_family o.
Proof. unfold outcome_matches. by destruct (re_action effect), o. Qed.

Lemma validate_for_ok r effect :
  validate_for r effect = Ok tt <->
  rer_operation_id r = re_operation_id effect /\ rer_sequence r = re_sequence effect /\
  outcome_matches effect (rer_outcome r) = true.
Proof.
  unfold validate_for. split; [intros Hok; by guards|]. intros (Hid & Hs & Hm).
  rewrite Hid, Hs, (outcome_matches_family _ _ Hm), Hm. by repeat rewrite bool_decide_eq_true_2.
Qed.

Lemma validate_for_no_panic r effect : validate_for r effect <> Panic.
Proof. unfold validate_for. no_panic. Qed.
#[export] Hint Resolve validate_for_no_panic : no_panic.
