(* ===== verification/AgentState.v ===== *)
(** * The durable state of an agent ([host/state.rs], [host/error.rs])

    One row of the agent's database: who the replica is, what it has installed, the effect and
    the configuration command under way, and the results that replays are answered with.  The
    state of the public-operation preview is not part of the modelled build. *)

From S2P Require Import Prelude Digest Types Intents Commands Observations Validation Quorums.
From S2P Require Import ScaleDown ScaleUp ManagedConfiguration Quorum QuorumSafety Authority.
From S2P Require Import AuthorityStore Effects.
From stdpp Require Import base gmap strings list.
From Stdlib Require Import ZArith Lia.
Local Open Scope Z_scope.

(** ** Errors of the host *)

(** The text of an error: a literal, or the rendering of the error it was made from. *)
Inductive HostMessage :=
| HostText (s : string)
| HostValidation (e : ValidationError)
| HostContract (e : ContractError).

Inductive HostError :=
| IdentityMismatch (message : HostMessage)
| Corrupt (message : HostMessage)
| DurableEffectConflict (message : HostMessage)
| StaleEffectCompletion (message : HostMessage)
| CommandRejected (message : HostMessage)
| HostRuntime (e : RuntimeError)
| HostContractError (e : ContractError).

Abbreviation host := (res HostError).

Definition conflict (s : string) : HostError := DurableEffectConflict (HostText s).
Definition stale (s : string) : HostError := StaleEffectCompletion (HostText s).
Definition rejected (s : string) : HostError := CommandRejected (HostText s).

(** [.map_err(|e| HostError::CommandRejected(e.to_string()))], and the same for the others *)
Definition reject_invalid {A} (v : res ValidationError A) : host A :=
  map_err (fun e => CommandRejected (HostValidation e)) v.
Definition reject_contract {A} (c : contract A) : host A :=
  map_err (fun e => CommandRejected (HostContract e)) c.
Definition conflict_invalid {A} (v : res ValidationError A) : host A :=
  map_err (fun e => DurableEffectConflict (HostValidation e)) v.
Definition conflict_contract {A} (c : contract A) : host A :=
  map_err (fun e => DurableEffectConflict (HostContract e)) c.
Definition conflict_text {A} (r : res string A) : host A := map_err conflict r.

(** ** The parts of the state *)

Record StorageIdentity := {
  si_schema_version : Z;
  si_resource_uid : ResourceUid;
  si_pod_uid : PodUid;
  si_pvc_uid : PvcUid;
  si_initialization_id : InitializationId;
  si_local_identity : ReplicaIdentity;
  si_effective_policy : EffectivePolicy;
}.

Record DeactivationState := { das_epoch : Epoch; das_deactivated_lsn : Lsn }.

Inductive EffectStage := IntentCommitted | EffectApplied.
#[export] Instance EffectStage_eq_dec : EqDecision EffectStage.
Proof. solve_decision. Defined.

Record PendingEffect := {
  pe_effect : RuntimeEffect;
  pe_stage : EffectStage;
  pe_applied_result : option RuntimeEffectResult;
}.
#[export] Instance PendingEffect_eq_dec : EqDecision PendingEffect.
Proof. solve_decision. Defined.

Record RetainedResult := { rs_operation_id : OperationId; rs_record : RecordedEffect }.
#[export] Instance RetainedResult_eq_dec : EqDecision RetainedResult.
Proof. solve_decision. Defined.

Inductive CoordinatorStage :=
| CsAdmitAuthority | CsFailoverPrefix | CsDemote | CsGetLsn | CsCatchup | CsDeactivate
| CsReplicatorRole | CsEpoch | CsApplicationRole | CsActivate | CsRetireBuild | CsComplete.
#[export] Instance CoordinatorStage_eq_dec : EqDecision CoordinatorStage.
Proof. solve_decision. Defined.

Record ReconfigurationRecord := {
  rcr_command : EnsureConfiguration;
  rcr_stage : CoordinatorStage;
  rcr_observed_lsn : option Lsn;
}.
#[export] Instance ReconfigurationRecord_eq_dec : EqDecision ReconfigurationRecord.
Proof. solve_decision. Defined.

Record RetainedCommandResult := {
  rcc_command : EnsureConfiguration;
  rcc_role : ReplicaRole;
  rcc_epoch : Epoch;
}.
#[export] Instance RetainedCommandResult_eq_dec : EqDecision RetainedCommandResult.
Proof. solve_decision. Defined.

Record PreparationRetirement := {
  prt_starting_configuration_id : ConfigurationId;
  prt_starting_epoch : Epoch;
  prt_generation : Z;
}.

Record ApplicationStorageBinding := {
  asb_paths : gmap string string;
  asb_initializing : bool;
}.

(** ** The state *)

Record AgentState := {
  ag_identity : StorageIdentity;
  ag_application_storage : option ApplicationStorageBinding;
  ag_scale_up_initialization : option ProvisioningIntent;
  ag_admitted_policy : option EffectivePolicy;
  ag_previous_policy : option EffectivePolicy;
  ag_prepared_secondary_removal : option SecondaryRemovalPreparation;
  ag_secondary_removal_evidence : option SecondaryRemovalEvidence;
  ag_accepted_secondary_removal : option SecondaryScaleDownCleanup;
  ag_retired_authority : option RetiredAuthority;
  ag_removal_effects : gmap string RetainedResult;
  ag_removal_commands : gmap string RetainedCommandResult;
  ag_highest_epoch : Epoch;
  ag_previous_configuration : option ConfigurationDescriptor;
  ag_current_configuration : option ConfigurationDescriptor;
  ag_role : ReplicaRole;
  ag_read_status : AccessStatus;
  ag_write_status : AccessStatus;
  ag_deactivation : option DeactivationState;
  ag_reconfiguration_data : option string;
  ag_reconfiguration : option ReconfigurationRecord;
  ag_retained_command : option RetainedCommandResult;
  ag_completed_scale_up : option RetainedCommandResult;
  ag_scale_up_evidence : option ScaleUpConfigurationEvidence;
  ag_build_commands : gmap string EnsureReplicaBuild;
  ag_build_progress : gmap string DurableBuildProgress;
  ag_retired_builds : gset string;
  ag_abandoned_builds : gset string;
  ag_next_effect_sequence : Z;
  ag_load_metrics : list LoadMetric;
  ag_reported_fault : option FaultType;
  ag_pending_effect : option PendingEffect;
  ag_retained_result : option RetainedResult;
  ag_prepared_switchover : option SwitchoverHandoff;
  ag_retired_switchover : option SwitchoverHandoff;
  ag_preparation_retirement : option PreparationRetirement;
}.
#[export] Instance AgentState_fields : Fields AgentState := fun s =>
  Build_AgentState (ag_identity s) (ag_application_storage s) (ag_scale_up_initialization s)
    (ag_admitted_policy s) (ag_previous_policy s) (ag_prepared_secondary_removal s)
    (ag_secondary_removal_evidence s) (ag_accepted_secondary_removal s) (ag_retired_authority s)
    (ag_removal_effects s) (ag_removal_commands s) (ag_highest_epoch s)
    (ag_previous_configuration s) (ag_current_configuration s) (ag_role s) (ag_read_status s)
    (ag_write_status s) (ag_deactivation s) (ag_reconfiguration_data s) (ag_reconfiguration s)
    (ag_retained_command s) (ag_completed_scale_up s) (ag_scale_up_evidence s)
    (ag_build_commands s) (ag_build_progress s) (ag_retired_builds s) (ag_abandoned_builds s)
    (ag_next_effect_sequence s) (ag_load_metrics s) (ag_reported_fault s) (ag_pending_effect s)
    (ag_retained_result s) (ag_prepared_switchover s) (ag_retired_switchover s)
    (ag_preparation_retirement s).

Definition ag_local (s : AgentState) : ReplicaIdentity := si_local_identity (ag_identity s).
Definition ag_resource (s : AgentState) : ResourceUid := si_resource_uid (ag_identity s).

(** [state.admitted_policy.as_ref().unwrap_or(&state.identity.effective_policy)] *)
Definition ag_policy (s : AgentState) : EffectivePolicy :=
  default (si_effective_policy (ag_identity s)) (ag_admitted_policy s).

(** [AgentState::new] *)
Definition new_agent_state (identity : StorageIdentity) : AgentState :=
  {| ag_identity := identity; ag_application_storage := None; ag_scale_up_initialization := None;
     ag_admitted_policy := None; ag_previous_policy := None; ag_prepared_secondary_removal := None;
     ag_secondary_removal_evidence := None; ag_accepted_secondary_removal := None;
     ag_retired_authority := None; ag_removal_effects := ∅; ag_removal_commands := ∅;
     ag_highest_epoch := mkEpoch 0 0; ag_previous_configuration := None;
     ag_current_configuration := None; ag_role := RoleNone; ag_read_status := NotPrimary;
     ag_write_status := NotPrimary; ag_deactivation := None; ag_reconfiguration_data := None;
     ag_reconfiguration := None; ag_retained_command := None; ag_completed_scale_up := None;
     ag_scale_up_evidence := None; ag_build_commands := ∅; ag_build_progress := ∅;
     ag_retired_builds := ∅; ag_abandoned_builds := ∅; ag_next_effect_sequence := 1;
     ag_load_metrics := []; ag_reported_fault := None; ag_pending_effect := None;
     ag_retained_result := None; ag_prepared_switchover := None; ag_retired_switchover := None;
     ag_preparation_retirement := None |}.

(** An effect of a secondary removal that only rolls forward. *)
Definition removal_action (a : RuntimeEffectAction) : bool :=
  match a with ActPrepareSecondaryRemoval _ _ _ | ActRetireReplica _ => true | _ => false end.

(** A reduction has been installed and not yet accepted. *)
Definition unaccepted_removal (s : AgentState) : bool :=
  is_some_and (fun e => is_none_or (fun c => sdc_evidence c != e) (ag_accepted_secondary_removal s))
    (ag_secondary_removal_evidence s).

(** [AgentState::removal_pending] *)
Definition removal_pending (s : AgentState) : bool :=
  is_some (ag_prepared_secondary_removal s)
  || is_some_and (fun p => removal_action (re_action (pe_effect p))) (ag_pending_effect s)
  || unaccepted_removal s.
