(* ===== verification/AgentAdmission.v ===== *)
(** * Admission of commands by an agent ([host/command.rs], [host/removal.rs])

    Each command is checked against the durable state before anything is journaled for it.
    A configuration command that is admitted yields the authority to install. *)

From S2P Require Import Prelude Digest Types Intents Commands Observations Validation Quorums.
From S2P Require Import ScaleDown ScaleUp SnapshotValidation ManagedConfiguration Quorum QuorumSafety.
From S2P Require Import Authority AuthorityStore Effects AgentState.
From stdpp Require Import base gmap strings list.
From Stdlib Require Import ZArith Lia.
Local Open Scope Z_scope.

Section admission.
Context `{Sha256}.

(** The command addresses another incarnation than the local one. *)
Definition addresses_other (id : ReplicaId) (instance : ReplicaInstanceId)
    (generation : AgentGeneration) (local : ReplicaIdentity) : bool :=
  (id != replica_id local) || (instance != instance_id local)
  || (generation != agent_generation local).

(** ** Secondary removal ([host/removal.rs]) *)

Definition committed_intent (c : SecondaryScaleDownCleanup) : SecondaryScaleDownIntent :=
  srp_intent (sre_preparation (sdc_evidence c)).

Definition admit_commit (c : AcceptSecondaryRemovalCommit) (s : AgentState) : host unit :=
  reject_invalid (validate_accept_secondary_removal_commit c) ;?
  let intent := committed_intent (arc_committed c) in
  reject ((ag_local s != arc_target c)
          || (ag_resource s != sdi_resource_uid intent)
          || is_some (ag_retired_authority s)
          || is_some (ag_reconfiguration s)
          || is_some (ag_previous_configuration s)
          || (ag_current_configuration s != Some (sdi_current_configuration intent))
          || (ag_secondary_removal_evidence s != Some (sdc_evidence (arc_committed c)))
          || (ag_highest_epoch s != cd_epoch (sdi_current_configuration intent))
          || is_some_and (fun x => x != arc_committed c) (ag_accepted_secondary_removal s)
          || (arc_local_recovery c
              && ((ag_role s != ActiveSecondary) || (ag_write_status s == Granted)
                  || is_some (ag_prepared_secondary_removal s)
                  || is_some (ag_prepared_switchover s))))
    (rejected "commit certificate differs from completed local reduced authority").

Definition admit_preparation (c : PrepareSecondaryRemoval) (s : AgentState) : host unit :=
  reject_invalid (validate_secondary_scale_down (psr_intent c)) ;?
  let intent := psr_intent c in
  let local := ag_local s in
  reject (is_some (ag_retired_authority s)
          || (sdi_resource_uid intent != ag_resource s)
          || (sdi_primary intent != local)
          || addresses_other (psr_local_replica_id c) (psr_expected_instance_id c)
               (psr_expected_agent_generation c) local
          || (psr_operation_id c != sdi_command_operation_id intent SrPrepare local)
          || epoch_ltb (cd_epoch (sdi_current_configuration intent)) (ag_highest_epoch s)
          || is_some (ag_prepared_switchover s))
    (rejected "removal preparation differs from exact primary authority") ;?
  match ag_removal_effects s !! psr_operation_id c with
  | Some retained =>
      match re_action (rec_effect (rs_record retained)) with
      | ActPrepareSecondaryRemoval existing _ _ =>
          reject (existing != intent) (rejected "removal preparation operation was mutated")
      | _ => Err (rejected "removal preparation operation was mutated")
      end
  | None =>
      reject (is_some (ag_reconfiguration s)
              || is_some (ag_previous_configuration s)
              || (ag_current_configuration s != Some (sdi_previous_configuration intent))
              || (ag_policy s != sdi_previous_policy intent)
              || (ag_role s != Primary)
              || unaccepted_removal s
              || is_some_and (fun p =>
                   (srp_intent p != intent)
                   && epoch_ltb (cd_epoch (sdi_previous_configuration intent))
                        (cd_epoch (sdi_current_configuration (srp_intent p))))
                   (ag_prepared_secondary_removal s))
        (rejected "removal preparation requires installed current-only primary authority")
  end.

Definition admit_retirement (c : RetireReplica) (s : AgentState) : host unit :=
  reject_invalid (validate_secondary_scale_down_cleanup (rr_committed c)) ;?
  let intent := committed_intent (rr_committed c) in
  let local := ag_local s in
  reject ((sdi_resource_uid intent != ag_resource s)
          || (sdi_target intent != local)
          || addresses_other (rr_local_replica_id c) (rr_expected_instance_id c)
               (rr_expected_agent_generation c) local
          || (rr_operation_id c != sdi_command_operation_id intent SrRetire local)
          || epoch_ltb (cd_epoch (sdi_current_configuration intent)) (ag_highest_epoch s)
          || is_some (ag_reconfiguration s)
          || is_some (ag_prepared_switchover s))
    (rejected "retirement differs from exact excluded incarnation") ;?
  match ag_retired_authority s with
  | Some retired =>
      if (ra_committed retired == rr_committed c)
         && (rrr_operation_id (ra_report retired) == rr_operation_id c)
      then Ok tt else Err (rejected "retirement operation was mutated")
  | None =>
      reject ((ag_current_configuration s != Some (sdi_previous_configuration intent))
              || is_some (ag_previous_configuration s)
              || (ag_policy s != sdi_previous_policy intent)
              || (ag_role s != ActiveSecondary))
        (rejected "retirement requires the exact previous secondary authority")
  end.

(** A replay may complete the evidence that was frozen, never change it. *)
Definition removal_replay_changes (c : EnsureConfiguration) (s : AgentState)
    (old evidence : SecondaryRemovalEvidence) (persisted : bool) : bool :=
  let intent := srp_intent (sre_preparation evidence) in
  (sre_preparation old != sre_preparation evidence)
  || (sre_previous_read_quorum old != sre_previous_read_quorum evidence)
  || ((sre_reduced_write_quorum old != [])
      && (sre_reduced_write_quorum old != sre_reduced_write_quorum evidence))
  || (ag_admitted_policy s != Some (sdi_current_policy intent))
  || (negb (ec_current_only c) && is_none (ag_previous_configuration s))
  || (ec_current_only c && is_none (ag_previous_configuration s) && negb persisted).

(** [removal::admit_configuration] *)
Definition admit_removal_configuration (c : EnsureConfiguration) (s : AgentState) (persisted : bool)
    : host AdmittedAuthority :=
  reject_invalid (validate_secondary_removal_configuration c) ;?
  let? evidence := expect (ec_secondary_removal_evidence c) in
  let intent := srp_intent (sre_preparation evidence) in
  reject (is_some (ag_retired_authority s)
          || (sdi_resource_uid intent != ag_resource s)
          || is_some (ag_prepared_switchover s)
          || addresses_other (ec_local_replica_id c) (ec_expected_instance_id c)
               (ec_expected_agent_generation c) (ag_local s)
          || epoch_ltb (ec_current_epoch c) (ag_highest_epoch s)
          || is_some_and (fun r => rcr_command r != c) (ag_reconfiguration s)
          || is_some_and (fun p => removal_action (re_action (pe_effect p))) (ag_pending_effect s))
    (rejected "reduction differs from durable local authority") ;?
  (if ag_current_configuration s == Some (sdi_current_configuration intent) then
     let? old := ok_or (ag_secondary_removal_evidence s)
                   (rejected "missing frozen admission evidence") in
     reject (removal_replay_changes c s old evidence persisted)
       (rejected "reduction replay changed frozen admission evidence")
   else
     reject (ec_current_only c
             || is_some (ag_previous_configuration s)
             || (ag_current_configuration s != Some (sdi_previous_configuration intent))
             || (ag_policy s != sdi_previous_policy intent))
       (rejected "reduction does not follow installed previous authority")) ;?
  reject ((ag_local s == sdi_primary intent)
          && (ag_prepared_secondary_removal s != Some (sre_preparation evidence)))
    (rejected "reduction primary lacks the exact durable preparation") ;?
  reject (ec_primary_write_status c == Granted)
    (rejected "reduction coordination cannot grant writes") ;?
  let authority :=
    {| aa_local_identity := ag_local s;
       aa_transition_kind := then_some (negb (ec_current_only c)) (ec_transition_kind c);
       aa_previous_configuration := ec_previous_configuration c;
       aa_current_configuration := ec_current_configuration c;
       aa_switchover_handoff := None;
       aa_secondary_removal := Some evidence;
       aa_scale_up := None |} in
  reject_contract (aa_validate authority) ;?
  Ok authority.

(** ** Planned switchover ([host/command.rs]) *)

Definition admit_switchover_preparation (c : PrepareSwitchover) (s : AgentState) : host unit :=
  reject (is_some (ag_retired_authority s) || removal_pending s)
    (rejected "secondary removal fences switchover preparation") ;?
  let configuration := ps_current_configuration c in
  reject ((ps_preparation_generation c == 0)
          || is_empty (ps_operation_id c) || is_empty (ps_request_id c)
          || (ps_operation_id c !=
                derive_switchover_preparation_operation_id (ag_resource s) (ps_request_id c)
                  (ps_preparation_generation c) (cd_configuration_id configuration)
                  (ps_source c) (ps_target c))
          || addresses_other (ps_local_replica_id c) (ps_expected_instance_id c)
               (ps_expected_agent_generation c) (ag_local s)
          || (ps_source c != ag_local s))
    (rejected "planned switchover preparation target does not match durable identity") ;?
  reject (is_some_and (fun retired =>
            (prt_starting_epoch retired == cd_epoch configuration)
            && (prt_starting_configuration_id retired == cd_configuration_id configuration)
            && (ps_preparation_generation c <=? prt_generation retired))
            (ag_preparation_retirement s))
    (rejected "planned switchover preparation has already been retired") ;?
  match ag_prepared_switchover s with
  | Some prepared =>
      reject (negb ((sh_preparation_operation_id prepared == ps_operation_id c)
                    && (sh_preparation_generation prepared == ps_preparation_generation c)
                    && (sh_request_id prepared == ps_request_id c)
                    && (sh_source prepared == ps_source c)
                    && (sh_target prepared == ps_target c)
                    && (sh_starting_configuration_id prepared == cd_configuration_id configuration)
                    && (ag_current_configuration s == Some configuration)))
        (rejected "another planned switchover preparation is retained")
  | None =>
      reject (is_some (ag_reconfiguration s)) (rejected "configuration work is already pending") ;?
      reject ((ag_role s != Primary) || (ag_write_status s != Granted))
        (rejected "planned switchover preparation requires the writable primary") ;?
      let? current := ok_or (ag_current_configuration s)
        (rejected "planned switchover preparation requires installed authority") in
      reject (current != configuration)
        (rejected "planned switchover preparation differs from installed authority") ;?
      let? primary := expect (named_primary current) in
      reject ((cm_identity primary != ps_source c)
              || (replica_id (ps_target c) == cd_primary_id current)
              || negb (existsb (fun m => (cm_identity m == ps_target c) && (cm_role m != Primary))
                         (cd_members current)))
        (rejected "planned switchover preparation source or target differs from authority")
  end.

(** ** Configuration commands of a fixed size ([host/command.rs]) *)

(** Only the access of the installed configuration changes. *)
Definition is_access_only_configuration (c : EnsureConfiguration) (s : AgentState) : bool :=
  negb (ec_current_only c)
  && is_none (ec_previous_configuration c)
  && is_none (ag_previous_configuration s)
  && (ag_current_configuration s == Some (ec_current_configuration c))
  && (ec_current_epoch c == ag_highest_epoch s)
  && is_none (ec_failover_safe_lsn c)
  && (ec_retire_build_ids c == [])
  && ((is_none (ec_switchover_handoff c) && (ec_retire_switchover_preparation_ids c == []))
      || is_switchover_restoration c)
  && is_some_and (fun m => cm_role m == ag_role s)
       (find_member (ag_local s) (ec_current_configuration c)).

(** The command drops the previous configuration of the installed pair. *)
Definition current_only_completion (c : EnsureConfiguration) (s : AgentState) : bool :=
  (ec_current_epoch c == ag_highest_epoch s)
  && (ag_current_configuration s == Some (ec_current_configuration c))
  && is_some (ag_previous_configuration s)
  && is_none (ec_previous_configuration c).

Definition completed_current_only_replay (c : EnsureConfiguration) (s : AgentState) (replay : bool)
    : bool :=
  replay && ec_current_only c
  && (ec_current_epoch c == ag_highest_epoch s)
  && (ag_current_configuration s == Some (ec_current_configuration c))
  && is_none (ag_previous_configuration s)
  && is_none (ec_previous_configuration c).

(** Identity, epochs and policy against the durable state. *)
Definition check_command_authority (c : EnsureConfiguration) (s : AgentState) (replay : bool)
    : host unit :=
  reject (is_some (ec_secondary_removal_evidence c)
          || is_some_and (fun p => p != ec_effective_policy c) (ec_previous_policy c))
    (rejected "secondary scale-down execution is not enabled") ;?
  reject (is_empty (ec_operation_id c)) (rejected "operation ID must not be empty") ;?
  reject (addresses_other (ec_local_replica_id c) (ec_expected_instance_id c)
            (ec_expected_agent_generation c) (ag_local s))
    (rejected "command target does not match durable replica identity") ;?
  reject (ec_current_epoch c != cd_epoch (ec_current_configuration c))
    (rejected "current epoch differs from Current Configuration") ;?
  reject ((cd_epoch <$> ec_previous_configuration c) != ec_previous_epoch c)
    (rejected "previous epoch differs from Previous Configuration") ;?
  reject (epoch_ltb (ec_current_epoch c) (ag_highest_epoch s))
    (rejected "command epoch regresses durable authority") ;?
  let same_epoch :=
    (ec_current_epoch c == ag_highest_epoch s) && negb (current_only_completion c s)
    && negb (completed_current_only_replay c s replay) in
  reject (same_epoch && is_some_and (fun current => current != ec_current_configuration c)
                          (ag_current_configuration s))
    (rejected "same-epoch command conflicts with durable Current Configuration") ;?
  reject (same_epoch && (ag_previous_configuration s != ec_previous_configuration c))
    (rejected "same-epoch command conflicts with durable Previous Configuration") ;?
  reject (ec_effective_policy c != ag_policy s)
    (rejected "command policy differs from admitted policy").

(** [retire_switchover_preparation_ids[0]], present in a restoration *)
Definition retired_preparation {E} (c : EnsureConfiguration) : res E SwitchoverPreparationId :=
  expect (head (ec_retire_switchover_preparation_ids c)).

(** The starting authority is kept and its preparation retired. *)
Definition admit_restoration (c : EnsureConfiguration) (s : AgentState) (replay : bool)
    : host AdmittedAuthority :=
  let retained := or_else (ag_prepared_switchover s)
                    (if replay then ag_retired_switchover s else None) in
  let? preparation := retired_preparation c in
  reject (negb (is_access_only_configuration c s)
          || (negb replay
              && is_some_and (fun retired =>
                   (prt_starting_epoch retired == ec_current_epoch c)
                   && (prt_starting_configuration_id retired
                         == cd_configuration_id (ec_current_configuration c))
                   && (spi_generation preparation <=? prt_generation retired))
                   (ag_preparation_retirement s))
          || is_some_and (fun certificate => Some certificate != retained) (ec_switchover_handoff c)
          || is_some_and (fun prepared => preparation != sh_preparation prepared)
               (ag_prepared_switchover s))
    (rejected "restoration requires exact starting authority and the whole retained certificate") ;?
  Ok {| aa_local_identity := ag_local s;
        aa_transition_kind := None;
        aa_previous_configuration := None;
        aa_current_configuration := ec_current_configuration c;
        aa_switchover_handoff := None;
        aa_secondary_removal := None;
        aa_scale_up := None |}.

(** A safe LSN for a failover and for nothing else; writes only for the primary that the
    command or the durable state installs. *)
Definition check_write_grant (c : EnsureConfiguration) (s : AgentState) : host unit :=
  match ec_transition_kind c with
  | Failover =>
      reject (is_none_or (fun lsn => lsn <? 0) (ec_failover_safe_lsn c))
        (rejected "failover command requires a non-negative election-safe LSN")
  | Bootstrap | Replacement | PlannedSwitchover =>
      reject (is_some (ec_failover_safe_lsn c))
        (rejected "only failover authority can carry an election-safe LSN")
  | _ => Ok tt
  end ;?
  let transition_grant :=
    ((ec_transition_kind c == Replacement) || (ec_transition_kind c == Failover)
     || (ec_transition_kind c == PlannedSwitchover))
    && negb (ec_current_only c)
    && (ag_current_configuration s == ec_previous_configuration c)
    && (cd_primary_id (ec_current_configuration c) == replica_id (ag_local s))
    && has_member_with_role (ec_current_configuration c) (ag_local s) Primary in
  let installed_grant :=
    (ag_current_configuration s == Some (ec_current_configuration c)) && (ag_role s == Primary) in
  let granted := ec_primary_write_status c == Granted in
  reject (granted && is_some (ag_prepared_switchover s))
    (rejected "retained switchover preparation forbids write grants") ;?
  reject (granted && negb transition_grant && negb installed_grant)
    (rejected "write grant requires the exact installed primary authority").

Definition check_command_shape (c : EnsureConfiguration) (s : AgentState) (replay : bool)
    : host unit :=
  if ec_current_only c then
    reject (is_some (ec_previous_configuration c)
            || (negb (current_only_completion c s) && negb (completed_current_only_replay c s replay))
            || (ec_transition_kind c == Bootstrap))
      (rejected "current-only completion does not match durable PC/CC authority") ;?
    reject ((ec_transition_kind c == Replacement) && (ec_retire_build_ids c == []))
      (rejected "replacement current-only completion must retire its build")
  else
    reject (ec_retire_build_ids c != [])
      (rejected "build retirement is valid only for current-only completion") ;?
    reject (ec_retire_switchover_preparation_ids c != [])
      (rejected "switchover preparation retirement is valid only for current-only completion") ;?
    reject_invalid (validate_transition_relationship (ec_transition_kind c)
      (ec_previous_configuration c) (ec_current_configuration c) (ec_effective_policy c)).

(** The command is the one that the agent is executing or has completed last. *)
Definition exact_persisted_command (c : EnsureConfiguration) (s : AgentState) : bool :=
  is_some_and (fun r => rcr_command r == c) (ag_reconfiguration s)
  || is_some_and (fun r => rcc_command r == c) (ag_retained_command s).

(** The configuration that the handoff starts from, or the one that replaced it when the
    old primary is compensated. *)
Definition starting_authority_matches (c : EnsureConfiguration) (h : SwitchoverHandoff)
    (configuration : ConfigurationDescriptor) : bool :=
  has_member configuration (sh_source h) && has_member configuration (sh_target h)
  && if has_member_with_role configuration (sh_source h) Primary then
       (cd_configuration_id configuration == sh_starting_configuration_id h)
       && (cd_epoch configuration == sh_starting_epoch h)
     else
       has_member_with_role configuration (sh_target h) Primary
       && (cd_primary_id (ec_current_configuration c) == replica_id (sh_source h))
       && (data_loss_number (cd_epoch configuration) == data_loss_number (sh_starting_epoch h))
       && (configuration_number (sh_starting_epoch h) <? configuration_number (cd_epoch configuration)).

(** The source of the handoff retains its certificate. *)
Definition source_certificate_matches (c : EnsureConfiguration) (s : AgentState)
    (h : SwitchoverHandoff) (replay : bool) : bool :=
  (ag_local s != sh_source h)
  || (ag_prepared_switchover s == Some h)
  || ((ag_retired_switchover s == Some h)
      && (cd_primary_id (ec_current_configuration c) == replica_id (sh_source h))
      && epoch_ltb (sh_starting_epoch h) (ec_current_epoch c))
  || (completed_current_only_replay c s replay && exact_persisted_command c s
      && is_none (ag_prepared_switchover s)).

Definition handoff_differs (c : EnsureConfiguration) (s : AgentState) (h : SwitchoverHandoff)
    (replay : bool) : bool :=
  let ids := ec_retire_switchover_preparation_ids c in
  let current := ec_current_configuration c in
  let starting := or_else (ec_previous_configuration c) (ag_previous_configuration s) in
  negb (source_certificate_matches c s h replay)
  || (negb (completed_current_only_replay c s replay && exact_persisted_command c s)
      && negb (is_some_and (starting_authority_matches c h) starting))
  || negb (has_member current (sh_source h))
  || negb (has_member current (sh_target h))
  || ((cd_primary_id current != replica_id (sh_source h))
      && (cd_primary_id current != replica_id (sh_target h)))
  || negb (bool_decide (NoDup ids))
  || existsb (fun id => is_empty (spi_operation_id id) || (spi_generation id =? 0)) ids
  || (ec_current_only c && (ag_local s == sh_source h) && (ids != [sh_preparation h]))
  || (ec_current_only c && (ag_local s != sh_source h) && (ids != [])).

Definition check_command_handoff (c : EnsureConfiguration) (s : AgentState) (replay : bool)
    : host unit :=
  if ec_transition_kind c == PlannedSwitchover then
    reject (ec_primary_write_status c == Granted)
      (rejected "planned switchover must remain write-closed until stable access convergence") ;?
    let? h := ok_or (ec_switchover_handoff c)
                (rejected "planned switchover authority requires a handoff certificate") in
    reject (handoff_differs c s h replay)
      (rejected "planned switchover handoff differs from configuration authority")
  else
    reject (is_some (ec_switchover_handoff c) || (ec_retire_switchover_preparation_ids c != []))
      (rejected "non-switchover command contains switchover evidence").

(** The evidence of the installed configuration stays with it when only the access changes. *)
Definition command_authority (c : EnsureConfiguration) (s : AgentState) : AdmittedAuthority :=
  let access := is_access_only_configuration c s in
  {| aa_local_identity := ag_local s;
     aa_transition_kind := then_some (negb (ec_current_only c) && negb access) (ec_transition_kind c);
     aa_previous_configuration := ec_previous_configuration c;
     aa_current_configuration := ec_current_configuration c;
     aa_switchover_handoff := ec_switchover_handoff c;
     aa_secondary_removal := if access then ag_secondary_removal_evidence s else None;
     aa_scale_up := if access then ag_scale_up_evidence s else None |}.

Definition admit_fixed_size_configuration (c : EnsureConfiguration) (s : AgentState) (replay : bool)
    : host AdmittedAuthority :=
  check_command_authority c s replay ;?
  if is_switchover_restoration c then admit_restoration c s replay else
  check_write_grant c s ;?
  check_command_shape c s replay ;?
  check_command_handoff c s replay ;?
  let a := command_authority c s in
  reject_contract (aa_validate a) ;?
  (if ec_transition_kind c == Bootstrap then
     let? role := aa_local_role a in
     reject (role == RoleNone) (rejected "bootstrap authority must assign a runtime role")
   else Ok tt) ;?
  Ok a.

(** ** Scale-up configurations *)

(** The durable attempt is complete and the command starts the next one. *)
Definition sequential_supersession (s : AgentState) (intent : ScaleUpIntent)
    (existing : ScaleUpConfigurationEvidence) : bool :=
  (evidence_intent existing != intent)
  && is_none (ag_previous_configuration s)
  && (ag_current_configuration s == Some (sui_previous_configuration intent))
  && (ag_admitted_policy s == Some (sui_previous_policy intent))
  && bool_decide (sui_build_id (evidence_intent existing) ∈ ag_retired_builds s)
  && is_some_and (fun retained =>
       ec_current_only (rcc_command retained)
       && (ec_scale_up_evidence (rcc_command retained) == Some existing)
       && (ec_current_configuration (rcc_command retained) == sui_previous_configuration intent))
       (ag_completed_scale_up s).

(** How a carried failover stands to what the agent has installed. *)
Record CarriedFailover := {
  cf_historical_current_only : bool;
  cf_original_basis : bool;
  cf_exact_progression : bool;
}.

Definition no_carried_failover : CarriedFailover :=
  {| cf_historical_current_only := false; cf_original_basis := false;
     cf_exact_progression := false |}.

Definition new_primary_witness (c : EnsureConfiguration) (e : ScaleUpFailoverEvidence)
    (new_primary : ReplicaIdentity) : bool :=
  match ec_failover_safe_lsn c with
  | None => existsb (fun w => suw_identity w == new_primary) (sufe_current_read_quorum e)
  | Some _ =>
      is_some_and (fun final =>
        (sfe_final_configuration final (sufe_provisional_configuration e)
           == Some (ec_current_configuration c))
        && (ec_failover_safe_lsn c == safe_lsn final)
        && is_some_and (fun w =>
             existsb (fun id => id == replica_id new_primary) (sfe_current_read_quorum final)
             && (Some (Z.min (sfw_current_progress w) (sfw_deactivated_lsn w)) == safe_lsn final))
             (sfe_witness final (replica_id new_primary))) (sufe_final_election e)
  end.

(** The original attempt, or the authority before it, is installed. *)
Definition original_attempt_installed (s : AgentState) (intent : ScaleUpIntent) : bool :=
  (ag_scale_up_evidence s == Some (Admission intent))
  && (ag_current_configuration s == Some (sui_current_configuration intent))
  && ((ag_previous_configuration s == Some (sui_previous_configuration intent))
      || is_none (ag_previous_configuration s)).

Definition original_authority_failover (c : EnsureConfiguration) (s : AgentState)
    (intent : ScaleUpIntent) : bool :=
  negb (ec_current_only c)
  && is_none (ag_previous_configuration s)
  && (ag_current_configuration s == Some (sui_previous_configuration intent))
  && (ag_highest_epoch s == cd_epoch (sui_previous_configuration intent))
  && (ag_admitted_policy s == Some (sui_previous_policy intent))
  && has_member_with_role (sui_previous_configuration intent) (ag_local s) (ag_role s).

(** The installed failover is the command's. *)
Definition exact_installed_failover (c : EnsureConfiguration) (s : AgentState)
    (intent : ScaleUpIntent) (replay : bool) : bool :=
  (ag_scale_up_evidence s == ec_scale_up_evidence c)
  && (ag_current_configuration s == Some (ec_current_configuration c))
  && ((negb (ec_current_only c)
       && (ag_previous_configuration s == ec_previous_configuration c))
      || (ec_current_only c
          && ((ag_previous_configuration s == Some (sui_previous_configuration intent))
              || (replay && is_none (ag_previous_configuration s))))).

(** A configuration of the same failover, from its provisional to its elected one. *)
Definition valid_failover_configuration {E} (e : ScaleUpFailoverEvidence) (policy : EffectivePolicy)
    (configuration : ConfigurationDescriptor) : res E bool :=
  match validate_scale_up_failover_transition e configuration policy with
  | Ok _ => Ok true
  | Err _ => Ok false
  | Panic => Panic
  end.

Definition fenced_failover_progression {E} (c : EnsureConfiguration) (s : AgentState)
    (e : ScaleUpFailoverEvidence) (intent : ScaleUpIntent) : res E bool :=
  if negb (ec_current_only c) && (ag_scale_up_evidence s == ec_scale_up_evidence c)
     && epoch_ltb (ag_highest_epoch s) (ec_current_epoch c)
  then match ag_current_configuration s with
       | Some configuration => valid_failover_configuration e (sui_current_policy intent) configuration
       | None => Ok false
       end
  else Ok false.

(** The elected configuration follows the provisional one. *)
Definition exact_provisional_return (c : EnsureConfiguration) (s : AgentState)
    (e : ScaleUpFailoverEvidence) (intent : ScaleUpIntent) : bool :=
  negb (ec_current_only c)
  && is_some (ec_failover_safe_lsn c)
  && (ag_previous_configuration s == Some (sui_previous_configuration intent))
  && (ag_current_configuration s == Some (sufe_provisional_configuration e))
  && (ag_highest_epoch s == cd_epoch (sufe_provisional_configuration e))
  && match ag_scale_up_evidence s with
     | Some (FailoverEvidence installed) =>
         is_none (sufe_final_election installed) && same_provisional_authority installed e
     | _ => false
     end.

Definition carried_failover (c : EnsureConfiguration) (s : AgentState) (e : ScaleUpFailoverEvidence)
    (intent : ScaleUpIntent) (replay : bool) : host CarriedFailover :=
  let? primary := expect (find_primary (ec_current_configuration c)) in
  let installed := original_attempt_installed s intent in
  let original := original_authority_failover c s intent in
  let historical := ec_current_only c && installed
                    && (ag_current_configuration s != Some (ec_current_configuration c)) in
  let exact := exact_installed_failover c s intent replay in
  let? fenced := fenced_failover_progression c s e intent in
  let return_ := exact_provisional_return c s e intent in
  reject (negb (new_primary_witness c e (cm_identity primary))
          || (negb (negb (ec_current_only c) && installed) && negb original && negb historical
              && negb fenced && negb return_ && negb (exact && (ec_current_only c || replay))))
    (rejected "carried scale-up failover lacks durable PC/CC authority or a new-primary witness") ;?
  Ok {| cf_historical_current_only := historical;
        cf_original_basis := installed || original;
        cf_exact_progression := exact || fenced || return_ |}.

(** The candidate was initialized for this attempt, built by its exact build and holds the
    frozen boundary. *)
Definition check_candidate (c : EnsureConfiguration) (s : AgentState) (intent : ScaleUpIntent)
    (f : CarriedFailover) (replay : bool) : host unit :=
  let? provisioning := ok_or (ag_scale_up_initialization s)
    (rejected "candidate lacks durable scale-up initialization authority") in
  let? initialized := ok_or (pi_scale_up provisioning)
    (rejected "candidate initialization is not tagged for scale-up") in
  reject ((sup_resource_uid initialized != sui_resource_uid intent)
          || (sup_spec_generation initialized != sui_spec_generation intent)
          || (sup_desired_replicas initialized != sui_desired_replicas intent)
          || (sup_previous_configuration initialized != sui_previous_configuration intent)
          || (sup_previous_policy initialized != sui_previous_policy intent)
          || (sup_current_policy initialized != sui_current_policy intent)
          || (pi_target_identity provisioning (sui_resource_uid intent) != sui_target intent)
          || (pi_scale_up_build_id provisioning (sui_resource_uid intent) != Some (sui_build_id intent)))
    (rejected "candidate authority differs from durable scale-up initialization") ;?
  let? build := ok_or (ag_build_commands s !! sui_build_id intent)
    (rejected "candidate has not durably admitted the exact scale-up build") in
  let? authority := ok_or (erb_authority build)
    (rejected "candidate build command lacks immutable receiver authority") in
  let? progress := ok_or (ag_build_progress s !! sui_build_id intent)
    (rejected "candidate lacks durable exact scale-up build progress") in
  reject ((bool_decide (sui_build_id intent ∈ ag_retired_builds s)
           && negb (ec_current_only c && (replay || cf_historical_current_only f))
           && negb (cf_original_basis f) && negb (cf_exact_progression f))
          || (erb_target build != sui_target intent)
          || (ba_build_id authority != sui_build_id intent)
          || (ba_source authority != sui_primary intent)
          || (ba_target authority != sui_target intent)
          || (ba_current_configuration authority != sui_previous_configuration intent)
          || (ba_replication_boundary_lsn authority != sui_snapshot_boundary_lsn intent)
          || (bp_authority progress != authority)
          || negb (bp_completed progress)
          || (bp_catch_up_boundary_lsn progress != Some (sui_catch_up_boundary_lsn intent))
          || (bp_durable_lsn progress <? sui_catch_up_boundary_lsn intent))
    (rejected "candidate requires exact completed build progress through the frozen boundary").

(** The installed configuration is one that the carried failover continues. *)
Definition continues_failover {E} (c : EnsureConfiguration) (s : AgentState)
    (evidence : ScaleUpConfigurationEvidence) (intent : ScaleUpIntent) : res E bool :=
  match evidence, ag_current_configuration s with
  | FailoverEvidence commanded, Some configuration =>
      if (configuration == sui_current_configuration intent)
         || (configuration == ec_current_configuration c)
         || match ag_scale_up_evidence s with
            | Some (FailoverEvidence installed) =>
                (configuration == sufe_provisional_configuration commanded)
                && is_none (sufe_final_election installed)
                && same_provisional_authority installed commanded
            | _ => false
            end
      then Ok true
      else if (ag_scale_up_evidence s == Some evidence)
              && epoch_ltb (ag_highest_epoch s) (ec_current_epoch c)
      then valid_failover_configuration commanded (sui_current_policy intent) configuration
      else Ok false
  | _, _ => Ok false
  end.

Definition check_scale_up_position (c : EnsureConfiguration) (s : AgentState)
    (evidence : ScaleUpConfigurationEvidence) (f : CarriedFailover) (replay : bool) : host unit :=
  let intent := evidence_intent evidence in
  if ec_current_only c then
    let completed := replay && (ag_current_configuration s == Some (ec_current_configuration c))
                     && is_none (ag_previous_configuration s) in
    reject (negb completed && negb (cf_historical_current_only f)
            && ((ag_current_configuration s != Some (ec_current_configuration c))
                || (ag_previous_configuration s != Some (sui_previous_configuration intent))))
      (rejected "scale-up current-only completion lacks durable PC/CC authority")
  else
    let same_attempt := (ag_current_configuration s == Some (ec_current_configuration c))
                        && (ag_previous_configuration s == Some (sui_previous_configuration intent)) in
    let admission := has_member (sui_previous_configuration intent) (ag_local s)
                     && (ag_current_configuration s == Some (sui_previous_configuration intent))
                     && is_none (ag_previous_configuration s) in
    let candidate := (ag_local s == sui_target intent) && is_none (ag_current_configuration s)
                     && is_none (ag_previous_configuration s) in
    let? carried := continues_failover c s evidence intent in
    reject (negb same_attempt && negb admission && negb candidate && negb carried)
      (rejected "scale-up PC/CC command does not extend durable accepted authority").

Definition admit_scale_up_configuration (c : EnsureConfiguration) (s : AgentState) (replay : bool)
    : host AdmittedAuthority :=
  reject_invalid (validate_scale_up_configuration c) ;?
  let? evidence := expect (ec_scale_up_evidence c) in
  let intent := evidence_intent evidence in
  reject ((sui_resource_uid intent != ag_resource s)
          || addresses_other (ec_local_replica_id c) (ec_expected_instance_id c)
               (ec_expected_agent_generation c) (ag_local s)
          || epoch_ltb (ec_current_epoch c) (ag_highest_epoch s))
    (rejected "scale-up command target or epoch differs from durable identity") ;?
  reject (is_some_and (fun existing => (evidence_intent existing != intent)
                         && negb (sequential_supersession s intent existing)) (ag_scale_up_evidence s))
    (rejected "scale-up command conflicts with incomplete durable attempt authority") ;?
  let? f := match evidence with
            | FailoverEvidence e => carried_failover c s e intent replay
            | Admission _ => Ok no_carried_failover
            end in
  (if ag_local s == sui_target intent then check_candidate c s intent f replay else Ok tt) ;?
  check_scale_up_position c s evidence f replay ;?
  let authority :=
    {| aa_local_identity := ag_local s;
       aa_transition_kind := then_some (negb (ec_current_only c)) (ec_transition_kind c);
       aa_previous_configuration := ec_previous_configuration c;
       aa_current_configuration := ec_current_configuration c;
       aa_switchover_handoff := None;
       aa_secondary_removal := None;
       aa_scale_up := Some evidence |} in
  reject_contract (aa_validate authority) ;?
  let? role := aa_local_role authority in
  reject (role == RoleNone) (rejected "scale-up authority does not assign the local replica") ;?
  Ok authority.

(** ** The admission of a configuration *)

Definition admit_configuration_with_replay (c : EnsureConfiguration) (s : AgentState) (replay : bool)
    : host AdmittedAuthority :=
  reject (is_some (ag_retired_authority s))
    (rejected "retired incarnation cannot admit authority") ;?
  if ec_transition_kind c == SecondaryScaleDown then admit_removal_configuration c s replay else
  reject (removal_pending s) (rejected "prepared removal may only roll forward") ;?
  if is_some (ec_scale_up_evidence c) || (ec_transition_kind c == ScaleUp)
  then admit_scale_up_configuration c s replay
  else admit_fixed_size_configuration c s replay.

Definition admit_configuration (c : EnsureConfiguration) (s : AgentState) : host AdmittedAuthority :=
  admit_configuration_with_replay c s false.

Definition admit_persisted_configuration (c : EnsureConfiguration) (s : AgentState)
    : host AdmittedAuthority :=
  admit_configuration_with_replay c s true.

(** ** Builds *)

(** [command::admit_build] *)
Definition admit_build_command (c : EnsureReplicaBuild) (s : AgentState) : host unit :=
  reject (is_some (ag_retired_authority s) || removal_pending s)
    (rejected "secondary removal fences replica builds") ;?
  if erb_retire c then
    reject (is_some (erb_authority c) || is_some (erb_source_session_id c))
      (rejected "build retirement cannot carry delivery authority") ;?
    let? existing := ok_or (ag_build_commands s !! erb_operation_id c)
      (rejected "build retirement requires exact durable build authority") in
    reject (erb_retire existing
            || (erb_local_replica_id existing != erb_local_replica_id c)
            || (erb_expected_instance_id existing != erb_expected_instance_id c)
            || (erb_expected_agent_generation existing != erb_expected_agent_generation c)
            || (erb_target existing != erb_target c)
            || is_some (erb_authority existing))
      (rejected "build retirement differs from exact durable source authority")
  else
    reject (bool_decide (erb_operation_id c ∈ ag_retired_builds s)
            || bool_decide (erb_operation_id c ∈ ag_abandoned_builds s))
      (rejected "abandoned or retired build authority cannot be reopened") ;?
    reject (is_empty (erb_operation_id c)
            || addresses_other (erb_local_replica_id c) (erb_expected_instance_id c)
                 (erb_expected_agent_generation c) (ag_local s))
      (rejected "build command target does not match durable replica identity") ;?
    match erb_authority c with
    | Some authority =>
        reject_invalid (validate_build_authority authority) ;?
        reject ((ba_build_id authority != erb_operation_id c)
                || (ba_target authority != erb_target c)
                || (ba_target authority != ag_local s)
                || is_none_or is_empty (erb_source_session_id c))
          (rejected "target build command differs from admitted build authority")
    | None =>
        reject (is_some (erb_source_session_id c))
          (rejected "source build command cannot carry a peer session") ;?
        let? current := ok_or (ag_current_configuration s)
          (rejected "build source has no Current Configuration") in
        let? primary := expect (named_primary current) in
        reject ((cm_identity primary != ag_local s)
                || (replica_id (erb_target c) == replica_id (ag_local s)))
          (rejected "source build command must target another logical replica from the primary")
    end.
(** ** What an admitted command guarantees *)

(** The command is for this replica and for no older epoch, and what it installs passed the
    validation of authorities or is installed already. *)
Record soundly_admitted (c : EnsureConfiguration) (s : AgentState) (a : AdmittedAuthority) : Prop := {
  sa_addressed : addresses_other (ec_local_replica_id c) (ec_expected_instance_id c)
    (ec_expected_agent_generation c) (ag_local s) = false;
  sa_epoch : epoch_ltb (ec_current_epoch c) (ag_highest_epoch s) = false;
  sa_local : aa_local_identity a = ag_local s;
  sa_current : aa_current_configuration a = ec_current_configuration c;
  sa_previous : aa_previous_configuration a = ec_previous_configuration c;
  sa_validated : aa_validate a = Ok tt \/
    (is_switchover_restoration c = true /\ ag_previous_configuration s = None /\
     ag_current_configuration s = Some (ec_current_configuration c));
}.

Lemma access_only_installed c s :
  is_access_only_configuration c s = true ->
  ag_previous_configuration s = None /\ ag_current_configuration s = Some (ec_current_configuration c) /\
  ec_previous_configuration c = None.
Proof.
  unfold is_access_only_configuration. rewrite !andb_true_iff, !bool_decide_eq_true.
  intros ((((((((_ & Hp) & Hs) & Hc) & _) & _) & _) & _) & _).
  by destruct (ec_previous_configuration c), (ag_previous_configuration s).
Qed.

(** A reduction follows the durable state: it repeats the frozen evidence of the reduction that is
    installed, or starts from the installed configuration; on the primary it carries exactly the
    preparation that the primary has made durable. *)
Record removal_follows (c : EnsureConfiguration) (s : AgentState) (e : SecondaryRemovalEvidence)
    : Prop := {
  rf_evidence : ec_secondary_removal_evidence c = Some e;
  rf_resource : sdi_resource_uid (srp_intent (sre_preparation e)) = ag_resource s;
  rf_target : ec_current_configuration c = sdi_current_configuration (srp_intent (sre_preparation e));
  rf_position :
    (ag_current_configuration s = Some (sdi_current_configuration (srp_intent (sre_preparation e))) /\
     ag_admitted_policy s = Some (sdi_current_policy (srp_intent (sre_preparation e))) /\
     exists old, ag_secondary_removal_evidence s = Some old /\
       sre_preparation old = sre_preparation e /\
       sre_previous_read_quorum old = sre_previous_read_quorum e /\
       (sre_reduced_write_quorum old = [] \/
        sre_reduced_write_quorum old = sre_reduced_write_quorum e)) \/
    (ec_current_only c = false /\ ag_previous_configuration s = None /\
     ag_current_configuration s = Some (sdi_previous_configuration (srp_intent (sre_preparation e))) /\
     ag_policy s = sdi_previous_policy (srp_intent (sre_preparation e)));
  rf_primary : ag_local s = sdi_primary (srp_intent (sre_preparation e)) ->
    ag_prepared_secondary_removal s = Some (sre_preparation e);
  rf_journal r : ag_reconfiguration s = Some r -> rcr_command r = c;
  rf_effect p : ag_pending_effect s = Some p -> removal_action (re_action (pe_effect p)) = false;
  rf_writes : ec_primary_write_status c <> Granted;
}.

Lemma replay_unchanged c s old e persisted :
  removal_replay_changes c s old e persisted = false ->
  sre_preparation old = sre_preparation e /\
  sre_previous_read_quorum old = sre_previous_read_quorum e /\
  (sre_reduced_write_quorum old = [] \/ sre_reduced_write_quorum old = sre_reduced_write_quorum e) /\
  ag_admitted_policy s = Some (sdi_current_policy (srp_intent (sre_preparation e))).
Proof.
  unfold removal_replay_changes. intros Hr. guards. split_and!; try done.
  rename select ((_ != []) && _ = false) into Hq.
  apply andb_false_iff in Hq as [Hq|Hq]; apply negb_false_iff, bool_decide_eq_true in Hq; auto.
Qed.

Lemma removal_admission_sound c s replay a :
  admit_removal_configuration c s replay = Ok a ->
  soundly_admitted c s a /\ exists e, removal_follows c s e.
Proof.
  unfold admit_removal_configuration, reject_invalid, reject_contract. intros Ha. guards.
  split; [by split; [..|left]|]. rename select (ec_secondary_removal_evidence c = _) into He.
  rename select SecondaryRemovalEvidence into e. exists e.
  match goal with Hx : (if _ == _ then _ else _) = Ok tt |- _ => rename Hx into Hposition end.
  rename select (validate_secondary_removal_configuration _ = _) into Hvalid.
  split; try done.
  - unfold validate_secondary_removal_configuration in Hvalid. rewrite He in Hvalid. guards. by simplify_eq.
  - destruct (_ == _) eqn:Hc in Hposition; [apply bool_decide_eq_true in Hc; left|right].
    + apply bind_ok in Hposition as (old & Hold%ok_or_ok & Hr%reject_ok).
      destruct (replay_unchanged _ _ _ _ _ Hr) as (? & ? & ? & ?). split_and!; eauto.
    + apply reject_ok in Hposition. guards. by destruct (ag_previous_configuration s).
  - intros Hl. rename select ((_ == _) && _ = false) into Hp. rewrite Hl, bool_decide_true in Hp by done.
    simpl in Hp. by apply negb_false_iff, bool_decide_eq_true in Hp.
  - intros r Hr. rename select (is_some_and _ (ag_reconfiguration s) = false) into Hj. rewrite Hr in Hj.
    by apply negb_false_iff, bool_decide_eq_true in Hj.
  - intros p Hp. rename select (is_some_and _ (ag_pending_effect s) = false) into Hj. by rewrite Hp in Hj.
Qed.

Lemma scale_up_admission_sound c s replay a :
  admit_scale_up_configuration c s replay = Ok a -> soundly_admitted c s a.
Proof.
  unfold admit_scale_up_configuration, reject_invalid, reject_contract. intros Ha. guards.
  by split; [..|left].
Qed.

Lemma fixed_size_admission_sound c s replay a :
  admit_fixed_size_configuration c s replay = Ok a -> soundly_admitted c s a.
Proof.
  unfold admit_fixed_size_configuration, check_command_authority, reject_contract. intros Ha. guards.
  destruct (is_switchover_restoration c) eqn:Hr.
  - unfold admit_restoration in *. guards.
    destruct (access_only_installed c s) as (? & ? & ?); [done|]. split; try done. by right.
  - guards. by split; [..|left].
Qed.

(** [C13] A configuration that an agent admits, first or as a replay, is for an incarnation that is
    not retired, addressed to exactly this replica, and not older than any epoch it has seen;
    what is installed is the command's own pair of configurations, valid as an authority unless
    a switchover is undone, which keeps the installed one.  While a removal is pending, only a
    reduction is admitted.  A reduction grants no writes and carries evidence that follows the
    durable state: it repeats the frozen preparation and read quorum of the reduction that is
    installed, or starts from the installed configuration with no transition open; a primary has
    made exactly its preparation durable; and neither another command nor a removal effect is
    under way. *)
Theorem admission_is_sound c s replay a :
  admit_configuration_with_replay c s replay = Ok a ->
  ag_retired_authority s = None /\ soundly_admitted c s a /\
  (removal_pending s = true -> ec_transition_kind c = SecondaryScaleDown) /\
  (ec_transition_kind c = SecondaryScaleDown -> exists e, removal_follows c s e).
Proof.
  unfold admit_configuration_with_replay. intros ([] & Hr%reject_ok & Ha)%bind_ok.
  split; [by destruct (ag_retired_authority s)|].
  destruct (ec_transition_kind c == SecondaryScaleDown) eqn:Hk.
  - apply bool_decide_eq_true in Hk. by apply removal_admission_sound in Ha as [? ?].
  - apply bool_decide_eq_false in Hk. apply bind_ok in Ha as ([] & Hp%reject_ok & Ha).
    split_and!; [|congruence|done]. destruct (_ || _); eauto using scale_up_admission_sound, fixed_size_admission_sound.
Qed.

End admission.
