(* ===== verification/AgentStore.v ===== *)
(** * The agent's store ([host/store.rs], [host/sqlite_store.rs])

    The transactions of [AgentStore] on the agent's database: the row of [AgentState] and the
    tables of [AuthorityStore].  A transaction that fails leaves the database as it was. *)

From S2P Require Import Prelude Digest Types Intents Commands Observations Validation Quorums.
From S2P Require Import ScaleDown ScaleUp SnapshotValidation ManagedConfiguration Quorum QuorumSafety.
From S2P Require Import Authority AuthorityStore Effects AgentState AgentAdmission.
From stdpp Require Import base gmap strings list.
From Stdlib Require Import ZArith Lia.
Local Open Scope Z_scope.

(** ** The database *)

Record AgentDatabase := { db_state : AgentState; db_tables : AuthorityStore }.

(** What the authority tables read of the agent's row. *)
Definition agent_view (s : AgentState) : AgentView :=
  {| av_local_identity := ag_local s; av_resource_uid := ag_resource s;
     av_retired_authority := ag_retired_authority s; av_retired_builds := ag_retired_builds s;
     av_abandoned_builds := ag_abandoned_builds s; av_build_progress := ag_build_progress s |}.

(** [write_agent_state] *)
Definition write_agent_state (s : AgentState) (d : AgentDatabase) : AgentDatabase :=
  {| db_state := s; db_tables := (db_tables d) <| as_state := agent_view s |> |}.

(** A transaction on the tables writes back the builds of the agent's row. *)
Definition write_tables (t : AuthorityStore) (d : AgentDatabase) : AgentDatabase :=
  {| db_state := (db_state d) <| ag_abandoned_builds := av_abandoned_builds (as_state t) |>
                            <| ag_build_progress := av_build_progress (as_state t) |>;
     db_tables := t |}.

Definition new_database (identity : StorageIdentity) : AgentDatabase :=
  {| db_state := new_agent_state identity;
     db_tables := new_store (si_local_identity identity) (si_resource_uid identity) |}.

Abbreviation transaction A := (host (AgentDatabase * A)).

Definition U64_MAX : Z := 2 ^ 64 - 1.

Definition epoch_max (a b : Epoch) : Epoch := if epoch_leb a b then b else a.

(** ** Beginning an effect *)

Inductive BeginEffect :=
| BeExecute (effect : RuntimeEffect)
| BePending (effect : RuntimeEffect)
| BeApplied (effect : RuntimeEffect) (result : RuntimeEffectResult)
| BeCompleted (result : RuntimeEffectResult).

Section effects.
Context `{Sha256}.

(** The authority that a completed removal leaves installed. *)
Definition removal_authority (c : AcceptSecondaryRemovalCommit) : AdmittedAuthority :=
  {| aa_local_identity := arc_target c;
     aa_transition_kind := None;
     aa_previous_configuration := None;
     aa_current_configuration := sdi_current_configuration (committed_intent (arc_committed c));
     aa_switchover_handoff := None;
     aa_secondary_removal := Some (sdc_evidence (arc_committed c));
     aa_scale_up := None |}.

Definition validate_acceptance_conversion (c : AcceptSecondaryRemovalCommit) (t : AuthorityStore)
    : host unit :=
  let expected := removal_authority c in
  let boundary := srp_boundary_lsn (sre_preparation (sdc_evidence (arc_committed c))) in
  reject ((as_authority t != Some expected)
          || is_none_or (fun p => (rp_fence p != aa_fence expected) || (rp_verified_lsn p <? boundary))
               (as_progress t !! aa_fence expected))
    (rejected "acceptance conversion requires exact durable authority and verified boundary").

Definition is_retire_replica (a : RuntimeEffectAction) : bool :=
  match a with ActRetireReplica _ => true | _ => false end.

(** The pending effect is the one asked for, or an ordinary acceptance that is narrowed to
    local recovery. *)
Definition resume_effect (e : RuntimeEffect) (pending : PendingEffect) (d : AgentDatabase)
    : transaction BeginEffect :=
  if pe_effect pending == e then
    match pe_stage pending, pe_applied_result pending with
    | IntentCommitted, None => Ok (d, BePending (pe_effect pending))
    | EffectApplied, Some result => Ok (d, BeApplied (pe_effect pending) result)
    | _, _ => Err (Corrupt (HostText "pending effect stage and canonical result disagree"))
    end
  else
    match re_action (pe_effect pending), re_action e with
    | ActAcceptSecondaryRemovalCommit committed, ActAcceptHistoricalSecondaryRemovalCommit command =>
        reject (negb ((re_operation_id (pe_effect pending) == re_operation_id e)
                      && (re_sequence (pe_effect pending) == re_sequence e)
                      && (committed == arc_committed command)))
          (conflict "another durable effect is pending") ;?
        validate_acceptance_conversion command (db_tables d) ;?
        let pending := {| pe_effect := e; pe_stage := IntentCommitted; pe_applied_result := None |} in
        Ok (write_agent_state ((db_state d) <| ag_pending_effect := Some pending |>) d, BePending e)
    | _, _ => Err (conflict "another durable effect is pending")
    end.

Definition begin_effect (e : RuntimeEffect) (d : AgentDatabase) : transaction BeginEffect :=
  let s := db_state d in
  match re_action e with
  | ActAcceptHistoricalSecondaryRemovalCommit command =>
      admit_commit command s ;?
      reject (negb (arc_local_recovery command) || (re_operation_id e != arc_operation_id command))
        (rejected "historical acceptance effect identity differs")
  | _ => Ok tt
  end ;?
  reject (is_some (ag_retired_authority s) && negb (is_retire_replica (re_action e)))
    (rejected "retired incarnation is permanently fenced") ;?
  match ag_removal_effects s !! re_operation_id e with
  | Some retained =>
      reject (rec_effect (rs_record retained) != e) (conflict "removal effect operation was mutated") ;?
      Ok (d, BeCompleted (rec_result (rs_record retained)))
  | None =>
      match opt_filter (fun r => rs_operation_id r == re_operation_id e) (ag_retained_result s) with
      | Some retained =>
          reject (rec_effect (rs_record retained) != e)
            (conflict "operation ID was reused with a different effect") ;?
          Ok (d, BeCompleted (rec_result (rs_record retained)))
      | None =>
          reject ((ag_next_effect_sequence s =? U64_MAX) || (re_sequence e =? U64_MAX))
            (conflict "effect sequence exhausted") ;?
          match ag_pending_effect s with
          | Some pending => resume_effect e pending d
          | None =>
              let pending :=
                {| pe_effect := e; pe_stage := IntentCommitted; pe_applied_result := None |} in
              Ok (write_agent_state (s <| ag_pending_effect := Some pending |>) d, BeExecute e)
          end
      end
  end.

Definition mark_effect_applied (e : RuntimeEffect) (r : RuntimeEffectResult) (d : AgentDatabase)
    : transaction unit :=
  let s := db_state d in
  let? pending := ok_or (ag_pending_effect s) (conflict "runtime effect has no durable intent") in
  reject (pe_effect pending != e) (conflict "runtime effect does not match durable intent") ;?
  conflict_text (validate_for r e) ;?
  reject (is_some_and (fun existing => existing != r) (pe_applied_result pending))
    (conflict "runtime effect produced a changed canonical result") ;?
  let pending :=
    {| pe_effect := pe_effect pending; pe_stage := EffectApplied; pe_applied_result := Some r |} in
  Ok (write_agent_state (s <| ag_pending_effect := Some pending |>) d, tt).

Definition cancel_effect (e : RuntimeEffect) (d : AgentDatabase) : transaction unit :=
  let s := db_state d in
  let? pending := ok_or (ag_pending_effect s) (conflict "runtime effect has no durable intent") in
  reject (pe_effect pending != e)
    (conflict "cancelled runtime effect does not match durable intent") ;?
  let abandoned :=
    match re_action (pe_effect pending) with
    | ActBuildReplica build_id _ _ => bool_decide (build_id ∈ ag_abandoned_builds s)
    | _ => false
    end in
  reject ((pe_stage pending == EffectApplied) && negb abandoned)
    (conflict "applied effect cancellation requires durable build abandonment") ;?
  Ok (write_agent_state (s <| ag_pending_effect := None |>) d, tt).

(** ** Completing an effect

    The durable state after the outcome of each family of effects. *)

Definition validate_native_token (token : NativeOperationToken) (authority : option AdmittedAuthority)
    : host unit :=
  reject (is_empty (nt_engine_session_id token) || (nt_authority token != authority))
    (stale "topology receipt authority or engine session is stale").

(** The policies that come with an authority: of the evidence it carries, or as they were. *)
Definition admitted_policies (a : AdmittedAuthority) (s : AgentState)
    : EffectivePolicy * EffectivePolicy :=
  match aa_scale_up a, aa_secondary_removal a with
  | Some evidence, _ =>
      (sui_current_policy (evidence_intent evidence), sui_previous_policy (evidence_intent evidence))
  | None, Some evidence =>
      (sdi_current_policy (srp_intent (sre_preparation evidence)),
       sdi_previous_policy (srp_intent (sre_preparation evidence)))
  | None, None => (ag_policy s, ag_policy s)
  end.

(** The preparation that the admitted authority or the accepted removal leaves behind. *)
Definition prepared_after (a : AdmittedAuthority) (accepted : option SecondaryScaleDownCleanup)
    (s : AgentState) : option SecondaryRemovalPreparation :=
  let prepared :=
    if is_some_and (fun p => epoch_ltb (cd_epoch (sdi_current_configuration (srp_intent p)))
                               (cd_epoch (aa_current_configuration a)))
         (ag_prepared_secondary_removal s)
    then None else ag_prepared_secondary_removal s in
  if is_some_and (fun c => prepared == Some (sre_preparation (sdc_evidence c))) accepted
  then None else prepared.

Definition apply_admitted_authority (s : AgentState) (c : AuthorityCompletion) : AgentState :=
  let a := auc_authority c in
  let '(current, previous) := admitted_policies a s in
  s <| ag_read_status := auc_read_status c |>
    <| ag_write_status := auc_write_status c |>
    <| ag_previous_configuration := aa_previous_configuration a |>
    <| ag_current_configuration := Some (aa_current_configuration a) |>
    <| ag_highest_epoch := epoch_max (ag_highest_epoch s) (cd_epoch (aa_current_configuration a)) |>
    <| ag_secondary_removal_evidence := aa_secondary_removal a |>
    <| ag_scale_up_evidence := aa_scale_up a |>
    <| ag_admitted_policy := Some current |>
    <| ag_previous_policy := (fun _ => previous) <$> aa_previous_configuration a |>
    <| ag_prepared_secondary_removal := prepared_after a (auc_accepted_secondary_removal c) s |>
    <| ag_accepted_secondary_removal := auc_accepted_secondary_removal c |>.

Definition apply_process_completion (s : AgentState) (c : ProcessCompletion) : AgentState :=
  s <| ag_role := prc_role c |>
    <| ag_read_status := prc_read_status c |>
    <| ag_write_status := prc_write_status c |>
    <| ag_previous_configuration := prc_authority c ≫= aa_previous_configuration |>
    <| ag_current_configuration := aa_current_configuration <$> prc_authority c |>.

Definition complete_removal_preparation (intent : SecondaryScaleDownIntent)
    (session : ProcessSessionId) (sequence : Z) (e : RuntimeEffect)
    (c : SecondaryRemovalPreparationCompletion) (durable : option AdmittedAuthority) (s : AgentState)
    : host AgentState :=
  let? prepared := ok_or (spc_prepared_secondary_removal c)
                     (conflict "preparation omitted durable boundary") in
  conflict_invalid (validate_secondary_removal_preparation prepared) ;?
  reject ((srp_intent prepared != intent)
          || (srp_process_session_id prepared != session)
          || (srp_report_sequence prepared != sequence)
          || (srp_operation_id prepared != re_operation_id e)
          || (spc_role c != Primary)
          || (spc_read_status c == Granted)
          || (spc_write_status c == Granted)
          || (spc_current_progress c <? srp_boundary_lsn prepared)
          || is_none_or (fun a =>
               (aa_local_identity a != sdi_primary intent)
               || (aa_current_configuration a != sdi_previous_configuration intent)
               || is_some (aa_previous_configuration a)) (spc_authority c)
          || is_none_or (fun lsn => lsn <? srp_boundary_lsn prepared) (spc_verified_replication_lsn c)
          || (srp_boundary_lsn prepared <? spc_committed_lsn c))
    (conflict "preparation returned conflicting authority or progress") ;?
  match spc_receipt c with
  | None => Ok tt
  | Some receipt =>
      reject (spc_authority c != durable)
        (stale "secondary-removal preparation completed under a different authority") ;?
      validate_native_token (nrr_token receipt) durable ;?
      reject (nrr_preparation receipt != Some prepared)
        (conflict "secondary-removal receipt does not match preparation")
  end ;?
  Ok (s <| ag_read_status := spc_read_status c |> <| ag_write_status := spc_write_status c |>
        <| ag_prepared_secondary_removal := Some prepared |>).

(** A receipt comes from the engine of the durable authority and names what was observed. *)
Definition check_removal_receipt (receipt : option NativeRemovalReceipt)
    (durable : option AdmittedAuthority) (matching : NativeRemovalReceipt -> bool) (message : string)
    : host unit :=
  match receipt with
  | None => Ok tt
  | Some receipt =>
      validate_native_token (nrr_token receipt) durable ;?
      reject (negb (matching receipt)) (conflict message)
  end.

(** The removal is accepted and its preparation, if it is the retained one, is done. *)
Definition accept_removal (committed : SecondaryScaleDownCleanup) (s : AgentState) : AgentState :=
  let s := s <| ag_accepted_secondary_removal := Some committed |> in
  if ag_prepared_secondary_removal s == Some (sre_preparation (sdc_evidence committed))
  then s <| ag_prepared_secondary_removal := None |> else s.

Definition complete_historical_acceptance (command : AcceptSecondaryRemovalCommit) (e : RuntimeEffect)
    (c : HistoricalSecondaryRemovalCompletion) (durable : option AdmittedAuthority) (s : AgentState)
    : host AgentState :=
  conflict_invalid (validate_accept_secondary_removal_commit command) ;?
  let committed := arc_committed command in
  let intent := committed_intent committed in
  reject (negb (arc_local_recovery command)
          || (arc_operation_id command != re_operation_id e)
          || (arc_target command != ag_local s)
          || (sdi_resource_uid intent != ag_resource s)
          || (hrc_accepted_secondary_removal c != committed)
          || (hrc_role c != ActiveSecondary)
          || (hrc_write_status c == Granted)
          || negb (hrc_role_transition_clear c)
          || is_none_or (fun a =>
               (aa_local_identity a != arc_target command)
               || is_some (aa_previous_configuration a)
               || (aa_current_configuration a != sdi_current_configuration intent)
               || (aa_secondary_removal a != Some (sdc_evidence committed))) (hrc_authority c)
          || is_none_or (fun lsn => lsn <? srp_boundary_lsn (sre_preparation (sdc_evidence committed)))
               (hrc_verified_replication_lsn c))
    (conflict "historical acceptance omitted exact local postcondition") ;?
  match hrc_receipt c with
  | None => Ok tt
  | Some receipt =>
      reject (hrc_authority c != durable)
        (stale "historical acceptance completed under a different authority") ;?
      validate_native_token (nrr_token receipt) durable ;?
      reject (nrr_accepted receipt != Some committed)
        (conflict "historical acceptance receipt differs")
  end ;?
  Ok (accept_removal committed s).

(** Nothing of the replica is left running. *)
Definition terminally_closed (c : RetirementCompletion) : bool :=
  negb (rtc_open c) && (rtc_role c == RoleNone) && (rtc_read_status c == NotPrimary)
  && (rtc_write_status c == NotPrimary) && is_none (rtc_authority c)
  && rtc_role_transition_clear c && negb (rtc_active_builds c).

(** The receipt of a retirement at its start or at its end. *)
Definition retirement_receipt_differs (c : RetirementCompletion) (retired : RetiredAuthority)
    (completed : bool) : bool :=
  is_some_and (fun r => is_empty (rtr_engine_session_id r) || (rtr_completed r != completed)
                        || (rtr_retired r != retired)) (rtc_receipt c).

Definition complete_retirement (retired : RetiredAuthority) (c : RetirementCompletion) (s : AgentState)
    : host AgentState :=
  conflict_contract (ra_validate retired (ag_local s)) ;?
  reject ((rtc_retired c != retired) || negb (terminally_closed c))
    (conflict "retirement omitted terminal closure") ;?
  reject (retirement_receipt_differs c retired true)
    (conflict "retirement receipt does not match terminal retirement") ;?
  Ok (s <| ag_role := rtc_role c |>
        <| ag_read_status := rtc_read_status c |>
        <| ag_write_status := rtc_write_status c |>
        <| ag_previous_configuration := None |>
        <| ag_current_configuration := None |>
        <| ag_retired_authority := Some retired |>
        <| ag_highest_epoch := epoch_max (ag_highest_epoch s) (rrr_epoch (ra_report retired)) |>
        <| ag_previous_policy := None |>
        <| ag_secondary_removal_evidence := None |>
        <| ag_scale_up_evidence := None |>
        <| ag_accepted_secondary_removal := None |>
        <| ag_prepared_secondary_removal := None |>).

Definition complete_retirement_fence (retired : RetiredAuthority) (c : RetirementCompletion)
    (s : AgentState) : host AgentState :=
  reject (rtc_retired c != retired) (conflict "retirement fence identity differs") ;?
  reject (retirement_receipt_differs c retired false) (conflict "retirement fence receipt differs") ;?
  Ok (s <| ag_read_status := rtc_read_status c |>
        <| ag_write_status := rtc_write_status c |>
        <| ag_previous_configuration := rtc_authority c ≫= aa_previous_configuration |>
        <| ag_current_configuration := aa_current_configuration <$> rtc_authority c |>).

Definition complete_retirement_end (retired : RetiredAuthority) (c : RetirementCompletion)
    (s : AgentState) : host AgentState :=
  reject ((rtc_retired c != retired) || negb (terminally_closed c))
    (conflict "retirement completion omitted terminal closure") ;?
  reject (retirement_receipt_differs c retired true)
    (conflict "retirement completion receipt differs") ;?
  Ok (s <| ag_role := rtc_role c |>
        <| ag_read_status := rtc_read_status c |>
        <| ag_write_status := rtc_write_status c |>
        <| ag_previous_configuration := None |>
        <| ag_current_configuration := None |>).

Definition complete_epoch (c : EpochCompletion) (durable : option AdmittedAuthority) (s : AgentState)
    : host AgentState :=
  let? expected :=
    ok_or (or_else ((fun a => cd_epoch (aa_current_configuration a)) <$> durable)
             (cd_epoch <$> ag_current_configuration s))
      (conflict "epoch completion has no durable authority") in
  reject (epc_epoch c != expected) (conflict "epoch completion differs from durable authority") ;?
  Ok (s <| ag_highest_epoch := epoch_max (ag_highest_epoch s) (epc_epoch c) |>).

Definition switchover_receipt_matches (r : SwitchoverReceipt) (generation : Z)
    (request : SwitchoverRequestId) (source target : ReplicaIdentity) (id : ConfigurationId)
    (epoch : Epoch) : bool :=
  (swr_preparation_generation r == generation) && (swr_request_id r == request)
  && (swr_source r == source) && (swr_target r == target)
  && (swr_starting_configuration_id r == id) && (swr_starting_epoch r == epoch)
  && (0 <=? swr_handoff_lsn r).

Definition complete_switchover (generation : Z) (request : SwitchoverRequestId)
    (source target : ReplicaIdentity) (id : ConfigurationId) (epoch : Epoch) (e : RuntimeEffect)
    (c : SwitchoverCompletion) (durable : option AdmittedAuthority) (s : AgentState)
    : host AgentState :=
  let? authority := ok_or (swc_authority c)
    (conflict "planned switchover preparation omitted admitted authority") in
  let current := aa_current_configuration authority in
  let invalid := conflict "planned switchover preparation returned an invalid result" in
  reject ((generation =? 0)
          || (swc_role c != Primary)
          || (swc_write_status c != ReconfigurationPending)
          || (swc_current_progress c <? 0)
          || (swc_current_progress c <? swc_committed_lsn c)
          || (aa_local_identity authority != source)
          || (cd_configuration_id current != id)
          || (cd_epoch current != epoch)) invalid ;?
  let? primary := aa_primary_identity authority in
  reject ((primary != source)
          || negb (existsb (fun m => (cm_identity m == target) && (cm_role m != Primary))
                     (cd_members current))) invalid ;?
  match swc_receipt c with
  | None => Ok tt
  | Some receipt =>
      reject (Some authority != durable)
        (stale "planned switchover completed under a different authority") ;?
      validate_native_token (swr_token receipt) durable ;?
      reject (negb (switchover_receipt_matches receipt generation request source target id epoch))
        (conflict "planned switchover receipt differs")
  end ;?
  let handoff :=
    {| sh_preparation_generation := generation;
       sh_preparation_operation_id := re_operation_id e;
       sh_request_id := request;
       sh_source := source;
       sh_target := target;
       sh_starting_configuration_id := id;
       sh_starting_epoch := epoch;
       sh_handoff_lsn := from_option swr_handoff_lsn (swc_current_progress c) (swc_receipt c) |} in
  reject (is_some_and (fun existing => existing != handoff) (ag_prepared_switchover s))
    (conflict "another planned switchover preparation is retained") ;?
  Ok (s <| ag_write_status := swc_write_status c |> <| ag_prepared_switchover := Some handoff |>).

(** The durable progress is the reported one. *)
Definition same_progress (durable : DurableBuildProgress) (b : BuildPostcondition) : bool :=
  (bp_authority durable == bpc_authority b) && (bp_last_sequence durable == bpc_last_sequence b)
  && (bp_durable_lsn durable == bpc_durable_lsn b)
  && (bp_completed durable == bpc_completed b)
  && (bp_catch_up_boundary_lsn durable == bpc_catch_up_boundary_lsn b).

Definition complete_build (build_id : OperationId) (c : BuildCompletion) (t : AuthorityStore)
    (s : AgentState) : host AgentState :=
  match bdc_state c with
  | BuildDispatched => Err (conflict "build dispatch is not a terminal completion")
  | BuildCompleted b =>
      let authority := bpc_authority b in
      reject (negb (bpc_completed b) || (ba_build_id authority != build_id)
              || (ba_target authority != bdc_target c))
        (conflict "build completion carries contradictory identity or state") ;?
      reject ((as_builds t !! build_id != Some authority)
              || is_none_or (fun x => bs_authority x != authority)
                   (as_selections t !! replica_id (ba_target authority))
              || bool_decide (build_id ∈ ag_abandoned_builds s)
              || bool_decide (build_id ∈ ag_retired_builds s))
        (stale "build completion lost its durable authority or selection") ;?
      let? durable := ok_or (ag_build_progress s !! build_id)
                        (conflict "build completion lacks durable progress") in
      reject (negb (same_progress durable b))
        (stale "build completion differs from durable build progress") ;?
      Ok s
  | BuildAbandoned =>
      reject (negb (bool_decide (build_id ∈ ag_abandoned_builds s)))
        (conflict "abandoned build completion lacks durable abandonment") ;?
      Ok s
  end.

(** The effects on roles, access, epochs and the process. *)
Definition apply_local_outcome (e : RuntimeEffect) (o : RuntimeEffectOutcome)
    (durable : option AdmittedAuthority) (s : AgentState) : host AgentState :=
  match re_action e, o with
  | ActOpen _, OutOpened
  | ActRegisterPeerSession _ _, OutPeerSessionRegistered _ _
  | ActObserveReplicationAck _ _, OutReplicationAckObserved _ _
  | ActAdmitBuildAuthority _, OutBuildAuthorityAdmitted _
  | ActChangeReplicatorRole _, OutReplicatorRoleChanged _
  | ActRefreshApplicationProgress, OutApplicationProgressRefreshed _ => Ok s
  | ActAdmitAuthority _, OutAuthorityAdmitted c => Ok (apply_admitted_authority s c)
  | ActAuthorizeFailoverPrefix boundary, OutFailoverPrefixAuthorized _ receipt =>
      match receipt with
      | None => Ok s
      | Some receipt =>
          validate_native_token (cpr_token receipt) durable ;?
          reject (cpr_settled_lsn receipt != boundary) (conflict "certified-prefix receipt differs") ;?
          Ok s
      end
  | ActChangeRole _, OutRoleChanged c => Ok (s <| ag_role := rlc_role c |>)
  | ActUpdateEpoch, OutEpochUpdated c => complete_epoch c durable s
  | ActChangeApplicationRole _, OutApplicationRoleChanged c receipt =>
      match receipt with
      | None => Ok tt
      | Some receipt => validate_native_token (cpr_token receipt) durable
      end ;?
      Ok (s <| ag_role := rlc_role c |>)
  | ActWaitForCatchup, OutCatchUpCompleted c =>
      reject (cuc_authority c != durable)
        (stale "catch-up completed under a different authority") ;?
      Ok s
  | ActSetAccessStatus _ _, OutAccessChanged c =>
      Ok (s <| ag_read_status := acc_read_status c |> <| ag_write_status := acc_write_status c |>)
  | ActSetReadStatus _, OutAccessChanged c => Ok (s <| ag_read_status := acc_read_status c |>)
  | ActSetWriteStatus _, OutAccessChanged c => Ok (s <| ag_write_status := acc_write_status c |>)
  | ActClose, OutClosed c | ActAbort, OutAborted c => Ok (apply_process_completion s c)
  | _, _ => Err (conflict "effect outcome is incompatible with durable intent")
  end.

(** The effects on the topology: removals, retirement, switchover and builds. *)
Definition apply_outcome (e : RuntimeEffect) (o : RuntimeEffectOutcome) (t : AuthorityStore)
    (s : AgentState) : host AgentState :=
  let durable := as_authority t in
  match re_action e, o with
  | ActPrepareSecondaryRemoval intent session sequence, OutSecondaryRemovalPrepared c =>
      complete_removal_preparation intent session sequence e c durable s
  | ActObserveSecondaryRemovalWitness witness, OutSecondaryRemovalWitnessObserved _ receipt =>
      check_removal_receipt receipt durable (fun r => nrr_witness r == Some witness)
        "secondary-removal receipt does not match witness" ;?
      Ok s
  | ActObserveSecondaryRemovalProgress witness committed,
    OutSecondaryRemovalProgressObserved _ _ receipt =>
      check_removal_receipt receipt durable
        (fun r => (nrr_witness r == Some witness) && (nrr_accepted r == Some committed))
        "secondary-removal receipt does not match observed progress" ;?
      Ok s
  | ActAcceptSecondaryRemovalCommit committed, OutSecondaryRemovalAccepted _ receipt =>
      check_removal_receipt receipt durable (fun r => nrr_accepted r == Some committed)
        "secondary-removal receipt does not match accepted cleanup" ;?
      Ok (accept_removal committed s)
  | ActAcceptHistoricalSecondaryRemovalCommit command, OutHistoricalSecondaryRemovalAccepted c =>
      complete_historical_acceptance command e c durable s
  | ActRetireReplica retired, OutReplicaRetired c => complete_retirement retired c s
  | ActFenceRetirement retired, OutRetirementFenced c => complete_retirement_fence retired c s
  | ActCompleteRetirement retired, OutRetirementCompleted c => complete_retirement_end retired c s
  | ActPrepareSwitchover generation request source target id epoch, OutSwitchoverPrepared c =>
      complete_switchover generation request source target id epoch e c durable s
  | ActBuildReplica build_id _ _, OutBuildReplica c => complete_build build_id c t s
  | ActRetireBuild build_id, OutBuildRetired _ active =>
      reject active (conflict "build retirement left the build active") ;?
      Ok (s <| ag_retired_builds := {[build_id]} ∪ ag_retired_builds s |>)
  | _, _ => apply_local_outcome e o durable s
  end.

(** Effects whose results are retained for good. *)
Definition retained_forever (a : RuntimeEffectAction) : bool :=
  match a with
  | ActPrepareSecondaryRemoval _ _ _ | ActRetireReplica _
  | ActAcceptHistoricalSecondaryRemovalCommit _ => true
  | _ => false
  end.

Definition retain_result (e : RuntimeEffect) (r : RuntimeEffectResult) (s : AgentState) : AgentState :=
  let retained := {| rs_operation_id := rer_operation_id r;
                     rs_record := {| rec_effect := e; rec_result := r |} |} in
  s <| ag_removal_effects := if retained_forever (re_action e)
                             then <[rer_operation_id r := retained]> (ag_removal_effects s)
                             else ag_removal_effects s |>
    <| ag_retained_result := Some retained |>.

(** [INSERT INTO replica_authority ... ON CONFLICT DO UPDATE] *)
Definition write_authority (e : RuntimeEffect) (o : RuntimeEffectOutcome) (t : AuthorityStore)
    : AuthorityStore :=
  match re_action e, o with
  | ActAdmitAuthority _, OutAuthorityAdmitted c => install_authority (auc_authority c) t
  | _, _ => t
  end.

Definition settle_effect (pending : PendingEffect) (r : RuntimeEffectResult) (d : AgentDatabase)
    : transaction unit :=
  let e := pe_effect pending in
  let s := (db_state d) <| ag_pending_effect := None |> in
  match re_action e with
  | ActAcceptHistoricalSecondaryRemovalCommit command => admit_commit command s
  | _ => Ok tt
  end ;?
  let? s := apply_outcome e (rer_outcome r) (db_tables d) s in
  let s := retain_result e r s in
  reject (rer_sequence r =? U64_MAX) (conflict "effect sequence exhausted") ;?
  let s := s <| ag_next_effect_sequence := Z.max (ag_next_effect_sequence s) (rer_sequence r + 1) |> in
  Ok (write_agent_state s {| db_state := db_state d;
                             db_tables := write_authority e (rer_outcome r) (db_tables d) |}, tt).

Definition complete_effect (r : RuntimeEffectResult) (d : AgentDatabase) : transaction unit :=
  let s := db_state d in
  match ag_pending_effect s with
  | None =>
      let retained :=
        or_else (ag_removal_effects s !! rer_operation_id r)
          (opt_filter (fun x => rs_operation_id x == rer_operation_id r) (ag_retained_result s)) in
      let? retained := ok_or retained (conflict "effect completion has no durable intent") in
      reject (rec_result (rs_record retained) != r)
        (conflict "retained effect completion changed its canonical result") ;?
      Ok (d, tt)
  | Some pending =>
      conflict_text (validate_for r (pe_effect pending)) ;?
      reject ((pe_stage pending != EffectApplied) || (pe_applied_result pending != Some r))
        (conflict "effect completion differs from the durably applied canonical result") ;?
      settle_effect pending r d
  end.

End effects.

(** ** Configuration commands *)

Inductive BeginConfiguration :=
| BcExecute (record : ReconfigurationRecord)
| BcPending (record : ReconfigurationRecord)
| BcSuperseded (record : ReconfigurationRecord)
| BcCompleted (result : RetainedCommandResult).

Definition write_reconfiguration (r : ReconfigurationRecord) (s : AgentState) (d : AgentDatabase)
    : AgentDatabase :=
  write_agent_state (s <| ag_reconfiguration := Some r |>) d.

(** A newer command takes over from the pending one and drops its effect. *)
Definition supersede_configuration (c : EnsureConfiguration) (pending : ReconfigurationRecord)
    (d : AgentDatabase) : transaction BeginConfiguration :=
  let s := db_state d in
  reject (epoch_leb (ec_current_epoch c) (ec_current_epoch (rcr_command pending)))
    (conflict "another configuration command is pending") ;?
  reject (is_some_and (fun p =>
            negb (String.prefix (ec_operation_id (rcr_command pending) +:+ ":")
                    (re_operation_id (pe_effect p)))) (ag_pending_effect s))
    (conflict "pending runtime effect is not owned by the superseded command") ;?
  let record := {| rcr_command := c; rcr_stage := CsAdmitAuthority; rcr_observed_lsn := None |} in
  Ok (write_reconfiguration record (s <| ag_pending_effect := None |>) d, BcSuperseded record).

Definition begin_configuration (c : EnsureConfiguration) (d : AgentDatabase)
    : transaction BeginConfiguration :=
  let s := db_state d in
  match ag_removal_commands s !! ec_operation_id c with
  | Some retained =>
      reject (rcc_command retained != c) (conflict "removal command operation was mutated") ;?
      Ok (d, BcCompleted retained)
  | None =>
  match opt_filter (fun r => ec_operation_id (rcc_command r) == ec_operation_id c)
          (ag_retained_command s) with
  | Some retained =>
      reject (rcc_command retained != c)
        (conflict "operation ID was reused with different configuration authority") ;?
      Ok (d, BcCompleted retained)
  | None =>
  match ag_reconfiguration s with
  | Some pending =>
      if rcr_command pending == c then Ok (d, BcPending pending)
      else supersede_configuration c pending d
  | None =>
      let record :=
        {| rcr_command := c;
           rcr_stage := if is_access_only_configuration c s then CsActivate else CsAdmitAuthority;
           rcr_observed_lsn := None |} in
      Ok (write_reconfiguration record s d, BcExecute record)
  end end end.

Definition advance_configuration (operation : OperationId) (expected next : CoordinatorStage)
    (observed : option Lsn) (d : AgentDatabase) : transaction ReconfigurationRecord :=
  let s := db_state d in
  let? record := ok_or (ag_reconfiguration s) (conflict "configuration command is not pending") in
  reject ((ec_operation_id (rcr_command record) != operation) || (rcr_stage record != expected))
    (conflict "configuration stage does not match durable command") ;?
  let record :=
    {| rcr_command := rcr_command record; rcr_stage := next;
       rcr_observed_lsn := or_else observed (rcr_observed_lsn record) |} in
  let s :=
    if expected == CsDeactivate
    then s <| ag_deactivation := Some {| das_epoch := ec_current_epoch (rcr_command record);
                                         das_deactivated_lsn := default 0 (rcr_observed_lsn record) |} |>
    else s in
  Ok (write_reconfiguration record s d, record).

(** The switchover preparation that a completed command retires. *)
Definition retire_prepared_switchover (c : EnsureConfiguration)
    (retirement : SwitchoverPreparationId) (s : AgentState) : host AgentState :=
  if is_switchover_restoration c && is_none (ec_switchover_handoff c) then
    reject (is_some_and (fun p => sh_preparation p != retirement) (ag_prepared_switchover s))
      (conflict "restoration retires another preparation") ;?
    Ok (match ag_prepared_switchover s with
        | Some p => s <| ag_prepared_switchover := None |> <| ag_retired_switchover := Some p |>
        | None => s
        end)
  else
    let? prepared := ok_or (or_else (ag_prepared_switchover s) (ag_retired_switchover s))
      (conflict "configuration retires missing switchover preparation") in
    reject (ec_switchover_handoff c != Some prepared)
      (conflict "configuration retires a changed switchover certificate") ;?
    reject (ec_retire_switchover_preparation_ids c != [sh_preparation prepared])
      (conflict "configuration retires another switchover preparation") ;?
    Ok (s <| ag_retired_switchover := Some prepared |> <| ag_prepared_switchover := None |>).

(** The durable fence of preparations only moves forward. *)
Definition fence_preparations (c : EnsureConfiguration) (retirement : SwitchoverPreparationId)
    (s : AgentState) : host AgentState :=
  let '(epoch, id) :=
    match ec_switchover_handoff c with
    | Some h => (sh_starting_epoch h, sh_starting_configuration_id h)
    | None => (ec_current_epoch c, cd_configuration_id (ec_current_configuration c))
    end in
  reject (is_some_and (fun retired =>
            epoch_ltb epoch (prt_starting_epoch retired)
            || ((prt_starting_epoch retired == epoch)
                && ((prt_starting_configuration_id retired != id)
                    || (spi_generation retirement <? prt_generation retired))))
            (ag_preparation_retirement s))
    (conflict "preparation retirement regresses durable fencing") ;?
  Ok (s <| ag_preparation_retirement :=
        Some {| prt_starting_configuration_id := id; prt_starting_epoch := epoch;
                prt_generation := spi_generation retirement |} |>).

Definition complete_configuration (operation : OperationId) (d : AgentDatabase)
    : transaction RetainedCommandResult :=
  let s := db_state d in
  let? record := ok_or (ag_reconfiguration s) (conflict "configuration command is not pending") in
  let c := rcr_command record in
  let s := s <| ag_reconfiguration := None |> in
  reject ((ec_operation_id c != operation) || (rcr_stage record != CsComplete))
    (conflict "configuration command has not reached its terminal stage") ;?
  let? s := match ec_retire_switchover_preparation_ids c with
            | [] => Ok s
            | retirement :: _ =>
                let? s := retire_prepared_switchover c retirement s in
                fence_preparations c retirement s
            end in
  let result := {| rcc_command := c; rcc_role := ag_role s; rcc_epoch := ag_highest_epoch s |} in
  let s :=
    s <| ag_removal_commands :=
           if ec_transition_kind c == SecondaryScaleDown
           then <[ec_operation_id c := result]> (ag_removal_commands s) else ag_removal_commands s |>
      <| ag_completed_scale_up :=
           if ec_current_only c && is_some (ec_scale_up_evidence c)
           then Some result else ag_completed_scale_up s |>
      <| ag_retained_command := Some result |> in
  Ok (write_agent_state s d, result).

(** ** Builds *)

Definition journal_build (c : EnsureReplicaBuild) (d : AgentDatabase)
    : transaction EnsureReplicaBuild :=
  let s := db_state d in
  reject (bool_decide (erb_operation_id c ∈ ag_retired_builds s)
          || bool_decide (erb_operation_id c ∈ ag_abandoned_builds s))
    (rejected "abandoned or retired build authority cannot be reopened") ;?
  match ag_build_commands s !! erb_operation_id c with
  | Some existing =>
      let immutable :=
        (erb_operation_id existing == erb_operation_id c)
        && (erb_local_replica_id existing == erb_local_replica_id c)
        && (erb_expected_instance_id existing == erb_expected_instance_id c)
        && (erb_expected_agent_generation existing == erb_expected_agent_generation c)
        && (erb_target existing == erb_target c)
        && (erb_authority existing == erb_authority c)
        && (erb_retire existing == erb_retire c) in
      reject (negb immutable
              || (is_none (erb_authority existing)
                  && (erb_source_session_id existing != erb_source_session_id c)))
        (conflict "build operation was reused with different immutable authority")
  | None => Ok tt
  end ;?
  Ok (write_agent_state
        (s <| ag_build_commands := <[erb_operation_id c := c]> (ag_build_commands s) |>) d, c).

Definition abandon_build `{Sha256} (c : EnsureReplicaBuild) (d : AgentDatabase) : transaction unit :=
  let s := db_state d in
  let id := erb_operation_id c in
  admit_build_command c s ;?
  if bool_decide (id ∈ ag_retired_builds s) then Ok (d, tt) else
  let related p :=
    match re_action (pe_effect p) with
    | ActBuildReplica build_id target _ =>
        (build_id == id) && (target == erb_target c)
        && (re_operation_id (pe_effect p) == id +:+ ":build-replica")
    | ActRetireBuild build_id =>
        (build_id == id) && (re_operation_id (pe_effect p) == id +:+ ":retire-abandoned-build")
    | _ => false
    end in
  reject (is_some_and (fun p => negb (related p)) (ag_pending_effect s))
    (conflict "build abandonment conflicts with unrelated pending work") ;?
  Ok (write_agent_state (s <| ag_abandoned_builds := {[id]} ∪ ag_abandoned_builds s |>) d, tt).

(** ** Application storage and reports *)

Definition complete_application_initialization (d : AgentDatabase) : AgentDatabase :=
  match ag_application_storage (db_state d) with
  | Some binding =>
      if asb_initializing binding then
        write_agent_state ((db_state d) <| ag_application_storage :=
          Some {| asb_paths := asb_paths binding; asb_initializing := false |} |>) d
      else d
  | None => d
  end.

Definition record_partition_reports (metrics : list LoadMetric) (fault : option FaultType)
    (d : AgentDatabase) : transaction unit :=
  reject (existsb (fun m => is_empty (lm_name m) || (lm_value m <? 0)) metrics
          || negb (bool_decide (NoDup (map lm_name metrics))))
    (rejected "load metrics require unique nonempty names and nonnegative values") ;?
  Ok (write_agent_state ((db_state d) <| ag_load_metrics := metrics |>
                                      <| ag_reported_fault := fault |>) d, tt).
