(* ===== verification/AgentRuns.v ===== *)
(** * Runs of the agent's store

    Every transaction of [AgentStore] and of the authority tables as a step, with any
    arguments and in any order.  What holds along every run: each recorded result answers the
    effect it is recorded for, results of removals are final, fences and epochs never go
    back, and a retired incarnation never serves again. *)

From S2P Require Import Prelude Digest Types Intents Commands Observations Validation Quorums.
From S2P Require Import ScaleDown ScaleUp SnapshotValidation ManagedConfiguration Quorum QuorumSafety.
From S2P Require Import Authority AuthorityStore Effects AgentState AgentAdmission AgentStore.
From stdpp Require Import base gmap strings list relations.
From Stdlib Require Import ZArith Lia.
Local Open Scope Z_scope.

Section runs.
Context `{Sha256}.

(** A transaction that commits; one that fails leaves the database as it was. *)
Inductive agent_step (d : AgentDatabase) : AgentDatabase -> Prop :=
| StepBeginEffect e d' a : begin_effect e d = Ok (d', a) -> agent_step d d'
| StepMarkApplied e r d' : mark_effect_applied e r d = Ok (d', tt) -> agent_step d d'
| StepCompleteEffect r d' : complete_effect r d = Ok (d', tt) -> agent_step d d'
| StepCancelEffect e d' : cancel_effect e d = Ok (d', tt) -> agent_step d d'
| StepBeginConfiguration c d' a : begin_configuration c d = Ok (d', a) -> agent_step d d'
| StepAdvance id expected next observed d' a :
    advance_configuration id expected next observed d = Ok (d', a) -> agent_step d d'
| StepCompleteConfiguration id d' a : complete_configuration id d = Ok (d', a) -> agent_step d d'
| StepJournalBuild c d' a : journal_build c d = Ok (d', a) -> agent_step d d'
| StepAbandonBuild c d' : abandon_build c d = Ok (d', tt) -> agent_step d d'
| StepInitialized : agent_step d (complete_application_initialization d)
| StepReports metrics fault d' : record_partition_reports metrics fault d = Ok (d', tt) -> agent_step d d'
| StepTables e t : runtime_step (db_tables d) e t -> agent_step d (write_tables t d).

Definition agent_reachable (d : AgentDatabase) : Prop :=
  exists identity, rtc agent_step (new_database identity) d.

(** ** What the transactions leave alone *)

(** The parts of the state that only effects change. *)
Record same_effects (s s' : AgentState) : Prop := {
  sm_identity : ag_identity s' = ag_identity s;
  sm_retired : ag_retired_authority s' = ag_retired_authority s;
  sm_removals : ag_removal_effects s' = ag_removal_effects s;
  sm_retained : ag_retained_result s' = ag_retained_result s;
  sm_sequence : ag_next_effect_sequence s' = ag_next_effect_sequence s;
}.

(** The parts that the completion of an effect installs. *)
Record same_service (s s' : AgentState) : Prop := {
  sv_role : ag_role s' = ag_role s;
  sv_read : ag_read_status s' = ag_read_status s;
  sv_write : ag_write_status s' = ag_write_status s;
  sv_previous : ag_previous_configuration s' = ag_previous_configuration s;
  sv_current : ag_current_configuration s' = ag_current_configuration s;
  sv_epoch : ag_highest_epoch s' = ag_highest_epoch s;
}.

(** A retired replica: no role, no access, no configuration. *)
Record out_of_service (s : AgentState) : Prop := {
  oos_role : ag_role s = RoleNone;
  oos_read : ag_read_status s = NotPrimary;
  oos_write : ag_write_status s = NotPrimary;
  oos_previous : ag_previous_configuration s = None;
  oos_current : ag_current_configuration s = None;
}.

(** The bookkeeping of effects and commands. *)
Definition bookkeeping (s : AgentState) :=
  (ag_identity s, ag_pending_effect s, ag_removal_effects s, ag_retained_result s,
   ag_next_effect_sequence s, ag_reconfiguration s, ag_removal_commands s, ag_abandoned_builds s,
   ag_preparation_retirement s).

(** Epochs and retired builds only grow. *)
Definition fences_advance (s s' : AgentState) : Prop :=
  epoch_leb (ag_highest_epoch s) (ag_highest_epoch s') = true /\
  ag_retired_builds s ⊆ ag_retired_builds s'.

Lemma epoch_max_le a b : epoch_leb a (epoch_max a b) = true.
Proof. unfold epoch_max. destruct (epoch_leb a b) eqn:Hab; [done|]. unfold epoch_leb, epoch_ltb. lia. Qed.

Ltac advance :=
  split; [first [apply epoch_leb_refl|apply epoch_max_le]|simpl; set_solver].

(** One action at a time, so that the matches stay small. *)
Ltac by_action e Hok :=
  destruct (re_action e) eqn:?; cbv beta iota zeta in Hok;
  try (match type of Hok with context [match ?o with OutOpened => _ | _ => _ end] =>
         destruct o; cbv beta iota zeta in Hok end);
  try discriminate Hok.

Lemma apply_local_outcome_keeps e o durable s s' :
  apply_local_outcome e o durable s = Ok s' ->
  bookkeeping s' = bookkeeping s /\ ag_retired_authority s' = ag_retired_authority s /\
  is_retire_replica (re_action e) = false /\ fences_advance s s'.
Proof.
  intros Hok. unfold apply_local_outcome in Hok. by_action e Hok.
  all: unfold complete_epoch, apply_admitted_authority in Hok; repeat case_match; guards.
  all: split_and!; try done; advance.
Qed.

(** The outcome of an effect changes no bookkeeping of effects; it retires the replica only
    with the service closed. *)
Lemma apply_outcome_keeps e o t s s' :
  apply_outcome e o t s = Ok s' ->
  bookkeeping s' = bookkeeping s /\ fences_advance s s' /\
  (if is_retire_replica (re_action e) then out_of_service s' /\ is_some (ag_retired_authority s') = true
   else ag_retired_authority s' = ag_retired_authority s).
Proof.
  intros Hok. unfold apply_outcome in Hok. by_action e Hok; simpl;
    try (apply apply_local_outcome_keeps in Hok as (? & ? & Hr & ?);
         revert Hr; rewrite Heqr; simpl; by try split).
  all: unfold complete_removal_preparation, check_removal_receipt, complete_historical_acceptance,
    complete_retirement, complete_retirement_fence, complete_retirement_end, complete_switchover,
    complete_build, accept_removal, terminally_closed in Hok.
  all: guards; repeat case_match; guards.
  all: split_and!; try done; try advance.
Qed.

(** ** The invariant *)

(** A recorded result is the result of the effect it is recorded with. *)
Record answered (next : Z) (x : RetainedResult) : Prop := {
  an_valid : validate_for (rec_result (rs_record x)) (rec_effect (rs_record x)) = Ok tt;
  an_id : rs_operation_id x = re_operation_id (rec_effect (rs_record x));
  an_sequence : re_sequence (rec_effect (rs_record x)) < next;
}.

(** The pending effect: its stage tells whether it has a result, which answers it; it was
    not completed before; and a retired replica only retires. *)
Record pending_ok (s : AgentState) (p : PendingEffect) : Prop := {
  po_stage : match pe_stage p, pe_applied_result p with
             | IntentCommitted, None => True
             | EffectApplied, Some r => validate_for r (pe_effect p) = Ok tt
             | _, _ => False
             end;
  po_removals : ag_removal_effects s !! re_operation_id (pe_effect p) = None;
  po_retained : forall x, ag_retained_result s = Some x ->
    rs_operation_id x <> re_operation_id (pe_effect p);
  po_retired : is_some (ag_retired_authority s) = true ->
    is_retire_replica (re_action (pe_effect p)) = true;
}.

Record agent_ok (d : AgentDatabase) : Prop := {
  ao_view : as_state (db_tables d) = agent_view (db_state d);
  ao_pending : forall p, ag_pending_effect (db_state d) = Some p -> pending_ok (db_state d) p;
  ao_retained : forall x, ag_retained_result (db_state d) = Some x ->
    answered (ag_next_effect_sequence (db_state d)) x;
  ao_removals : forall id x, ag_removal_effects (db_state d) !! id = Some x ->
    rs_operation_id x = id /\ answered (ag_next_effect_sequence (db_state d)) x;
  ao_retired : is_some (ag_retired_authority (db_state d)) = true -> out_of_service (db_state d);
}.

Lemma new_database_ok identity : agent_ok (new_database identity).
Proof. split; done. Qed.

(** A transaction that leaves effects and service alone, except that it may change the
    pending effect to one that is in order. *)
Lemma ok_pending_changed d d' :
  agent_ok d -> as_state (db_tables d') = agent_view (db_state d') ->
  same_effects (db_state d) (db_state d') -> same_service (db_state d) (db_state d') ->
  (forall p, ag_pending_effect (db_state d') = Some p -> pending_ok (db_state d') p) ->
  agent_ok d'.
Proof.
  intros [_ _ Hret Hrem Hoos] Hview [Hid Hr Hre Hx Hs] [] Hp. split; try done.
  - rewrite Hx, Hs. auto.
  - rewrite Hre, Hs. auto.
  - rewrite Hr. intros Hret'. destruct (Hoos Hret'). by split; congruence.
Qed.

Lemma pending_ok_same s s' p :
  same_effects s s' -> pending_ok s p -> pending_ok s' p.
Proof. intros [Hid Hr Hre Hx Hs] []. split; rewrite ?Hr, ?Hre, ?Hx; done. Qed.

(** A transaction that leaves the pending effect alone too. *)
Lemma ok_unrelated d d' :
  agent_ok d -> as_state (db_tables d') = agent_view (db_state d') ->
  same_effects (db_state d) (db_state d') -> same_service (db_state d) (db_state d') ->
  ag_pending_effect (db_state d') = ag_pending_effect (db_state d) ->
  agent_ok d'.
Proof.
  intros Hok Hview Hsame Hserv Hp. eapply ok_pending_changed; [done..|].
  rewrite Hp. intros p Hp'. eapply pending_ok_same, Hok; eauto.
Qed.

(** An effect that is begun was not completed, as far as the store remembers. *)
Lemma begin_effect_inv e d d' a :
  begin_effect e d = Ok (d', a) ->
  let s := db_state d in
  (is_some (ag_retired_authority s) = true -> is_retire_replica (re_action e) = true) /\
  (d' = d \/
   d' = write_agent_state (s <| ag_pending_effect := Some {| pe_effect := e;
          pe_stage := IntentCommitted; pe_applied_result := None |} |>) d /\
   ag_removal_effects s !! re_operation_id e = None /\
   forall x, ag_retained_result s = Some x -> rs_operation_id x <> re_operation_id e).
Proof.
  unfold begin_effect. intros Hb. apply bind_ok in Hb as ([] & _ & Hb). guards.
  split. { intros Hr. by rewrite Hr in *; destruct (is_retire_replica (re_action e)). }
  destruct (ag_removal_effects (db_state d) !! re_operation_id e) eqn:Hrem; [guards; by left|].
  destruct (opt_filter _ _) eqn:Hf; [guards; by left|].
  assert (Hnew : forall x, ag_retained_result (db_state d) = Some x ->
            rs_operation_id x <> re_operation_id e).
  { intros x Hx Heq. rewrite Hx in Hf. simpl in Hf. by rewrite bool_decide_true in Hf. }
  guards. destruct (ag_pending_effect (db_state d)) as [p|]; [|guards; by right].
  unfold resume_effect in *. destruct (pe_effect p == e).
  { repeat case_match; guards; by left. }
  destruct (re_action (pe_effect p)); try discriminate. destruct (re_action e); try discriminate.
  guards. by right.
Qed.

Lemma begin_effect_ok e d d' a : agent_ok d -> begin_effect e d = Ok (d', a) -> agent_ok d'.
Proof.
  intros Hok [Hr [->|(-> & Hrem & Hnew)]]%begin_effect_inv; [done|].
  eapply ok_pending_changed; [done|done|by split..|]. simpl. intros p [= <-]. by split.
Qed.

Lemma mark_effect_applied_ok e r d d' :
  agent_ok d -> mark_effect_applied e r d = Ok (d', tt) -> agent_ok d'.
Proof.
  intros Hok Hm. unfold mark_effect_applied, conflict_text in Hm. guards.
  rename select (ag_pending_effect _ = Some _) into Hp. destruct (ao_pending _ Hok _ Hp).
  eapply ok_pending_changed; [done|done|by split..|]. simpl. intros p [= <-]. subst e. by split.
Qed.

Lemma cancel_effect_ok e d d' : agent_ok d -> cancel_effect e d = Ok (d', tt) -> agent_ok d'.
Proof.
  intros Hok Hc. unfold cancel_effect in Hc. guards. by eapply ok_pending_changed; [|done|split..|].
Qed.

(** *** Completion *)

Lemma answered_later next next' x : next <= next' -> answered next x -> answered next' x.
Proof. intros Hle []. split; [done..|lia]. Qed.

(** The state in which an effect is settled. *)
Lemma settle_effect_inv p r d d' :
  settle_effect p r d = Ok (d', tt) ->
  exists s, apply_outcome (pe_effect p) (rer_outcome r) (db_tables d)
              ((db_state d) <| ag_pending_effect := None |>) = Ok s /\
    db_state d' = (retain_result (pe_effect p) r s)
      <| ag_next_effect_sequence := Z.max (ag_next_effect_sequence s) (rer_sequence r + 1) |> /\
    as_state (db_tables d') = agent_view (db_state d').
Proof.
  unfold settle_effect. intros Hs. apply bind_ok in Hs as ([] & _ & Hs).
  apply bind_ok in Hs as (s & Hs & Hrest). guards. by exists s.
Qed.

Lemma settle_effect_ok p r d d' :
  agent_ok d -> ag_pending_effect (db_state d) = Some p -> validate_for r (pe_effect p) = Ok tt ->
  settle_effect p r d = Ok (d', tt) -> agent_ok d'.
Proof.
  intros Hok Hp Hv (s & Hs & Hd & Hview)%settle_effect_inv.
  apply apply_outcome_keeps in Hs as (Hbk & _ & Hret). unfold bookkeeping in Hbk. simpl in Hbk.
  injection Hbk as Hid Hpe Hrem Hx Hseq _ _ _ _. destruct (ao_pending _ Hok _ Hp) as [_ Hfresh _ Hpr].
  pose proof (proj1 (validate_for_ok r (pe_effect p)) Hv) as (Hrid & Hrs & _).
  assert (Hnew : answered (Z.max (ag_next_effect_sequence s) (rer_sequence r + 1))
            {| rs_operation_id := rer_operation_id r;
               rs_record := {| rec_effect := pe_effect p; rec_result := r |} |}).
  { split; simpl; [done|done|lia]. }
  split; [done|rewrite Hd; simpl..].
  - by rewrite Hpe.
  - by intros x [= <-].
  - assert (Hold : forall id x, ag_removal_effects s !! id = Some x -> rs_operation_id x = id /\
        answered (Z.max (ag_next_effect_sequence s) (rer_sequence r + 1)) x).
    { rewrite Hrem, Hseq. intros id x [? Ha]%Hok. split; [done|]. eapply answered_later, Ha. lia. }
    intros id x. destruct (retained_forever _); [|apply Hold].
    intros [[<- <-]|[_ Hx']]%lookup_insert_Some; [by split|by apply Hold].
  - destruct (is_retire_replica _) eqn:Hrr.
    + intros _. by destruct Hret as [[] _].
    + rewrite Hret. simpl. intros Hr. by specialize (Hpr Hr).
Qed.

Lemma complete_effect_ok r d d' : agent_ok d -> complete_effect r d = Ok (d', tt) -> agent_ok d'.
Proof.
  intros Hok Hc. unfold complete_effect, conflict_text in Hc.
  destruct (ag_pending_effect (db_state d)) eqn:Hp; guards; [|done].
  by eapply settle_effect_ok.
Qed.

(** *** The other transactions *)

Ltac unrelated :=
  first [by eapply ok_unrelated; [|done|split..|]|by eapply ok_pending_changed; [|done|split..|]].

Lemma begin_configuration_ok c d d' a :
  agent_ok d -> begin_configuration c d = Ok (d', a) -> agent_ok d'.
Proof.
  intros Hok Hb. unfold begin_configuration, supersede_configuration in Hb.
  repeat case_match; guards; try done; unrelated.
Qed.

Lemma advance_configuration_ok id expected next observed d d' a :
  agent_ok d -> advance_configuration id expected next observed d = Ok (d', a) -> agent_ok d'.
Proof.
  intros Hok Ha. unfold advance_configuration in Ha. guards.
  destruct (expected == CsDeactivate); unrelated.
Qed.

(** The fence of switchover preparations moves to later epochs, or to later generations of
    the same starting configuration. *)
Definition fence_le (f f' : option PreparationRetirement) : Prop :=
  forall x, f = Some x -> exists y, f' = Some y /\
    (epoch_ltb (prt_starting_epoch x) (prt_starting_epoch y) = true \/
     prt_starting_epoch x = prt_starting_epoch y /\
     prt_starting_configuration_id x = prt_starting_configuration_id y /\
     prt_generation x <= prt_generation y).

#[local] Instance fence_le_preorder : PreOrder fence_le.
Proof.
  split.
  - intros f x ->. exists x. split; [done|]. right. split_and!; [done..|lia].
  - intros f g h Hfg Hgh x Hx. destruct (Hfg x Hx) as (y & Hy & Hxy).
    destruct (Hgh y Hy) as (z & Hz & Hyz). exists z. split; [done|].
    destruct Hxy as [Hxy|(He & Hi & Hg)], Hyz as [Hyz|(He' & Hi' & Hg')].
    + left. by eapply epoch_ltb_trans.
    + left. by rewrite <-He'.
    + left. by rewrite He.
    + right. split_and!; [congruence..|lia].
Qed.

(** A completed command changes the retained preparations and their fence. *)
Lemma retire_prepared_fields c retirement s s' :
  retire_prepared_switchover c retirement s = Ok s' ->
  exists p q, s' = s <| ag_prepared_switchover := p |> <| ag_retired_switchover := q |>.
Proof.
  unfold retire_prepared_switchover. intros Hr. case_match; guards; [|by eauto].
  destruct s as [? ? ? ? ? ? ? ? ? ? ? ? ? ? ? ? ? ? ? ? ? ? ? ? ? ? ? ? ? ? ? ? [p|] q ?];
    [exists None, (Some p)|exists None, q]; reflexivity.
Qed.

Lemma fence_preparations_fields c retirement s s' :
  fence_preparations c retirement s = Ok s' ->
  exists f, s' = s <| ag_preparation_retirement := f |> /\ fence_le (ag_preparation_retirement s) f.
Proof.
  unfold fence_preparations. intros Hf. destruct (match ec_switchover_handoff c with Some _ => _ | _ => _ end)
    as [epoch id]. guards. eexists. split; [reflexivity|].
  intros x Hx. rewrite Hx in *. simpl in *. eexists. split; [reflexivity|]. simpl.
  rename select (_ || _ = false) into Hb. apply orb_false_iff in Hb as [Hlt Hb].
  destruct (epoch_ltb (prt_starting_epoch x) epoch) eqn:Hx'; [by left|right].
  assert (prt_starting_epoch x = epoch) as He
    by (apply epoch_leb_antisymm; unfold epoch_leb; [by rewrite Hlt|by rewrite Hx']).
  rewrite bool_decide_true in Hb by done. simpl in Hb. apply orb_false_iff in Hb as [Hid Hg].
  guards. split_and!; [done..|lia].
Qed.

Lemma complete_configuration_ok id d d' a :
  agent_ok d -> complete_configuration id d = Ok (d', a) -> agent_ok d'.
Proof.
  intros Hok Hc. unfold complete_configuration in Hc.
  apply bind_ok in Hc as (record & Hrec & Hc). apply bind_ok in Hc as ([] & _ & Hc).
  apply bind_ok in Hc as (s & Hs & [= <- _]).
  destruct (ec_retire_switchover_preparation_ids _) as [|retirement rest]; [guards; unrelated|].
  apply bind_ok in Hs as (s1 & (p & q & ->)%retire_prepared_fields & (f & -> & _)%fence_preparations_fields).
  unrelated.
Qed.

Lemma journal_build_ok c d d' a : agent_ok d -> journal_build c d = Ok (d', a) -> agent_ok d'.
Proof. intros Hok Hj. unfold journal_build in Hj. guards. unrelated. Qed.

Lemma abandon_build_ok c d d' : agent_ok d -> abandon_build c d = Ok (d', tt) -> agent_ok d'.
Proof. intros Hok Ha. unfold abandon_build in Ha. guards. case_match; guards; [done|unrelated]. Qed.

Lemma initialization_ok d : agent_ok d -> agent_ok (complete_application_initialization d).
Proof. intros Hok. unfold complete_application_initialization. repeat case_match; try done; unrelated. Qed.

Lemma reports_ok metrics fault d d' :
  agent_ok d -> record_partition_reports metrics fault d = Ok (d', tt) -> agent_ok d'.
Proof. intros Hok Hr. unfold record_partition_reports in Hr. guards. unrelated. Qed.

(** The tables change only the builds of the agent's row. *)
Lemma runtime_step_view t e t' :
  runtime_step t e t' -> let v := as_state t in let v' := as_state t' in
  av_local_identity v' = av_local_identity v /\ av_resource_uid v' = av_resource_uid v /\
  av_retired_authority v' = av_retired_authority v /\ av_retired_builds v' = av_retired_builds v /\
  av_abandoned_builds v ⊆ av_abandoned_builds v'.
Proof.
  intros []; [..|done]; rename select (_ = Ok _) into Hok; revert Hok;
    unfold admit_authority, record_secondary_removal, record_retirement_started,
      record_secondary_removal_commit, retire_authority, record_replication_progress,
      record_local_write, admit_build, select_build, record_build_progress; intros Hok;
    guards; repeat case_match; guards;
    (split; [reflexivity|split; [reflexivity|split; [reflexivity|split; [reflexivity|]]]]);
    first [reflexivity|apply union_subseteq_r].
Qed.

Lemma write_tables_ok t d :
  agent_ok d -> (let v := as_state (db_tables d) in let v' := as_state t in
    av_local_identity v' = av_local_identity v /\ av_resource_uid v' = av_resource_uid v /\
    av_retired_authority v' = av_retired_authority v /\ av_retired_builds v' = av_retired_builds v) ->
  agent_ok (write_tables t d).
Proof.
  intros Hok. rewrite (ao_view _ Hok). simpl. intros (Hl & Hr & Hre & Hb).
  eapply ok_unrelated; [done| |by split..|done]. simpl. unfold agent_view; simpl.
  destruct t as [[] ? ? ? ? ? ? ? ? ? ?]; simpl in *. by subst.
Qed.

Lemma agent_step_ok d d' : agent_step d d' -> agent_ok d -> agent_ok d'.
Proof.
  intros [] Hok.
  - by eapply begin_effect_ok.
  - by eapply mark_effect_applied_ok.
  - by eapply complete_effect_ok.
  - by eapply cancel_effect_ok.
  - by eapply begin_configuration_ok.
  - by eapply advance_configuration_ok.
  - by eapply complete_configuration_ok.
  - by eapply journal_build_ok.
  - by eapply abandon_build_ok.
  - by apply initialization_ok.
  - by eapply reports_ok.
  - apply write_tables_ok; [done|]. rename select (runtime_step _ _ _) into Hs.
    apply runtime_step_view in Hs. naive_solver.
Qed.

Lemma agent_run_ok d d' : rtc agent_step d d' -> agent_ok d -> agent_ok d'.
Proof. induction 1; eauto using agent_step_ok. Qed.

(** In every run of the agent's store, each recorded result answers the effect it is
    recorded for, the pending effect was not completed before, its stage tells whether its
    result is known, and the tables see the agent's row as it is. *)
Theorem agent_store_consistent d : agent_reachable d -> agent_ok d.
Proof.
  intros (identity & Hrun). eapply agent_run_ok, new_database_ok. exact Hrun.
Qed.


(** ** What the agent never forgets *)

Record agent_remembers (s s' : AgentState) : Prop := {
  rm_identity : ag_identity s' = ag_identity s;
  rm_retired : is_some (ag_retired_authority s) = true -> is_some (ag_retired_authority s') = true;
  rm_fences : fences_advance s s';
  rm_sequence : ag_next_effect_sequence s <= ag_next_effect_sequence s';
  rm_removals : ag_removal_effects s ⊆ ag_removal_effects s';
  rm_commands : ag_removal_commands s ⊆ ag_removal_commands s';
  rm_abandoned : ag_abandoned_builds s ⊆ ag_abandoned_builds s';
  rm_preparations : fence_le (ag_preparation_retirement s) (ag_preparation_retirement s');
}.

#[local] Instance agent_remembers_preorder : PreOrder agent_remembers.
Proof.
  split.
  - intros s. split; try done. advance.
  - intros s1 s2 s3 [I1 R1 [E1 B1] S1 M1 C1 A1 P1] [I2 R2 [E2 B2] S2 M2 C2 A2 P2].
    split; [congruence|auto|split; [by eapply epoch_leb_trans|by etrans]|lia|by etrans..].
Qed.

(** The command under way has not been completed as a removal. *)
Definition command_fresh (s : AgentState) : Prop :=
  forall r, ag_reconfiguration s = Some r ->
    ag_removal_commands s !! ec_operation_id (rcr_command r) = None.

Lemma settle_effect_remembers p r d d' :
  agent_ok d -> ag_pending_effect (db_state d) = Some p -> validate_for r (pe_effect p) = Ok tt ->
  settle_effect p r d = Ok (d', tt) ->
  agent_remembers (db_state d) (db_state d') /\
  ag_reconfiguration (db_state d') = ag_reconfiguration (db_state d) /\
  ag_removal_commands (db_state d') = ag_removal_commands (db_state d).
Proof.
  intros Hok Hp Hv (s & Hs & Hd & _)%settle_effect_inv.
  apply apply_outcome_keeps in Hs as (Hbk & Hf & Hret). unfold bookkeeping in Hbk. simpl in Hbk.
  injection Hbk as Hid Hpe Hrem Hx Hseq Hrec Hcmd Hab Hpr.
  apply validate_for_ok in Hv as (Hrid & _ & _). rewrite Hd. simpl. split; [|done]. split; simpl.
  - done.
  - intros Hr. destruct (is_retire_replica _); [apply Hret|by rewrite Hret].
  - by destruct Hf as [He Hb]; split.
  - lia.
  - rewrite Hrem. destruct (retained_forever _); [|done]. apply insert_subseteq. rewrite Hrid. by apply Hok.
  - by rewrite Hcmd.
  - by rewrite Hab.
  - by rewrite Hpr.
Qed.

(** What the other transactions leave alone. *)
Definition memory (s : AgentState) :=
  (ag_identity s, ag_retired_authority s, ag_highest_epoch s, ag_retired_builds s,
   ag_next_effect_sequence s, ag_removal_effects s, ag_removal_commands s, ag_abandoned_builds s,
   ag_preparation_retirement s).

Lemma same_memory s s' : memory s' = memory s -> agent_remembers s s'.
Proof.
  unfold memory. intros [= Hi Hr He Hb Hs Hm Hc Ha Hp].
  split; rewrite ?Hr, ?Hs, ?Hm, ?Hc, ?Ha, ?Hp; try done. split; rewrite ?He, ?Hb; [apply epoch_leb_refl|done].
Qed.

Lemma begin_configuration_remembers c d d' a :
  begin_configuration c d = Ok (d', a) -> command_fresh (db_state d) ->
  agent_remembers (db_state d) (db_state d') /\ command_fresh (db_state d').
Proof.
  unfold begin_configuration, supersede_configuration. intros Hb Hfresh.
  destruct (ag_removal_commands (db_state d) !! ec_operation_id c) eqn:Hcmd; [guards; by split|].
  repeat case_match; guards; try (split; [by apply same_memory|]); try done.
  all: by intros ? [= <-].
Qed.

Lemma complete_configuration_remembers id d d' a :
  complete_configuration id d = Ok (d', a) -> command_fresh (db_state d) ->
  agent_remembers (db_state d) (db_state d') /\ command_fresh (db_state d').
Proof.
  intros Hc Hfresh. unfold complete_configuration in Hc.
  apply bind_ok in Hc as (record & Hrec & Hc). apply bind_ok in Hc as ([] & _ & Hc).
  apply bind_ok in Hc as (s & Hs & [= <- _]). apply ok_or_ok in Hrec. specialize (Hfresh _ Hrec).
  assert (Hmem : agent_remembers (db_state d) s /\ ag_reconfiguration s = None /\
            ag_removal_commands s = ag_removal_commands (db_state d)).
  { destruct (ec_retire_switchover_preparation_ids _) as [|retirement rest];
      [guards; split; [by apply same_memory|done]|].
    apply bind_ok in Hs as (s1 & (p & q & ->)%retire_prepared_fields & (f & -> & Hf)%fence_preparations_fields).
    split; [|done]. split; try done. advance. }
  destruct Hmem as (Hmem & Hrec' & Hcmd). split; [|intros r; simpl; by rewrite Hrec'].
  etrans; [exact Hmem|]. split; try done; simpl; [advance|].
  destruct (_ == SecondaryScaleDown); [|done]. apply insert_subseteq. by rewrite Hcmd.
Qed.

(** The transactions that change neither the command under way nor the removal commands. *)
Lemma unrelated_command s s' :
  ag_reconfiguration s' = ag_reconfiguration s -> ag_removal_commands s' = ag_removal_commands s ->
  command_fresh s -> command_fresh s'.
Proof. unfold command_fresh. by intros -> ->. Qed.

Lemma agent_step_remembers d d' :
  agent_step d d' -> agent_ok d -> command_fresh (db_state d) ->
  agent_remembers (db_state d) (db_state d') /\ command_fresh (db_state d').
Proof.
  intros Hstep Hok Hfresh.
  assert (Hsame : forall s, ag_reconfiguration s = ag_reconfiguration (db_state d) ->
            memory s = memory (db_state d) -> agent_remembers (db_state d) s /\ command_fresh s).
  { intros s Hr Hm. split; [by apply same_memory|]. eapply unrelated_command; [done| |done].
    unfold memory in Hm. congruence. }
  destruct Hstep as [e d' a Hb|e r d' Hm|r d' Hc|e d' Hc|c d' a Hb|id ex nx ob d' a Ha|id d' a Hc
    |c d' a Hj|c d' Ha| |ms f d' Hr|e t Ht].
  - apply begin_effect_inv in Hb as [_ [->|[-> _]]]; by apply Hsame.
  - unfold mark_effect_applied in Hm. guards. by apply Hsame.
  - unfold complete_effect, conflict_text in Hc.
    destruct (ag_pending_effect (db_state d)) as [p|] eqn:Hp; guards; [|by apply Hsame].
    rename select (settle_effect _ _ _ = _) into Hs.
    eapply settle_effect_remembers in Hs as (Hrem & Hr & Hcmd); [|done..].
    split; [done|]. by eapply unrelated_command.
  - unfold cancel_effect in Hc. guards. by apply Hsame.
  - by eapply begin_configuration_remembers.
  - unfold advance_configuration in Ha. guards. rename select (ag_reconfiguration _ = Some _) into Hr.
    split; [apply same_memory; by destruct (ex == CsDeactivate)|].
    intros r. destruct (ex == CsDeactivate); intros [= <-]; by apply (Hfresh _ Hr).
  - by eapply complete_configuration_remembers.
  - unfold journal_build in Hj. guards. by apply Hsame.
  - unfold abandon_build in Ha. guards. case_match; guards; [by apply Hsame|].
    split; [split; try done; [advance|simpl; set_solver]|]. by eapply unrelated_command.
  - unfold complete_application_initialization. repeat case_match; by apply Hsame.
  - unfold record_partition_reports in Hr. guards. by apply Hsame.
  - apply runtime_step_view in Ht as (_ & _ & _ & _ & Hab). rewrite (ao_view _ Hok) in Hab.
    split; [split; try done; advance|]. by eapply unrelated_command.
Qed.

Lemma agent_run_remembers d d' :
  rtc agent_step d d' -> agent_ok d -> command_fresh (db_state d) ->
  agent_remembers (db_state d) (db_state d') /\ command_fresh (db_state d').
Proof.
  induction 1 as [d|d1 d2 d3 Hstep Hrun IH]; intros Hok Hfresh; [done|].
  destruct (agent_step_remembers _ _ Hstep Hok Hfresh) as [H12 Hf2].
  destruct (IH (agent_step_ok _ _ Hstep Hok) Hf2) as [H23 Hf3]. split; [by etrans|done].
Qed.

Lemma reachable_fresh d : agent_reachable d -> agent_ok d /\ command_fresh (db_state d).
Proof.
  intros (identity & Hrun). pose proof (new_database_ok identity) as Hok. split.
  - by eapply agent_run_ok.
  - by eapply agent_run_remembers.
Qed.

(** Whatever transactions follow, an agent keeps its identity and its retirement; its highest
    epoch, effect sequence, retired and abandoned builds and the fence of its switchover
    preparations never go back; and the results of removal effects and commands stay as
    they were recorded. *)
Theorem agent_never_forgets d d' :
  agent_reachable d -> rtc agent_step d d' -> agent_remembers (db_state d) (db_state d').
Proof. intros [Hok Hf]%reachable_fresh Hrun. by eapply agent_run_remembers. Qed.

(** ** The tables along a run *)

(** A transaction of the agent's own commands writes the row of the agent, and the completion
    of an admission also the authority that was pending. *)
Definition own_write (d d' : AgentDatabase) : Prop :=
  exists t, db_tables d' = t <| as_state := agent_view (db_state d') |> /\
    (t = db_tables d \/
     exists a p, ag_pending_effect (db_state d) = Some p /\
       re_action (pe_effect p) = ActAdmitAuthority a /\ t = install_authority a (db_tables d)).

Lemma own_write_same d : agent_ok d -> own_write d d.
Proof.
  intros Hok. exists (db_tables d). split; [|by left].
  pose proof (ao_view _ Hok) as Hv. rewrite <-Hv. by destruct (db_tables d).
Qed.

Lemma own_write_row s d : own_write d (write_agent_state s d).
Proof. exists (db_tables d). split; [done|by left]. Qed.

Lemma settle_effect_own p r d d' :
  ag_pending_effect (db_state d) = Some p -> validate_for r (pe_effect p) = Ok tt ->
  settle_effect p r d = Ok (d', tt) -> own_write d d'.
Proof.
  intros Hp Hv Hs. unfold settle_effect in Hs.
  apply bind_ok in Hs as ([] & _ & Hs). apply bind_ok in Hs as (s & Hs & Hr). guards.
  eexists. split; [reflexivity|]. simpl. unfold write_authority.
  destruct (re_action (pe_effect p)) eqn:Ha; try by left.
  destruct (rer_outcome r) eqn:Ho; try by left.
  right. apply validate_for_ok in Hv as (_ & _ & Hv). unfold outcome_matches in Hv.
  rewrite Ha, Ho in Hv. guards. eexists _, p. split_and!; [done..|congruence].
Qed.

Lemma agent_step_tables d d' :
  agent_step d d' -> agent_ok d ->
  own_write d d' \/ exists e, runtime_step (db_tables d) e (db_tables d').
Proof.
  intros Hstep Hok. pose proof (own_write_same _ Hok) as Hsame.
  destruct Hstep as [e d' a Hb|e r d' Hm|r d' Hc|e d' Hc|c d' a Hb|id ex nx ob d' a Ha|id d' a Hc
    |c d' a Hj|c d' Ha| |ms f d' Hr|e t Ht]; [left..|right; by exists e].
  - apply begin_effect_inv in Hb as [_ [->|[-> _]]]; auto using own_write_row.
  - unfold mark_effect_applied in Hm. guards. apply own_write_row.
  - unfold complete_effect, conflict_text in Hc.
    destruct (ag_pending_effect (db_state d)) as [p|] eqn:Hp; guards; [|done].
    by eapply settle_effect_own.
  - unfold cancel_effect in Hc. guards. apply own_write_row.
  - unfold begin_configuration, supersede_configuration, write_reconfiguration in Hb.
    repeat case_match; guards; auto using own_write_row.
  - unfold advance_configuration, write_reconfiguration in Ha. guards. apply own_write_row.
  - unfold complete_configuration in Hc.
    apply bind_ok in Hc as (record & _ & Hc). apply bind_ok in Hc as ([] & _ & Hc).
    apply bind_ok in Hc as (s & _ & [= <- _]). apply own_write_row.
  - unfold journal_build in Hj. guards. apply own_write_row.
  - unfold abandon_build in Ha. guards. case_match; guards; auto using own_write_row.
  - unfold complete_application_initialization. repeat case_match; auto using own_write_row.
  - unfold record_partition_reports in Hr. guards. apply own_write_row.
Qed.

Lemma own_write_history d d' :
  own_write d d' -> agent_ok d -> agent_remembers (db_state d) (db_state d') ->
  exists es, store_history es (db_tables d) (db_tables d').
Proof.
  intros (t & Ht & Hor) Hok [Hi _ [_ Hb] _ _ _ Ha _]. rewrite Ht.
  assert (Hrow : row_follows (as_state (db_tables d)) (agent_view (db_state d'))).
  { rewrite (ao_view _ Hok). unfold row_follows, agent_view, ag_local, ag_resource. simpl.
    by rewrite Hi. }
  destruct Hor as [->|(a & p & _ & _ & ->)].
  - exists [Recorded]. eapply HistoryStep, HistoryNil. by apply StoreRow.
  - exists [AuthorityInstalled a; Recorded]. eapply HistoryStep; [apply StoreInstall|].
    eapply HistoryStep, HistoryNil. by apply StoreRow.
Qed.


(** [C11] A removal effect is executed once.  After it has completed with the result [r], no later
    request for it, in any continuation, starts it again: one that is admitted is answered with
    [r] and changes nothing.  The preparation or the retirement of a replica is always admitted,
    except that a retired incarnation rejects everything but its retirement. *)
Theorem removal_effects_run_once d p r d1 d2 :
  agent_reachable d -> ag_pending_effect (db_state d) = Some p ->
  retained_forever (re_action (pe_effect p)) = true -> complete_effect r d = Ok (d1, tt) ->
  rtc agent_step d1 d2 ->
  (forall d3 a, begin_effect (pe_effect p) d2 = Ok (d3, a) -> d3 = d2 /\ a = BeCompleted r) /\
  (removal_action (re_action (pe_effect p)) = true ->
   begin_effect (pe_effect p) d2 =
     if is_some (ag_retired_authority (db_state d2)) && negb (is_retire_replica (re_action (pe_effect p)))
     then Err (rejected "retired incarnation is permanently fenced") else Ok (d2, BeCompleted r)).
Proof.
  intros [Hok Hf]%reachable_fresh Hp Hforever Hc Hrun.
  pose proof (StepCompleteEffect _ _ _ Hc) as Hstep.
  pose proof (agent_step_ok _ _ Hstep Hok) as Hok1.
  destruct (agent_step_remembers _ _ Hstep Hok Hf) as [_ Hf1].
  destruct (agent_run_remembers _ _ Hrun Hok1 Hf1) as [[_ _ _ _ Hrem _ _ _] _].
  unfold complete_effect, conflict_text in Hc. rewrite Hp in Hc. guards.
  rename select (settle_effect _ _ _ = _) into Hs. rename select (validate_for _ _ = _) into Hv.
  apply validate_for_ok in Hv as (Hid & _ & _).
  apply settle_effect_inv in Hs as (s & _ & Hd & _).
  assert (Hx : ag_removal_effects (db_state d2) !! re_operation_id (pe_effect p) =
            Some {| rs_operation_id := rer_operation_id r;
                    rs_record := {| rec_effect := pe_effect p; rec_result := r |} |}).
  { eapply lookup_weaken; [|exact Hrem]. rewrite Hd. simpl. rewrite Hforever, Hid. by rewrite lookup_insert_eq. }
  unfold begin_effect. rewrite Hx. simpl. rewrite bool_decide_true by done. simpl. split.
  - intros d3 a Hb. by guards.
  - intros Hact. destruct (re_action (pe_effect p)); simpl in *; try done.
    all: by destruct (is_some _).
Qed.

(** [C9] Once an agent has recorded its retirement, in every continuation it has no role, no access
    and no configuration, admits no configuration, and begins no effect but a retirement. *)
Theorem retired_incarnation_never_serves d d' :
  agent_reachable d -> is_some (ag_retired_authority (db_state d)) = true -> rtc agent_step d d' ->
  out_of_service (db_state d') /\
  (forall c replay, is_ok (admit_configuration_with_replay c (db_state d') replay) = false) /\
  (forall e d2 a, begin_effect e d' = Ok (d2, a) -> is_retire_replica (re_action e) = true).
Proof.
  intros [Hok Hf]%reachable_fresh Hret Hrun.
  destruct (agent_run_remembers _ _ Hrun Hok Hf) as [Hmem _]. apply (rm_retired _ _ Hmem) in Hret.
  split_and!.
  - apply (ao_retired _ (agent_run_ok _ _ Hrun Hok) Hret).
  - intros c replay. unfold admit_configuration_with_replay. by rewrite Hret.
  - intros e d2 a [Hr _]%begin_effect_inv. auto.
Qed.

End runs.
