(* ===== verification/Coordinator.v ===== *)
(** * The coordinator of an agent ([host/coordinator.rs], [host/runtime_adapter.rs])

    Commands run as journaled effects: [adapter_execute] writes the intent, lets the runtime
    apply the effect, writes the canonical result and settles it; [drive_configuration] walks a
    configuration command through its durable stages.  The runtime that applies the effects is
    the class [RuntimeEffectExecutor], the interface that [PodRuntime] implements. *)

From S2P Require Import Prelude Digest Types Intents Commands Observations Validation Quorums.
From S2P Require Import ScaleDown ScaleUp SnapshotValidation ManagedConfiguration Quorum QuorumSafety.
From S2P Require Import Authority AuthorityStore Effects AgentState AgentAdmission AgentStore.
From stdpp Require Import base gmap strings list relations pretty.
From Stdlib Require Import ZArith Lia.
Local Open Scope Z_scope.

(** ** The runtime behind the adapter *)

(** An operation of the runtime may fail and may use the tables of the database. *)
Abbreviation runtime_op X A := (M (X * AuthorityStore) HostError A).

(** [prepare_effect] is [prepare_runtime_effect]; what it prepared is then accepted or rejected. *)
Class RuntimeEffectExecutor (X : Type) := {
  prepare_effect : RuntimeEffect -> runtime_op X RuntimeEffectResult;
  accept_effect : RuntimeEffect -> runtime_op X unit;
  reject_effect : RuntimeEffect -> runtime_op X unit;
  discard_effect : RuntimeEffect -> runtime_op X unit;
  consume_cancelled_build_effect : RuntimeEffect -> runtime_op X RuntimeEffectResult;
  discard_cancelled_build_effect : RuntimeEffect -> runtime_op X unit;
  cancel_runtime_configuration : runtime_op X unit;
  cancel_runtime_build : OperationId -> runtime_op X unit;
  reissue_build : OperationId -> ReplicaIdentity -> string -> runtime_op X unit;
  wait_for_build_completion : OperationId -> ReplicaIdentity -> runtime_op X unit;
  observe_build_completion : RuntimeEffect -> runtime_op X RuntimeEffectResult;
}.

(** The agent: its runtime, its database and the newest epoch that superseded a command. *)
Record Agent (X : Type) := {
  at_runtime : X;
  at_database : AgentDatabase;
  at_supersession : Epoch;
}.
Arguments at_runtime {X}.
Arguments at_database {X}.
Arguments at_supersession {X}.
#[export] Instance Agent_fields X : Fields (Agent X) := fun w =>
  Build_Agent X (at_runtime w) (at_database w) (at_supersession w).

Section coordinator.
Context `{Sha256} {X : Type} `{!RuntimeEffectExecutor X}.

Abbreviation agent_op A := (M (Agent X) HostError A).

(** A transaction of the store, and an operation of the runtime. *)
Definition on_store {A} (t : AgentDatabase -> transaction A) : agent_op A := fun w =>
  match t (at_database w) with
  | Ok (d, a) => (w <| at_database := d |>, Ok a)
  | Err e => (w, Err e)
  | Panic => (w, Panic)
  end.

Definition on_runtime {A} (m : runtime_op X A) : agent_op A := fun w =>
  let '((x, t), r) := m (at_runtime w, db_tables (at_database w)) in
  (w <| at_runtime := x |> <| at_database := write_tables t (at_database w) |>, r).

Definition load_state : agent_op AgentState := fun w => (w, Ok (db_state (at_database w))).

(** [if let Err(error) = m { handler; return Err(error) }] *)
Definition on_error {A} (m : agent_op A) (handler : HostError -> agent_op unit) : agent_op A := fun w =>
  match m w with
  | (w, Err e) => match handler e w with
                  | (w, Ok _) => (w, Err e)
                  | (w, Err e') => (w, Err e')
                  | (w, Panic) => (w, Panic)
                  end
  | other => other
  end.

Definition require_matching_result (e : RuntimeEffect) (r : RuntimeEffectResult) : host unit :=
  conflict_text (validate_for r e).

Definition is_stale (e : HostError) : bool :=
  match e with StaleEffectCompletion _ => true | _ => false end.

(** The runtime gave the effect up because the work was cancelled or the replica removed. *)
Definition is_cancelled (e : HostError) : bool :=
  match e with HostRuntime OperationCancelled | HostRuntime (ReplicaRemoved _) => true | _ => false end.

(** [complete_effect], discarding what the runtime did when the completion is stale *)
Definition complete_or_discard (e : RuntimeEffect) (r : RuntimeEffectResult) : agent_op unit :=
  on_error (on_store (complete_effect r))
    (fun error => if is_stale error then on_runtime (discard_effect e) else m_ret tt).

(** ** [RuntimeAdapter::execute] *)

(** An effect whose live state is lost with the process. *)
Definition restores_live_state (a : RuntimeEffectAction) : bool :=
  match a with
  | ActSetAccessStatus _ _ | ActSetReadStatus _ | ActSetWriteStatus _ | ActClose | ActAbort => true
  | _ => false
  end.

(** The result is already journaled; the process may have to repeat the live change. *)
Definition finish_applied (e : RuntimeEffect) (r : RuntimeEffectResult) : agent_op RuntimeEffectResult :=
  m_lift (require_matching_result e r) ;!
  if restores_live_state (re_action e) then
    let! observed := on_runtime (prepare_effect e) in
    m_lift (require_matching_result e observed) ;!
    (if observed == r then m_ret tt
     else on_runtime (reject_effect e) ;! on_runtime (discard_effect e) ;!
          m_err (conflict "recovered live effect produced a changed canonical result")) ;!
    on_error (on_store (complete_effect r))
      (fun error => on_runtime (reject_effect e) ;!
                    if is_stale error then on_runtime (discard_effect e) else m_ret tt) ;!
    on_runtime (accept_effect e) ;!
    m_ret observed
  else complete_or_discard e r ;! m_ret r.

(** The build was dispatched and is awaited before it is recorded. *)
Definition await_build_completion (e : RuntimeEffect) (dispatched : RuntimeEffectResult)
    : agent_op RuntimeEffectResult :=
  match re_action e with
  | ActBuildReplica build_id target _ => fun w =>
      match on_runtime (wait_for_build_completion build_id target) w with
      | (w, Ok _) =>
          (let! completed := on_runtime (observe_build_completion e) in
           m_lift (require_matching_result e completed) ;!
           on_store (mark_effect_applied e completed) ;!
           complete_or_discard e completed ;!
           m_ret completed) w
      | (w, Err error) =>
          if is_cancelled error then
            if bool_decide (build_id ∈ ag_abandoned_builds (db_state (at_database w))) then (w, Err error)
            else (on_runtime (discard_cancelled_build_effect e) ;!
                  on_store (cancel_effect e) ;!
                  m_ret dispatched) w
          else (w, Err error)
      | (w, Panic) => (w, Panic)
      end
  | _ => m_err (conflict "build completion wait requires a build effect")
  end.

Definition pending_build_completion (e : RuntimeEffect) (r : RuntimeEffectResult) : bool :=
  match re_action e, rer_outcome r with
  | ActBuildReplica _ _ _, OutBuildReplica c => is_dispatched c
  | _, _ => false
  end.

(** A cancelled effect is dropped, unless a removal or an abandonment owns it. *)
Definition drop_cancelled (e : RuntimeEffect) (error : HostError) : agent_op unit :=
  if is_cancelled error then
    let! s := load_state in
    let removal := removal_action (re_action e)
      || is_some_and (fun r => ec_transition_kind (rcr_command r) == SecondaryScaleDown)
           (ag_reconfiguration s) in
    let abandoned :=
      match re_action e with
      | ActBuildReplica build_id _ _ => bool_decide (build_id ∈ ag_abandoned_builds s)
      | _ => false
      end in
    if negb removal && negb abandoned then on_store (cancel_effect e) else m_ret tt
  else m_ret tt.

(** The runtime applies the effect between the journaled intent and the journaled result. *)
Definition run_effect (e : RuntimeEffect) : agent_op RuntimeEffectResult :=
  let! r := on_error (on_runtime (prepare_effect e)) (drop_cancelled e) in
  on_error (m_lift (require_matching_result e r))
    (fun _ => on_runtime (reject_effect e) ;! on_runtime (discard_effect e)) ;!
  if pending_build_completion e r then
    on_runtime (accept_effect e) ;! await_build_completion e r
  else
    on_error (on_store (mark_effect_applied e r)) (fun _ => on_runtime (reject_effect e)) ;!
    on_error (on_store (complete_effect r))
      (fun error => on_runtime (reject_effect e) ;!
                    if is_stale error then on_runtime (discard_effect e) else m_ret tt) ;!
    on_runtime (accept_effect e) ;!
    m_ret r.

Definition adapter_execute (e : RuntimeEffect) : agent_op RuntimeEffectResult :=
  let! begun := on_store (begin_effect e) in
  match begun with
  | BeCompleted r =>
      m_lift (require_matching_result e r) ;!
      match re_action e with
      | ActBuildReplica build_id target address => on_runtime (reissue_build build_id target address)
      | _ => m_ret tt
      end ;!
      m_ret r
  | BeApplied e r => finish_applied e r
  | BeExecute e | BePending e => run_effect e
  end.

(** [RuntimeAdapter::resume_pending] *)
Definition resume_pending : agent_op (option RuntimeEffectResult) :=
  let! s := load_state in
  match ag_pending_effect s with
  | None => m_ret ((fun x => rec_result (rs_record x)) <$> ag_retained_result s)
  | Some pending => let! r := adapter_execute (pe_effect pending) in m_ret (Some r)
  end.

(** [RuntimeAdapter::settle_abandoned_build] *)
Definition settle_abandoned_build (build : OperationId) : agent_op (option RuntimeEffectResult) :=
  let! s := load_state in
  (if bool_decide (build ∈ ag_abandoned_builds s) then m_ret tt
   else m_err (conflict "build cancellation lacks durable abandonment")) ;!
  match ag_pending_effect s with
  | None => m_ret None
  | Some pending =>
      let e := pe_effect pending in
      let matching_build :=
        match re_action e with
        | ActBuildReplica id _ _ => (id == build) && (re_operation_id e == build +:+ ":build-replica")
        | _ => false
        end in
      let matching_retirement :=
        match re_action e with
        | ActRetireBuild id =>
            (id == build) && (re_operation_id e == build +:+ ":retire-abandoned-build")
        | _ => false
        end in
      if matching_retirement then m_ret None
      else if negb matching_build
      then m_err (conflict "build cancellation would consume unrelated pending work")
      else if is_some (pe_applied_result pending) then
        on_runtime (discard_effect e) ;! on_store (cancel_effect e) ;! m_ret None
      else
        let! r := on_runtime (consume_cancelled_build_effect e) in
        m_lift (require_matching_result e r) ;!
        on_store (mark_effect_applied e r) ;!
        on_store (complete_effect r) ;!
        m_ret (Some r)
  end.

(** ** Running the effects of a command *)

Definition stage_operation_id (command : OperationId) (stage : string) : OperationId :=
  command +:+ ":" +:+ stage.

(** [Coordinator::execute] and [Coordinator::execute_standalone], which differ in a message *)
Definition execute_named (message : string) (command : OperationId) (stage : string)
    (action : RuntimeEffectAction) : agent_op RuntimeEffectResult :=
  let! s := load_state in
  let operation := stage_operation_id command stage in
  match opt_filter (fun x => rs_operation_id x == operation) (ag_retained_result s) with
  | Some retained =>
      if re_action (rec_effect (rs_record retained)) == action
      then adapter_execute (rec_effect (rs_record retained))
      else m_err (conflict message)
  | None =>
      adapter_execute {| re_operation_id := operation; re_sequence := ag_next_effect_sequence s;
                         re_action := action |}
  end.

Definition execute_stage (r : ReconfigurationRecord) : string -> RuntimeEffectAction ->
    agent_op RuntimeEffectResult :=
  execute_named "retained coordinator effect has different stage authority"
    (ec_operation_id (rcr_command r)).

Definition execute_standalone : OperationId -> string -> RuntimeEffectAction ->
    agent_op RuntimeEffectResult :=
  execute_named "retained build effect has different stage authority".

(** ** The stages of a configuration command *)

(** [preserves_same_primary_scale_up_access] of the coordinator: a granted primary that grows its
    set keeps its access. *)
Definition coordinator_preserves_access (s : AgentState) (a : AdmittedAuthority)
    (c : EnsureConfiguration) : host bool :=
  if match aa_scale_up a with Some (Admission _) => true | _ => false end
     && (ag_role s == Primary) && (ag_read_status s == Granted) && (ag_write_status s == Granted)
  then
    let? role := aa_local_role a in
    if role == Primary then
      let? primary := aa_primary_identity a in
      Ok ((primary == ag_local s) && (ec_primary_write_status c == Granted))
    else Ok false
  else Ok false.

Definition is_failover (c : EnsureConfiguration) : bool := ec_transition_kind c == Failover.

(** The access that [Activate] sets. *)
Definition activation (c : EnsureConfiguration) (role : ReplicaRole) : RuntimeEffectAction :=
  let kind := ec_transition_kind c in
  let provisional := (role == Primary)
    && ((kind == Failover) || (kind == PlannedSwitchover) || (kind == SecondaryScaleDown))
    && (ec_primary_write_status c != Granted) in
  ActSetAccessStatus
    (if provisional then ReconfigurationPending
     else if (role == Primary) || (role == ActiveSecondary) then Granted else NotPrimary)
    (if role == Primary then ec_primary_write_status c else NotPrimary).

(** What a stage runs, in order. *)
Definition stage_effects (c : EnsureConfiguration) (a : AdmittedAuthority) (stage : CoordinatorStage)
    : host (list (string * RuntimeEffectAction)) :=
  match stage with
  | CsAdmitAuthority => Ok [("admit-authority", ActAdmitAuthority a)]
  | CsFailoverPrefix =>
      let? lsn := expect (ec_failover_safe_lsn c) in
      Ok [("failover-prefix", ActAuthorizeFailoverPrefix lsn)]
  | CsDemote => Ok [("demote", ActSetReadStatus ReconfigurationPending)]
  | CsGetLsn => Ok [("get-lsn", ActRefreshApplicationProgress)]
  | CsCatchup => Ok [("catchup", ActWaitForCatchup)]
  | CsDeactivate => Ok [("deactivate", ActSetWriteStatus ReconfigurationPending)]
  | CsReplicatorRole =>
      let? role := aa_local_role a in Ok [("replicator-role", ActChangeReplicatorRole role)]
  | CsEpoch => Ok [("epoch", ActUpdateEpoch)]
  | CsApplicationRole =>
      let? role := aa_local_role a in Ok [("application-role", ActChangeApplicationRole role)]
  | CsActivate => let? role := aa_local_role a in Ok [("activate", activation c role)]
  | CsRetireBuild =>
      Ok (imap (fun i id => ("retire-build-" +:+ pretty i, ActRetireBuild id)) (ec_retire_build_ids c))
  | CsComplete => Ok []
  end.

(** Where a stage goes; [local] is the durable role of the replica when the stage started. *)
Definition next_stage (c : EnsureConfiguration) (a : AdmittedAuthority) (preserve : bool)
    (local : ReplicaRole) (stage : CoordinatorStage) : host CoordinatorStage :=
  match stage with
  | CsAdmitAuthority =>
      Ok (if preserve then CsActivate
          else if is_failover c && is_some (ec_failover_safe_lsn c) then CsFailoverPrefix
          else CsDemote)
  | CsFailoverPrefix => Ok CsDemote
  | CsDemote => Ok (if is_failover c then CsReplicatorRole else CsGetLsn)
  | CsGetLsn =>
      if is_failover c then
        let? role := aa_local_role a in
        Ok (if (role == Primary)
               && ((ec_primary_write_status c == Granted)
                   || (is_some (ec_failover_safe_lsn c) && is_some (aa_scale_up a)))
            then CsCatchup else CsDeactivate)
      else if (ec_transition_kind c != PlannedSwitchover) && (local == Primary) then
        let? role := aa_local_role a in
        Ok (if role != Primary then CsCatchup else CsDeactivate)
      else Ok CsDeactivate
  | CsCatchup =>
      if is_failover c then Ok CsDeactivate
      else let? role := aa_local_role a in
           Ok (if role == Primary then CsActivate else CsDeactivate)
  | CsDeactivate => Ok (if is_failover c then CsActivate else CsReplicatorRole)
  | CsReplicatorRole =>
      let? role := aa_local_role a in
      Ok (if role == Primary then CsEpoch else CsApplicationRole)
  | CsEpoch => Ok CsApplicationRole
  | CsApplicationRole =>
      if is_failover c then Ok CsGetLsn
      else let? role := aa_local_role a in
           Ok (if (role == Primary)
                  && ((ec_primary_write_status c == Granted)
                      || (ec_transition_kind c == PlannedSwitchover))
               then CsCatchup else CsActivate)
  | CsActivate =>
      Ok (if (ec_retire_build_ids c != [])
             || (ec_retire_switchover_preparation_ids c != [])
          then CsRetireBuild else CsComplete)
  | CsRetireBuild | CsComplete => Ok CsComplete
  end.

(** The progress that [GetLsn] records. *)
Definition observed_progress (stage : CoordinatorStage) (last : option RuntimeEffectResult)
    : host (option Lsn) :=
  match stage with
  | CsGetLsn =>
      match rer_outcome <$> last with
      | Some (OutApplicationProgressRefreshed lsn) => Ok (Some lsn)
      | _ => Err (conflict "progress refresh returned an incompatible outcome")
      end
  | _ => Ok None
  end.

(** The effects of a stage, and the result of the last one. *)
Fixpoint execute_all (r : ReconfigurationRecord) (effects : list (string * RuntimeEffectAction))
    (last : option RuntimeEffectResult) : agent_op (option RuntimeEffectResult) :=
  match effects with
  | [] => m_ret last
  | (name, action) :: effects =>
      let! result := execute_stage r name action in
      execute_all r effects (Some result)
  end.

Definition is_superseded (c : EnsureConfiguration) (w : Agent X) : bool :=
  epoch_ltb (ec_current_epoch c) (at_supersession w).

(** One turn of the loop of [drive_configuration]; a result ends the loop. *)
Definition drive_stage (c : EnsureConfiguration) (a : AdmittedAuthority) (preserve : bool)
    : agent_op (option RetainedCommandResult) :=
  let! s := load_state in
  match ag_reconfiguration s with
  | None =>
      match opt_filter (fun x => ec_operation_id (rcc_command x) == ec_operation_id c)
              (ag_retained_command s) with
      | Some retained => m_ret (Some retained)
      | None => m_err (conflict "configuration ownership changed while the command was executing")
      end
  | Some record =>
      let! w := m_get in
      if is_superseded (rcr_command record) w then m_err (HostRuntime OperationCancelled)
      else match rcr_stage record with
      | CsComplete =>
          let! result := on_store (complete_configuration (ec_operation_id (rcr_command record))) in
          m_ret (Some result)
      | stage =>
          let! effects := m_lift (stage_effects (rcr_command record) a stage) in
          let! last := execute_all record effects None in
          let! next := m_lift (next_stage (rcr_command record) a preserve (ag_role s) stage) in
          let! observed := m_lift (observed_progress stage last) in
          on_store (advance_configuration (ec_operation_id (rcr_command record)) stage next observed) ;!
          m_ret None
      end
  end.

(** The loop; [None] when the fuel runs out first. *)
Fixpoint drive_loop (fuel : nat) (c : EnsureConfiguration) (a : AdmittedAuthority) (preserve : bool)
    : agent_op (option RetainedCommandResult) :=
  match fuel with
  | O => m_ret None
  | S fuel =>
      let! done := drive_stage c a preserve in
      match done with
      | Some result => m_ret (Some result)
      | None => drive_loop fuel c a preserve
      end
  end.

(** One turn for each stage. *)
Definition coordinator_stages : nat := 12.

(** A newer command cancels the work of the pending one before it waits for the lock. *)
Definition supersede_pending (c : EnsureConfiguration) (observed : AgentState) : agent_op unit :=
  match ag_reconfiguration observed with
  | Some pending =>
      if rcr_command pending == c then m_ret tt else
      m_lift (admit_configuration c observed) ;!
      (if epoch_leb (ec_current_epoch c) (ec_current_epoch (rcr_command pending))
       then m_err (conflict "a same-or-newer configuration command is pending") else m_ret tt) ;!
      m_modify (fun w => if epoch_ltb (at_supersession w) (ec_current_epoch c)
                         then w <| at_supersession := ec_current_epoch c |> else w) ;!
      on_runtime cancel_runtime_configuration
  | None => m_ret tt
  end.

(** The command after it has the lock. *)
Definition drive_locked (c : EnsureConfiguration) : agent_op (option RetainedCommandResult) :=
  let! w := m_get in
  if is_superseded c w then m_err (HostRuntime OperationCancelled) else
  let! durable := load_state in
  let persisted :=
    is_some_and (fun r => ec_operation_id (rcr_command r) == ec_operation_id c) (ag_reconfiguration durable)
    || is_some_and (fun r => ec_operation_id (rcc_command r) == ec_operation_id c)
         (ag_retained_command durable) in
  let! authority := m_lift (if persisted then admit_persisted_configuration c durable
                            else admit_configuration c durable) in
  let! preserve := m_lift (coordinator_preserves_access durable authority c) in
  let! begun := on_store (begin_configuration c) in
  match begun with
  | BcCompleted result => m_ret (Some result)
  | _ => drive_loop coordinator_stages c authority preserve
  end.

(** [Coordinator::ensure_configuration] *)
Definition drive_configuration (c : EnsureConfiguration) : agent_op (option RetainedCommandResult) :=
  let! observed := load_state in
  match ag_removal_commands observed !! ec_operation_id c with
  | Some retained =>
      if (rcc_command retained != c)
         || epoch_ltb (ec_current_epoch c) (ag_highest_epoch observed)
         || is_some (ag_retired_authority observed)
      then m_err (conflict "stale or mutated removal command replay")
      else m_ret (Some retained)
  | None => supersede_pending c observed ;! drive_locked c
  end.

(** [None] when no command is pending *)
Definition resume_configuration : agent_op (option (option RetainedCommandResult)) :=
  let! s := load_state in
  match ag_reconfiguration s with
  | Some record => let! result := drive_configuration (rcr_command record) in m_ret (Some result)
  | None => m_ret None
  end.

(** ** Removal, switchover and build commands *)

(** [pending_effect] first, then the recorded removal effect of the operation *)
Definition persisted_removal (operation : OperationId) (s : AgentState) : option RuntimeEffect :=
  or_else (pe_effect <$> ag_pending_effect s)
    ((fun r => rec_effect (rs_record r)) <$> ag_removal_effects s !! operation).

Definition ensure_secondary_removal_prepared (c : PrepareSecondaryRemoval)
    (session : ProcessSessionId) (sequence : Z) : agent_op SecondaryRemovalPreparation :=
  m_lift (reject (is_empty session || (sequence =? 0))
            (rejected "preparation requires exact session and sequence")) ;!
  let! s := load_state in
  m_lift (admit_preparation c s) ;!
  let! e := m_lift
    match persisted_removal (psr_operation_id c) s with
    | Some existing =>
        reject ((re_operation_id existing != psr_operation_id c)
                || negb match re_action existing with
                        | ActPrepareSecondaryRemoval intent _ _ => intent == psr_intent c
                        | _ => false
                        end)
          (conflict "preparation differs from persisted intent") ;?
        Ok existing
    | None =>
        Ok {| re_operation_id := psr_operation_id c; re_sequence := ag_next_effect_sequence s;
              re_action := ActPrepareSecondaryRemoval (psr_intent c) session sequence |}
    end in
  let! r := adapter_execute e in
  m_lift match rer_outcome r with
         | OutSecondaryRemovalPrepared completion =>
             ok_or (spc_prepared_secondary_removal completion)
               (conflict "preparation omitted terminal evidence")
         | _ => Err (conflict "preparation returned an incompatible outcome")
         end.

Definition accept_secondary_removal_commit (c : AcceptSecondaryRemovalCommit) : agent_op unit :=
  let! s := load_state in
  m_lift (admit_commit c s) ;!
  let action := if arc_local_recovery c then ActAcceptHistoricalSecondaryRemovalCommit c
                else ActAcceptSecondaryRemovalCommit (arc_committed c) in
  match ag_pending_effect s with
  | Some pending =>
      m_lift (reject (re_operation_id (pe_effect pending) != arc_operation_id c)
                (conflict "commit conflicts with pending work")) ;!
      adapter_execute {| re_operation_id := re_operation_id (pe_effect pending);
                         re_sequence := re_sequence (pe_effect pending); re_action := action |} ;!
      m_ret tt
  | None =>
      if ag_accepted_secondary_removal s == Some (arc_committed c) then m_ret tt
      else
        adapter_execute {| re_operation_id := arc_operation_id c;
                           re_sequence := ag_next_effect_sequence s; re_action := action |} ;!
        m_ret tt
  end.

(** The retirement that a command asks for, in the session that runs it. *)
Definition retirement_of (c : RetireReplica) (session : ProcessSessionId) (sequence : Z)
    : RetiredAuthority :=
  let intent := committed_intent (rr_committed c) in
  {| ra_committed := rr_committed c;
     ra_report :=
       {| rrr_intent := intent; rrr_operation_id := rr_operation_id c;
          rrr_process_session_id := session; rrr_report_sequence := sequence;
          rrr_epoch := cd_epoch (sdi_current_configuration intent); rrr_role := RoleNone;
          rrr_read_status := NotPrimary; rrr_write_status := NotPrimary;
          rrr_application_closed := true; rrr_peers_fenced := true |} |}.

Definition ensure_replica_retired (c : RetireReplica) (session : ProcessSessionId) (sequence : Z)
    : agent_op ReplicaRetirementReport :=
  m_lift (reject (is_empty session || (sequence =? 0))
            (rejected "retirement requires exact session and sequence")) ;!
  let! s := load_state in
  m_lift (admit_retirement c s) ;!
  let! e := m_lift
    match persisted_removal (rr_operation_id c) s with
    | Some existing =>
        reject ((re_operation_id existing != rr_operation_id c)
                || negb match re_action existing with
                        | ActRetireReplica r => ra_committed r == rr_committed c
                        | _ => false
                        end)
          (conflict "retirement differs from persisted intent") ;?
        Ok existing
    | None =>
        let retired := retirement_of c session sequence in
        reject_contract (ra_validate retired (ag_local s)) ;?
        Ok {| re_operation_id := rr_operation_id c; re_sequence := ag_next_effect_sequence s;
              re_action := ActRetireReplica retired |}
    end in
  let! r := adapter_execute e in
  m_lift match rer_outcome r with
         | OutReplicaRetired completion => Ok (ra_report (rtc_retired completion))
         | _ => Err (conflict "retirement returned an incompatible outcome")
         end.

(** The effect of a preparation: the pending one, the retained one or a new one. *)
Definition switchover_effect (c : PrepareSwitchover) (s : AgentState) : host RuntimeEffect :=
  let action := ActPrepareSwitchover (ps_preparation_generation c) (ps_request_id c) (ps_source c)
    (ps_target c) (cd_configuration_id (ps_current_configuration c))
    (cd_epoch (ps_current_configuration c)) in
  let fresh := {| re_operation_id := ps_operation_id c; re_sequence := ag_next_effect_sequence s;
                  re_action := action |} in
  match ag_pending_effect s with
  | Some pending =>
      reject ((re_operation_id (pe_effect pending) != ps_operation_id c)
              || (re_action (pe_effect pending) != action))
        (conflict "another durable effect is pending") ;?
      Ok (pe_effect pending)
  | None =>
      match opt_filter (fun x => rs_operation_id x == ps_operation_id c) (ag_retained_result s) with
      | Some retained =>
          reject (re_action (rec_effect (rs_record retained)) != action)
            (conflict "operation ID was reused with another switchover preparation") ;?
          Ok (rec_effect (rs_record retained))
      | None => Ok fresh
      end
  end.

Definition ensure_switchover_prepared (c : PrepareSwitchover) : agent_op SwitchoverHandoff :=
  let! s := load_state in
  m_lift (admit_switchover_preparation c s) ;!
  match ag_prepared_switchover s with
  | Some prepared => m_ret prepared
  | None =>
      let! e := m_lift (switchover_effect c s) in
      adapter_execute e ;!
      let! s := load_state in
      m_lift (ok_or (ag_prepared_switchover s)
                (conflict "switchover preparation completed without durable handoff evidence"))
  end.

(** A build that is given up: abandoned durably first, then cancelled and retired. *)
Definition abandon_and_retire_build (c : EnsureReplicaBuild) (s : AgentState) : agent_op unit :=
  let id := erb_operation_id c in
  if bool_decide (id ∈ ag_retired_builds s) then m_ret tt else
  on_store (abandon_build c) ;!
  on_runtime (cancel_runtime_build id) ;!
  settle_abandoned_build id ;!
  let! s := load_state in
  if bool_decide (id ∈ ag_retired_builds s) then m_ret tt else
  execute_standalone id "retire-abandoned-build" (ActRetireBuild id) ;!
  m_ret tt.

(** The target of a build becomes an idle secondary and admits the build. *)
Definition admit_build_target (c : EnsureReplicaBuild) (authority : BuildAuthority) (s : AgentState)
    : agent_op unit :=
  if is_some_and (fun current =>
       epoch_ltb (cd_epoch (ba_current_configuration authority)) (cd_epoch current)
       && has_member current (ag_local s)) (ag_current_configuration s)
  then m_ret tt
  else if is_some_and (fun retained =>
       match re_action (rec_effect (rs_record retained)) with
       | ActAdmitBuildAuthority existing => existing == authority
       | _ => false
       end) (ag_retained_result s)
  then m_ret tt
  else
    execute_standalone (erb_operation_id c) "build-idle-replicator"
      (ActChangeReplicatorRole IdleSecondary) ;!
    execute_standalone (erb_operation_id c) "build-idle-application"
      (ActChangeApplicationRole IdleSecondary) ;!
    execute_standalone (erb_operation_id c) "admit-build" (ActAdmitBuildAuthority authority) ;!
    m_ret tt.

Definition ensure_build (c : EnsureReplicaBuild) : agent_op unit :=
  let! s := load_state in
  m_lift (admit_build_command c s) ;!
  if erb_retire c then abandon_and_retire_build c s else
  let! s := load_state in
  m_lift (admit_build_command c s) ;!
  let! c := on_store (journal_build c) in
  match erb_authority c with
  | Some authority => admit_build_target c authority s
  | None =>
      execute_standalone (erb_operation_id c) "build-replica"
        (ActBuildReplica (erb_operation_id c) (erb_target c) "") ;!
      m_ret tt
  end.

End coordinator.
