(* ===== verification/CoordinatorRuns.v ===== *)
(** * Runs of the coordinator

    Every command of the coordinator is a run of the agent's store, so what holds of all its
    runs holds under the coordinator; a configuration command passes each stage at most once and
    ends; and it opens writes only after the stages that make it safe. *)

From S2P Require Import Prelude Digest Types Intents Commands Observations Validation Quorums.
From S2P Require Import ScaleDown ScaleUp SnapshotValidation ManagedConfiguration Quorum QuorumSafety.
From S2P Require Import Authority AuthorityStore Effects AgentState AgentAdmission AgentStore AgentRuns.
From S2P Require Import Coordinator.
From stdpp Require Import base gmap strings list relations pretty.
From Stdlib Require Import ZArith Lia.
Local Open Scope Z_scope.

Create HintDb coordinator.

(** ** How the commands change the database *)

Section frame.
Context `{Sha256} {X : Type} `{!RuntimeEffectExecutor X}.
Context (Q : AgentDatabase -> AgentDatabase -> Prop) `{!PreOrder Q}.

Definition on_database (w w' : Agent X) : Prop := Q (at_database w) (at_database w').

#[export] Instance on_database_preorder : PreOrder on_database.
Proof. split; unfold on_database; [intros w; reflexivity|intros w1 w2 w3 H1 H2; by etrans]. Qed.

Lemma on_store_evolves {A} (t : AgentDatabase -> transaction A) :
  (forall d d' a, t d = Ok (d', a) -> Q d d') -> evolves on_database (on_store t).
Proof.
  intros Ht w. unfold on_store, on_database.
  destruct (t (at_database w)) as [[d a]|e|] eqn:Ht'; simpl; [eauto|reflexivity..].
Qed.

Lemma on_error_evolves {A} (m : M (Agent X) HostError A) handler :
  evolves on_database m -> (forall e, evolves on_database (handler e)) ->
  evolves on_database (on_error m handler).
Proof.
  intros Hm Hh w. unfold on_error. specialize (Hm w).
  destruct (m w) as [w1 [a|e|]]; simpl in *; [done| |done].
  specialize (Hh e w1). destruct (handler e w1) as [w2 [u|e'|]]; simpl in *; by etrans.
Qed.

Lemma load_state_evolves : evolves on_database (@load_state X).
Proof. intros w. unfold load_state, on_database. simpl. reflexivity. Qed.

(** The transactions of the adapter and the runtime keep [Q]. *)
Record effects_keep : Prop := {
  ek_begin e d d' a : begin_effect e d = Ok (d', a) -> Q d d';
  ek_mark e r d d' a : mark_effect_applied e r d = Ok (d', a) -> Q d d';
  ek_complete r d d' a : complete_effect r d = Ok (d', a) -> Q d d';
  ek_cancel e d d' a : cancel_effect e d = Ok (d', a) -> Q d d';
  ek_prepare e : evolves on_database (on_runtime (prepare_effect e));
  ek_accept e : evolves on_database (on_runtime (accept_effect e));
  ek_reject e : evolves on_database (on_runtime (reject_effect e));
  ek_discard e : evolves on_database (on_runtime (discard_effect e));
  ek_consume e : evolves on_database (on_runtime (consume_cancelled_build_effect e));
  ek_discard_cancelled e : evolves on_database (on_runtime (discard_cancelled_build_effect e));
  ek_reissue b t a : evolves on_database (on_runtime (reissue_build b t a));
  ek_wait b t : evolves on_database (on_runtime (wait_for_build_completion b t));
  ek_observe e : evolves on_database (on_runtime (observe_build_completion e));
  ek_cancel_configuration : evolves on_database (on_runtime cancel_runtime_configuration);
  ek_cancel_build b : evolves on_database (on_runtime (cancel_runtime_build b));
}.

Context (Hkeep : effects_keep).
Hint Resolve on_store_evolves on_error_evolves load_state_evolves : coordinator.
Hint Resolve ek_begin ek_mark ek_complete ek_cancel ek_prepare ek_accept ek_reject ek_discard
  ek_consume ek_discard_cancelled ek_reissue ek_wait ek_observe ek_cancel_configuration
  ek_cancel_build : coordinator.

Ltac frame :=
  repeat match goal with
  | |- evolves _ (m_bind _ _) => apply (evolves_bind on_database); [|intros ?]
  | |- evolves _ (if _ then _ else _) => apply (evolves_if on_database); intros _
  | |- evolves _ (m_ret _) => apply (evolves_ret on_database)
  | |- evolves _ (m_err _) => apply (evolves_err on_database)
  | |- evolves _ (m_lift _) => apply (evolves_lift on_database)
  | |- evolves _ m_get => apply (evolves_get on_database)
  | |- evolves _ load_state => apply load_state_evolves
  | |- evolves _ (on_error _ _) => apply on_error_evolves; [|intros ?]
  | |- evolves _ (on_store _) => apply on_store_evolves; intros ???
  | |- evolves _ (match ?x with _ => _ end) => destruct x
  | _ => solve [eauto 3 with coordinator]
  end.

Lemma complete_or_discard_evolves e r : evolves on_database (complete_or_discard e r).
Proof. unfold complete_or_discard. frame. Qed.
Hint Resolve complete_or_discard_evolves : coordinator.

Lemma finish_applied_evolves e r : evolves on_database (finish_applied e r).
Proof. unfold finish_applied. frame. Qed.

Lemma await_build_evolves e r : evolves on_database (await_build_completion e r).
Proof.
  unfold await_build_completion. destruct (re_action e); try apply (evolves_err on_database).
  intros w. pose proof (ek_wait Hkeep build_id target w) as Hw.
  destruct (on_runtime (wait_for_build_completion build_id target) w) as [w1 [u|error|]]; simpl in *; [| |done].
  - etrans; [exact Hw|]. match goal with |- on_database _ (fst (?m _)) => cut (evolves on_database m); [auto|] end.
    frame.
  - destruct (is_cancelled error); [|done]. destruct (bool_decide _); [done|].
    etrans; [exact Hw|]. match goal with |- on_database _ (fst (?m _)) => cut (evolves on_database m); [auto|] end.
    frame.
Qed.
Hint Resolve finish_applied_evolves await_build_evolves : coordinator.

Lemma run_effect_evolves e : evolves on_database (run_effect e).
Proof. unfold run_effect, drop_cancelled. frame. Qed.
Hint Resolve run_effect_evolves : coordinator.

Lemma adapter_execute_evolves e : evolves on_database (adapter_execute e).
Proof. unfold adapter_execute. frame. Qed.
Hint Resolve adapter_execute_evolves : coordinator.

Lemma execute_named_evolves m c stage a : evolves on_database (execute_named m c stage a).
Proof. unfold execute_named. frame. Qed.

Lemma execute_all_evolves r effects last : evolves on_database (execute_all r effects last).
Proof.
  revert last. induction effects as [|[name action] effects IH]; intros last; simpl; [frame|].
  apply (evolves_bind on_database); [apply execute_named_evolves|auto].
Qed.

Lemma settle_abandoned_build_evolves b : evolves on_database (settle_abandoned_build b).
Proof. unfold settle_abandoned_build. frame. Qed.

(** The transactions of configuration and build commands keep [Q] as well. *)
Record commands_keep : Prop := {
  ck_begin c d d' a : begin_configuration c d = Ok (d', a) -> Q d d';
  ck_advance id expected next observed d d' a :
    advance_configuration id expected next observed d = Ok (d', a) -> Q d d';
  ck_complete id d d' a : complete_configuration id d = Ok (d', a) -> Q d d';
  ck_journal c d d' a : journal_build c d = Ok (d', a) -> Q d d';
  ck_abandon c d d' a : abandon_build c d = Ok (d', a) -> Q d d';
}.

Context (Hcommands : commands_keep).
Hint Resolve execute_named_evolves execute_all_evolves settle_abandoned_build_evolves : coordinator.
Hint Resolve ck_begin ck_advance ck_complete ck_journal ck_abandon : coordinator.

Lemma drive_stage_evolves c a preserve : evolves on_database (drive_stage c a preserve).
Proof. unfold drive_stage. frame. Qed.

Lemma drive_loop_evolves fuel c a preserve : evolves on_database (drive_loop fuel c a preserve).
Proof.
  induction fuel as [|fuel IH]; simpl; [frame|].
  apply (evolves_bind on_database); [apply drive_stage_evolves|intros [r|]; [frame|exact IH]].
Qed.
Hint Resolve drive_loop_evolves : coordinator.

Lemma drive_configuration_evolves c : evolves on_database (drive_configuration c).
Proof.
  unfold drive_configuration, supersede_pending, drive_locked. frame.
  apply (evolves_modify on_database). intros w. unfold on_database.
  by destruct (epoch_ltb _ _).
Qed.

Lemma ensure_build_evolves c : evolves on_database (ensure_build c).
Proof. unfold ensure_build, abandon_and_retire_build, admit_build_target, execute_standalone. frame. Qed.

Lemma ensure_removal_evolves c session sequence :
  evolves on_database (ensure_secondary_removal_prepared c session sequence).
Proof. unfold ensure_secondary_removal_prepared. frame. Qed.

Lemma accept_removal_evolves c : evolves on_database (accept_secondary_removal_commit c).
Proof. unfold accept_secondary_removal_commit. frame. Qed.

Lemma ensure_retired_evolves c session sequence :
  evolves on_database (ensure_replica_retired c session sequence).
Proof. unfold ensure_replica_retired. frame. Qed.

Lemma ensure_switchover_evolves c : evolves on_database (ensure_switchover_prepared c).
Proof. unfold ensure_switchover_prepared. frame. Qed.

Lemma resume_pending_evolves : evolves on_database resume_pending.
Proof. unfold resume_pending. frame. Qed.

End frame.

(** ** Every command is a run of the store *)

(** What the runtime may do to the tables. *)
Definition table_step `{Sha256} (t t' : AuthorityStore) : Prop := exists e, runtime_step t e t'.

Definition uses_tables `{Sha256} {X A} (m : runtime_op X A) : Prop :=
  forall x t, rtc table_step t (snd (fst (m (x, t)))).

(** The runtime reaches the database through the authority store alone. *)
Class ExecutorUsesTables `{Sha256} (X : Type) `{!RuntimeEffectExecutor X} : Prop := {
  eu_prepare e : uses_tables (prepare_effect e);
  eu_accept e : uses_tables (accept_effect e);
  eu_reject e : uses_tables (reject_effect e);
  eu_discard e : uses_tables (discard_effect e);
  eu_consume e : uses_tables (consume_cancelled_build_effect e);
  eu_discard_cancelled e : uses_tables (discard_cancelled_build_effect e);
  eu_cancel_configuration : uses_tables cancel_runtime_configuration;
  eu_cancel_build b : uses_tables (cancel_runtime_build b);
  eu_reissue b t a : uses_tables (reissue_build b t a);
  eu_wait b t : uses_tables (wait_for_build_completion b t);
  eu_observe e : uses_tables (observe_build_completion e);
}.

(** The commands of the coordinator, and a restart with a new runtime. *)
Inductive CoordinatorCommand (X : Type) :=
| RunConfiguration (c : EnsureConfiguration)
| RunBuild (c : EnsureReplicaBuild)
| RunRemovalPreparation (c : PrepareSecondaryRemoval) (session : ProcessSessionId) (sequence : Z)
| RunRemovalAcceptance (c : AcceptSecondaryRemovalCommit)
| RunRetirement (c : RetireReplica) (session : ProcessSessionId) (sequence : Z)
| RunSwitchoverPreparation (c : PrepareSwitchover)
| RunResume
| Restart (runtime : X).
Arguments RunConfiguration {X}.
Arguments RunBuild {X}.
Arguments RunRemovalPreparation {X}.
Arguments RunRemovalAcceptance {X}.
Arguments RunRetirement {X}.
Arguments RunSwitchoverPreparation {X}.
Arguments RunResume {X}.
Arguments Restart {X}.

Section agent_runs.
Context `{Sha256} {X : Type} `{!RuntimeEffectExecutor X, !ExecutorUsesTables X}.

Definition run_command (w : Agent X) (c : CoordinatorCommand X) : Agent X :=
  match c with
  | RunConfiguration c => fst (drive_configuration c w)
  | RunBuild c => fst (ensure_build c w)
  | RunRemovalPreparation c session sequence => fst (ensure_secondary_removal_prepared c session sequence w)
  | RunRemovalAcceptance c => fst (accept_secondary_removal_commit c w)
  | RunRetirement c session sequence => fst (ensure_replica_retired c session sequence w)
  | RunSwitchoverPreparation c => fst (ensure_switchover_prepared c w)
  | RunResume => fst (resume_pending w)
  | Restart runtime => {| at_runtime := runtime; at_database := at_database w;
                          at_supersession := mkEpoch 0 0 |}
  end.

Definition agent_run (d d' : AgentDatabase) : Prop := agent_ok d -> rtc agent_step d d'.

#[local] Instance agent_run_preorder : PreOrder agent_run.
Proof.
  split; [by intros d _|]. intros d1 d2 d3 H1 H2 Hok. etrans; [by apply H1|].
  apply H2. by eapply agent_run_ok; [apply H1|].
Qed.

Lemma write_tables_same d : agent_ok d -> write_tables (db_tables d) d = d.
Proof.
  intros Hok. destruct d as [s t]. unfold write_tables. simpl. f_equal.
  pose proof (ao_view _ Hok) as Hv. simpl in Hv. rewrite Hv. by destruct s.
Qed.

Lemma table_run t t' :
  rtc table_step t t' -> forall d, db_tables d = t -> agent_ok d -> rtc agent_step d (write_tables t' d).
Proof.
  induction 1 as [t|t1 t2 t3 Hstep _ IH]; intros d Hd Hok.
  { subst t. by rewrite write_tables_same. }
  assert (Hfirst : agent_step d (write_tables t2 d)).
  { subst t1. destruct Hstep as [e Hstep]. by eapply StepTables. }
  eapply rtc_l; [exact Hfirst|].
  change (write_tables t3 d) with (write_tables t3 (write_tables t2 d)).
  apply IH; [done|by eapply agent_step_ok].
Qed.

Lemma runtime_runs {A} (m : runtime_op X A) :
  uses_tables m -> evolves (on_database agent_run) (on_runtime m).
Proof.
  intros Hm w Hok. unfold on_runtime. specialize (Hm (at_runtime w) (db_tables (at_database w))).
  destruct (m _) as [[x t] r]. simpl in *. by eapply table_run.
Qed.

Lemma effects_run : effects_keep (X := X) agent_run.
Proof.
  split; try (intros; apply runtime_runs).
  1-4: intros; intros _; apply rtc_once.
  2-4: destruct a.
  - by eapply StepBeginEffect.
  - by eapply StepMarkApplied.
  - by eapply StepCompleteEffect.
  - by eapply StepCancelEffect.
  - apply eu_prepare. - apply eu_accept. - apply eu_reject. - apply eu_discard. - apply eu_consume.
  - apply eu_discard_cancelled. - apply eu_reissue. - apply eu_wait. - apply eu_observe.
  - apply eu_cancel_configuration. - apply eu_cancel_build.
Qed.

Lemma commands_run : commands_keep agent_run.
Proof.
  split; intros; intros _; apply rtc_once.
  - by eapply StepBeginConfiguration.
  - by eapply StepAdvance.
  - by eapply StepCompleteConfiguration.
  - by eapply StepJournalBuild.
  - destruct a. by eapply StepAbandonBuild.
Qed.

Lemma command_runs w c : agent_ok (at_database w) ->
  rtc agent_step (at_database w) (at_database (run_command w c)).
Proof.
  change (on_database agent_run w (run_command w c)).
  pose proof effects_run as He. pose proof commands_run as Hc. destruct c; simpl.
  - by apply (drive_configuration_evolves agent_run He Hc).
  - by apply (ensure_build_evolves agent_run He Hc).
  - by apply (ensure_removal_evolves agent_run He).
  - by apply (accept_removal_evolves agent_run He).
  - by apply (ensure_retired_evolves agent_run He).
  - by apply (ensure_switchover_evolves agent_run He).
  - by apply (resume_pending_evolves agent_run He).
  - unfold on_database. simpl. reflexivity.
Qed.

Lemma commands_are_runs cs w : agent_ok (at_database w) ->
  rtc agent_step (at_database w) (at_database (foldl run_command w cs)).
Proof.
  revert w. induction cs as [|c cs IH]; intros w Hok; simpl; [done|].
  pose proof (command_runs w c Hok) as Hc. etrans; [exact Hc|]. apply IH. by eapply agent_run_ok.
Qed.

End agent_runs.

(** ** The stages of a configuration command *)

Section stages.
Context `{Sha256} {X : Type} `{!RuntimeEffectExecutor X}.

(** The effects of a stage leave the command alone. *)
Definition same_command (d d' : AgentDatabase) : Prop :=
  ag_reconfiguration (db_state d') = ag_reconfiguration (db_state d).

#[local] Instance same_command_preorder : PreOrder same_command.
Proof. unfold same_command. split; [done|]. intros d1 d2 d3 -> ->. done. Qed.

Lemma runtime_same_command {A} (m : runtime_op X A) : evolves (on_database same_command) (on_runtime m).
Proof. intros w. unfold on_runtime. by destruct (m _) as [[x t] r]. Qed.

Lemma effects_same_command : effects_keep (X := X) same_command.
Proof.
  split; intros; try apply runtime_same_command; rename select (_ = Ok _) into Hok.
  - by apply begin_effect_inv in Hok as [_ [->|[-> _]]].
  - unfold mark_effect_applied, conflict_text in Hok. by guards.
  - unfold complete_effect, conflict_text in Hok. case_match; guards; [|done].
    rename select (settle_effect _ _ _ = _) into Hs.
    apply settle_effect_inv in Hs as (s & Hs & Hd & _). unfold same_command. rewrite Hd. simpl.
    apply apply_outcome_keeps in Hs as (Hbk & _ & _). unfold bookkeeping in Hbk. simpl in Hbk.
    by injection Hbk.
  - unfold cancel_effect in Hok. by guards.
Qed.

Lemma execute_all_same_command r effects last w w' x :
  execute_all r effects last w = (w', x) -> same_command (at_database w) (at_database w').
Proof.
  intros Hx. pose proof (execute_all_evolves same_command effects_same_command r effects last w) as Hs.
  by rewrite Hx in Hs.
Qed.

Lemma advance_next id expected next observed (w w' : Agent X) x r :
  on_store (advance_configuration id expected next observed) w = (w', Ok x) ->
  ag_reconfiguration (db_state (at_database w)) = Some r ->
  exists r', ag_reconfiguration (db_state (at_database w')) = Some r' /\
    rcr_command r' = rcr_command r /\ rcr_stage r' = next /\
    same_effects (db_state (at_database w)) (db_state (at_database w')).
Proof.
  unfold on_store, advance_configuration. intros Ha Hr. rewrite Hr in Ha. simpl in Ha.
  destruct (reject _ _) as [[]|e|]; simpl in Ha; simplify_eq. simpl. eexists. split_and!; [done..|].
  by destruct (expected == CsDeactivate); split.
Qed.

(** A turn of the loop that does not end it moves the command to the next stage, after the
    effects of its stage. *)
Lemma drive_stage_next c a preserve w w' :
  drive_stage c a preserve w = (w', Ok None) ->
  exists r r' effects w1 last, ag_reconfiguration (db_state (at_database w)) = Some r /\
    ag_reconfiguration (db_state (at_database w')) = Some r' /\ rcr_command r' = rcr_command r /\
    rcr_stage r <> CsComplete /\
    next_stage (rcr_command r) a preserve (ag_role (db_state (at_database w))) (rcr_stage r) =
      Ok (rcr_stage r') /\
    stage_effects (rcr_command r) a (rcr_stage r) = Ok effects /\
    execute_all r effects None w = (w1, Ok last) /\
    same_effects (db_state (at_database w1)) (db_state (at_database w')).
Proof.
  unfold drive_stage, load_state. unfold m_bind at 1. intros Hd.
  destruct (ag_reconfiguration _) as [r|] eqn:Hr; [|by destruct (opt_filter _ _)].
  unfold m_bind at 1, m_get in Hd. destruct (is_superseded _ _); [done|].
  destruct (rcr_stage r) eqn:Hst; m_inv; try done.
  all: rename select (execute_all _ _ _ _ = _) into Hx; rename select (on_store _ _ = _) into Ha;
    pose proof (execute_all_same_command _ _ _ _ _ _ Hx) as Hs; unfold same_command in Hs;
    rewrite Hr in Hs; destruct (advance_next _ _ _ _ _ _ _ _ Ha Hs) as (r' & Hr' & Hc & <- & Hsame);
    do 5 eexists; rewrite Hst; eauto 12.
Qed.

(** Distance to the end; the order of the stages depends on the command and on the role. *)
Definition becomes_primary (a : AdmittedAuthority) : bool :=
  match aa_local_role (E := HostError) a with Ok role => role == Primary | _ => false end.

Definition stage_rank (failover primary : bool) (stage : CoordinatorStage) : nat :=
  match stage with
  | CsAdmitAuthority => 12 | CsFailoverPrefix => 11 | CsDemote => 10
  | CsActivate => 3 | CsRetireBuild => 2 | CsComplete => 1
  | CsReplicatorRole => if failover then 9 else if primary then 7 else 6
  | CsEpoch => if failover then 8 else if primary then 6 else 5
  | CsApplicationRole => if failover then 7 else if primary then 5 else 4
  | CsGetLsn => if failover then 6 else 9
  | CsCatchup => if failover then 5 else if primary then 4 else 8
  | CsDeactivate => if failover then 4 else if primary then 8 else 7
  end.

Lemma stage_rank_bound failover primary stage : (1 <= stage_rank failover primary stage <= 12)%nat.
Proof. destruct failover, primary, stage; simpl; lia. Qed.

Lemma next_stage_rank c a preserve local stage stage' :
  next_stage c a preserve local stage = Ok stage' -> stage <> CsComplete ->
  (stage_rank (is_failover c) (becomes_primary a) stage' <
   stage_rank (is_failover c) (becomes_primary a) stage)%nat.
Proof.
  unfold next_stage, becomes_primary.
  destruct stage, (is_failover c), (aa_local_role a) as [role|e|]; simpl; intros Hn Hc;
    repeat (case_match; simpl in *); simplify_eq; simpl; try lia.
  all: destruct (role == Primary); simpl in *; repeat (case_match; simpl in *); simplify_eq; simpl; lia.
Qed.

Lemma drive_loop_ends fuel c a preserve w w' r :
  ag_reconfiguration (db_state (at_database w)) = Some r ->
  (stage_rank (is_failover (rcr_command r)) (becomes_primary a) (rcr_stage r) <= fuel)%nat ->
  drive_loop fuel c a preserve w <> (w', Ok None).
Proof.
  revert w r. induction fuel as [|fuel IH]; intros w r Hr Hle.
  { pose proof (stage_rank_bound (is_failover (rcr_command r)) (becomes_primary a) (rcr_stage r)). lia. }
  simpl. intros (w1 & [res|] & Hd & Hrest)%m_bind_ok_inv; [done|].
  apply drive_stage_next in Hd as (r0 & r1 & _ & _ & _ & Hr0 & Hr1 & Hc & Hst & Hn & _).
  rewrite Hr in Hr0. injection Hr0 as <-. eapply (IH w1 r1); [done| |exact Hrest].
  rewrite Hc. apply next_stage_rank in Hn; [lia|done].
Qed.

(** [C10] A configuration command always ends: twelve turns of the loop are enough for every command,
    from whatever stage it is resumed, so it returns its result or an error. *)
Theorem configuration_command_ends c w w' : drive_configuration c w <> (w', Ok None).
Proof.
  unfold drive_configuration, load_state. unfold m_bind at 1. destruct (_ !! _) as [x|].
  { by destruct (_ || _). }
  intros (w1 & [] & _ & Hd)%m_bind_ok_inv. unfold drive_locked in Hd.
  unfold m_bind at 1, m_get in Hd. destruct (is_superseded _ _); [done|].
  apply m_bind_ok_inv in Hd as (w2 & durable & _ & Hd).
  apply m_bind_ok_inv in Hd as (w3 & authority & _ & Hd).
  apply m_bind_ok_inv in Hd as (w4 & preserve & _ & Hd).
  apply m_bind_ok_inv in Hd as (w5 & begun & _ & Hd).
  assert (Hloop : drive_loop coordinator_stages c authority preserve w5 = (w', Ok None))
    by by destruct begun.
  destruct (ag_reconfiguration (db_state (at_database w5))) as [r|] eqn:Hr.
  { by eapply (drive_loop_ends coordinator_stages); [|apply stage_rank_bound|]. }
  simpl in Hloop. apply m_bind_ok_inv in Hloop as (w6 & [res|] & Hs & Hrest); [done|].
  apply drive_stage_next in Hs as (r0 & _ & _ & _ & _ & Hr0 & _). congruence.
Qed.

(** ** A stage waits for its effects *)

(** The store has the effect on record with its result. *)
Definition recorded (e : RuntimeEffect) (r : RuntimeEffectResult) (s : AgentState) : Prop :=
  exists x, (ag_retained_result s = Some x \/ ag_removal_effects s !! re_operation_id e = Some x) /\
    rs_record x = {| rec_effect := e; rec_result := r |}.

Lemma on_error_ok {A} (m : M (Agent X) HostError A) handler w w' a :
  on_error m handler w = (w', Ok a) -> m w = (w', Ok a).
Proof. unfold on_error. destruct (m w) as [w1 [b|e|]]; [done|by repeat case_match|done]. Qed.

Lemma on_store_ok {A} (t : AgentDatabase -> transaction A) (w w' : Agent X) a :
  on_store t w = (w', Ok a) -> t (at_database w) = Ok (at_database w', a).
Proof. unfold on_store. intros Ht. repeat case_match; by simplify_eq. Qed.

(** The runtime leaves the records of effects alone. *)
Lemma on_runtime_records {A} (m : runtime_op X A) w w' r :
  on_runtime m w = (w', r) ->
  let s := db_state (at_database w) in let s' := db_state (at_database w') in
  ag_pending_effect s' = ag_pending_effect s /\ ag_retained_result s' = ag_retained_result s /\
  ag_removal_effects s' = ag_removal_effects s.
Proof. unfold on_runtime. destruct (m _) as [[x t] r0]. by intros [= <- <-]. Qed.

Lemma runtime_keeps_recorded {A} (m : runtime_op X A) w w' x e r :
  on_runtime m w = (w', x) -> recorded e r (db_state (at_database w)) ->
  recorded e r (db_state (at_database w')).
Proof. intros (_ & Hr & Hm)%on_runtime_records. unfold recorded. by rewrite Hr, Hm. Qed.

Lemma complete_records r d d' p :
  complete_effect r d = Ok (d', tt) -> ag_pending_effect (db_state d) = Some p ->
  recorded (pe_effect p) r (db_state d').
Proof.
  unfold complete_effect, conflict_text. intros Hc Hp. rewrite Hp in Hc. guards.
  rename select (settle_effect _ _ _ = _) into Hs. apply settle_effect_inv in Hs as (s & _ & -> & _).
  simpl. by eexists; split; [left|].
Qed.

Lemma mark_pending e r d d' a :
  mark_effect_applied e r d = Ok (d', a) ->
  exists p, ag_pending_effect (db_state d') = Some p /\ pe_effect p = e.
Proof. unfold mark_effect_applied, conflict_text. intros Hm. guards. simpl. eauto. Qed.

(** What [begin_effect] found. *)
Lemma begin_effect_answer e d d' a :
  begin_effect e d = Ok (d', a) ->
  match a with
  | BeExecute e' | BePending e' => e' = e
  | BeApplied e' r => e' = e /\ exists p, ag_pending_effect (db_state d') = Some p /\ pe_effect p = e
  | BeCompleted r => recorded e r (db_state d')
  end.
Proof.
  unfold begin_effect. intros Hb. apply bind_ok in Hb as ([] & _ & Hb). guards.
  destruct (ag_removal_effects (db_state d) !! re_operation_id e) as [x|] eqn:Hrem.
  { guards. subst. exists x. split; [by right|by destruct (rs_record x)]. }
  destruct (opt_filter _ _) as [x|] eqn:Hf.
  { guards. subst. exists x. split; [left|by destruct (rs_record x)].
    unfold opt_filter in Hf. by repeat case_match; simplify_eq. }
  guards. destruct (ag_pending_effect (db_state d)) as [p|] eqn:Hp; [|by guards].
  unfold resume_effect in *. destruct (pe_effect p == e) eqn:He.
  { apply bool_decide_eq_true in He. repeat case_match; guards; simplify_eq; eauto. }
  destruct (re_action (pe_effect p)); try discriminate. destruct (re_action e); try discriminate.
  by guards.
Qed.

Lemma finish_applied_records e r w w' x p :
  finish_applied e r w = (w', Ok x) -> ag_pending_effect (db_state (at_database w)) = Some p ->
  pe_effect p = e -> recorded e x (db_state (at_database w')).
Proof.
  unfold finish_applied. intros Hf Hp He.
  apply m_bind_ok_inv in Hf as (w1 & [] & Hv & Hf). apply m_lift_ok_inv in Hv as [-> _].
  destruct (restores_live_state (re_action e)).
  - apply m_bind_ok_inv in Hf as (w2 & seen & Hprep & Hf). apply on_runtime_records in Hprep as (Hp2 & _ & _).
    apply m_bind_ok_inv in Hf as (w3 & [] & Hv & Hf). apply m_lift_ok_inv in Hv as [-> _].
    apply m_bind_ok_inv in Hf as (w4 & [] & Hsame & Hf).
    destruct (seen == r) eqn:Heq; [|by m_inv]. apply bool_decide_eq_true in Heq as ->.
    unfold m_ret in Hsame. injection Hsame as <-.
    apply m_bind_ok_inv in Hf as (w5 & [] & Hc%on_error_ok%on_store_ok & Hf).
    apply m_bind_ok_inv in Hf as (w6 & [] & Hacc & Hf). unfold m_ret in Hf. injection Hf as <- <-.
    eapply runtime_keeps_recorded; [exact Hacc|]. subst e. eapply complete_records; [done|congruence].
  - unfold complete_or_discard in Hf. apply m_bind_ok_inv in Hf as (w2 & [] & Hc%on_error_ok%on_store_ok & Hf).
    unfold m_ret in Hf. injection Hf as <- <-. subst e. by eapply complete_records.
Qed.

Lemma run_effect_records e w w' x :
  run_effect e w = (w', Ok x) -> (forall b t a, re_action e <> ActBuildReplica b t a) ->
  recorded e x (db_state (at_database w')).
Proof.
  unfold run_effect. intros Hf Hb.
  apply m_bind_ok_inv in Hf as (w1 & r & _ & Hf). apply m_bind_ok_inv in Hf as (w2 & [] & _ & Hf).
  assert (Hpb : pending_build_completion e r = false)
    by (unfold pending_build_completion; destruct (re_action e); try done; by destruct (Hb _ _ _ eq_refl)).
  rewrite Hpb in Hf. apply m_bind_ok_inv in Hf as (w3 & [] & Hm%on_error_ok%on_store_ok & Hf).
  apply mark_pending in Hm as (p & Hp & <-).
  apply m_bind_ok_inv in Hf as (w4 & [] & Hc%on_error_ok%on_store_ok & Hf).
  apply m_bind_ok_inv in Hf as (w5 & [] & Hacc & Hf). unfold m_ret in Hf. injection Hf as <- <-.
  eapply runtime_keeps_recorded; [exact Hacc|]. by eapply complete_records.
Qed.

(** An effect that the adapter reports as done is on record with that result. *)
Lemma adapter_execute_records e w w' x :
  adapter_execute e w = (w', Ok x) -> (forall b t a, re_action e <> ActBuildReplica b t a) ->
  recorded e x (db_state (at_database w')).
Proof.
  unfold adapter_execute. intros Hf Hb.
  apply m_bind_ok_inv in Hf as (w1 & begun & Hbegin%on_store_ok%begin_effect_answer & Hf).
  destruct begun as [e'|e'|e' r|r].
  - subst e'. by eapply run_effect_records.
  - subst e'. by eapply run_effect_records.
  - destruct Hbegin as (-> & p & Hp & He). by eapply finish_applied_records.
  - apply m_bind_ok_inv in Hf as (w2 & [] & Hv & Hf). apply m_lift_ok_inv in Hv as [-> _].
    apply m_bind_ok_inv in Hf as (w3 & [] & Hr & Hf). unfold m_ret in Hf. injection Hf as <- <-.
    destruct (re_action e); unfold m_ret in Hr; try (by injection Hr as <-). by destruct (Hb _ _ _ eq_refl).
Qed.

Lemma execute_named_records message command stage action w w' x :
  agent_ok (at_database w) -> (forall b t a, action <> ActBuildReplica b t a) ->
  execute_named message command stage action w = (w', Ok x) ->
  exists e, re_operation_id e = stage_operation_id command stage /\ re_action e = action /\
    recorded e x (db_state (at_database w')).
Proof.
  unfold execute_named, load_state. unfold m_bind at 1. intros Hok Hb Hx.
  destruct (opt_filter _ _) as [retained|] eqn:Hf.
  - destruct (_ == action) eqn:Ha; [|done]. apply bool_decide_eq_true in Ha. subst action.
    eexists. split_and!; [|done|by eapply adapter_execute_records].
    unfold opt_filter in Hf. repeat case_match; simplify_eq.
    rename select (ag_retained_result _ = Some _) into Hr. apply (ao_retained _ Hok) in Hr as [_ <- _].
    by rewrite <-(bool_decide_eq_true (_ = _)).
  - eexists. split_and!; [| |by eapply adapter_execute_records]; done.
Qed.

Lemma stage_effects_no_build c a stage effects name action b t address :
  stage_effects c a stage = Ok effects -> (name, action) ∈ effects -> action <> ActBuildReplica b t address.
Proof.
  intros Hs Hin ->. destruct stage; simpl in Hs; guards; try (set_solver);
    apply list_elem_of_lookup in Hin as [i Hi].
  all: try (destruct i as [|[|i]]; simpl in Hi; by simplify_eq).
  rewrite list_lookup_imap in Hi. by destruct (_ !! i); simplify_eq.
Qed.

(** [C12] The coordinator leaves a stage only when the effect of the stage is on record, with a
    result, under the identity that the command gives it. *)
Theorem stage_waits_for_its_effect c a preserve w w' r name action :
  agent_reachable (at_database w) ->
  ag_reconfiguration (db_state (at_database w)) = Some r ->
  stage_effects (rcr_command r) a (rcr_stage r) = Ok [(name, action)] ->
  drive_stage c a preserve w = (w', Ok None) ->
  exists e x, re_operation_id e = stage_operation_id (ec_operation_id (rcr_command r)) name /\
    re_action e = action /\ recorded e x (db_state (at_database w')).
Proof.
  intros [Hok _]%reachable_fresh Hr He Hd.
  apply drive_stage_next in Hd as (r0 & r1 & effects & w1 & last & Hr0 & _ & _ & _ & _ & He0 & Hx & Hsame).
  rewrite Hr in Hr0. injection Hr0 as <-. rewrite He in He0. injection He0 as <-.
  simpl in Hx. apply m_bind_ok_inv in Hx as (w2 & x & Hx & Hrest). unfold m_ret in Hrest.
  injection Hrest as <- _.
  apply execute_named_records in Hx as (e & Hid & Ha & Hrec);
    [|done|intros; eapply stage_effects_no_build; [exact He|by apply list_elem_of_singleton]].
  exists e, x. split_and!; [done..|]. unfold recorded.
  by rewrite (sm_retained _ _ Hsame), (sm_removals _ _ Hsame).
Qed.

(** ** What comes before access is opened *)

(** Turns of the loop, with the effects they ran.  [ws] is the agent as the coordinator loaded
    it, from which it has decided whether the primary keeps its access.  Between two turns
    anything may happen that leaves the command in place: another command's effects, progress of
    the engine, or the end of the coordinator, after which the command is resumed and the agent
    loaded again. *)
Inductive drive_turns (c : EnsureConfiguration) (a : AdmittedAuthority)
    : Agent X -> Agent X -> list RuntimeEffectAction -> Agent X -> Prop :=
| turns_none ws w : drive_turns c a ws w [] w
| turns_other ws w w1 l w2 :
    same_command (at_database w) (at_database w1) ->
    drive_turns c a ws w1 l w2 -> drive_turns c a ws w l w2
| turns_resume ws w l w2 : drive_turns c a w w l w2 -> drive_turns c a ws w l w2
| turns_next ws w r preserve effects w1 l w2 :
    coordinator_preserves_access (db_state (at_database ws)) a c = Ok preserve ->
    ag_reconfiguration (db_state (at_database w)) = Some r ->
    stage_effects (rcr_command r) a (rcr_stage r) = Ok effects ->
    drive_stage c a preserve w = (w1, Ok None) ->
    drive_turns c a ws w1 l w2 ->
    drive_turns c a ws w (effects.*2 ++ l) w2.

(** The stages that no command skips before [Activate]. *)
Definition required_stages (prefix primary granted : bool) : list CoordinatorStage :=
  [CsAdmitAuthority; CsDemote; CsGetLsn; CsDeactivate; CsReplicatorRole; CsApplicationRole]
  ++ (if prefix then [CsFailoverPrefix] else [])
  ++ (if primary then [CsEpoch] else [])
  ++ (if primary && granted then [CsCatchup] else []).

Definition required (c : EnsureConfiguration) (a : AdmittedAuthority) : list CoordinatorStage :=
  required_stages (is_failover c && is_some (ec_failover_safe_lsn c)) (becomes_primary a)
    (ec_primary_write_status c == Granted).

Definition rank (c : EnsureConfiguration) (a : AdmittedAuthority) : CoordinatorStage -> nat :=
  stage_rank (is_failover c) (becomes_primary a).

(** The next stage skips no required one. *)
Lemma next_stage_required c a local stage stage' t :
  next_stage c a false local stage = Ok stage' -> stage <> CsComplete -> t ∈ required c a ->
  (rank c a t <= rank c a stage)%nat -> t = stage \/ (rank c a t <= rank c a stage')%nat.
Proof.
  unfold next_stage, required, rank, becomes_primary.
  destruct (aa_local_role a) as [role|e|]; cbn [res_bind]; [destruct (role == Primary)|..];
  destruct (is_failover c), (is_some (ec_failover_safe_lsn c)), (ec_primary_write_status c == Granted), stage;
    cbn; intros Hn Hc Ht Hle; try discriminate Hn; try (by destruct Hc);
    repeat (case_match; try discriminate Hn); injection Hn as <-; cbn;
    repeat (apply elem_of_cons in Ht as [->|Ht];
            [first [by left|right; cbn; lia|exfalso; cbn in Hle; lia]|]);
    by apply elem_of_nil in Ht.
Qed.

Lemma required_before_activate c a t : t ∈ required c a -> (rank c a CsActivate < rank c a t)%nat.
Proof.
  unfold required, rank. destruct (is_failover c), (is_some (ec_failover_safe_lsn c)),
    (becomes_primary a), (ec_primary_write_status c == Granted); cbn; intros Ht;
    repeat (apply elem_of_cons in Ht as [->|Ht]; [cbn; lia|]); by apply elem_of_nil in Ht.
Qed.

(** The coordinator has loaded, somewhere on the way, an agent that keeps its access. *)
Definition access_preserved (c : EnsureConfiguration) (a : AdmittedAuthority) (ws w : Agent X)
    (l : list RuntimeEffectAction) : Prop :=
  exists l1 l2 w0, l = l1 ++ l2 /\ drive_turns c a ws w l1 w0 /\
    coordinator_preserves_access (db_state (at_database w0)) a c = Ok true.

Lemma turns_required c a ws w l w' r r' :
  drive_turns c a ws w l w' ->
  ag_reconfiguration (db_state (at_database w)) = Some r ->
  ag_reconfiguration (db_state (at_database w')) = Some r' -> rcr_stage r' = CsActivate ->
  (forall t effects, t ∈ required (rcr_command r) a ->
     (rank (rcr_command r) a t <= rank (rcr_command r) a (rcr_stage r))%nat ->
     stage_effects (rcr_command r) a t = Ok effects -> effects.*2 ⊆ l) \/
  coordinator_preserves_access (db_state (at_database ws)) a c = Ok true \/
  access_preserved c a ws w l.
Proof.
  intros Hturns. revert r. induction Hturns as [ws w|ws w w1 l w2 Hsame Hl IH|ws w l w2 Hl IH
    |ws w r0 preserve effs w1 l w2 Hp Hr0 He0 Hd Hl IH]; intros r Hr Hr' Hst.
  - left. intros t effects Ht Hle _. rewrite Hr in Hr'. injection Hr' as <-. rewrite Hst in Hle.
    pose proof (required_before_activate _ _ _ Ht). lia.
  - destruct (IH r) as [?|[?|(l1 & l2 & w0 & -> & Hl1 & Hw0)]]; [by rewrite Hsame|done..|by left|by right; left|].
    do 2 right. exists l1, l2, w0. split_and!; [done| |done]. by eapply turns_other.
  - destruct (IH r) as [?|[?|(l1 & l2 & w0 & -> & Hl1 & Hw0)]]; [done..|by left| |]; do 2 right.
    + exists [], l, w. split_and!; [done|constructor|done].
    + exists l1, l2, w0. split_and!; [done| |done]. by apply turns_resume.
  - destruct preserve; [by right; left|]. rewrite Hr in Hr0. injection Hr0 as <-.
    pose proof Hd as (r1 & r2 & _ & _ & _ & Hr1 & Hr2 & Hc & Hdone & Hn & _)%drive_stage_next.
    rewrite Hr in Hr1. injection Hr1 as <-.
    destruct (IH r2 Hr2 Hr' Hst) as [Hall|[?|(l1 & l2 & w0 & -> & Hl1 & Hw0)]]; [|by right; left|].
    + left. intros t effects Ht Hle He.
      destruct (next_stage_required _ _ _ _ _ _ Hn Hdone Ht Hle) as [->|Hle'].
      { rewrite He in He0. injection He0 as <-. set_solver. }
      rewrite <-Hc in *. specialize (Hall t effects Ht Hle' He). set_solver.
    + do 2 right. exists (effs.*2 ++ l1), l2, w0. rewrite app_assoc. split_and!; [done| |done].
      by eapply turns_next; [..|exact Hl1].
Qed.

(** The first turn runs the effects of its stage. *)
Lemma turns_first c a ws w l w' r r' effects :
  drive_turns c a ws w l w' ->
  ag_reconfiguration (db_state (at_database w)) = Some r ->
  ag_reconfiguration (db_state (at_database w')) = Some r' -> rcr_stage r' <> rcr_stage r ->
  stage_effects (rcr_command r) a (rcr_stage r) = Ok effects -> effects.*2 ⊆ l.
Proof.
  intros Hturns. induction Hturns as [ws w|ws w w1 l w2 Hsame Hl IH|ws w l w2 Hl IH
    |ws w r0 preserve effs w1 l w2 Hp Hr0 He0 Hd Hl IH]; intros Hr Hr' Hst He.
  - rewrite Hr in Hr'. by injection Hr' as <-.
  - apply IH; [by rewrite Hsame|done..].
  - by apply IH.
  - rewrite Hr in Hr0. injection Hr0 as <-. rewrite He in He0. injection He0 as <-. set_solver.
Qed.

(** Who keeps access: the primary that had it, for a command that grows its set and grants it
    writes. *)
Lemma preserves_access_inv s a c :
  coordinator_preserves_access s a c = Ok true ->
  (exists x, aa_scale_up a = Some (Admission x)) /\ ag_role s = Primary /\
  ag_read_status s = Granted /\ ag_write_status s = Granted /\
  aa_local_role (E := HostError) a = Ok Primary /\
  aa_primary_identity (E := HostError) a = Ok (ag_local s) /\ ec_primary_write_status c = Granted.
Proof.
  unfold coordinator_preserves_access. intros Hp.
  destruct (_ && _) eqn:Hs in Hp; [|done]. apply bind_ok in Hp as (role & Hrole & Hp).
  destruct (role == Primary) eqn:Hr; [|done]. apply bind_ok in Hp as (primary & Hprimary & [= Hp]).
  guards. subst. destruct (aa_scale_up a) as [[x|x]|]; try done. split_and!; by eauto.
Qed.

(** The effects of the required stages. *)
Lemma required_effects c a l role :
  aa_local_role (E := HostError) a = Ok role ->
  (forall t effects, t ∈ required c a -> stage_effects c a t = Ok effects -> effects.*2 ⊆ l) ->
  [ActSetReadStatus ReconfigurationPending; ActRefreshApplicationProgress;
   ActSetWriteStatus ReconfigurationPending; ActChangeReplicatorRole role;
   ActChangeApplicationRole role] ⊆ l /\
  (role = Primary -> ActUpdateEpoch ∈ l) /\
  (role = Primary -> ec_primary_write_status c = Granted -> ActWaitForCatchup ∈ l) /\
  (forall lsn, ec_transition_kind c = Failover ->
     ec_failover_safe_lsn c = Some lsn -> ActAuthorizeFailoverPrefix lsn ∈ l).
Proof.
  intros Hrole Hall.
  assert (Hone : forall t name action, t ∈ required c a ->
            stage_effects c a t = Ok [(name, action)] -> action ∈ l).
  { intros t name action Ht He. apply (Hall t _ Ht He). simpl. set_solver. }
  assert (Hprimary : role = Primary -> becomes_primary a = true)
    by (intros ->; unfold becomes_primary; by rewrite Hrole).
  split_and!.
  - intros x Hx. repeat (apply elem_of_cons in Hx as [->|Hx]); [..|by apply elem_of_nil in Hx].
    + by eapply (Hone CsDemote); [unfold required, required_stages; set_solver|].
    + by eapply (Hone CsGetLsn); [unfold required, required_stages; set_solver|].
    + by eapply (Hone CsDeactivate); [unfold required, required_stages; set_solver|].
    + eapply (Hone CsReplicatorRole); [unfold required, required_stages; set_solver|].
      simpl. by rewrite Hrole.
    + eapply (Hone CsApplicationRole); [unfold required, required_stages; set_solver|].
      simpl. by rewrite Hrole.
  - intros Hp%Hprimary. eapply (Hone CsEpoch); [|done]. unfold required, required_stages.
    rewrite Hp. set_solver.
  - intros Hp%Hprimary Hg. eapply (Hone CsCatchup); [|done]. unfold required, required_stages.
    rewrite Hp, Hg. simpl. set_solver.
  - intros lsn Hk Hs. eapply (Hone CsFailoverPrefix); [|simpl; by rewrite Hs].
    unfold required, required_stages, is_failover. rewrite Hk, Hs. simpl. set_solver.
Qed.

(** [C8] Before a configuration command that starts with its admission opens access, its agent has
    admitted the configuration.  Then either it has closed reads and writes, read its progress
    and taken its role, in the replicator and in the application; a primary has also raised its
    epoch, one that is granted writes has waited until its replicas caught up, and a failover has
    its recovered prefix authorized.  Or the agent, as the coordinator loaded it on the way, was
    the primary with reads and writes granted, remains the primary, and the command grows its set
    and grants it writes: such a primary keeps its access.  The end of the coordinator, its
    resumption and other work in between change nothing of this. *)
Theorem access_opens_last c a w l w' r r' role :
  ag_reconfiguration (db_state (at_database w)) = Some r -> rcr_stage r = CsAdmitAuthority ->
  drive_turns c a w w l w' ->
  ag_reconfiguration (db_state (at_database w')) = Some r' -> rcr_stage r' = CsActivate ->
  aa_local_role (E := HostError) a = Ok role ->
  ActAdmitAuthority a ∈ l /\
  (([ActSetReadStatus ReconfigurationPending; ActRefreshApplicationProgress;
     ActSetWriteStatus ReconfigurationPending; ActChangeReplicatorRole role;
     ActChangeApplicationRole role] ⊆ l /\
    (role = Primary -> ActUpdateEpoch ∈ l) /\
    (role = Primary -> ec_primary_write_status (rcr_command r) = Granted -> ActWaitForCatchup ∈ l) /\
    (forall lsn, ec_transition_kind (rcr_command r) = Failover ->
       ec_failover_safe_lsn (rcr_command r) = Some lsn -> ActAuthorizeFailoverPrefix lsn ∈ l)) \/
   exists l1 l2 w0, l = l1 ++ l2 /\ drive_turns c a w w l1 w0 /\
     let s := db_state (at_database w0) in
     ag_role s = Primary /\ ag_read_status s = Granted /\ ag_write_status s = Granted /\
     role = Primary /\ aa_primary_identity (E := HostError) a = Ok (ag_local s) /\
     (exists x, aa_scale_up a = Some (Admission x)) /\ ec_primary_write_status c = Granted).
Proof.
  intros Hr Hadmit Hturns Hr' Hst Hrole. split.
  { eapply (turns_first c a w w l w' r r'); [done..|by rewrite Hst, Hadmit|by rewrite Hadmit|]. simpl. set_solver. }
  destruct (turns_required c a w w l w' r r' Hturns Hr Hr' Hst) as [Hall|Hkept]; [left|right].
  - apply (required_effects _ a); [done|]. intros t effects Ht. apply Hall; [done|]. rewrite Hadmit.
    unfold rank. pose proof (stage_rank_bound (is_failover (rcr_command r)) (becomes_primary a) t).
    simpl. lia.
  - assert (access_preserved c a w w l) as (l1 & l2 & w0 & -> & Hl1 & Hw0).
    { destruct Hkept as [Hp|?]; [|done]. exists [], l, w. split_and!; [done|constructor|done]. }
    exists l1, l2, w0. apply preserves_access_inv in Hw0 as (? & ? & ? & ? & Hrole' & ? & ?).
    rewrite Hrole in Hrole'. injection Hrole' as ->. by split_and!.
Qed.

End stages.
