(* ===== verification/AgentExamples.v ===== *)
(** * An agent at work

    A runtime that settles every effect at once, and the runs of an agent on it that witness
    the theorems on the agent: a replica is bootstrapped, becomes a granted primary of the next
    configuration, and another one is retired. *)

From S2P Require Import Prelude Digest Types Intents Commands Observations Validation Quorums.
From S2P Require Import ScaleDown ScaleUp SnapshotValidation ManagedConfiguration Quorum QuorumSafety.
From S2P Require Import Authority AuthorityStore Effects AgentState AgentAdmission AgentStore AgentRuns.
From S2P Require Import Coordinator CoordinatorRuns EvaluatorBase.
From stdpp Require Import base gmap strings list relations.
From Stdlib Require Import ZArith Lia.
Local Open Scope Z_scope.

#[local] Existing Instance padding_sha256.

(** ** A runtime that settles every effect at once *)

Module Settled.

Definition transition (role : ReplicaRole) : RoleTransition :=
  {| rt_completed_role := role; rt_target_role := role; rt_replicator_completed := true;
     rt_epoch_completed := true; rt_application_completed := true |}.

Definition access_changed (kind : AccessCompletionKind) (read write : AccessStatus)
    : RuntimeEffectOutcome :=
  OutAccessChanged {| acc_kind := kind; acc_read_status := read; acc_write_status := write;
                      acc_authority := None; acc_role := RoleNone |}.

Definition closed (retired : RetiredAuthority) : RetirementCompletion :=
  {| rtc_retired := retired; rtc_open := false; rtc_role := RoleNone; rtc_read_status := NotPrimary;
     rtc_write_status := NotPrimary; rtc_authority := None; rtc_role_transition_clear := true;
     rtc_active_builds := false; rtc_receipt := None |}.

(** The outcome of an action; the rest of the actions is refused. *)
Definition outcome (a : RuntimeEffectAction) (t : AuthorityStore) : option RuntimeEffectOutcome :=
  match a with
  | ActAdmitAuthority authority =>
      Some (OutAuthorityAdmitted {| auc_authority := authority; auc_read_status := NotPrimary;
              auc_write_status := NotPrimary; auc_accepted_secondary_removal := None |})
  | ActRetireReplica retired => Some (OutReplicaRetired (closed retired))
  | ActChangeReplicatorRole role =>
      Some (OutReplicatorRoleChanged {| rlc_role := role; rlc_role_transition := Some (transition role) |})
  | ActUpdateEpoch =>
      (fun authority => OutEpochUpdated {| epc_epoch := cd_epoch (aa_current_configuration authority);
                                           epc_role_transition := Some (transition Primary) |})
        <$> as_authority t
  | ActChangeApplicationRole role =>
      Some (OutApplicationRoleChanged {| rlc_role := role; rlc_role_transition := None |} None)
  | ActWaitForCatchup =>
      Some (OutCatchUpCompleted {| cuc_authority := as_authority t; cuc_boundary_lsn := 0 |})
  | ActSetAccessStatus read write => Some (access_changed AccessCombined read write)
  | ActSetReadStatus status => Some (access_changed AccessRead status NotPrimary)
  | ActSetWriteStatus status => Some (access_changed AccessWrite NotPrimary status)
  | ActRefreshApplicationProgress => Some (OutApplicationProgressRefreshed 7)
  | _ => None
  end.

(** An admitted authority goes into the tables. *)
Definition admitted_tables (a : RuntimeEffectAction) (t : AuthorityStore) : AuthorityStore :=
  match a with
  | ActAdmitAuthority authority =>
      match admit_authority authority t with Ok t' => t' | _ => t end
  | _ => t
  end.

Definition prepare (e : RuntimeEffect) : runtime_op unit RuntimeEffectResult := fun '(x, t) =>
  let t := admitted_tables (re_action e) t in
  ((x, t),
   match outcome (re_action e) t with
   | Some o => Ok {| rer_operation_id := re_operation_id e; rer_sequence := re_sequence e;
                     rer_outcome := o |}
   | None => Err (HostRuntime OperationCancelled)
   end).

#[export] Instance executor : RuntimeEffectExecutor unit := {|
  prepare_effect := prepare;
  accept_effect _ := m_ret tt;
  reject_effect _ := m_ret tt;
  discard_effect _ := m_ret tt;
  consume_cancelled_build_effect _ := m_err (HostRuntime OperationCancelled);
  discard_cancelled_build_effect _ := m_ret tt;
  cancel_runtime_configuration := m_ret tt;
  cancel_runtime_build _ := m_ret tt;
  reissue_build _ _ _ := m_ret tt;
  wait_for_build_completion _ _ := m_err (HostRuntime OperationCancelled);
  observe_build_completion _ := m_err (HostRuntime OperationCancelled);
|}.

#[export] Instance executor_uses_tables : ExecutorUsesTables unit.
Proof.
  split; intros; intros x tables; try (simpl; reflexivity).
  simpl. destruct (re_action e); simpl; try reflexivity.
  destruct (admit_authority _ tables) as [t'|err|] eqn:Ha; try reflexivity.
  apply rtc_once. eexists. by eapply StoreAdmit.
Qed.

End Settled.

#[local] Existing Instance Settled.executor.
#[local] Existing Instance Settled.executor_uses_tables.

(** ** The agents *)

Module Agents.

Definition storage_identity (local : ReplicaIdentity) : StorageIdentity :=
  {| si_schema_version := 1; si_resource_uid := "set"; si_pod_uid := "pod"; si_pvc_uid := "pvc";
     si_initialization_id := "init"; si_local_identity := local;
     si_effective_policy := Sample.policy 3 |}.

Definition start (local : ReplicaIdentity) : Agent unit :=
  {| at_runtime := tt; at_database := new_database (storage_identity local); at_supersession := mkEpoch 0 0 |}.

(** The commands that the controller's evaluator writes for a member. *)
Definition bootstrap (m : ConfigurationMember) : EnsureConfiguration :=
  ensure_configuration_command Sample.previous m (Sample.policy 3) "bootstrap" ReconfigurationPending
    false.
Definition replacement : EnsureConfiguration :=
  replacement_configuration_command Sample.previous Sample.current (Sample.member 1 "a" Primary)
    (Sample.policy 3) "replacement" true false None.

Definition primary := start Removal.primary.
Definition booted :=
  run_command primary (RunConfiguration (bootstrap (Sample.member 1 "a" Primary))).
Definition replaced := run_command booted (RunConfiguration replacement).

(** The secondary that leaves the set. *)
Definition retire : RetireReplica :=
  {| rr_operation_id := rrr_operation_id (ra_report Authorities.retired); rr_local_replica_id := 3;
     rr_expected_instance_id := "c"; rr_expected_agent_generation := "g1";
     rr_committed := Removal.certificate |}.
Definition target := start Removal.target.
Definition retirement : list (CoordinatorCommand unit) :=
  [RunConfiguration (bootstrap (Sample.member 3 "c" ActiveSecondary)); RunRetirement retire "s3" 1].
Definition retired := foldl run_command target retirement.

(** The same retirement, one transaction at a time. *)
Definition effect : RuntimeEffect :=
  {| re_operation_id := rr_operation_id retire; re_sequence := 1;
     re_action := ActRetireReplica (retirement_of retire "s3" 1) |}.
Definition result : RuntimeEffectResult :=
  {| rer_operation_id := rr_operation_id retire; rer_sequence := 1;
     rer_outcome := OutReplicaRetired (Settled.closed (retirement_of retire "s3" 1)) |}.

Definition after {A} (t : AgentDatabase -> transaction A) (d : AgentDatabase) : AgentDatabase :=
  match t d with Ok (d', _) => d' | _ => d end.

Definition begun := after (begin_effect effect) (at_database target).
Definition applied := after (mark_effect_applied effect result) begun.
Definition settled := after (complete_effect result) applied.

Lemma after_ok {A} (t : AgentDatabase -> transaction A) d :
  is_ok (t d) = true -> exists a, t d = Ok (after t d, a).
Proof. unfold after. destruct (t d) as [[d' a]|e|]; [eauto|discriminate..]. Qed.

Lemma start_reachable local : agent_reachable (at_database (start local)).
Proof. by exists (storage_identity local). Qed.

Lemma runs_reachable cs local : agent_reachable (at_database (foldl run_command (start local) cs)).
Proof. exists (storage_identity local). apply (commands_are_runs cs (start local)), new_database_ok. Qed.

Lemma applied_reachable : agent_reachable applied.
Proof.
  exists (storage_identity Removal.target). eapply rtc_l; [|apply rtc_once].
  - destruct (after_ok (begin_effect effect) (at_database target)) as [a Ha]; [by vm_compute|].
    eapply StepBeginEffect. exact Ha.
  - destruct (after_ok (mark_effect_applied effect result) begun) as [[] Ha]; [by vm_compute|].
    eapply StepMarkApplied. exact Ha.
Qed.

End Agents.

(** ** Witnesses *)

Lemma agent_store_consistent_witness : agent_ok Agents.applied.
Proof. apply (agent_store_consistent Agents.applied Agents.applied_reachable). Defined.

Lemma agent_never_forgets_witness :
  agent_remembers (db_state Agents.applied) (db_state Agents.settled).
Proof.
  apply (agent_never_forgets Agents.applied Agents.settled Agents.applied_reachable). apply rtc_once.
  destruct (Agents.after_ok (complete_effect Agents.result) Agents.applied) as [[] Hc]; [by vm_compute|].
  eapply StepCompleteEffect. exact Hc.
Defined.


Lemma removal_effects_run_once_witness :
  begin_effect Agents.effect Agents.settled = Ok (Agents.settled, BeCompleted Agents.result).
Proof.
  destruct (Agents.after_ok (complete_effect Agents.result) Agents.applied) as [[] Hc]; [by vm_compute|].
  destruct (removal_effects_run_once Agents.applied
              {| pe_effect := Agents.effect; pe_stage := EffectApplied;
                 pe_applied_result := Some Agents.result |}
              Agents.result Agents.settled Agents.settled) as [_ Hrun].
  - exact Agents.applied_reachable.
  - vm_compute. reflexivity.
  - reflexivity.
  - exact Hc.
  - apply rtc_refl.
  - etransitivity; [exact (Hrun eq_refl)|vm_compute; reflexivity].
Defined.

Lemma retired_incarnation_never_serves_witness : ag_role (db_state (at_database Agents.retired)) = RoleNone.
Proof.
  apply (retired_incarnation_never_serves (at_database Agents.retired) (at_database Agents.retired)).
  - exact (Agents.runs_reachable Agents.retirement Removal.target).
  - vm_compute. reflexivity.
  - apply rtc_refl.
Defined.

(** ** The stages of the replacement, turn by turn *)

Module Turns.

Definition record (w : Agent unit) : option ReconfigurationRecord :=
  ag_reconfiguration (db_state (at_database w)).

Definition authority : AdmittedAuthority :=
  command_authority Agents.replacement (db_state (at_database Agents.booted)).

(** The command after its admission. *)
Definition admitted : Agent unit :=
  Agents.booted <| at_database := Agents.after (begin_configuration Agents.replacement)
                                    (at_database Agents.booted) |>.

Definition turn (w : Agent unit) : Agent unit :=
  fst (drive_stage Agents.replacement authority false w).

(** The effects of the turns until the command is at [Activate]. *)
Fixpoint trace (fuel : nat) (w : Agent unit) : list RuntimeEffectAction :=
  match fuel, record w with
  | S fuel, Some r =>
      match stage_effects (rcr_command r) authority (rcr_stage r) with
      | Ok effects => effects.*2 ++ trace fuel (turn w)
      | _ => []
      end
  | _, _ => []
  end.

(** Every turn runs the effects of its stage and goes on. *)
Fixpoint all_turn (fuel : nat) (w : Agent unit) : bool :=
  match fuel with
  | O => true
  | S fuel =>
      match record w with
      | Some r => is_ok (stage_effects (rcr_command r) authority (rcr_stage r))
      | None => false
      end
      && match snd (drive_stage Agents.replacement authority false w) with Ok None => true | _ => false end
      && all_turn fuel (turn w)
  end.

Lemma turns fuel w :
  all_turn fuel w = true ->
  drive_turns Agents.replacement authority admitted w (trace fuel w) (Nat.iter fuel turn w).
Proof.
  revert w. induction fuel as [|fuel IH]; intros w Hall; [constructor|].
  rewrite Nat.iter_succ_r. simpl in *. unfold turn, record in *.
  destruct (ag_reconfiguration _) as [r|] eqn:Hr; [|done].
  destruct (stage_effects _ _ _) as [effects|e|] eqn:He; simpl in Hall; try done.
  destruct (drive_stage _ _ _ w) as [w1 [[x|]|e|]] eqn:Hd; simpl in *; try done.
  eapply turns_next; [|exact Hr|exact He|exact Hd|by apply IH]. vm_compute. reflexivity.
Qed.

End Turns.

Lemma stage_waits_for_its_effect_witness :
  exists e x, re_operation_id e = "replacement:admit-authority" /\
    re_action e = ActAdmitAuthority Turns.authority /\
    recorded e x (db_state (at_database (Turns.turn Turns.admitted))).
Proof.
  apply (stage_waits_for_its_effect Agents.replacement Turns.authority false Turns.admitted
           (Turns.turn Turns.admitted)
           {| rcr_command := Agents.replacement; rcr_stage := CsAdmitAuthority; rcr_observed_lsn := None |}).
  - destruct (Agents.runs_reachable
                [RunConfiguration (Agents.bootstrap (Sample.member 1 "a" Primary))] Removal.primary)
      as [identity Hrun].
    exists identity. eapply rtc_r; [exact Hrun|].
    destruct (Agents.after_ok (begin_configuration Agents.replacement) (at_database Agents.booted))
      as [a Ha]; [by vm_compute|].
    eapply StepBeginConfiguration. exact Ha.
  - vm_compute. reflexivity.
  - reflexivity.
  - vm_compute. reflexivity.
Defined.

(** The replacement grants writes to its primary after eight turns, and has waited for catch-up. *)
Lemma access_opens_last_witness : ActWaitForCatchup ∈ Turns.trace 8 Turns.admitted.
Proof.
  destruct (access_opens_last Agents.replacement Turns.authority Turns.admitted
           (Turns.trace 8 Turns.admitted) (Nat.iter 8 Turns.turn Turns.admitted)
           {| rcr_command := Agents.replacement; rcr_stage := CsAdmitAuthority; rcr_observed_lsn := None |}
           {| rcr_command := Agents.replacement; rcr_stage := CsActivate; rcr_observed_lsn := Some 7 |}
           Primary)
    as [_ [(_ & _ & Hcaught & _)|(l1 & l2 & w0 & _ & _ & _ & _ & _ & _ & _ & [x Hx] & _)]].
  - vm_compute. reflexivity.
  - reflexivity.
  - apply Turns.turns. vm_compute. reflexivity.
  - vm_compute. reflexivity.
  - reflexivity.
  - vm_compute. reflexivity.
  - apply Hcaught; reflexivity.
  - vm_compute in Hx. discriminate Hx.
Defined.

Lemma admission_is_sound_witness :
  soundly_admitted Agents.replacement (db_state (at_database Agents.booted)) Turns.authority.
Proof.
  apply (admission_is_sound Agents.replacement (db_state (at_database Agents.booted)) false Turns.authority).
  vm_compute. reflexivity.
Defined.
